(** * Orderbook viewer: ingestion core and order-impact estimator

    A shallow embedding of the computational core of the orderbook viewer
    (hooks/use-mock-data.ts, hooks/use-orderbook-data.ts,
    hooks/use-order-simulation.ts, types/trading.ts) and the properties
    its specification states about it.

    JavaScript numbers are IEEE-754 binary64 values.  The embedding is
    written over an interface [JsNum] of the arithmetic the source uses;
    its instance [float64] is the kernel's binary64 arithmetic, which is
    what the engine computes.  Properties that depend on the arithmetic
    are stated and proved at [float64]; the others hold for every
    implementation of the interface. *)

From Stdlib Require Import ZArith Floats Ascii Lia.
From Stdlib Require Import FloatAxioms SpecFloat FloatOps Zpower.
From stdpp Require Import base option list strings functions gmap pretty.

(** ** JavaScript numbers *)

Class JsNum (number : Type) := {
  (** the decimal literal [m]e-[k] *)
  dec : Z -> nat -> number;
  nan : number;
  add : number -> number -> number;
  sub : number -> number -> number;
  mul : number -> number -> number;
  (** [x > y] and [x < y]; false when an operand is NaN *)
  gtb : number -> number -> bool;
  ltb : number -> number -> bool;
  (** [Math.max] of two arguments *)
  max2 : number -> number -> number;
  (** ToBoolean: false for 0, -0 and NaN *)
  truthy : number -> bool
}.

Declare Scope js_scope.
Delimit Scope js_scope with js.
Infix "+" := add : js_scope.
Infix "-" := sub : js_scope.
Infix "*" := mul : js_scope.
Infix ">?" := gtb (at level 70, no associativity) : js_scope.
Infix "<?" := ltb (at level 70, no associativity) : js_scope.

(** An integer literal. *)
Definition int `{JsNum number} (m : Z) : number := dec m 0.

(** *** binary64 *)

Module F64.

Definition of_Z (m : Z) : float := PrimFloat.of_uint63 (Uint63.of_Z m).

(** The double nearest to [m / 10^k]: both operands are exact doubles
    for [0 <= m < 2^53] and [k <= 22], and IEEE division rounds
    correctly, so this is the value of the source literal. *)
Definition dec (m : Z) (k : nat) : float :=
  PrimFloat.div (of_Z m) (of_Z (10 ^ Z.of_nat k)).

(** [Math.max]: NaN if an argument is NaN; of the two zeros, +0. *)
Definition max2 (a b : float) : float :=
  if PrimFloat.is_nan a || PrimFloat.is_nan b then PrimFloat.nan
  else if PrimFloat.ltb a b then b
  else if PrimFloat.ltb b a then a
  else if PrimFloat.is_zero a then PrimFloat.add a b
  else a.

Definition truthy (a : float) : bool :=
  negb (PrimFloat.is_zero a) && negb (PrimFloat.is_nan a).

End F64.

#[export] Instance float64 : JsNum float := {|
  dec := F64.dec;
  nan := PrimFloat.nan;
  add := PrimFloat.add;
  sub := PrimFloat.sub;
  mul := PrimFloat.mul;
  gtb := fun x y => PrimFloat.ltb y x;
  ltb := PrimFloat.ltb;
  max2 := F64.max2;
  truthy := F64.truthy
|}.

(** ** JavaScript strings

    Strings are sequences of code units; the symbols, timings and keys
    of this program are ASCII. *)

Module JsString.

Fixpoint starts_with (p s : string) : bool :=
  match p, s with
  | EmptyString, _ => true
  | String a p', String b s' => if Ascii.eqb a b then starts_with p' s' else false
  | String _ _, EmptyString => false
  end.

Fixpoint drop (n : nat) (s : string) : string :=
  match n, s with
  | O, _ => s
  | S n', String _ s' => drop n' s'
  | S _, EmptyString => EmptyString
  end.

(** [s.replace(p, r)] for a string pattern [p] and a replacement [r]
    without [$]: only the first occurrence of [p] is replaced. *)
Fixpoint replace (p r s : string) : string :=
  if starts_with p s then r ++ drop (String.length p) s
  else match s with
       | EmptyString => EmptyString
       | String c s' => String c (replace p r s')
       end.

(** [s.includes(p)] *)
Fixpoint includes (p s : string) : bool :=
  if starts_with p s then true
  else match s with
       | EmptyString => false
       | String _ s' => includes p s'
       end.

(** [s.split(sep)[0]] for a one-character separator: the part of [s]
    before the first [sep], all of [s] when there is none. *)
Fixpoint split_head (sep : ascii) (s : string) : string :=
  match s with
  | EmptyString => EmptyString
  | String c s' => if Ascii.eqb c sep then EmptyString else String c (split_head sep s')
  end.

(** The iteration of a string by [[a, b] = s]: one-character strings. *)
Fixpoint chars (s : string) : list string :=
  match s with
  | EmptyString => []
  | String c s' => String c EmptyString :: chars s'
  end.

End JsString.

(** Property names every object literal inherits from [Object.prototype]:
    a lookup [{...}[k]] with such a [k] finds a function (or, for
    [__proto__], an object) and not [undefined]. *)
Definition object_prototype_keys : list string :=
  [ "constructor"; "__defineGetter__"; "__defineSetter__"; "hasOwnProperty";
    "__lookupGetter__"; "__lookupSetter__"; "isPrototypeOf";
    "propertyIsEnumerable"; "toString"; "valueOf"; "__proto__";
    "toLocaleString" ]%string.

Definition inherited (k : string) : bool :=
  bool_decide (k ∈ object_prototype_keys).

(** [table[k] || dflt], read as a number in arithmetic: an own entry
    (all entries of the source's tables are non-zero); for an inherited
    key the truthy non-number found there, which arithmetic turns into
    NaN; the default otherwise. *)
Fixpoint lookup_or `{JsNum number} (table : list (string * number)) (dflt : number) (k : string) : number :=
  match table with
  | [] => if inherited k then nan else dflt
  | (k', x) :: rest => if String.eqb k k' then x else lookup_or rest dflt k
  end.

(** ** types/trading.ts *)

Inductive Venue := OKX | Bybit | Deribit.
Inductive Symbol := BTC_USD | ETH_USD | BTC_USDT | ETH_USDT.
Inductive OrderType := market | limit.
Inductive OrderSide := buy | sell.
Inductive ConnectionStatus := connected | connecting | disconnected | error.

#[export] Instance Venue_eq_dec : EqDecision Venue.
Proof. solve_decision. Defined.
#[export] Instance Symbol_eq_dec : EqDecision Symbol.
Proof. solve_decision. Defined.
#[export] Instance ConnectionStatus_eq_dec : EqDecision ConnectionStatus.
Proof. solve_decision. Defined.

Definition venue_str (v : Venue) : string :=
  match v with OKX => "OKX" | Bybit => "Bybit" | Deribit => "Deribit" end.

Definition symbol_str (s : Symbol) : string :=
  match s with
  | BTC_USD => "BTC-USD" | ETH_USD => "ETH-USD"
  | BTC_USDT => "BTC-USDT" | ETH_USDT => "ETH-USDT"
  end.

(** ** hooks/use-order-simulation.ts *)

Module OrderSimulation.

Record SimulatedOrder (number : Type) := {
  id : string;
  venue : Venue;
  symbol : Symbol;
  type : OrderType;
  side : OrderSide;
  price : number;
  quantity : number;
  timing : string;
  timestamp : Z
}.

Record OrderMetrics (number : Type) := {
  fillPercentage : number;
  marketImpact : number;
  slippage : number;
  estimatedFillTime : string;
  warnings : list string
}.

Arguments id {number}. Arguments venue {number}. Arguments symbol {number}.
Arguments type {number}. Arguments side {number}. Arguments price {number}.
Arguments quantity {number}. Arguments timing {number}. Arguments timestamp {number}.
Arguments fillPercentage {number}. Arguments marketImpact {number}.
Arguments slippage {number}. Arguments estimatedFillTime {number}.
Arguments warnings {number}.

Section Metrics.
Context `{JsNum number}.
Local Open Scope js_scope.

Definition timingMultiplier (timing : string) : number :=
  lookup_or [ ("immediate", dec 12 1); ("5s", dec 10 1);
              ("10s", dec 9 1); ("30s", dec 8 1) ]%string
            (dec 10 1) timing.

(** [warnings.push] in source order. *)
Definition push_if (c : bool) (w : string) (ws : list string) : list string :=
  if c then ws ++ [w] else ws.

Definition calculateOrderMetrics (order : SimulatedOrder number) : OrderMetrics number :=
  let baseImpact := quantity order * dec 1 2 in
  let marketImpact := baseImpact * timingMultiplier (timing order) in
  let fillPercentage := max2 (int 20) (int 100 - marketImpact * int 10) in
  let slippage := marketImpact * price order * dec 1 1 in
  let estimatedFillTime :=
    if String.eqb (timing order) "immediate" then "<1s"%string
    else (JsString.replace "s" "" (timing order) ++ "s")%string in
  let warnings := [] in
  let warnings :=
    push_if (marketImpact >? dec 15 1) "High market impact detected" warnings in
  let warnings :=
    push_if (slippage >? price order * dec 5 3) "Significant slippage expected" warnings in
  let warnings :=
    push_if (fillPercentage <? int 70) "Low fill probability" warnings in
  let warnings :=
    push_if (negb (String.eqb (timing order) "immediate") && (marketImpact >? dec 10 1))
            "Consider immediate execution to reduce impact" warnings in
  {| fillPercentage := fillPercentage;
     marketImpact := marketImpact;
     slippage := slippage;
     estimatedFillTime := estimatedFillTime;
     warnings := warnings |}.

End Metrics.

End OrderSimulation.

(** ** hooks/use-mock-data.ts *)

(** An orderbook snapshot with levels of type [L]: pairs of numbers where
    the code builds the tuples itself, raw values where it passes on what
    a venue sent. *)
Record Orderbook (L : Type) := {
  bids : list L;
  asks : list L;
  timestamp : Z
}.
Arguments bids {L}. Arguments asks {L}. Arguments timestamp {L}.

(** [Array.prototype.sort(comparefn)]: the sort is stable, an element
    moves behind another only when [comparefn] is positive on them (a NaN
    result counts as 0).  For a consistent comparator every stable sort
    returns this list. *)
Section Sort.
Context `{JsNum number} {A : Type} (comparefn : A -> A -> number).

Definition sorts_after (x y : A) : bool := (comparefn x y >? int 0)%js.

(** The comparator does not put [a] behind [b]. *)
Definition in_order (a b : A) : bool := negb (sorts_after a b).

Fixpoint insert_sorted (x : A) (l : list A) : list A :=
  match l with
  | [] => [x]
  | y :: l' => if sorts_after x y then y :: insert_sorted x l' else x :: l
  end.

Fixpoint sort (l : list A) : list A :=
  match l with
  | [] => []
  | x :: l' => insert_sorted x (sort l')
  end.
End Sort.

(** The values of [Math.random()], in call order, and the number of calls
    made so far. *)
Definition Random (number : Type) := nat -> number.

Section MockData.
Context `{JsNum number}.
Local Open Scope js_scope.

Definition venueMultiplier (venue : string) : number :=
  lookup_or [ ("OKX", dec 10 1); ("Bybit", dec 1001 3);
              ("Deribit", dec 999 3); ("Mock", dec 10 1) ]%string
            (dec 10 1) venue.

(** One of the two [for (let i = 0; i < 25; i++)] loops: [n] iterations
    left, loop variable [i], [place] puts the offset below ([sub]) or
    above ([add]) the adjusted base price; two draws per iteration. *)
Fixpoint levels (place : number -> number -> number) (random : Random number)
    (adjustedBasePrice : number) (n i calls : nat) : list (number * number) * nat :=
  match n with
  | O => ([], calls)
  | S n' =>
      let priceOffset := int (Z.of_nat i + 1) * (random calls * int 5 + int 2) in
      let price := place adjustedBasePrice priceOffset in
      let size := random (S calls) * int 3 + dec 1 1 in
      let '(rest, calls') := levels place random adjustedBasePrice n' (S i) (S (S calls)) in
      ((price, size) :: rest, calls')
  end.

Definition generateMockOrderbook (basePrice : number) (venue : string)
    (random : Random number) (now : Z) (calls : nat)
    : Orderbook (number * number) * nat :=
  let adjustedBasePrice := basePrice * venueMultiplier venue in
  let '(bids, calls) := levels sub random adjustedBasePrice 25 0 calls in
  let '(asks, calls) := levels add random adjustedBasePrice 25 0 calls in
  ({| bids := sort (fun a b => b.1 - a.1) bids;
      asks := sort (fun a b => a.1 - b.1) asks;
      timestamp := now |}, calls).

Definition basePrices (symbol : string) : number :=
  lookup_or [ ("BTC-USD", int 43000); ("ETH-USD", int 2500);
              ("BTC-USDT", int 43000); ("ETH-USDT", int 2500);
              ("BTCUSDT", int 43000); ("ETHUSDT", int 2500);
              ("BTC-PERPETUAL", int 43000); ("ETH-PERPETUAL", int 2500) ]%string
            (int 50000) symbol.

Definition getMockOrderbookForVenue (venue symbol : string)
    (random : Random number) (now : Z) (calls : nat)
    : Orderbook (number * number) * nat :=
  let basePrice := basePrices symbol in
  let priceVariation := (random calls - dec 5 1) * int 100 in
  let adjustedPrice := basePrice + priceVariation in
  generateMockOrderbook adjustedPrice venue random now (S calls).

(** What the specification asks of a side of a book. *)
Fixpoint adjacent {A : Type} (R : A -> A -> bool) (l : list A) : bool :=
  match l with
  | a :: (b :: _) as l' => R a b && adjacent R l'
  | _ => true
  end.

Definition strictly_descending (l : list (number * number)) : bool :=
  adjacent (fun a b => a.1 >? b.1) l.
Definition strictly_ascending (l : list (number * number)) : bool :=
  adjacent (fun a b => a.1 <? b.1) l.
(** No level is priced above (below) the level before it. *)
Definition descending (l : list (number * number)) : bool :=
  adjacent (fun a b => negb (b.1 >? a.1)) l.
Definition ascending (l : list (number * number)) : bool :=
  adjacent (fun a b => negb (b.1 <? a.1)) l.
Definition positive_level (lv : number * number) : bool :=
  (lv.1 >? int 0) && (lv.2 >? int 0).

End MockData.

(** ** Values received from a venue

    What [JSON.parse] returns, and [undefined], which reading a missing
    property yields.  An object is a finite map: [JSON.parse] keeps the
    last of several equal keys. *)
#[warnings="-register-all"]
Inductive value (number : Type) : Type :=
  | VUndefined
  | VNull
  | VBool (b : bool)
  | VNum (x : number)
  | VStr (s : string)
  | VArr (l : list (value number))
  | VObj (m : gmap string (value number)).
Arguments VUndefined {number}. Arguments VNull {number}.
Arguments VBool {number}. Arguments VNum {number}. Arguments VStr {number}.
Arguments VArr {number}. Arguments VObj {number}.

(** The outcome of evaluating an expression: a value, or a thrown
    exception (every exception of this program is caught by a handler
    that ignores which one it was). *)
Inductive completion (A : Type) : Type :=
  | Normal (a : A)
  | Throw.
Arguments Normal {A}. Arguments Throw {A}.

#[export] Instance completion_ret : MRet completion := @Normal.
#[export] Instance completion_bind : MBind completion := fun A B f c =>
  match c with
  | Normal a => f a
  | Throw => Throw
  end.

(** [l.map(f)] and [l.filter(f)] with callbacks that may throw. *)
Fixpoint map_c {A B : Type} (f : A -> completion B) (l : list A) : completion (list B) :=
  match l with
  | [] => Normal []
  | a :: l' => b ← f a; r ← map_c f l'; Normal (b :: r)
  end.

Fixpoint filter_c {A : Type} (f : A -> completion bool) (l : list A) : completion (list A) :=
  match l with
  | [] => Normal []
  | a :: l' => keep ← f a; r ← filter_c f l'; Normal (if keep : bool then a :: r else r)
  end.

(** The conversions of the engine that depend on the text of numbers:
    [parseFloat(v)] (its argument converted to a string first, which
    throws for an object that cannot be converted), ToNumber of a string,
    and ToNumber of an array or object (through ToPrimitive). *)
Class Runtime (number : Type) := {
  parseFloat : value number -> completion number;
  StringToNumber : string -> number;
  ObjectToNumber : value number -> completion number
}.

Section Values.
Context `{JsNum number} `{Runtime number}.
Local Open Scope js_scope.

Local Abbreviation value := (value number).

(** ToBoolean *)
Definition truthy_value (v : value) : bool :=
  match v with
  | VUndefined | VNull => false
  | VBool b => b
  | VNum x => truthy x
  | VStr s => negb (String.eqb s "")
  | VArr _ | VObj _ => true
  end.

(** [v.k] for the property names the parser reads ([data], [bids],
    [asks], [topic], [b], [a], [params]), none of which a string, a
    number, a boolean or an array has: a TypeError on [undefined] and
    [null], the entry of an object, [undefined] otherwise. *)
Definition get (k : string) (v : value) : completion value :=
  match v with
  | VUndefined | VNull => Throw
  | VObj m => Normal (default VUndefined (m !! k))
  | _ => Normal VUndefined
  end.

Definition isArray (v : value) : bool :=
  match v with VArr _ => true | _ => false end.

(** [v[0]] of an array. *)
Definition first (v : value) : value :=
  match v with
  | VArr (x :: _) => x
  | _ => VUndefined
  end.

(** The parameter pattern [[price, size]]: the first two items of an
    array or of a string, a TypeError for what is not iterable. *)
Definition destructure (v : value) : completion (value * value) :=
  match v with
  | VArr l => Normal (default VUndefined (l !! 0%nat), default VUndefined (l !! 1%nat))
  | VStr s =>
      let cs := VStr <$> JsString.chars s in
      Normal (default VUndefined (cs !! 0%nat), default VUndefined (cs !! 1%nat))
  | _ => Throw
  end.

(** ToNumber *)
Definition ToNumber (v : value) : completion number :=
  match v with
  | VUndefined => Normal nan
  | VNull => Normal (int 0)
  | VBool b => Normal (if b then int 1 else int 0)
  | VNum x => Normal x
  | VStr s => Normal (StringToNumber s)
  | VArr _ | VObj _ => ObjectToNumber v
  end.

(** [v > 0] *)
Definition gt0 (v : value) : completion bool :=
  x ← ToNumber v; Normal (x >? int 0).

(** [v.includes("orderbook")]: a substring test on a string, a
    membership test on an array, a TypeError on anything else (no
    other value has a callable [includes]). *)
Definition includes_orderbook (v : value) : completion bool :=
  match v with
  | VStr s => Normal (JsString.includes "orderbook" s)
  | VArr l => Normal (existsb (fun e => match e with
                                        | VStr s => String.eqb s "orderbook"
                                        | _ => false
                                        end) l)
  | _ => Throw
  end.

(** [v.map(f)], [v.filter(f)]: only an array has these methods. *)
Definition array_map (f : value -> completion value) (v : value) : completion (list value) :=
  match v with VArr l => map_c f l | _ => Throw end.
Definition array_filter (f : value -> completion bool) (v : value) : completion (list value) :=
  match v with VArr l => filter_c f l | _ => Throw end.

End Values.

(** ** hooks/use-orderbook-data.ts: the venue adapter *)

Section Adapter.
Context `{JsNum number} `{Runtime number}.

Local Abbreviation value := (value number).

(** [formatSymbolForVenue]; the [default] branch of the source cannot
    be reached from a [Venue]. *)
Definition formatSymbolForVenue (venue : Venue) (symbol : string) : string :=
  match venue with
  | OKX => JsString.replace "USD" "USDT" symbol
  | Bybit => JsString.replace "USD" "USDT" (JsString.replace "-" "" symbol)
  | Deribit =>
      let base := JsString.split_head "-"%char symbol in
      (base ++ "-PERPETUAL")%string
  end.

(** The callback [([price, size]) => [parseFloat(price), parseFloat(size)]]. *)
Definition coerce_level (e : value) : completion value :=
  '(price, size) ← destructure e;
  p ← parseFloat price;
  s ← parseFloat size;
  Normal (VArr [VNum p; VNum s]).

(** The callback [([price, size]) => price > 0 && size > 0]. *)
Definition keep_level (e : value) : completion bool :=
  '(price, size) ← destructure e;
  p ← gt0 price;
  if p : bool then gt0 size else Normal false.

(** [.slice(0, 25)] *)
Definition slice_0_25 (l : list value) : list value := take 25 l.

(** [raw.map(coerce).filter(keep).slice(0, 25)] (OKX, Bybit) *)
Definition coerced_side (raw : value) : completion (list value) :=
  l ← array_map coerce_level raw;
  l ← filter_c keep_level l;
  Normal (slice_0_25 l).

(** [raw.filter(keep).slice(0, 25)] (Deribit) *)
Definition numeric_side (raw : value) : completion (list value) :=
  l ← array_filter keep_level raw;
  Normal (slice_0_25 l).

(** The [{ bids, asks, timestamp: Date.now() }] of each branch, for
    an [orderbookData] already known to be truthy. *)
Definition book_of (side : value -> completion (list value))
    (bidsKey asksKey : string) (orderbookData : value) (now : Z)
    : completion (option (Orderbook value)) :=
  rawBids ← get bidsKey orderbookData;
  if truthy_value rawBids then
    rawAsks ← get asksKey orderbookData;
    if truthy_value rawAsks then
      bids ← side rawBids;
      asks ← side rawAsks;
      Normal (Some {| bids := bids; asks := asks; timestamp := now |})
    else Normal None
  else Normal None.

(** The body of the [try] block of [parseOrderbookData], followed by
    the [return null] after it. *)
Definition parse_body (venue : Venue) (data : value) (now : Z)
    : completion (option (Orderbook value)) :=
  match venue with
  | OKX =>
      d ← get "data" data;
      if truthy_value d && isArray d && truthy_value (first d) then
        book_of coerced_side "bids" "asks" (first d) now
      else Normal None
  | Bybit =>
      topic ← get "topic" data;
      if truthy_value topic then
        inc ← includes_orderbook topic;
        if inc : bool then
          d ← get "data" data;
          if truthy_value d then book_of coerced_side "b" "a" d now
          else Normal None
        else Normal None
      else Normal None
  | Deribit =>
      params ← get "params" data;
      if truthy_value params then
        d ← get "data" params;
        if truthy_value d then book_of numeric_side "bids" "asks" d now
        else Normal None
      else Normal None
  end.

(** [parseOrderbookData]: the [catch] logs and falls through to
    [return null]. *)
Definition parseOrderbookData (venue : Venue) (data : value) (now : Z)
    : option (Orderbook value) :=
  match parse_body venue data now with
  | Normal r => r
  | Throw => None
  end.

(** Price and size of a level as the program reads them, [level[0] > 0]
    and [level[1] > 0]. *)
Definition positive_value_level (level : value) : bool :=
  match keep_level level with
  | Normal b => b
  | Throw => false
  end.

(** The price a level is ordered by, when it has one. *)
Definition level_price (level : value) : option number :=
  match destructure level with
  | Normal (price, _) =>
      match ToNumber price with
      | Normal p => Some p
      | Throw => None
      end
  | Throw => None
  end.

End Adapter.

(** ** A reference runtime

    The engine's conversions on the inputs the examples below use:
    decimal literals without exponent part ([43000.5], [-1], [.25]);
    [Infinity], hexadecimal and exponent forms read as NaN here.  The
    properties of the parser are proved for every [Runtime]; this one
    evaluates them on concrete messages. *)
Module Reference.
Section Reference.
Context `{JsNum number}.
Local Open Scope js_scope.

Definition digit (c : ascii) : option Z :=
  let n := nat_of_ascii c in
  if (48 <=? n)%nat && (n <=? 57)%nat then Some (Z.of_nat n - 48)%Z else None.

Definition white (c : ascii) : bool :=
  let n := nat_of_ascii c in
  (n =? 32)%nat || (n =? 9)%nat || (n =? 10)%nat || (n =? 13)%nat.

Fixpoint skip_white (s : string) : string :=
  match s with
  | String c s' => if white c then skip_white s' else s
  | EmptyString => s
  end.

(** The digits at the front of [s], appended to [m]: the number read,
    how many digits, the rest. *)
Fixpoint digits (m : Z) (count : nat) (s : string) : Z * nat * string :=
  match s with
  | String c s' =>
      match digit c with
      | Some d => digits (10 * m + d)%Z (S count) s'
      | None => (m, count, s)
      end
  | EmptyString => (m, count, s)
  end.

Definition unsigned_decimal (s : string) : option (number * string) :=
  let '(m, n1, r) := digits 0 0 s in
  match r with
  | String "."%char r' =>
      let '(m', n2, r'') := digits m 0 r' in
      if (n1 + n2 =? 0)%nat then None else Some (dec m' n2, r'')
  | _ => if (n1 =? 0)%nat then None else Some (dec m 0, r)
  end.

Definition signed_decimal (s : string) : option (number * string) :=
  match s with
  | String "-"%char s' =>
      match unsigned_decimal s' with
      | Some (x, r) => Some (int 0 - x, r)
      | None => None
      end
  | String "+"%char s' => unsigned_decimal s'
  | _ => unsigned_decimal s
  end.

(** [parseFloat] of a string: the longest literal at its front. *)
Definition parseFloat_string (s : string) : number :=
  match signed_decimal (skip_white s) with
  | Some (x, _) => x
  | None => nan
  end.

(** ToNumber of a string: the whole string is a literal, or is blank. *)
Definition StringToNumber_ref (s : string) : number :=
  let s := skip_white s in
  if String.eqb s "" then int 0
  else match signed_decimal s with
       | Some (x, r) => if String.eqb (skip_white r) "" then x else nan
       | None => nan
       end.

(** ToString succeeds: no object in [v] has an entry [toString] of its
    own (a parsed entry is never callable, and then no conversion to a
    primitive is left). *)
Fixpoint stringifiable (v : value number) : bool :=
  match v with
  | VObj m => negb (bool_decide (is_Some (m !! "toString"%string)))
  | VArr l => forallb stringifiable l
  | _ => true
  end.

(** [parseFloat(String(v))]: an array prints its items separated by
    commas, so the literal at the front is that of its first item. *)
Fixpoint parseFloat_text (v : value number) : number :=
  match v with
  | VStr s => parseFloat_string s
  | VNum x => x + int 0
  | VArr (e :: _) => parseFloat_text e
  | _ => nan
  end.

(** [Number(String(v))] for an array or object [v]. *)
Fixpoint ToNumber_text (v : value number) : number :=
  match v with
  | VArr [] => int 0
  | VArr [e] =>
      match e with
      | VUndefined | VNull => int 0
      | VBool _ => nan
      | VNum x => x + int 0
      | VStr s => StringToNumber_ref s
      | VArr _ | VObj _ => ToNumber_text e
      end
  | _ => nan
  end.

#[export] Instance runtime : Runtime number := {|
  parseFloat := fun v => if stringifiable v then Normal (parseFloat_text v) else Throw;
  StringToNumber := StringToNumber_ref;
  ObjectToNumber := fun v => if stringifiable v then Normal (ToNumber_text v) else Throw
|}.

End Reference.
End Reference.

(** ** hooks/use-orderbook-data.ts: the connection supervisor

    The hook runs on the host's event loop.  The state below is the
    hook's own (React state and refs) together with what the host keeps
    for it: the sockets it created, the pending timers, the clock and
    the number of [Math.random()] calls made.  State updates take effect
    at once. *)

Inductive ReadyState := CONNECTING | OPEN | CLOSING | CLOSED.

#[export] Instance ReadyState_eq_dec : EqDecision ReadyState.
Proof. solve_decision. Defined.

(** The closures handed to [setTimeout] and [setInterval], with the
    variables they close over. *)
Inductive Callback :=
  | ConnectionTimeout (ws : nat) (venue : Venue) (symbol : Symbol)
  | MockRefresh (venue : Venue) (symbol : Symbol)
  | Reconnect (venue : Venue) (symbol : Symbol)
  | Heartbeat (ws : nat) (venue : Venue).

(** A pending timer: when it fires next, its period when it came from
    [setInterval], what it runs. *)
Record Timer := {
  due : Z;
  period : option Z;
  callback : Callback
}.

(** A socket with what its handlers close over. *)
Record WebSocket := {
  url : string;
  readyState : ReadyState;
  ws_venue : Venue;
  ws_symbol : Symbol;
  connectionTimeout : nat
}.

(** What [ws.send] was called with. *)
Inductive Frame :=
  | Subscribe (venue : Venue) (channel : string)
  | Ping (venue : Venue).

(** [event.data] of a message event: not a string, the text [pong], a
    text [JSON.parse] rejects, or what it parsed to. *)
Inductive Message (number : Type) :=
  | Binary
  | Pong
  | Unparsable
  | Json (data : value number).
Arguments Binary {number}. Arguments Pong {number}.
Arguments Unparsable {number}. Arguments Json {number}.

Record State (number : Type) := {
  orderbooks : Venue -> option (Orderbook (value number));
  connectionStatus : Venue -> ConnectionStatus;
  lastError : option string;
  websockets : gmap string nat;
  reconnectTimeouts : gmap string nat;
  heartbeatIntervals : gmap string nat;
  sockets : gmap nat WebSocket;
  timers : gmap nat Timer;
  next_socket : nat;
  next_timer : nat;
  now : Z;
  calls : nat;
  sent : list (nat * Frame)
}.
Arguments orderbooks {number}. Arguments connectionStatus {number}.
Arguments lastError {number}. Arguments websockets {number}.
Arguments reconnectTimeouts {number}. Arguments heartbeatIntervals {number}.
Arguments sockets {number}. Arguments timers {number}.
Arguments next_socket {number}. Arguments next_timer {number}.
Arguments now {number}. Arguments calls {number}. Arguments sent {number}.

(** What happens on the event loop. *)
Inductive Event (number : Type) :=
  | EvConnect (venue : Venue) (symbol : Symbol) (constructed : bool)
  | EvCleanup
  | EvOpen (ws : nat)
  | EvMessage (ws : nat) (m : Message number)
  | EvError (ws : nat)
  | EvClose (ws : nat) (code : Z)
  | EvTimer (id : nat) (constructed : bool)
  | EvWait (ms : Z).
Arguments EvConnect {number}. Arguments EvCleanup {number}.
Arguments EvOpen {number}. Arguments EvMessage {number}.
Arguments EvError {number}. Arguments EvClose {number}.
Arguments EvTimer {number}. Arguments EvWait {number}.

Section Supervisor.
Context `{JsNum number} `{Runtime number} (random : Random number).

Local Abbreviation State := (State number).

Definition initial : State := {|
  orderbooks := fun _ => None;
  connectionStatus := fun _ => disconnected;
  lastError := None;
  websockets := ∅;
  reconnectTimeouts := ∅;
  heartbeatIntervals := ∅;
  sockets := ∅;
  timers := ∅;
  next_socket := 0;
  next_timer := 1;
  now := 0;
  calls := 0;
  sent := []
|}.

(** *** State updates *)

Definition setOrderbooks (venue : Venue) (ob : Orderbook (value number)) (s : State) : State :=
  {| orderbooks := <[venue := Some ob]> (orderbooks s);
     connectionStatus := connectionStatus s; lastError := lastError s;
     websockets := websockets s; reconnectTimeouts := reconnectTimeouts s;
     heartbeatIntervals := heartbeatIntervals s; sockets := sockets s;
     timers := timers s; next_socket := next_socket s;
     next_timer := next_timer s; now := now s; calls := calls s;
     sent := sent s |}.

Definition setConnectionStatus (venue : Venue) (st : ConnectionStatus) (s : State) : State :=
  {| orderbooks := orderbooks s;
     connectionStatus := <[venue := st]> (connectionStatus s);
     lastError := lastError s;
     websockets := websockets s; reconnectTimeouts := reconnectTimeouts s;
     heartbeatIntervals := heartbeatIntervals s; sockets := sockets s;
     timers := timers s; next_socket := next_socket s;
     next_timer := next_timer s; now := now s; calls := calls s;
     sent := sent s |}.

Definition setError (e : option string) (s : State) : State :=
  {| orderbooks := orderbooks s; connectionStatus := connectionStatus s;
     lastError := e;
     websockets := websockets s; reconnectTimeouts := reconnectTimeouts s;
     heartbeatIntervals := heartbeatIntervals s; sockets := sockets s;
     timers := timers s; next_socket := next_socket s;
     next_timer := next_timer s; now := now s; calls := calls s;
     sent := sent s |}.

(** The three refs, [(websockets, reconnectTimeouts, heartbeatIntervals)]. *)
Definition with_refs (w r h : gmap string nat) (s : State) : State :=
  {| orderbooks := orderbooks s; connectionStatus := connectionStatus s;
     lastError := lastError s;
     websockets := w; reconnectTimeouts := r; heartbeatIntervals := h;
     sockets := sockets s;
     timers := timers s; next_socket := next_socket s;
     next_timer := next_timer s; now := now s; calls := calls s;
     sent := sent s |}.

(** What the host keeps. *)
Definition with_host (so : gmap nat WebSocket) (ti : gmap nat Timer)
    (ns nt : nat) (t : Z) (c : nat) (out : list (nat * Frame)) (s : State) : State :=
  {| orderbooks := orderbooks s; connectionStatus := connectionStatus s;
     lastError := lastError s;
     websockets := websockets s; reconnectTimeouts := reconnectTimeouts s;
     heartbeatIntervals := heartbeatIntervals s;
     sockets := so; timers := ti; next_socket := ns; next_timer := nt;
     now := t; calls := c; sent := out |}.

Definition with_sockets (so : gmap nat WebSocket) (s : State) : State :=
  with_host so (timers s) (next_socket s) (next_timer s) (now s) (calls s) (sent s) s.
Definition with_timers (ti : gmap nat Timer) (s : State) : State :=
  with_host (sockets s) ti (next_socket s) (next_timer s) (now s) (calls s) (sent s) s.

(** *** The host's operations *)

(** [setTimeout(cb, delay)] and [setInterval(cb, delay)] return a
    fresh handle (handles are positive, so a stored one is truthy). *)
Definition schedule (cb : Callback) (delay : Z) (repeat : bool) (s : State) : nat * State :=
  let id := next_timer s in
  let t := {| due := now s + delay; period := if repeat then Some delay else None;
              callback := cb |} in
  (id, with_host (sockets s) (<[id := t]> (timers s)) (next_socket s) (S id)
                 (now s) (calls s) (sent s) s).
Definition setTimeout (cb : Callback) (delay : Z) := schedule cb delay false.
Definition setInterval (cb : Callback) (delay : Z) := schedule cb delay true.

(** [clearTimeout(id)] and [clearInterval(id)] act on one pool of
    handles; an unknown handle is ignored. *)
Definition clearTimeout (id : nat) (s : State) : State :=
  with_timers (delete id (timers s)) s.
Definition clearInterval := clearTimeout.

(** [ws.close()]: a connecting or open socket starts closing. *)
Definition closing (ws : WebSocket) : WebSocket :=
  {| url := url ws;
     readyState := match readyState ws with
                   | CONNECTING | OPEN => CLOSING
                   | st => st
                   end;
     ws_venue := ws_venue ws; ws_symbol := ws_symbol ws;
     connectionTimeout := connectionTimeout ws |}.
Definition ws_close (w : nat) (s : State) : State :=
  with_sockets (alter closing w (sockets s)) s.

Definition set_ready (st : ReadyState) (ws : WebSocket) : WebSocket :=
  {| url := url ws; readyState := st;
     ws_venue := ws_venue ws; ws_symbol := ws_symbol ws;
     connectionTimeout := connectionTimeout ws |}.

Definition ws_send (w : nat) (f : Frame) (s : State) : State :=
  with_host (sockets s) (timers s) (next_socket s) (next_timer s)
            (now s) (calls s) (sent s ++ [(w, f)]) s.

Definition ready (w : nat) (s : State) : option ReadyState :=
  readyState <$> sockets s !! w.

(** *** The hook *)

Definition key (venue : Venue) (symbol : Symbol) : string :=
  (venue_str venue ++ "-" ++ symbol_str symbol)%string.
Definition mock_key (venue : Venue) (symbol : Symbol) : string :=
  (key venue symbol ++ "-mock")%string.

Definition tuple (lv : number * number) : value number :=
  VArr [VNum lv.1; VNum lv.2].

(** [setOrderbooks((prev) => ({ ...prev,
    [venue]: getMockOrderbookForVenue(venue, symbol) }))] *)
Definition store_mock (venue : Venue) (symbol : Symbol) (s : State) : State :=
  let '(ob, c) := getMockOrderbookForVenue (venue_str venue) (symbol_str symbol)
                    random (now s) (calls s) in
  let ob := {| bids := tuple <$> bids ob; asks := tuple <$> asks ob;
               timestamp := timestamp ob |} in
  setOrderbooks venue ob
    (with_host (sockets s) (timers s) (next_socket s) (next_timer s) (now s) c (sent s) s).

Definition wsUrl (venue : Venue) : string :=
  match venue with
  | OKX => "wss://ws.okx.com:8443/ws/v5/public"
  | Bybit => "wss://stream.bybit.com/v5/public/spot"
  | Deribit => "wss://www.deribit.com/ws/api/v2"
  end.

Definition subscribeMessage (venue : Venue) (symbol : Symbol) : Frame :=
  let formattedSymbol := formatSymbolForVenue venue (symbol_str symbol) in
  match venue with
  | OKX => Subscribe OKX formattedSymbol
  | Bybit => Subscribe Bybit ("orderbook.1." ++ formattedSymbol)
  | Deribit => Subscribe Deribit ("book." ++ formattedSymbol ++ ".100ms")
  end%string.

(** [createWebSocket]: [constructed] tells whether [new WebSocket(url)]
    returned; when it threw, the [catch] sets the status and the
    function returns [null]. *)
Definition createWebSocket (venue : Venue) (constructed : bool) (s : State)
    : option nat * State :=
  if constructed then
    (Some (next_socket s),
     with_host (sockets s) (timers s) (S (next_socket s)) (next_timer s)
               (now s) (calls s) (sent s) s)
  else (None, setConnectionStatus venue error s).

(** The [catch] block of [connectToVenue].  No statement of its [try]
    block throws for a [Venue]: [createWebSocket] handles the failure
    of the constructor itself and the [default] branch of the switch
    is not reached. *)
Definition connectToVenue_catch (venue : Venue) (symbol : Symbol) (message : string)
    (s : State) : State :=
  let s := setConnectionStatus venue error s in
  let s := setError (Some ("Failed to connect to " ++ venue_str venue ++ ": " ++ message)%string) s in
  store_mock venue symbol s.

(** The three clean-up blocks at the head of [connectToVenue]; the
    second is also the clean-up of [ws.onclose]. *)
Definition close_existing (k : string) (s : State) : State :=
  match websockets s !! k with
  | Some w =>
      let s := ws_close w s in
      with_refs (delete k (websockets s)) (reconnectTimeouts s) (heartbeatIntervals s) s
  | None => s
  end.

Definition clear_heartbeat (k : string) (s : State) : State :=
  match heartbeatIntervals s !! k with
  | Some t =>
      let s := clearInterval t s in
      with_refs (websockets s) (reconnectTimeouts s) (delete k (heartbeatIntervals s)) s
  | None => s
  end.

Definition clear_reconnect (k : string) (s : State) : State :=
  match reconnectTimeouts s !! k with
  | Some t =>
      let s := clearTimeout t s in
      with_refs (websockets s) (delete k (reconnectTimeouts s)) (heartbeatIntervals s) s
  | None => s
  end.

Definition connectToVenue (venue : Venue) (symbol : Symbol) (constructed : bool)
    (s : State) : State :=
  let k := key venue symbol in
  let s := close_existing k s in
  let s := clear_heartbeat k s in
  let s := clear_reconnect k s in
  let s := setConnectionStatus venue connecting s in
  match createWebSocket venue constructed s with
  | (None, s) => s
  | (Some w, s) =>
      let '(connectionTimeout, s) := setTimeout (ConnectionTimeout w venue symbol) 15000 s in
      let ws := {| url := wsUrl venue; readyState := CONNECTING;
                   ws_venue := venue; ws_symbol := symbol;
                   connectionTimeout := connectionTimeout |} in
      let s := with_sockets (<[w := ws]> (sockets s)) s in
      with_refs (<[k := w]> (websockets s)) (reconnectTimeouts s) (heartbeatIntervals s) s
  end.

(** [setupHeartbeat] *)
Definition setupHeartbeat (w : nat) (venue : Venue) (k : string) (s : State) : State :=
  let '(interval, s) := setInterval (Heartbeat w venue) 30000 s in
  with_refs (websockets s) (reconnectTimeouts s) (<[k := interval]> (heartbeatIntervals s)) s.

(** [ws.onopen] *)
Definition onopen (w : nat) (ws : WebSocket) (s : State) : State :=
  let venue := ws_venue ws in
  let s := clearTimeout (connectionTimeout ws) s in
  let s := setConnectionStatus venue connected s in
  let s := setError None s in
  let s := ws_send w (subscribeMessage venue (ws_symbol ws)) s in
  setupHeartbeat w venue (key venue (ws_symbol ws)) s.

(** [x === "text"] *)
Definition is_text (text : string) (v : value number) : bool :=
  match v with VStr t => String.eqb t text | _ => false end.

(** The three tests for a subscription confirmation. *)
Definition is_confirmation (venue : Venue) (data : value number) : completion bool :=
  match venue with
  | Bybit =>
      success ← get "success" data;
      if truthy_value success then op ← get "op" data; Normal (is_text "subscribe" op)
      else Normal false
  | Deribit => result ← get "result" data; Normal (is_text "ok" result)
  | OKX => event ← get "event" data; Normal (is_text "subscribe" event)
  end.

(** [ws.onmessage]; its [catch] logs and returns. *)
Definition onmessage (ws : WebSocket) (m : Message number) (s : State) : State :=
  let venue := ws_venue ws in
  match m with
  | Binary | Pong | Unparsable => s
  | Json data =>
      match is_confirmation venue data with
      | Normal false =>
          match parseOrderbookData venue data (now s) with
          | Some orderbook => setOrderbooks venue orderbook s
          | None => s
          end
      | _ => s
      end
  end.

(** [ws.onerror] *)
Definition onerror (ws : WebSocket) (s : State) : State :=
  let venue := ws_venue ws in
  let s := setConnectionStatus venue error s in
  setError (Some (venue_str venue ++ " connection failed. Using mock data for demonstration.")%string) s.

(** [ws.onclose] *)
Definition onclose (ws : WebSocket) (code : Z) (s : State) : State :=
  let venue := ws_venue ws in
  let symbol := ws_symbol ws in
  let k := key venue symbol in
  let s := setConnectionStatus venue disconnected s in
  let s := clear_heartbeat k s in
  if negb (code =? 1000)%Z && negb (code =? 1001)%Z then
    let '(t, s) := setTimeout (Reconnect venue symbol) 5000 s in
    with_refs (websockets s) (<[k := t]> (reconnectTimeouts s)) (heartbeatIntervals s) s
  else s.

(** The body of the [connectionTimeout] callback once the socket is
    found not to be open. *)
Definition fall_back (w : nat) (venue : Venue) (symbol : Symbol) (s : State) : State :=
  let s := ws_close w s in
  let s := setConnectionStatus venue connected s in
  let s := store_mock venue symbol s in
  let '(mockInterval, s) := setInterval (MockRefresh venue symbol) 2000 s in
  with_refs (websockets s)
            (<[mock_key venue symbol := mockInterval]> (reconnectTimeouts s))
            (heartbeatIntervals s) s.

(** The callbacks of the timers; [id] is the handle of the timer that
    fires (the heartbeat clears itself). *)
Definition run_callback (id : nat) (cb : Callback) (constructed : bool) (s : State) : State :=
  match cb with
  | ConnectionTimeout w venue symbol =>
      if decide (ready w s = Some OPEN) then s else fall_back w venue symbol s
  | MockRefresh venue symbol => store_mock venue symbol s
  | Reconnect venue symbol => connectToVenue venue symbol constructed s
  | Heartbeat w venue =>
      if decide (ready w s = Some OPEN) then ws_send w (Ping venue) s
      else clearInterval id s
  end.

(** The cleanup function of the effect. *)
Definition cleanup (s : State) : State :=
  let s := foldr ws_close s (map_to_list (websockets s)).*2 in
  let s := foldr clearTimeout s (map_to_list (reconnectTimeouts s)).*2 in
  let s := foldr clearInterval s (map_to_list (heartbeatIntervals s)).*2 in
  with_refs ∅ ∅ ∅ s.

(** *** The event loop *)

Definition at_time (t : Z) (s : State) : State :=
  with_host (sockets s) (timers s) (next_socket s) (next_timer s) t (calls s) (sent s) s.

(** A timer fires: not before it is due; a timeout is spent, an
    interval is armed again. *)
Definition fire (id : nat) (constructed : bool) (s : State) : State :=
  match timers s !! id with
  | None => s
  | Some t =>
      let s := at_time (Z.max (now s) (due t)) s in
      let s := match period t with
               | Some p => with_timers (<[id := {| due := now s + p; period := Some p;
                                                   callback := callback t |}]> (timers s)) s
               | None => with_timers (delete id (timers s)) s
               end in
      run_callback id (callback t) constructed s
  end.

(** The host delivers a socket event when the socket is in a state for
    it: [open] to a connecting socket, messages until the socket is
    closed, [close] once. *)
Definition deliver (w : nat) (enabled : ReadyState -> bool) (after : ReadyState -> ReadyState)
    (handler : WebSocket -> State -> State) (s : State) : State :=
  match sockets s !! w with
  | Some ws =>
      if enabled (readyState ws) then
        let ws := set_ready (after (readyState ws)) ws in
        handler ws (with_sockets (<[w := ws]> (sockets s)) s)
      else s
  | None => s
  end.

Definition step (e : Event number) (s : State) : State :=
  match e with
  | EvConnect venue symbol constructed => connectToVenue venue symbol constructed s
  | EvCleanup => cleanup s
  | EvOpen w =>
      deliver w (fun st => bool_decide (st = CONNECTING)) (fun _ => OPEN) (onopen w) s
  | EvMessage w m =>
      deliver w (fun st => bool_decide (st = OPEN ∨ st = CLOSING)) (fun st => st)
              (fun ws => onmessage ws m) s
  | EvError w =>
      deliver w (fun st => bool_decide (st ≠ CLOSED)) (fun st => st) onerror s
  | EvClose w code =>
      deliver w (fun st => bool_decide (st ≠ CLOSED)) (fun _ => CLOSED)
              (fun ws => onclose ws code) s
  | EvTimer id constructed => fire id constructed s
  | EvWait ms => at_time (now s + Z.max 0 ms) s
  end.

Definition run (es : list (Event number)) (s : State) : State :=
  foldl (fun s e => step e s) s es.

End Supervisor.

(** ** Inputs used in the examples *)

Module Examples.
Import OrderSimulation.

(** An order of quantity 1 at price 100, executed at once. *)
Definition order_1_100 (n : string) (v : Venue) (sy : Symbol) (ty : OrderType)
    (sd : OrderSide) (ts : Z) : SimulatedOrder float :=
  {| id := n; venue := v; symbol := sy; type := ty; side := sd;
     price := int 100; quantity := int 1; timing := "immediate";
     timestamp := ts |}.

(** Every draw is 0, except that the offset draw of the eighth bid
    level ([i = 7]) is 0.25. *)
Definition draws_tie : Random float :=
  fun k => if (k =? 14)%nat then dec 25 2 else int 0.

Definition draws_half : Random float := fun _ => dec 5 1.

Definition obj {number : Type} (l : list (string * value number)) : value number :=
  VObj (list_to_map l).
Definition level {number : Type} (p s : value number) : value number := VArr [p; s].

(** An OKX book update with string levels: one good bid, a bid of
    size 0, a bid with a price that is no number, a second good bid. *)
Definition okx_update : value float :=
  obj [("data", VArr [obj [
    ("bids", VArr [level (VStr "43000.5") (VStr "1.25"); level (VStr "42999") (VStr "0");
                   level (VStr "abc") (VStr "1"); level (VStr "42998.5") (VStr "2")]);
    ("asks", VArr [level (VStr "43001") (VStr "0.5"); level (VStr "43002.5") (VStr "4")])]])]%string.

(** A Deribit notification whose bids come lowest price first and
    whose asks come highest price first. *)
Definition deribit_unsorted : value float :=
  obj [("params", obj [("data", obj [
    ("bids", VArr [level (VNum (int 1)) (VNum (int 1)); level (VNum (int 2)) (VNum (int 1))]);
    ("asks", VArr [level (VNum (int 4)) (VNum (int 1)); level (VNum (int 3)) (VNum (int 1))])])])]%string.

End Examples.

(** ** What the specification says of a parsed book *)

(** All pairs of an earlier and a later element are related. *)
Fixpoint pairwise {A : Type} (R : A -> A -> bool) (l : list A) : bool :=
  match l with
  | [] => true
  | a :: l' => forallb (R a) l' && pairwise R l'
  end.

Section ParsedBooks.
Context `{JsNum number} `{Runtime number}.
Local Open Scope js_scope.

Local Abbreviation value := (value number).

(** The raw level arrays of a message that has the venue's envelope:
    [data.data[0].bids/asks] (OKX), [data.data.b/a] under a topic that
    includes "orderbook" (Bybit), [data.params.data.bids/asks]
    (Deribit). *)
Definition side_arrays (o : gmap string value) (bidsKey asksKey : string)
    : option (list value * list value) :=
  match o !! bidsKey, o !! asksKey with
  | Some (VArr rawBids), Some (VArr rawAsks) => Some (rawBids, rawAsks)
  | _, _ => None
  end.

Definition raw_sides (venue : Venue) (data : value) : option (list value * list value) :=
  match venue, data with
  | OKX, VObj m =>
      match m !! "data"%string with
      | Some (VArr (VObj o :: _)) => side_arrays o "bids" "asks"
      | _ => None
      end
  | Bybit, VObj m =>
      match m !! "topic"%string with
      | Some topic =>
          match includes_orderbook topic, m !! "data"%string with
          | Normal true, Some (VObj o) => side_arrays o "b" "a"
          | _, _ => None
          end
      | None => None
      end
  | Deribit, VObj m =>
      match m !! "params"%string with
      | Some (VObj params) =>
          match params !! "data"%string with
          | Some (VObj o) => side_arrays o "bids" "asks"
          | _ => None
          end
      | _ => None
      end
  | _, _ => None
  end.

(** The levels a venue's raw levels stand for: coerced to numbers for
    OKX and Bybit, as they are for Deribit. *)
Definition coerced (venue : Venue) (raw : list value) : completion (list value) :=
  match venue with
  | Deribit => Normal raw
  | OKX | Bybit => map_c coerce_level raw
  end.

(** The side of a book: [numeric_side] for Deribit, [coerced_side] for
    the venues that send strings. *)
Definition side_of (venue : Venue) : value -> completion (list value) :=
  match venue with
  | Deribit => numeric_side
  | OKX | Bybit => coerced_side
  end.

Definition price_above (a b : value) : bool :=
  match level_price a, level_price b with
  | Some x, Some y => x >? y
  | _, _ => false
  end.
Definition price_below (a b : value) : bool :=
  match level_price a, level_price b with
  | Some x, Some y => x <? y
  | _, _ => false
  end.

Definition levels_strictly_descending (l : list value) : bool := adjacent price_above l.
Definition levels_strictly_ascending (l : list value) : bool := adjacent price_below l.

End ParsedBooks.

(** ** What holds of every state of the supervisor *)

Definition is_heartbeat (cb : Callback) : bool :=
  match cb with Heartbeat _ _ => true | _ => false end.
Definition is_reconnect (cb : Callback) : bool :=
  match cb with Reconnect _ _ => true | _ => false end.
Definition is_mock_refresh (cb : Callback) : bool :=
  match cb with MockRefresh _ _ => true | _ => false end.

Section Invariant.
Context `{JsNum number} `{Runtime number} (random : Random number).

Local Abbreviation State := (State number).

(** Handles are handed out in increasing order, and a handle the hook
    has stored names, while its timer is pending, the kind of timer it
    was stored for: a heartbeat in [heartbeatIntervals]; in
    [reconnectTimeouts] a reconnection under the key of a connection and
    a synthetic refresh under a [-mock] key; the connect timeout of a
    socket in that socket's handlers. *)
Record well_formed (s : State) : Prop := {
  wf_timers : forall id t, timers s !! id = Some t -> (id < next_timer s)%nat;
  wf_sockets : forall w ws, sockets s !! w = Some ws ->
    (w < next_socket s)%nat /\ (connectionTimeout ws < next_timer s)%nat;
  wf_heartbeats : forall k id, heartbeatIntervals s !! k = Some id ->
    (id < next_timer s)%nat /\
    forall t, timers s !! id = Some t -> is_heartbeat (callback t) = true;
  wf_reconnects : forall k id, reconnectTimeouts s !! k = Some id ->
    (id < next_timer s)%nat /\
    forall t, timers s !! id = Some t ->
      is_reconnect (callback t) = true \/
      (is_mock_refresh (callback t) = true /\ forall v sy, k <> key v sy);
  wf_timeouts : forall w ws t, sockets s !! w = Some ws ->
    timers s !! connectionTimeout ws = Some t ->
    callback t = ConnectionTimeout w (ws_venue ws) (ws_symbol ws)
}.

(** The states the hook can be in. *)
Definition reachable (s : State) : Prop :=
  exists es, s = run random es initial.

(** The synthetic book stored for a venue when [calls] draws have been
    made, at time [t]. *)
Definition synthetic (venue : Venue) (symbol : Symbol) (calls : nat) (t : Z)
    : Orderbook (value number) :=
  let ob := (getMockOrderbookForVenue (venue_str venue) (symbol_str symbol)
               random t calls).1 in
  {| bids := tuple <$> bids ob; asks := tuple <$> asks ob; timestamp := timestamp ob |}.

(** The timers pending in [s'] that were not pending in [s]. *)
Definition scheduled (s s' : State) : gmap nat Timer := timers s' ∖ timers s.

Definition is_open_of (w : nat) (e : Event number) : bool :=
  match e with EvOpen w' => bool_decide (w' = w) | _ => false end.
Definition is_timer_of (id : nat) (e : Event number) : bool :=
  match e with EvTimer id' _ => bool_decide (id' = id) | _ => false end.
Definition is_cleanup (e : Event number) : bool :=
  match e with EvCleanup => true | _ => false end.

End Invariant.

Section Frames.
Context {number : Type}.

(** Socket [w] exists and is not open. *)
Definition not_open (w : nat) (s : State number) : Prop :=
  exists ws, sockets s !! w = Some ws /\ readyState ws <> OPEN.

(** The two kinds of timer of which the hook keeps no handle that it
    clears outside of the cleanup: the connect timeout (its handle is
    known to [ws.onopen] alone) and the synthetic refresh. *)
Definition is_timeout_or_refresh (cb : Callback) : bool :=
  match cb with
  | ConnectionTimeout _ _ _ | MockRefresh _ _ => true
  | _ => false
  end.

End Frames.

(** ** States used in the examples *)

Module Scenarios.
Import Reference.

(** OKX is being connected for BTC-USD: socket 0, connect timeout 1. *)
Definition connecting_okx : State float :=
  run Examples.draws_half [EvConnect OKX BTC_USD true] initial.

(** The socket has opened: heartbeat 2. *)
Definition open_okx : State float :=
  run Examples.draws_half [EvConnect OKX BTC_USD true; EvOpen 0] initial.

(** What happens while the connect timeout of socket 0 is pending:
    time passes, the transport fails and closes abnormally, the
    reconnection fires and opens a second socket, which opens. *)
Definition before_timeout : list (Event float) :=
  [EvWait 3000; EvError 0; EvClose 0 1006; EvTimer 2 true; EvOpen 1].

(** What happens after the fallback: the second connection closes
    normally, the refresh fires once, a message arrives. *)
Definition after_fallback : list (Event float) :=
  [EvClose 1 1000; EvTimer 5 true; EvMessage 1 Pong; EvWait 500].

End Scenarios.

(** *** simulateOrder *)

(** [orderData], the argument of [simulateOrder]: the fields the form
    and the timing comparison put in; [price] is [null] for a market
    order. *)
Module OrderData.
Record t (number : Type) := {
  venue : Venue;
  symbol : Symbol;
  type : OrderType;
  side : OrderSide;
  price : option number;
  quantity : number;
  timing : string
}.
Arguments venue {number}. Arguments symbol {number}. Arguments type {number}.
Arguments side {number}. Arguments price {number}. Arguments quantity {number}.
Arguments timing {number}.
End OrderData.

Section SimulateOrder.
Context `{JsNum number}.
Local Open Scope js_scope.

(** [delays[orderData.timing] || 0]: the entry 0 of [immediate] is
    falsy and gives way to the default, which is 0 as well. *)
Definition delays (timing : string) : number :=
  lookup_or [ ("immediate", int 0); ("5s", int 5000);
              ("10s", int 10000); ("30s", int 30000) ]%string
            (int 0) timing.

(** [Math.min] of two numbers that are not NaN and not both zero. *)
Definition min2 (a b : number) : number := if a <? b then a else b.

(** The delay handed to [setTimeout] before the order is built, when
    [delay > 0]; no timer otherwise. *)
Definition simulatedDelay (timing : string) : option number :=
  let delay := delays timing in
  if delay >? int 0 then Some (min2 delay (int 1000)) else None.

(** [orderData.price || 0] *)
Definition price_or_0 (p : option number) : number :=
  match p with
  | Some x => if truthy x then x else int 0
  | None => int 0
  end.

(** [simulateOrder] once the wait is over: [t1] and [t2] are what the
    two calls of [Date.now()] return.  The result is the order returned
    and the metrics handed to [setOrderMetrics]. *)
Definition simulateOrder (orderData : OrderData.t number) (t1 t2 : Z)
    : OrderSimulation.SimulatedOrder number * OrderSimulation.OrderMetrics number :=
  let simulatedOrder :=
    {| OrderSimulation.id := "sim-" ++ pretty t1;
       OrderSimulation.venue := OrderData.venue orderData;
       OrderSimulation.symbol := OrderData.symbol orderData;
       OrderSimulation.type := OrderData.type orderData;
       OrderSimulation.side := OrderData.side orderData;
       OrderSimulation.price := price_or_0 (OrderData.price orderData);
       OrderSimulation.quantity := OrderData.quantity orderData;
       OrderSimulation.timing := OrderData.timing orderData;
       OrderSimulation.timestamp := t2 |} in
  let metrics := OrderSimulation.calculateOrderMetrics simulatedOrder in
  (simulatedOrder, metrics).

End SimulateOrder.

(** Orders used in the examples: a limit buy on OKX of quantity [q] at
    price [p] with timing [t]. *)
Definition order_of {number : Type} (q p : number) (t : string)
    : OrderSimulation.SimulatedOrder number :=
  {| OrderSimulation.id := "sim-1"; OrderSimulation.venue := OKX;
     OrderSimulation.symbol := BTC_USD; OrderSimulation.type := limit;
     OrderSimulation.side := buy; OrderSimulation.price := p;
     OrderSimulation.quantity := q; OrderSimulation.timing := t;
     OrderSimulation.timestamp := 0 |}.

(** What the form sends for a market sell of 500 on Deribit, to be
    executed in ten seconds. *)
Definition market_order : OrderData.t float :=
  {| OrderData.venue := Deribit; OrderData.symbol := ETH_USD;
     OrderData.type := market; OrderData.side := sell;
     OrderData.price := None; OrderData.quantity := int 500;
     OrderData.timing := "10s" |}.

(** A Deribit notification in which the second bid level is [null]. *)
Definition deribit_null_level : value float :=
  Examples.obj [("params", Examples.obj [("data", Examples.obj [
    ("bids", VArr [Examples.level (VNum (int 2)) (VNum (int 1)); VNull]);
    ("asks", VArr [Examples.level (VNum (int 3)) (VNum (int 1))])])])]%string.

(** A socket that is connecting or open. *)
Definition live (ws : WebSocket) : Prop :=
  readyState ws = CONNECTING \/ readyState ws = OPEN.

(** Every socket that is connecting or open is the one the hook holds
    under the key of its venue and symbol. *)
Definition registered {number : Type} (s : State number) : Prop :=
  forall w ws, sockets s !! w = Some ws -> live ws ->
    websockets s !! key (ws_venue ws) (ws_symbol ws) = Some w.

(** The socket the hook holds under a key is a socket of that venue
    and symbol. *)
Definition keyed {number : Type} (s : State number) : Prop :=
  forall k w, websockets s !! k = Some w ->
    exists ws, sockets s !! w = Some ws /\ key (ws_venue ws) (ws_symbol ws) = k.

(** The body of the effect, [venues.forEach((venue) =>
    connectToVenue(venue, symbol))], when every socket is constructed. *)
Definition effect {number : Type} (venues : list Venue) (symbol : Symbol)
    : list (Event number) :=
  (fun venue => EvConnect venue symbol true) <$> venues.

(** What the effect sets up for a venue: the status, and under the
    venue's key a connecting socket whose connect timeout is pending,
    due 15 seconds after [t0]. *)
Definition connecting_for {number : Type} (v : Venue) (sy : Symbol) (t0 : Z)
    (s : State number) : Prop :=
  connectionStatus s v = connecting /\
  exists w ws,
    websockets s !! key v sy = Some w /\
    sockets s !! w = Some ws /\
    readyState ws = CONNECTING /\ ws_venue ws = v /\ ws_symbol ws = sy /\
    timers s !! connectionTimeout ws
    = Some {| due := t0 + 15000; period := None; callback := ConnectionTimeout w v sy |}.

(** The values [Math.random] returns: binary64 numbers in [0, 1). *)
Definition unit_interval (r : float) : bool :=
  PrimFloat.leb (int 0) r && PrimFloat.ltb r (int 1).

(** The sign of a rounded number. *)
Definition signed (s : bool) (x : spec_float) : Prop :=
  (exists m e, x = S754_finite s m e) \/ x = S754_infinity s.

Definition signed_or_zero (s : bool) (x : spec_float) : Prop :=
  signed s x \/ x = S754_zero s.

(** *** The levels of a parsed book

    A level of the [Orderbook] type is a pair [[price, size]] of
    numbers. *)
Section ParsedLevels.
Context `{JsNum number} `{Runtime number}.
Local Open Scope js_scope.



End ParsedLevels.



(** *** Subscription confirmations

    What the venues answer to a subscription: OKX an object whose
    [event] is "subscribe", Bybit an object with a truthy [success]
    whose [op] is "subscribe", Deribit an object whose [result] is
    "ok". *)
Definition confirmation `{JsNum number} (venue : Venue) (data : value number) : Prop :=
  exists m, data = VObj m /\
    match venue with
    | OKX => m !! "event"%string = Some (VStr "subscribe")
    | Bybit =>
        (exists success, m !! "success"%string = Some success /\
                         truthy_value success = true) /\
        m !! "op"%string = Some (VStr "subscribe")
    | Deribit => m !! "result"%string = Some (VStr "ok")
    end.

(** An OKX subscription confirmation that carries a book as well. *)
Definition okx_confirmation_with_book : value float :=
  Examples.obj [("event", VStr "subscribe");
                ("data", VArr [Examples.obj [
                  ("bids", VArr [Examples.level (VStr "43000.5") (VStr "1.25")]);
                  ("asks", VArr [Examples.level (VStr "43001") (VStr "0.5")])]])]%string.

(** *** Finite binary64 numbers

    A number that is neither NaN nor an infinity, and its value in units
    of 2^-1074, the smallest positive binary64 number; [scale] is the
    number 1 in these units. *)
Definition SFfinite (x : spec_float) : bool :=
  match x with
  | S754_zero _ | S754_finite _ _ _ => true
  | _ => false
  end.

Definition scaled (x : spec_float) : Z :=
  match x with
  | S754_finite s m e => cond_Zopp s (Zpos m * 2 ^ (e + 1074))
  | _ => 0
  end.

Definition scale : Z := 2 ^ 1074.

Definition finite64 (x : float) : bool := SFfinite (Prim2SF x).
Definition units (x : float) : Z := scaled (Prim2SF x).

(** A finite number whose value, in units of 2^-1074, lies between
    [lo] and [hi]. *)
Definition within (lo hi : Z) (x : float) : Prop :=
  finite64 x = true /\ (lo <= units x <= hi)%Z.

(** * Properties *)

(** ** The order-impact estimator *)

Section Estimator.
Import OrderSimulation.

(** The computation reads three fields of the order and nothing else. *)
Lemma calculateOrderMetrics_fields `{JsNum number} (o : SimulatedOrder number) :
  calculateOrderMetrics o =
  calculateOrderMetrics
    {| id := ""; venue := OKX; symbol := BTC_USD; type := market; side := buy;
       price := price o; quantity := quantity o; timing := timing o;
       timestamp := 0 |}.
Proof. reflexivity. Qed.

End Estimator.

(** C1, as the code computes it.  For quantity = 1, price = 100 and
    timing = "immediate" the metrics are marketImpact = 0.012,
    fillPercentage = 100 - 0.012 * 10 = 99.88, slippage = 0.12,
    estimatedFillTime = "<1s" and no warnings, whatever the other fields
    of the order are.  The numbers are the binary64 values of these
    literals. *)
Theorem C1_metrics_of_unit_order :
  forall (n : string) (v : Venue) (sy : Symbol) (ty : OrderType) (sd : OrderSide) (ts : Z),
    OrderSimulation.calculateOrderMetrics (Examples.order_1_100 n v sy ty sd ts) =
    {| OrderSimulation.fillPercentage := dec 9988 2;
       OrderSimulation.marketImpact := dec 12 3;
       OrderSimulation.slippage := dec 12 2;
       OrderSimulation.estimatedFillTime := "<1s";
       OrderSimulation.warnings := [] |}.
Proof. intros. vm_compute. reflexivity. Qed.

(** C1 as stated fails: the fill percentage of that order is not 98.8. *)
Lemma C1_fill_percentage_is_not_98_8 :
  OrderSimulation.fillPercentage
    (OrderSimulation.calculateOrderMetrics
       (Examples.order_1_100 "sim-1" OKX BTC_USD limit buy 0))
  <> dec 988 1.
Proof. vm_compute. discriminate. Qed.

(** C9.  The metrics are a function of the order alone (the computation
    takes no other argument: no orderbook, no store), and two orders with
    the same quantity, timing and price get the same metrics, whatever
    their venue, symbol, side, type, id and timestamp are. *)
Theorem C9_metrics_depend_on_quantity_timing_price :
  forall (number : Type) (A : JsNum number) (o1 o2 : OrderSimulation.SimulatedOrder number),
    OrderSimulation.quantity o1 = OrderSimulation.quantity o2 ->
    OrderSimulation.timing o1 = OrderSimulation.timing o2 ->
    OrderSimulation.price o1 = OrderSimulation.price o2 ->
    OrderSimulation.calculateOrderMetrics o1 = OrderSimulation.calculateOrderMetrics o2.
Proof.
  intros number A o1 o2 Hq Ht Hp.
  rewrite (calculateOrderMetrics_fields o1), (calculateOrderMetrics_fields o2).
  rewrite Hq, Ht, Hp. reflexivity.
Qed.

Lemma C9_witness :
  OrderSimulation.calculateOrderMetrics (Examples.order_1_100 "sim-1" OKX BTC_USD limit buy 5) =
  OrderSimulation.calculateOrderMetrics (Examples.order_1_100 "sim-2" Deribit ETH_USDT market sell 9).
Proof.
  apply (C9_metrics_depend_on_quantity_timing_price float float64
           (Examples.order_1_100 "sim-1" OKX BTC_USD limit buy 5)
           (Examples.order_1_100 "sim-2" Deribit ETH_USDT market sell 9));
    reflexivity.
Defined.

(** ** Symbol translation *)

(** C10.  For the symbols "BTC-USDT" and "ETH-USDT" the translation
    replaces the first occurrence of "USD", which is not at the end: OKX
    gets "BTC-USDTT" and "ETH-USDTT", Bybit gets "BTCUSDTT" and
    "ETHUSDTT". *)
Theorem C10_usdt_symbols_get_a_second_T :
  formatSymbolForVenue OKX (symbol_str BTC_USDT) = "BTC-USDTT"%string /\
  formatSymbolForVenue OKX (symbol_str ETH_USDT) = "ETH-USDTT"%string /\
  formatSymbolForVenue Bybit (symbol_str BTC_USDT) = "BTCUSDTT"%string /\
  formatSymbolForVenue Bybit (symbol_str ETH_USDT) = "ETHUSDTT"%string.
Proof. repeat split; reflexivity. Qed.

(** ** The synthetic data generator *)

Section SortFacts.
Context `{JsNum number} {A : Type} (comparefn : A -> A -> number).

Lemma insert_sorted_length (x : A) (l : list A) :
  length (insert_sorted comparefn x l) = S (length l).
Proof.
  induction l as [|y l IH]; simpl; [reflexivity|].
  destruct (sorts_after comparefn x y); simpl; congruence.
Qed.

Lemma sort_length (l : list A) : length (sort comparefn l) = length l.
Proof.
  induction l as [|x l IH]; simpl; [reflexivity|].
  rewrite insert_sorted_length. congruence.
Qed.

Lemma insert_sorted_Forall (P : A -> Prop) (x : A) (l : list A) :
  P x -> Forall P l -> Forall P (insert_sorted comparefn x l).
Proof.
  intros Hx Hl. induction Hl as [|y l Hy Hl IH]; simpl.
  - constructor; [assumption | constructor].
  - destruct (sorts_after comparefn x y).
    + constructor; assumption.
    + constructor; [assumption|]. constructor; assumption.
Qed.

Lemma sort_Forall (P : A -> Prop) (l : list A) :
  Forall P l -> Forall P (sort comparefn l).
Proof.
  induction 1 as [|x l Hx Hl IH]; simpl; [constructor|].
  apply insert_sorted_Forall; assumption.
Qed.

(** In the result no element is followed by one the comparator puts
    before it, provided the comparator never puts each of two elements
    behind the other. *)
Hypothesis asymmetric :
  forall x y, sorts_after comparefn x y = true -> sorts_after comparefn y x = false.

Lemma insert_sorted_adjacent (x : A) (l : list A) :
  adjacent (in_order comparefn) l = true -> adjacent (in_order comparefn) (insert_sorted comparefn x l) = true.
Proof.
  induction l as [|y l IH]; simpl; [reflexivity|].
  intros Hl. destruct (sorts_after comparefn x y) eqn:Hxy.
  - assert (Htl : adjacent (in_order comparefn) l = true).
    { destruct l; [reflexivity|]. apply andb_prop in Hl. tauto. }
    specialize (IH Htl).
    destruct l as [|z l]; simpl in *.
    + unfold in_order. rewrite (asymmetric _ _ Hxy). reflexivity.
    + apply andb_prop in Hl. destruct Hl as [Hyz Hl].
      destruct (sorts_after comparefn x z) eqn:Hxz.
      * rewrite Hyz. exact IH.
      * unfold in_order at 1. rewrite (asymmetric _ _ Hxy). exact IH.
  - change (in_order comparefn x y && adjacent (in_order comparefn) (y :: l) = true).
    unfold in_order at 1. rewrite Hxy. exact Hl.
Qed.

Lemma sort_adjacent (l : list A) : adjacent (in_order comparefn) (sort comparefn l) = true.
Proof.
  induction l as [|x l IH]; simpl; [reflexivity|].
  apply insert_sorted_adjacent. exact IH.
Qed.

End SortFacts.

Lemma adjacent_ext {A : Type} (R R' : A -> A -> bool) (l : list A) :
  (forall a b, R a b = R' a b) -> adjacent R l = adjacent R' l.
Proof.
  intros HR. induction l as [|a l IH]; [reflexivity|].
  destruct l as [|b l]; [reflexivity|].
  change (R a b && adjacent R (b :: l) = R' a b && adjacent R' (b :: l)).
  rewrite HR, IH. reflexivity.
Qed.

Lemma adjacent_impl {A : Type} (R R' : A -> A -> bool) (l : list A) :
  (forall a b, R a b = true -> R' a b = true) -> adjacent R l = true -> adjacent R' l = true.
Proof.
  intros HR. induction l as [|a l IH]; [reflexivity|].
  destruct l as [|b l]; [reflexivity|].
  change (R a b && adjacent R (b :: l) = true -> R' a b && adjacent R' (b :: l) = true).
  intros Hl. apply andb_prop in Hl. destruct Hl as [Hab Hl].
  rewrite (HR _ _ Hab), (IH Hl). reflexivity.
Qed.

Lemma forallb_of_Forall {A : Type} (f : A -> bool) (l : list A) :
  Forall (fun x => f x = true) l -> forallb f l = true.
Proof.
  induction 1 as [|x l Hx Hl IH]; simpl; [reflexivity|].
  rewrite Hx, IH. reflexivity.
Qed.

Lemma Forall_of_forallb {A : Type} (f : A -> bool) (l : list A) :
  forallb f l = true -> Forall (fun x => f x = true) l.
Proof.
  induction l as [|x l IH]; simpl; intros Hl; constructor;
    apply andb_prop in Hl; [tauto | apply IH; tauto].
Qed.
Section LevelsFacts.
Context `{JsNum number}.
Local Open Scope js_scope.

Lemma levels_S (place : number -> number -> number) (random : Random number)
    (adjustedBasePrice : number) (n i calls : nat) :
  levels place random adjustedBasePrice (S n) i calls =
  ((place adjustedBasePrice (int (Z.of_nat i + 1) * (random calls * int 5 + int 2)),
    random (S calls) * int 3 + dec 1 1)
   :: (levels place random adjustedBasePrice n (S i) (S (S calls))).1,
   (levels place random adjustedBasePrice n (S i) (S (S calls))).2).
Proof.
  simpl. destruct (levels place random adjustedBasePrice n (S i) (S (S calls))).
  reflexivity.
Qed.

Lemma levels_length (place : number -> number -> number) (random : Random number)
    (adjustedBasePrice : number) (n i calls : nat) :
  length (levels place random adjustedBasePrice n i calls).1 = n.
Proof.
  revert i calls. induction n as [|n IH]; intros i calls; [reflexivity|].
  rewrite levels_S. cbn [fst length]. rewrite IH. reflexivity.
Qed.

Lemma generateMockOrderbook_sides (basePrice : number) (venue : string)
    (random : Random number) (now : Z) (calls : nat) :
  let a := basePrice * venueMultiplier venue in
  let bs := levels sub random a 25 0 calls in
  let os := levels add random a 25 0 bs.2 in
  (generateMockOrderbook basePrice venue random now calls).1 =
  {| bids := sort (fun x y => y.1 - x.1) bs.1;
     asks := sort (fun x y => x.1 - y.1) os.1;
     timestamp := now |}.
Proof.
  intros a bs os. unfold generateMockOrderbook.
  fold a. fold bs. destruct bs as [b c]. cbn [snd] in os. fold os.
  destruct os as [o c']. reflexivity.
Qed.

End LevelsFacts.

(** *** binary64 *)

Section FloatFacts.

Lemma SFcompare_antisym (x y : spec_float) :
  SFcompare y x = option_map CompOpp (SFcompare x y).
Proof.
  destruct x as [sx|sx| |sx mx ex], y as [sy|sy| |sy my ey]; simpl;
    try reflexivity; try (destruct sx; reflexivity); try (destruct sy; reflexivity);
    try (destruct sx, sy; reflexivity).
  destruct sx, sy; simpl; try reflexivity;
    rewrite (Z.compare_antisym ex ey); destruct (ex ?= ey)%Z; simpl; try reflexivity;
    change (Pcompare my mx Eq) with (my ?= mx)%positive;
    change (Pcompare mx my Eq) with (mx ?= my)%positive;
    rewrite (Pos.compare_antisym mx my); destruct (mx ?= my)%positive; reflexivity.
Qed.

(** [<] on binary64 is asymmetric. *)
Lemma float_ltb_asymmetric (x y : float) :
  PrimFloat.ltb x y = true -> PrimFloat.ltb y x = false.
Proof.
  rewrite !ltb_spec. unfold SFltb. rewrite (SFcompare_antisym (Prim2SF x)).
  destruct (SFcompare (Prim2SF x) (Prim2SF y)) as [[]|]; simpl; congruence.
Qed.

(** A comparison with NaN is false. *)
Lemma float_ltb_nan_r (x : float) : PrimFloat.ltb x PrimFloat.nan = false.
Proof.
  rewrite ltb_spec. unfold SFltb. change (Prim2SF PrimFloat.nan) with S754_nan.
  destruct (Prim2SF x); reflexivity.
Qed.

Lemma float_ltb_nan_l (x : float) : PrimFloat.ltb PrimFloat.nan x = false.
Proof.
  rewrite ltb_spec. unfold SFltb. change (Prim2SF PrimFloat.nan) with S754_nan.
  reflexivity.
Qed.

Lemma float_of_nan (x : float) : Prim2SF x = S754_nan -> x = PrimFloat.nan.
Proof. intros E. rewrite <- (SF2Prim_Prim2SF x), E. reflexivity. Qed.

(** NaN propagates through [*] and [-]. *)
Lemma float_mul_nan_r (x : float) : PrimFloat.mul x PrimFloat.nan = PrimFloat.nan.
Proof.
  apply float_of_nan. rewrite mul_spec. change (Prim2SF PrimFloat.nan) with S754_nan.
  destruct (Prim2SF x); reflexivity.
Qed.

Lemma float_mul_nan_l (x : float) : PrimFloat.mul PrimFloat.nan x = PrimFloat.nan.
Proof.
  apply float_of_nan. rewrite mul_spec. change (Prim2SF PrimFloat.nan) with S754_nan.
  reflexivity.
Qed.

Lemma float_sub_nan_r (x : float) : PrimFloat.sub x PrimFloat.nan = PrimFloat.nan.
Proof.
  apply float_of_nan. rewrite sub_spec. change (Prim2SF PrimFloat.nan) with S754_nan.
  destruct (Prim2SF x); reflexivity.
Qed.

(** [Math.max(20, x)] is not below 20. *)
Lemma max2_20_floor (x : float) : PrimFloat.ltb (F64.max2 (int 20) x) (int 20) = false.
Proof.
  unfold F64.max2.
  change (PrimFloat.is_nan (int 20)) with false. cbn [orb].
  destruct (PrimFloat.is_nan x); [apply float_ltb_nan_l|].
  destruct (PrimFloat.ltb (int 20) x) eqn:E; [apply float_ltb_asymmetric, E|].
  destruct (PrimFloat.ltb x (int 20)); [reflexivity|].
  change (PrimFloat.is_zero (int 20)) with false. reflexivity.
Qed.

(** With a price of 0: the slippage [impact * 0 * 0.1] is a zero or
    NaN, and not above [0 * 0.005]. *)
Lemma float_mul_0_falsy (x : float) :
  F64.truthy (PrimFloat.mul (PrimFloat.mul x (int 0)) (dec 1 1)) = false.
Proof.
  assert (Hz : forall y, Prim2SF y = S754_nan \/ (exists s, Prim2SF y = S754_zero s) ->
                         F64.truthy y = false).
  { intros y [E | [s E]]; rewrite <- (SF2Prim_Prim2SF y), E; [|destruct s]; reflexivity. }
  apply Hz. rewrite !mul_spec.
  change (Prim2SF (int 0)) with (S754_zero false).
  destruct (Prim2SF x) as [sx|sx| |sx mx ex]; cbn; eauto.
Qed.

Lemma float_mul_0_not_positive (x : float) :
  PrimFloat.ltb (PrimFloat.mul (int 0) (dec 5 3))
                (PrimFloat.mul (PrimFloat.mul x (int 0)) (dec 1 1)) = false.
Proof.
  rewrite ltb_spec, !mul_spec.
  change (Prim2SF (int 0)) with (S754_zero false).
  destruct (Prim2SF x) as [sx|sx| |sx mx ex]; reflexivity.
Qed.

End FloatFacts.

(** *** Rounding

    The sign of a rounded sum, difference or product, from the
    definition of IEEE arithmetic in the standard library. *)

Section Rounding.
Variables prec emax : Z.
Hypothesis prec_pos : (0 < prec)%Z.

Local Open Scope Z_scope.

Lemma digits2_pos_bounds (p : positive) :
  2 ^ (Zpos (digits2_pos p) - 1) <= Zpos p < 2 ^ Zpos (digits2_pos p).
Proof.
  induction p as [p IH | p IH |]; cbn [digits2_pos].
  - rewrite Pos2Z.inj_succ, Z.pow_succ_r by lia.
    replace (Z.succ (Zpos (digits2_pos p)) - 1) with (Z.succ (Zpos (digits2_pos p) - 1)) by lia.
    rewrite Z.pow_succ_r by lia. lia.
  - rewrite Pos2Z.inj_succ, Z.pow_succ_r by lia.
    replace (Z.succ (Zpos (digits2_pos p)) - 1) with (Z.succ (Zpos (digits2_pos p) - 1)) by lia.
    rewrite Z.pow_succ_r by lia. lia.
  - cbn. lia.
Qed.

Lemma shr_1_m (mrs : shr_record) :
  0 <= shr_m mrs -> shr_m (shr_1 mrs) = shr_m mrs / 2.
Proof.
  destruct mrs as [m r s]. cbn [shr_m]. intros Hm. unfold shr_1.
  destruct m as [|[p|p|]|p]; cbn [shr_m]; try lia.
  - reflexivity.
  - rewrite Pos2Z.inj_xI. apply Z.div_unique with (r := 1); lia.
  - rewrite Pos2Z.inj_xO. apply Z.div_unique with (r := 0); lia.
  - reflexivity.
Qed.

Lemma iter_shr_1_m (n : positive) (mrs : shr_record) :
  0 <= shr_m mrs -> shr_m (SpecFloat.iter_pos shr_1 n mrs) = shr_m mrs / 2 ^ Zpos n.
Proof.
  revert mrs. induction n as [n IH | n IH |]; intros mrs Hm; cbn [SpecFloat.iter_pos].
  - assert (H1 : 0 <= shr_m (shr_1 mrs)).
    { rewrite shr_1_m by exact Hm. apply Z.div_pos; lia. }
    assert (H2 : 0 <= shr_m (SpecFloat.iter_pos shr_1 n (shr_1 mrs))).
    { rewrite IH by exact H1. apply Z.div_pos; [exact H1 | apply Z.pow_pos_nonneg; lia]. }
    rewrite IH by exact H2. rewrite IH by exact H1. rewrite shr_1_m by exact Hm.
    rewrite !Z.div_div by (try apply Z.pow_pos_nonneg; lia).
    f_equal.
    assert (E : 2 ^ Zpos n~1 = 2 * (2 ^ Zpos n * 2 ^ Zpos n)).
    { rewrite <- Z.pow_add_r, <- Z.pow_succ_r by lia. f_equal. lia. }
    rewrite E. reflexivity.
  - assert (H2 : 0 <= shr_m (SpecFloat.iter_pos shr_1 n mrs)).
    { rewrite IH by exact Hm. apply Z.div_pos; [exact Hm | apply Z.pow_pos_nonneg; lia]. }
    rewrite IH by exact H2. rewrite IH by exact Hm.
    rewrite !Z.div_div by (try apply Z.pow_pos_nonneg; lia).
    f_equal.
    assert (E : 2 ^ Zpos n~0 = 2 ^ Zpos n * 2 ^ Zpos n).
    { rewrite <- Z.pow_add_r by lia. f_equal. lia. }
    rewrite E. reflexivity.
  - rewrite shr_1_m by exact Hm. reflexivity.
Qed.

Lemma shr_record_of_loc_m (m : Z) (l : location) : shr_m (shr_record_of_loc m l) = m.
Proof. destruct l as [|[]]; reflexivity. Qed.

Lemma fexp_emin (k : Z) : SpecFloat.emin prec emax <= fexp prec emax k.
Proof. unfold fexp. lia. Qed.

(** Shifting a non-negative mantissa right keeps it non-negative. *)
Lemma shr_fexp_nonneg (m e : Z) (l : location) :
  0 <= m -> 0 <= shr_m (fst (shr_fexp prec emax m e l)).
Proof.
  intros Hm. unfold shr_fexp, shr.
  destruct (fexp prec emax (Zdigits2 m + e) - e) as [|n|n]; cbn [fst];
    rewrite ?shr_record_of_loc_m; try exact Hm.
  rewrite iter_shr_1_m by (rewrite shr_record_of_loc_m; exact Hm).
  rewrite shr_record_of_loc_m. apply Z.div_pos; [exact Hm | apply Z.pow_pos_nonneg; lia].
Qed.

(** Above the smallest exponent a positive mantissa stays positive. *)
Lemma shr_fexp_pos (m e : Z) (l : location) :
  0 < m -> SpecFloat.emin prec emax <= e ->
  0 < shr_m (fst (shr_fexp prec emax m e l)) /\
  SpecFloat.emin prec emax <= snd (shr_fexp prec emax m e l).
Proof.
  intros Hm He. unfold shr_fexp, shr.
  destruct (fexp prec emax (Zdigits2 m + e) - e) as [|n|n] eqn:En; cbn [fst snd];
    rewrite ?shr_record_of_loc_m; try (split; [exact Hm | exact He]).
  split; [|lia].
  rewrite iter_shr_1_m by (rewrite shr_record_of_loc_m; lia).
  rewrite shr_record_of_loc_m.
  destruct m as [|p|p]; try lia. cbn [Zdigits2] in En.
  pose proof (digits2_pos_bounds p) as [Hlo _].
  set (d := Zpos (digits2_pos p)) in *.
  assert (Hn : Zpos n = d - prec) by (unfold fexp in En; lia).
  rewrite Hn.
  assert (Hd : d - 1 = (prec - 1) + (d - prec)) by lia.
  rewrite Hd, Z.pow_add_r in Hlo by lia.
  assert (H2 : 0 < 2 ^ (d - prec)) by (apply Z.pow_pos_nonneg; lia).
  assert (H3 : 1 <= 2 ^ (prec - 1)) by (pose proof (Z.pow_pos_nonneg 2 (prec - 1)); lia).
  apply Z.div_str_pos. split; [exact H2|]. nia.
Qed.

Lemma round_nearest_even_le (m : Z) (l : location) : m <= round_nearest_even m l.
Proof. destruct l as [|[]]; cbn; try lia. destruct (Z.even m); lia. Qed.

Lemma binary_round_aux_nonneg (s : bool) (m e : Z) (l : location) :
  0 <= m -> signed_or_zero s (binary_round_aux prec emax s m e l).
Proof.
  intros Hm. unfold binary_round_aux.
  pose proof (shr_fexp_nonneg m e l Hm) as H1.
  destruct (shr_fexp prec emax m e l) as [mrs' e']. cbn [fst] in H1.
  pose proof (round_nearest_even_le (shr_m mrs') (loc_of_shr_record mrs')) as H2.
  set (m2 := round_nearest_even _ _) in *.
  pose proof (shr_fexp_nonneg m2 e' loc_Exact ltac:(lia)) as H3.
  destruct (shr_fexp prec emax m2 e' loc_Exact) as [mrs'' e'']. cbn [fst] in H3.
  destruct (shr_m mrs'') as [|p|p]; [right; reflexivity | | lia].
  left. destruct (e'' <=? emax - prec); [left; eauto | right; reflexivity].
Qed.

Lemma binary_round_aux_pos (s : bool) (m e : Z) (l : location) :
  0 < m -> SpecFloat.emin prec emax <= e -> signed s (binary_round_aux prec emax s m e l).
Proof.
  intros Hm He. unfold binary_round_aux.
  pose proof (shr_fexp_pos m e l Hm He) as [H1 E1].
  destruct (shr_fexp prec emax m e l) as [mrs' e']. cbn [fst snd] in H1, E1.
  pose proof (round_nearest_even_le (shr_m mrs') (loc_of_shr_record mrs')) as H2.
  set (m2 := round_nearest_even _ _) in *.
  pose proof (shr_fexp_pos m2 e' loc_Exact ltac:(lia) E1) as [H3 _].
  destruct (shr_fexp prec emax m2 e' loc_Exact) as [mrs'' e'']. cbn [fst] in H3.
  destruct (shr_m mrs'') as [|p|p]; try lia.
  destruct (e'' <=? emax - prec); [left; eauto | right; reflexivity].
Qed.

Lemma binary_round_pos (s : bool) (m : positive) (e : Z) :
  SpecFloat.emin prec emax <= e -> signed s (binary_round prec emax s m e).
Proof.
  intros He. unfold binary_round, shl_align.
  destruct (fexp prec emax (Zpos (digits2_pos m) + e) - e) as [|d|d] eqn:Ed;
    apply binary_round_aux_pos; try lia; try exact He.
  apply fexp_emin.
Qed.

(** The sign of a sum of aligned mantissas above the smallest exponent. *)
Lemma binary_normalize_sign (m e : Z) :
  SpecFloat.emin prec emax <= e ->
  match m with
  | Z0 => binary_normalize prec emax m e false = S754_zero false
  | Zpos _ => signed false (binary_normalize prec emax m e false)
  | Zneg _ => signed true (binary_normalize prec emax m e false)
  end.
Proof.
  intros He. destruct m; cbn [binary_normalize]; [reflexivity | |]; apply binary_round_pos, He.
Qed.

(** A valid finite number: its exponent and the digits of its mantissa. *)
Lemma bounded_exponent (m : positive) (e : Z) :
  bounded prec emax m e = true ->
  SpecFloat.emin prec emax <= e /\ Zpos (digits2_pos m) <= prec /\
  (SpecFloat.emin prec emax < e -> Zpos (digits2_pos m) = prec).
Proof.
  unfold bounded, canonical_mantissa. intros Hb.
  apply andb_prop in Hb. destruct Hb as [Hc _]. apply Z.eqb_eq in Hc.
  unfold fexp in Hc. lia.
Qed.

Lemma shl_align_same (m : positive) (e : Z) : shl_align m e e = (m, e).
Proof. unfold shl_align. rewrite Z.sub_diag. reflexivity. Qed.

Lemma shl_align_value (m : positive) (e e' : Z) :
  e' <= e -> Zpos (fst (shl_align m e e')) = Zpos m * 2 ^ (e - e').
Proof.
  intros Hle. unfold shl_align. destruct (e' - e) as [|d|d] eqn:Ed; cbn [fst]; try lia.
  - replace (e - e') with 0 by lia. lia.
  - change (Pos.iter xO m d) with (shift_pos d m). rewrite shift_pos_correct.
    replace (e - e') with (Zpos d) by lia.
    rewrite Zpower_pos_nat, Zpower_nat_Z, positive_nat_Z. lia.
Qed.

(** Of two valid magnitudes, the one that compares smaller has the
    smaller aligned mantissa. *)
Lemma aligned_lt (m1 m2 : positive) (e1 e2 : Z) :
  bounded prec emax m1 e1 = true -> bounded prec emax m2 e2 = true ->
  (e1 < e2 \/ (e1 = e2 /\ (m1 < m2)%positive)) ->
  Zpos (fst (shl_align m1 e1 (Z.min e1 e2))) < Zpos (fst (shl_align m2 e2 (Z.min e1 e2))).
Proof.
  intros B1 B2 Hlt.
  destruct (bounded_exponent m1 e1 B1) as (E1 & D1 & _).
  destruct (bounded_exponent m2 e2 B2) as (E2 & D2 & N2).
  rewrite !shl_align_value by lia.
  destruct Hlt as [Hlt | [-> Hlt]].
  - replace (Z.min e1 e2) with e1 by lia. rewrite Z.sub_diag, Z.mul_1_r.
    pose proof (digits2_pos_bounds m1) as [_ U1].
    pose proof (digits2_pos_bounds m2) as [L2 _].
    rewrite (N2 ltac:(lia)) in L2.
    assert (H1 : Zpos m1 < 2 ^ prec).
    { eapply Z.lt_le_trans; [exact U1|]. apply Z.pow_le_mono_r; lia. }
    assert (H2 : 2 <= 2 ^ (e2 - e1)).
    { replace 2 with (2 ^ 1) at 1 by reflexivity. apply Z.pow_le_mono_r; lia. }
    assert (H3 : 2 ^ prec = 2 ^ (prec - 1) * 2).
    { replace prec with (Z.succ (prec - 1)) at 1 by lia. rewrite Z.pow_succ_r by lia. lia. }
    nia.
  - rewrite Z.min_id, Z.sub_diag, !Z.mul_1_r. lia.
Qed.

End Rounding.

(** *** Signs in binary64 *)

Section Binary64.
Local Open Scope Z_scope.

Lemma prec_pos64 : 0 < prec.
Proof. reflexivity. Qed.

Lemma SFltb_zero_signed (r : spec_float) :
  signed false r -> SFltb (S754_zero false) r = true.
Proof. intros [(m & e & ->) | ->]; reflexivity. Qed.

Lemma SFltb_zero_signed_neg (r : spec_float) :
  signed true r -> SFltb (S754_zero false) r = false.
Proof. intros [(m & e & ->) | ->]; reflexivity. Qed.

Lemma SFcompare_finite_Lt (s1 s2 : bool) (m1 m2 : positive) (e1 e2 : Z) :
  SFltb (S754_finite s1 m1 e1) (S754_finite s2 m2 e2) = true ->
  (s1 = true /\ s2 = false) \/
  (s1 = false /\ s2 = false /\ (e1 < e2 \/ (e1 = e2 /\ (m1 < m2)%positive))) \/
  (s1 = true /\ s2 = true /\ (e2 < e1 \/ (e2 = e1 /\ (m2 < m1)%positive))).
Proof.
  unfold SFltb, SFcompare. destruct s1, s2; try discriminate; auto.
  - destruct (e1 ?= e2) eqn:E; try discriminate.
    + apply Z.compare_eq in E. subst e2. intros H. right. right.
      repeat split. right. split; [reflexivity|].
      change (Pos.compare_cont Eq m1 m2) with (m1 ?= m2)%positive in H.
      destruct (m1 ?= m2)%positive eqn:C; try discriminate.
      apply Pos.compare_gt_iff in C. exact C.
    + intros _. apply Z.compare_gt_iff in E. right. right. auto.
  - destruct (e1 ?= e2) eqn:E; try discriminate.
    + apply Z.compare_eq in E. subst e2. intros H. right. left.
      repeat split. right. split; [reflexivity|].
      change (Pos.compare_cont Eq m1 m2) with (m1 ?= m2)%positive in H.
      destruct (m1 ?= m2)%positive eqn:C; try discriminate. exact C.
    + intros _. apply Z.compare_lt_iff in E. right. left. auto.
Qed.

(** If [x < y] then [y - x] is positive. *)
Lemma SFsub_pos (x y : spec_float) :
  FloatAxioms.valid_binary x = true -> FloatAxioms.valid_binary y = true ->
  SFltb x y = true -> SFltb (S754_zero false) (SF64sub y x) = true.
Proof.
  intros Vx Vy Hlt.
  destruct x as [sx|sx| |sx mx ex], y as [sy|sy| |sy my ey];
    try discriminate Hlt;
    try (destruct sx, sy; try discriminate Hlt; reflexivity);
    try (destruct sx; try discriminate Hlt; reflexivity);
    try (destruct sy; try discriminate Hlt; reflexivity).
  cbn [SpecFloat.valid_binary] in Vx, Vy.
  destruct (bounded_exponent prec emax mx ex Vx) as (Ex & _).
  destruct (bounded_exponent prec emax my ey Vy) as (Ey & _).
  apply SFltb_zero_signed. unfold SF64sub, SFsub. cbn zeta.
  pose proof (binary_normalize_sign prec emax prec_pos64
    (cond_Zopp sy (Zpos (fst (shl_align my ey (Z.min ey ex)))) -
     cond_Zopp sx (Zpos (fst (shl_align mx ex (Z.min ey ex))))) (Z.min ey ex) ltac:(lia)) as Hs.
  apply SFcompare_finite_Lt in Hlt.
  destruct Hlt as [(-> & ->) | [(-> & -> & Hlt) | (-> & -> & Hlt)]]; cbn [cond_Zopp] in *.
  - destruct (_ - _) eqn:E; try lia; exact Hs.
  - pose proof (aligned_lt prec emax prec_pos64 mx my ex ey Vx Vy Hlt) as Ha.
    rewrite (Z.min_comm ex ey) in Ha.
    destruct (_ - _) eqn:E; try lia; exact Hs.
  - pose proof (aligned_lt prec emax prec_pos64 my mx ey ex Vy Vx Hlt) as Ha.
    destruct (_ - _) eqn:E; try lia; exact Hs.
Qed.

(** The sum of a number that is not negative and a positive number is
    positive. *)
Lemma SFadd_pos (x y : spec_float) :
  FloatAxioms.valid_binary x = true -> FloatAxioms.valid_binary y = true ->
  SFleb (S754_zero false) x = true -> SFltb (S754_zero false) y = true ->
  SFltb (S754_zero false) (SF64add x y) = true.
Proof.
  intros Vx Vy Hx Hy.
  destruct x as [sx|sx| |sx mx ex], y as [sy|sy| |sy my ey];
    try discriminate Hx; try discriminate Hy;
    try (destruct sx, sy; try discriminate Hx; try discriminate Hy; reflexivity).
  destruct sx; [discriminate Hx|]. destruct sy; [discriminate Hy|].
  cbn [SpecFloat.valid_binary] in Vx, Vy.
  destruct (bounded_exponent prec emax mx ex Vx) as (Ex & _).
  destruct (bounded_exponent prec emax my ey Vy) as (Ey & _).
  apply SFltb_zero_signed. unfold SF64add, SFadd. cbn zeta. cbn [cond_Zopp].
  pose proof (binary_normalize_sign prec emax prec_pos64
    (Zpos (fst (shl_align mx ex (Z.min ex ey))) +
     Zpos (fst (shl_align my ey (Z.min ex ey)))) (Z.min ex ey) ltac:(lia)) as Hs.
  destruct (_ + _) eqn:E; try lia; exact Hs.
Qed.

(** The product of a number that is not negative and a positive finite
    number is not negative. *)
Lemma SFmul_nonneg (x y : spec_float) (my : positive) (ey : Z) :
  y = S754_finite false my ey ->
  SFleb (S754_zero false) x = true ->
  SFleb (S754_zero false) (SF64mul x y) = true.
Proof.
  intros -> Hx.
  destruct x as [sx|sx| |sx mx ex]; try discriminate Hx;
    try (destruct sx; try discriminate Hx; reflexivity).
  destruct sx; [discriminate Hx|].
  unfold SF64mul, SFmul. cbn [xorb].
  destruct (binary_round_aux_nonneg prec emax false (Zpos (mx * my)) (ex + ey) loc_Exact
              ltac:(lia)) as [[(m & e & ->) | ->] | ->]; reflexivity.
Qed.

(** [y - x] and [x - y] are not both positive. *)
Lemma SFsub_asym (x y : spec_float) :
  FloatAxioms.valid_binary x = true -> FloatAxioms.valid_binary y = true ->
  SFltb (S754_zero false) (SF64sub y x) = true ->
  SFltb (S754_zero false) (SF64sub x y) = false.
Proof.
  intros Vx Vy Hlt.
  destruct x as [sx|sx| |sx mx ex], y as [sy|sy| |sy my ey];
    try discriminate Hlt; try reflexivity;
    try (destruct sx, sy; try discriminate Hlt; reflexivity);
    try (destruct sx; try discriminate Hlt; reflexivity);
    try (destruct sy; try discriminate Hlt; reflexivity).
  cbn [SpecFloat.valid_binary] in Vx, Vy.
  destruct (bounded_exponent prec emax mx ex Vx) as (Ex & _).
  destruct (bounded_exponent prec emax my ey Vy) as (Ey & _).
  unfold SF64sub, SFsub in *. cbn zeta in *.
  rewrite (Z.min_comm ex ey).
  set (Mx := cond_Zopp sx (Zpos (fst (shl_align mx ex (Z.min ey ex))))) in *.
  set (My := cond_Zopp sy (Zpos (fst (shl_align my ey (Z.min ey ex))))) in *.
  pose proof (binary_normalize_sign prec emax prec_pos64 (My - Mx) (Z.min ey ex)
                ltac:(lia)) as Hs.
  pose proof (binary_normalize_sign prec emax prec_pos64 (Mx - My) (Z.min ey ex)
                ltac:(lia)) as Hs'.
  destruct (My - Mx) eqn:E.
  - rewrite Hs in Hlt. discriminate Hlt.
  - destruct (Mx - My) eqn:E'; try lia. apply SFltb_zero_signed_neg, Hs'.
  - rewrite (SFltb_zero_signed_neg _ Hs) in Hlt. discriminate Hlt.
Qed.

End Binary64.

(** *** Bounds on rounded values

    Rounding to nearest does not cross a number of the format: a value
    that is not above (below) a binary64 number is rounded to a number
    that is not above (below) it. *)

Section RoundingBounds.
Variables prec emax : Z.
Hypothesis prec_pos : (0 < prec)%Z.

Local Open Scope Z_scope.

Local Abbreviation emin := (SpecFloat.emin prec emax).
Local Abbreviation fexp := (SpecFloat.fexp prec emax).

Lemma fexp_mono (a b : Z) : a <= b -> fexp a <= fexp b.
Proof. unfold SpecFloat.fexp. lia. Qed.

Lemma pow2_pos (a : Z) : 0 <= a -> 0 < 2 ^ a.
Proof. intros Ha. apply Z.pow_pos_nonneg; lia. Qed.

Lemma pow2_split (a b : Z) : 0 <= a -> 0 <= b -> 2 ^ (a + b) = 2 ^ a * 2 ^ b.
Proof. intros Ha Hb. apply Z.pow_add_r; assumption. Qed.

Lemma digits2_pos_unique (p : positive) (a : Z) :
  2 ^ (a - 1) <= Zpos p < 2 ^ a -> Zpos (digits2_pos p) = a.
Proof.
  intros [Hlo Hhi]. pose proof (digits2_pos_bounds p) as [Dlo Dhi].
  set (d := Zpos (digits2_pos p)) in *.
  assert (Hd : 0 < d) by (subst d; lia).
  destruct (Z.lt_trichotomy d a) as [Hlt | [Heq | Hgt]]; [|exact Heq|].
  - assert (2 ^ d <= 2 ^ (a - 1)) by (apply Z.pow_le_mono_r; lia). lia.
  - assert (0 <= a).
    { destruct (Z.le_gt_cases 0 a) as [H0|H0]; [exact H0|].
      rewrite (Z.pow_neg_r 2 a H0) in Hhi. lia. }
    assert (2 ^ a <= 2 ^ (d - 1)) by (apply Z.pow_le_mono_r; lia). lia.
Qed.

(** A smaller value has no more digits above its exponent. *)
Lemma value_digits (m1 m2 : positive) (e1 e2 t : Z) :
  t <= e1 -> t <= e2 ->
  Zpos m1 * 2 ^ (e1 - t) <= Zpos m2 * 2 ^ (e2 - t) ->
  Zpos (digits2_pos m1) + e1 <= Zpos (digits2_pos m2) + e2.
Proof.
  intros T1 T2 Hle.
  pose proof (digits2_pos_bounds m1) as [L1 _].
  pose proof (digits2_pos_bounds m2) as [_ U2].
  set (d1 := Zpos (digits2_pos m1)) in *. set (d2 := Zpos (digits2_pos m2)) in *.
  assert (Hd1 : 0 < d1) by (subst d1; lia). assert (Hd2 : 0 < d2) by (subst d2; lia).
  assert (P1 : 0 < 2 ^ (e1 - t)) by (apply pow2_pos; lia).
  assert (P2 : 0 < 2 ^ (e2 - t)) by (apply pow2_pos; lia).
  assert (H1 : 2 ^ (d1 - 1 + (e1 - t)) <= Zpos m1 * 2 ^ (e1 - t)).
  { rewrite pow2_split by lia. nia. }
  assert (H2 : Zpos m2 * 2 ^ (e2 - t) < 2 ^ (d2 + (e2 - t))).
  { rewrite pow2_split by lia. nia. }
  assert (H3 : 2 ^ (d1 - 1 + (e1 - t)) < 2 ^ (d2 + (e2 - t))) by lia.
  apply Z.pow_lt_mono_r_iff in H3; lia.
Qed.

(** *** Shifting to the right *)

Lemma shr_1_exact (mrs : shr_record) :
  0 <= shr_m mrs -> shr_r mrs = false -> shr_s mrs = false -> (2 | shr_m mrs) ->
  shr_r (shr_1 mrs) = false /\ shr_s (shr_1 mrs) = false.
Proof.
  destruct mrs as [m r s]. cbn [shr_m shr_r shr_s]. intros Hm -> -> [k Hk].
  destruct m as [|[p|p|]|p]; cbn; try lia; auto.
Qed.

Lemma iter_shr_1_exact (n : positive) (mrs : shr_record) :
  0 <= shr_m mrs -> shr_r mrs = false -> shr_s mrs = false ->
  (2 ^ Zpos n | shr_m mrs) ->
  shr_r (SpecFloat.iter_pos shr_1 n mrs) = false /\
  shr_s (SpecFloat.iter_pos shr_1 n mrs) = false.
Proof.
  revert mrs. induction n as [n IH | n IH |]; intros mrs Hm Hr Hs [k Hk];
    cbn [SpecFloat.iter_pos].
  - assert (E : 2 ^ Zpos n~1 = 2 * (2 ^ Zpos n * 2 ^ Zpos n)).
    { rewrite <- Z.pow_add_r, <- Z.pow_succ_r by lia. f_equal. lia. }
    assert (P : 0 < 2 ^ Zpos n) by (apply pow2_pos; lia).
    rewrite E in Hk.
    destruct (shr_1_exact mrs Hm Hr Hs) as [Hr1 Hs1].
    { exists (k * (2 ^ Zpos n * 2 ^ Zpos n)). lia. }
    assert (M1 : shr_m (shr_1 mrs) = k * (2 ^ Zpos n * 2 ^ Zpos n)).
    { rewrite shr_1_m by exact Hm. rewrite Hk.
      replace (k * (2 * (2 ^ Zpos n * 2 ^ Zpos n))) with (k * (2 ^ Zpos n * 2 ^ Zpos n) * 2) by lia.
      apply Z.div_mul. lia. }
    assert (N1 : 0 <= shr_m (shr_1 mrs)) by (rewrite shr_1_m by exact Hm; apply Z.div_pos; lia).
    destruct (IH (shr_1 mrs) N1 Hr1 Hs1) as [Hr2 Hs2].
    { exists (k * 2 ^ Zpos n). rewrite M1. lia. }
    assert (M2 : shr_m (SpecFloat.iter_pos shr_1 n (shr_1 mrs)) = k * 2 ^ Zpos n).
    { rewrite iter_shr_1_m by exact N1. rewrite M1.
      replace (k * (2 ^ Zpos n * 2 ^ Zpos n)) with (k * 2 ^ Zpos n * 2 ^ Zpos n) by lia.
      apply Z.div_mul. lia. }
    apply IH; try assumption.
    + rewrite M2. rewrite M1 in N1. nia.
    + exists k. exact M2.
  - assert (E : 2 ^ Zpos n~0 = 2 ^ Zpos n * 2 ^ Zpos n).
    { rewrite <- Z.pow_add_r by lia. f_equal. lia. }
    assert (P : 0 < 2 ^ Zpos n) by (apply pow2_pos; lia).
    rewrite E in Hk.
    destruct (IH mrs Hm Hr Hs) as [Hr2 Hs2].
    { exists (k * 2 ^ Zpos n). lia. }
    assert (M2 : shr_m (SpecFloat.iter_pos shr_1 n mrs) = k * 2 ^ Zpos n).
    { rewrite iter_shr_1_m by exact Hm. rewrite Hk.
      replace (k * (2 ^ Zpos n * 2 ^ Zpos n)) with (k * 2 ^ Zpos n * 2 ^ Zpos n) by lia.
      apply Z.div_mul. lia. }
    apply IH; try assumption.
    + rewrite M2. nia.
    + exists k. exact M2.
  - apply shr_1_exact; try assumption. exists k. exact Hk.
Qed.

(** [shr_fexp] on an exact mantissa: the new exponent, the mantissa
    rounded down, and no lost digit when the division is exact. *)
Lemma shr_fexp_spec (m e : Z) :
  0 <= m ->
  let e' := Z.max e (fexp (Zdigits2 m + e)) in
  snd (shr_fexp prec emax m e loc_Exact) = e' /\
  shr_m (fst (shr_fexp prec emax m e loc_Exact)) = m / 2 ^ (e' - e) /\
  ((2 ^ (e' - e) | m) ->
   loc_of_shr_record (fst (shr_fexp prec emax m e loc_Exact)) = loc_Exact).
Proof.
  intros Hm e'. unfold shr_fexp, shr. cbn [shr_record_of_loc].
  destruct (SpecFloat.fexp prec emax (Zdigits2 m + e) - e) as [|n|n] eqn:En; cbn [fst snd].
  - replace (e' - e) with 0 by lia. rewrite Z.div_1_r.
    split; [lia|]. split; reflexivity.
  - assert (He' : e' - e = Zpos n) by lia. rewrite He'.
    split; [lia|]. split.
    + rewrite iter_shr_1_m by (cbn; exact Hm). reflexivity.
    + intros Hd.
      destruct (iter_shr_1_exact n {| shr_m := m; shr_r := false; shr_s := false |})
        as [Hr Hs]; try reflexivity; try assumption.
      destruct (SpecFloat.iter_pos shr_1 n _) as [m' r' s']. cbn in Hr, Hs.
      rewrite Hr, Hs. reflexivity.
  - replace (e' - e) with 0 by lia. rewrite Z.div_1_r.
    split; [lia|]. split; reflexivity.
Qed.

Lemma round_nearest_even_exact (m : Z) : round_nearest_even m loc_Exact = m.
Proof. reflexivity. Qed.

Lemma round_nearest_even_succ (m : Z) (l : location) : round_nearest_even m l <= m + 1.
Proof. destruct l as [|[]]; cbn; try lia. destruct (Z.even m); lia. Qed.

(** The first step of a rounding: the mantissa [m] at exponent [e]
    becomes [m'] at the exponent [e'] of its format, less than one unit
    of [e'] away. *)
Lemma round_step (m e : Z) :
  0 <= m ->
  let e' := snd (shr_fexp prec emax m e loc_Exact) in
  let mrs := fst (shr_fexp prec emax m e loc_Exact) in
  let m' := round_nearest_even (shr_m mrs) (loc_of_shr_record mrs) in
  e' = Z.max e (fexp (Zdigits2 m + e)) /\
  m - 2 ^ (e' - e) < m' * 2 ^ (e' - e) < m + 2 ^ (e' - e).
Proof.
  intros Hm e' mrs m'.
  destruct (shr_fexp_spec m e Hm) as (He & Hq & Hx).
  fold e' in He. rewrite <- He in Hq, Hx. fold mrs in Hq, Hx.
  split; [exact He|].
  assert (P : 0 < 2 ^ (e' - e)) by (apply pow2_pos; lia).
  pose proof (Z.div_mod m (2 ^ (e' - e)) ltac:(lia)) as Hdm.
  pose proof (Z.mod_pos_bound m (2 ^ (e' - e)) P) as Hr.
  pose proof (round_nearest_even_le (shr_m mrs) (loc_of_shr_record mrs)) as Hlo.
  pose proof (round_nearest_even_succ (shr_m mrs) (loc_of_shr_record mrs)) as Hhi.
  fold m' in Hlo, Hhi. rewrite Hq in Hlo, Hhi.
  destruct (Z.eq_dec (m mod 2 ^ (e' - e)) 0) as [Hz | Hnz].
  - assert (Hd : (2 ^ (e' - e) | m)) by (apply Z.mod_divide; [lia | exact Hz]).
    assert (Em : m' = m / 2 ^ (e' - e)).
    { unfold m'. rewrite (Hx Hd). cbn. exact Hq. }
    rewrite Em. nia.
  - nia.
Qed.

(** The second step: the mantissa is shifted once more if the rounding
    has made it one digit longer. *)
Lemma floor_step (m e : Z) :
  0 <= m ->
  let e' := snd (shr_fexp prec emax m e loc_Exact) in
  let m' := shr_m (fst (shr_fexp prec emax m e loc_Exact)) in
  e' = Z.max e (fexp (Zdigits2 m + e)) /\
  m - 2 ^ (e' - e) < m' * 2 ^ (e' - e) <= m.
Proof.
  intros Hm e' m'.
  destruct (shr_fexp_spec m e Hm) as (He & Hq & _).
  fold e' in He. rewrite <- He in Hq. fold m' in Hq.
  split; [exact He|].
  assert (P : 0 < 2 ^ (e' - e)) by (apply pow2_pos; lia).
  pose proof (Z.div_mod m (2 ^ (e' - e)) ltac:(lia)) as Hdm.
  pose proof (Z.mod_pos_bound m (2 ^ (e' - e)) P) as Hr.
  rewrite Hq. nia.
Qed.

Lemma bounded_canonical (m : positive) (e : Z) :
  bounded prec emax m e = true ->
  fexp (Zpos (digits2_pos m) + e) = e /\ e <= emax - prec.
Proof.
  unfold bounded, canonical_mantissa. intros Hb.
  apply andb_prop in Hb. destruct Hb as [Hc He].
  apply Z.eqb_eq in Hc. apply Z.leb_le in He. auto.
Qed.

Lemma mul_pow2_le_cancel (a b k : Z) : 0 <= k -> a * 2 ^ k <= b * 2 ^ k -> a <= b.
Proof. intros Hk H. pose proof (pow2_pos k Hk). nia. Qed.

Lemma mul_pow2_lt_cancel (a b k : Z) : 0 <= k -> a * 2 ^ k < b * 2 ^ k -> a < b.
Proof. intros Hk H. pose proof (pow2_pos k Hk). nia. Qed.

(** A step of the rounding keeps the value below a number of the
    format that was above it. *)
Lemma step_ub (m : positive) (m' e e' : Z) (mc : positive) (ec t : Z) :
  e' = Z.max e (fexp (Zpos (digits2_pos m) + e)) ->
  m' * 2 ^ (e' - e) < Zpos m + 2 ^ (e' - e) ->
  bounded prec emax mc ec = true ->
  t <= e -> e <= ec ->
  Zpos m * 2 ^ (e - t) <= Zpos mc * 2 ^ (ec - t) ->
  e' <= ec /\ m' * 2 ^ (e' - t) <= Zpos mc * 2 ^ (ec - t).
Proof.
  intros He' Hm' Hb Ht Hec Hle.
  destruct (bounded_canonical mc ec Hb) as [Hc _].
  pose proof (value_digits m mc e ec t Ht ltac:(lia) Hle) as Hd.
  pose proof (fexp_mono _ _ Hd) as Hf. rewrite Hc in Hf.
  assert (E1 : e' <= ec) by lia. split; [exact E1|].
  set (K := Zpos mc * 2 ^ (ec - e')).
  assert (EK : Zpos mc * 2 ^ (ec - t) = K * 2 ^ (e' - t)).
  { unfold K. rewrite <- Z.mul_assoc, <- pow2_split by lia. do 2 f_equal. lia. }
  rewrite EK in *.
  assert (E2 : 2 ^ (e' - t) = 2 ^ (e' - e) * 2 ^ (e - t)).
  { rewrite <- pow2_split by lia. f_equal. lia. }
  assert (HmK : Zpos m <= K * 2 ^ (e' - e)).
  { apply (mul_pow2_le_cancel _ _ (e - t)); [lia|]. rewrite E2 in Hle. lia. }
  assert (Hlt : m' < K + 1).
  { apply (mul_pow2_lt_cancel _ _ (e' - e)); [lia|]. lia. }
  pose proof (pow2_pos (e' - t) ltac:(lia)). nia.
Qed.

(** A step of the rounding keeps the value above a number of the
    format that was below it. *)
Lemma step_lb (m : positive) (m' e e' : Z) (mc : positive) (ec t : Z) :
  e' = Z.max e (fexp (Zpos (digits2_pos m) + e)) ->
  Zpos m - 2 ^ (e' - e) < m' * 2 ^ (e' - e) ->
  bounded prec emax mc ec = true ->
  t <= e -> t <= emin ->
  Zpos mc * 2 ^ (ec - t) <= Zpos m * 2 ^ (e - t) ->
  Zpos mc * 2 ^ (ec - t) <= m' * 2 ^ (e' - t).
Proof.
  intros He' Hm' Hb Ht Htm Hle.
  destruct (bounded_exponent prec emax mc ec Hb) as (Eec & Dc & _).
  assert (E2 : 2 ^ (e' - t) = 2 ^ (e' - e) * 2 ^ (e - t)).
  { rewrite <- pow2_split by lia. f_equal. lia. }
  pose proof (pow2_pos (e - t) ltac:(lia)) as Pet.
  pose proof (pow2_pos (e' - e) ltac:(lia)) as Pn.
  destruct (Z.le_gt_cases e' ec) as [Hec | Hec].
  - set (K := Zpos mc * 2 ^ (ec - e')).
    assert (EK : Zpos mc * 2 ^ (ec - t) = K * 2 ^ (e' - t)).
    { unfold K. rewrite <- Z.mul_assoc, <- pow2_split by lia. do 2 f_equal. lia. }
    rewrite EK in *.
    assert (HmK : K * 2 ^ (e' - e) <= Zpos m).
    { apply (mul_pow2_le_cancel _ _ (e - t)); [lia|]. rewrite E2 in Hle. lia. }
    assert (Hlt : K < m' + 1).
    { apply (mul_pow2_lt_cancel _ _ (e' - e)); [lia|]. lia. }
    pose proof (pow2_pos (e' - t) ltac:(lia)). nia.
  - destruct (Z.eq_dec e' e) as [Hee | Hne].
    + rewrite Hee in *. rewrite Z.sub_diag in Hm'. change (2 ^ 0) with 1 in Hm'.
      assert (Zpos m <= m') by lia. nia.
    + pose proof (digits2_pos_bounds m) as [Lm _].
      set (d := Zpos (digits2_pos m)) in *.
      assert (Hn : e' - e = d - prec) by (unfold SpecFloat.fexp in He'; lia).
      assert (Hd : d - 1 = (prec - 1) + (e' - e)) by lia.
      rewrite Hd, pow2_split in Lm by lia.
      assert (Hm2 : 2 ^ (prec - 1) - 1 < m').
      { apply (mul_pow2_lt_cancel _ _ (e' - e)); [lia|]. lia. }
      pose proof (digits2_pos_bounds mc) as [_ Uc].
      assert (Hc2 : Zpos mc < 2 ^ prec).
      { eapply Z.lt_le_trans; [exact Uc|]. apply Z.pow_le_mono_r; lia. }
      assert (Hp : 2 ^ prec = 2 ^ (prec - 1) * 2).
      { replace prec with (Z.succ (prec - 1)) at 1 by lia. rewrite Z.pow_succ_r by lia. lia. }
      assert (Hq : 2 * 2 ^ (ec - t) <= 2 ^ (e' - t)).
      { replace (e' - t) with (Z.succ (ec - t) + (e' - ec - 1)) by lia.
        rewrite pow2_split, Z.pow_succ_r by lia.
        pose proof (pow2_pos (e' - ec - 1) ltac:(lia)).
        pose proof (pow2_pos (ec - t) ltac:(lia)). nia. }
      pose proof (pow2_pos (ec - t) ltac:(lia)).
      pose proof (pow2_pos (prec - 1) ltac:(lia)).
      nia.
Qed.

Lemma shr_m_nonneg (m e : Z) :
  0 <= m -> 0 <= shr_m (fst (shr_fexp prec emax m e loc_Exact)).
Proof. apply shr_fexp_nonneg. Qed.

(** Rounding a value that is not above a number of the format gives a
    number that is not above it. *)
Lemma binary_round_aux_ub (s : bool) (m : positive) (e : Z) (mc : positive) (ec t : Z) :
  bounded prec emax mc ec = true ->
  t <= e -> e <= ec ->
  Zpos m * 2 ^ (e - t) <= Zpos mc * 2 ^ (ec - t) ->
  binary_round_aux prec emax s (Zpos m) e loc_Exact = S754_zero s \/
  exists m3 e3,
    binary_round_aux prec emax s (Zpos m) e loc_Exact = S754_finite s m3 e3 /\
    t <= e3 /\ Zpos m3 * 2 ^ (e3 - t) <= Zpos mc * 2 ^ (ec - t).
Proof.
  intros Hb Ht Hec Hle. unfold binary_round_aux.
  destruct (round_step (Zpos m) e ltac:(lia)) as (He1 & _ & Hhi).
  pose proof (shr_m_nonneg (Zpos m) e ltac:(lia)) as N1.
  pose proof (round_nearest_even_le
                (shr_m (fst (shr_fexp prec emax (Zpos m) e loc_Exact)))
                (loc_of_shr_record (fst (shr_fexp prec emax (Zpos m) e loc_Exact)))) as N2.
  destruct (shr_fexp prec emax (Zpos m) e loc_Exact) as [mrs1 e1]. cbn [fst snd] in *.
  set (m2 := round_nearest_even (shr_m mrs1) (loc_of_shr_record mrs1)) in *.
  cbn [Zdigits2] in He1.
  destruct (step_ub m m2 e e1 mc ec t He1 Hhi Hb Ht Hec Hle) as [E1 V1].
  destruct (floor_step m2 e1 ltac:(lia)) as (He3 & Hlo3 & Hhi3).
  pose proof (shr_m_nonneg m2 e1 ltac:(lia)) as N3.
  destruct (shr_fexp prec emax m2 e1 loc_Exact) as [mrs3 e3]. cbn [fst snd] in *.
  destruct m2 as [|p2|p2] eqn:Em2; try lia.
  - assert (Z3 : shr_m mrs3 = 0).
    { pose proof (pow2_pos (e3 - e1) ltac:(lia)). nia. }
    rewrite Z3. left. reflexivity.
  - cbn [Zdigits2] in He3.
    destruct (step_ub p2 (shr_m mrs3) e1 e3 mc ec t He3 ltac:(pose proof (pow2_pos (e3 - e1) ltac:(lia)); lia)
                Hb ltac:(lia) E1 V1) as [E3 V3].
    destruct (shr_m mrs3) as [|m3|m3]; try lia.
    + left. reflexivity.
    + right. exists m3, e3.
      destruct (bounded_canonical mc ec Hb) as [_ Hmax].
      rewrite (proj2 (Z.leb_le e3 (emax - prec)) ltac:(lia)).
      split; [reflexivity|]. split; [lia | exact V3].
Qed.

(** Rounding a value that is not below a number of the format gives a
    number that is not below it. *)
Lemma binary_round_aux_lb (s : bool) (m : positive) (e : Z) (mc : positive) (ec t : Z) :
  bounded prec emax mc ec = true ->
  t <= e -> t <= emin ->
  Zpos mc * 2 ^ (ec - t) <= Zpos m * 2 ^ (e - t) ->
  binary_round_aux prec emax s (Zpos m) e loc_Exact = S754_infinity s \/
  exists m3 e3,
    binary_round_aux prec emax s (Zpos m) e loc_Exact = S754_finite s m3 e3 /\
    t <= e3 /\ Zpos mc * 2 ^ (ec - t) <= Zpos m3 * 2 ^ (e3 - t).
Proof.
  intros Hb Ht Htm Hle. unfold binary_round_aux.
  destruct (bounded_exponent prec emax mc ec Hb) as (Eec & _ & _).
  destruct (round_step (Zpos m) e ltac:(lia)) as (He1 & Hlo & _).
  destruct (shr_fexp prec emax (Zpos m) e loc_Exact) as [mrs1 e1]. cbn [fst snd] in *.
  set (m2 := round_nearest_even (shr_m mrs1) (loc_of_shr_record mrs1)) in *.
  cbn [Zdigits2] in He1.
  pose proof (step_lb m m2 e e1 mc ec t He1 Hlo Hb Ht Htm Hle) as V1.
  pose proof (pow2_pos (ec - t) ltac:(lia)) as Pc.
  pose proof (pow2_pos (e1 - t) ltac:(lia)) as P1.
  destruct m2 as [|p2|p2] eqn:Em2; try nia.
  destruct (floor_step (Zpos p2) e1 ltac:(lia)) as (He3 & Hlo3 & _).
  destruct (shr_fexp prec emax (Zpos p2) e1 loc_Exact) as [mrs3 e3]. cbn [fst snd] in *.
  cbn [Zdigits2] in He3.
  pose proof (step_lb p2 (shr_m mrs3) e1 e3 mc ec t He3 Hlo3 Hb ltac:(lia) Htm V1) as V3.
  pose proof (pow2_pos (e3 - t) ltac:(lia)) as P3.
  destruct (shr_m mrs3) as [|m3|m3]; try nia.
  destruct (e3 <=? emax - prec); [right | left; reflexivity].
  exists m3, e3. split; [reflexivity|]. split; [lia | exact V3].
Qed.

Lemma shl_align_pair (m : positive) (e f : Z) :
  exists mz, shl_align m e f = (mz, Z.min e f) /\ Zpos mz = Zpos m * 2 ^ (e - Z.min e f).
Proof.
  pose proof (shl_align_value m e (Z.min e f) ltac:(lia)) as Hv.
  unfold shl_align in *. destruct (f - e) as [|d|d] eqn:Ed.
  - exists m. replace (Z.min e f) with e by lia. rewrite Z.sub_diag. split; [reflexivity | lia].
  - exists m. replace (Z.min e f) with e by lia. rewrite Z.sub_diag. split; [reflexivity | lia].
  - replace (Z.min e f) with f in * by lia. rewrite Ed in Hv. cbn [fst] in Hv.
    eexists. split; [reflexivity | exact Hv].
Qed.

Lemma binary_round_ub (s : bool) (m : positive) (e : Z) (mc : positive) (ec t : Z) :
  bounded prec emax mc ec = true ->
  t <= emin -> t <= e ->
  Zpos m * 2 ^ (e - t) <= Zpos mc * 2 ^ (ec - t) ->
  binary_round prec emax s m e = S754_zero s \/
  exists m3 e3,
    binary_round prec emax s m e = S754_finite s m3 e3 /\
    t <= e3 /\ Zpos m3 * 2 ^ (e3 - t) <= Zpos mc * 2 ^ (ec - t).
Proof.
  intros Hb Htm Ht Hle. unfold binary_round.
  destruct (bounded_canonical mc ec Hb) as [Hc _].
  destruct (bounded_exponent prec emax mc ec Hb) as (Eec & _ & _).
  pose proof (value_digits m mc e ec t Ht ltac:(lia) Hle) as Hd.
  pose proof (fexp_mono _ _ Hd) as Hf. rewrite Hc in Hf.
  pose proof (fexp_emin prec emax (Zpos (digits2_pos m) + e)) as Hfm.
  set (f := SpecFloat.fexp prec emax (Zpos (digits2_pos m) + e)) in *.
  destruct (shl_align_pair m e f) as (mz & -> & Hz).
  apply binary_round_aux_ub; try assumption; try lia.
  rewrite Hz, <- Z.mul_assoc, <- pow2_split by lia.
  replace (e - Z.min e f + (Z.min e f - t)) with (e - t) by lia. exact Hle.
Qed.

Lemma binary_round_lb (s : bool) (m : positive) (e : Z) (mc : positive) (ec t : Z) :
  bounded prec emax mc ec = true ->
  t <= emin -> t <= e ->
  Zpos mc * 2 ^ (ec - t) <= Zpos m * 2 ^ (e - t) ->
  binary_round prec emax s m e = S754_infinity s \/
  exists m3 e3,
    binary_round prec emax s m e = S754_finite s m3 e3 /\
    t <= e3 /\ Zpos mc * 2 ^ (ec - t) <= Zpos m3 * 2 ^ (e3 - t).
Proof.
  intros Hb Htm Ht Hle. unfold binary_round.
  pose proof (fexp_emin prec emax (Zpos (digits2_pos m) + e)) as Hfm.
  set (f := SpecFloat.fexp prec emax (Zpos (digits2_pos m) + e)) in *.
  destruct (shl_align_pair m e f) as (mz & -> & Hz).
  apply binary_round_aux_lb; try assumption; try lia.
  rewrite Hz, <- Z.mul_assoc, <- pow2_split by lia.
  replace (e - Z.min e f + (Z.min e f - t)) with (e - t) by lia. exact Hle.
Qed.

End RoundingBounds.

(** *** Comparison through exact values *)

Section Scaled.
Local Open Scope Z_scope.

Lemma finite_positive (m : positive) (e : Z) :
  bounded prec emax m e = true -> -1074 <= e /\ 0 < Zpos m * 2 ^ (e + 1074).
Proof.
  intros Hb. destruct (bounded_exponent prec emax m e Hb) as (He & _).
  change (SpecFloat.emin prec emax) with (-1074) in He.
  split; [exact He|]. pose proof (pow2_pos (e + 1074) ltac:(lia)). lia.
Qed.

Lemma lex_scaled (m1 m2 : positive) (e1 e2 : Z) :
  bounded prec emax m1 e1 = true -> bounded prec emax m2 e2 = true ->
  (e1 < e2 \/ (e1 = e2 /\ (m1 < m2)%positive)) ->
  Zpos m1 * 2 ^ (e1 + 1074) < Zpos m2 * 2 ^ (e2 + 1074).
Proof.
  intros B1 B2 Hlt.
  pose proof (aligned_lt prec emax prec_pos64 m1 m2 e1 e2 B1 B2 Hlt) as Ha.
  rewrite (shl_align_value m1 e1 (Z.min e1 e2)) in Ha by apply Z.le_min_l.
  rewrite (shl_align_value m2 e2 (Z.min e1 e2)) in Ha by apply Z.le_min_r.
  destruct (finite_positive m1 e1 B1) as [E1 _].
  destruct (finite_positive m2 e2 B2) as [E2 _].
  assert (T1 : Z.min e1 e2 <= e1) by lia. assert (T2 : Z.min e1 e2 <= e2) by lia.
  assert (T3 : -1074 <= Z.min e1 e2) by lia.
  set (t := Z.min e1 e2) in *. clearbody t.
  assert (P : 0 < 2 ^ (t + 1074)) by (apply pow2_pos; lia).
  replace (e1 + 1074) with ((e1 - t) + (t + 1074)) by lia.
  replace (e2 + 1074) with ((e2 - t) + (t + 1074)) by lia.
  rewrite (pow2_split (e1 - t)), (pow2_split (e2 - t)) by lia. rewrite !Z.mul_assoc.
  apply Z.mul_lt_mono_pos_r; [exact P | exact Ha].
Qed.

Lemma SFcompare_scaled (x y : spec_float) :
  FloatAxioms.valid_binary x = true -> FloatAxioms.valid_binary y = true ->
  SFfinite x = true -> SFfinite y = true ->
  SFcompare x y = Some (scaled x ?= scaled y).
Proof.
  intros Vx Vy Fx Fy.
  destruct x as [sx|sx| |sx mx ex], y as [sy|sy| |sy my ey]; try discriminate;
    cbn [scaled SFcompare SpecFloat.valid_binary] in *.
  - reflexivity.
  - destruct (finite_positive my ey Vy) as [_ Py].
    destruct sy; cbn [cond_Zopp]; f_equal; symmetry;
      [apply Z.compare_gt_iff | apply Z.compare_lt_iff]; lia.
  - destruct (finite_positive mx ex Vx) as [_ Px].
    destruct sx; cbn [cond_Zopp]; f_equal; symmetry;
      [apply Z.compare_lt_iff | apply Z.compare_gt_iff]; lia.
  - destruct (finite_positive mx ex Vx) as [_ Px].
    destruct (finite_positive my ey Vy) as [_ Py].
    assert (Hlex : forall m1 m2 e1 e2,
              bounded prec emax m1 e1 = true -> bounded prec emax m2 e2 = true ->
              match e1 ?= e2 with
              | Lt => Lt
              | Gt => Gt
              | Eq => Pos.compare_cont Eq m1 m2
              end = (Zpos m1 * 2 ^ (e1 + 1074) ?= Zpos m2 * 2 ^ (e2 + 1074))).
    { intros m1 m2 e1 e2 B1 B2. symmetry.
      destruct (e1 ?= e2) eqn:E.
      - apply Z.compare_eq in E. subst e2.
        change (Pos.compare_cont Eq m1 m2) with (m1 ?= m2)%positive.
        destruct (m1 ?= m2)%positive eqn:C.
        + apply Pos.compare_eq in C. subst m2. apply Z.compare_refl.
        + apply Z.compare_lt_iff. apply lex_scaled; auto.
        + apply Pos.compare_gt_iff in C. apply Z.compare_gt_iff.
          apply lex_scaled; auto.
      - apply Z.compare_lt_iff in E. apply Z.compare_lt_iff. apply lex_scaled; auto.
      - apply Z.compare_gt_iff in E. apply Z.compare_gt_iff. apply lex_scaled; auto. }
    destruct sx, sy; cbn [cond_Zopp]; f_equal.
    + rewrite Z.compare_opp, (Z.compare_antisym (Zpos mx * 2 ^ (ex + 1074))),
        <- (Hlex mx my ex ey Vx Vy).
      destruct (ex ?= ey); reflexivity.
    + symmetry. apply Z.compare_lt_iff. lia.
    + symmetry. apply Z.compare_gt_iff. lia.
    + apply Hlex; assumption.
Qed.

Lemma SFleb_scaled (x y : spec_float) :
  FloatAxioms.valid_binary x = true -> FloatAxioms.valid_binary y = true ->
  SFfinite x = true -> SFfinite y = true ->
  SFleb x y = (scaled x <=? scaled y).
Proof.
  intros Vx Vy Fx Fy. unfold SFleb. rewrite SFcompare_scaled by assumption.
  unfold Z.leb. destruct (scaled x ?= scaled y); reflexivity.
Qed.

Lemma SFltb_scaled (x y : spec_float) :
  FloatAxioms.valid_binary x = true -> FloatAxioms.valid_binary y = true ->
  SFfinite x = true -> SFfinite y = true ->
  SFltb x y = (scaled x <? scaled y).
Proof.
  intros Vx Vy Fx Fy. unfold SFltb. rewrite SFcompare_scaled by assumption.
  unfold Z.ltb. destruct (scaled x ?= scaled y); reflexivity.
Qed.

End Scaled.

(** *** The rounded operations against a finite bound *)

Section Operations.
Local Open Scope Z_scope.

Local Abbreviation valid := FloatAxioms.valid_binary.

Lemma scaled_positive (m : positive) (e : Z) :
  bounded prec emax m e = true -> 0 < scaled (S754_finite false m e).
Proof. intros Hb. cbn [scaled cond_Zopp]. apply finite_positive, Hb. Qed.

Lemma scaled_negative (m : positive) (e : Z) :
  bounded prec emax m e = true -> scaled (S754_finite true m e) < 0.
Proof. intros Hb. cbn [scaled cond_Zopp]. destruct (finite_positive m e Hb). lia. Qed.

Lemma pow2_shift (e : Z) : e - -1074 = e + 1074.
Proof. lia. Qed.

(** The sum of two aligned mantissas, rounded, against a finite bound. *)
Lemma binary_normalize_le (M ez : Z) (c : spec_float) :
  -1074 <= ez -> valid c = true -> SFfinite c = true ->
  M * 2 ^ (ez + 1074) <= scaled c ->
  valid (binary_normalize prec emax M ez false) = true ->
  SFleb (binary_normalize prec emax M ez false) c = true.
Proof.
  intros Hez Vc Fc Hle Vr.
  pose proof (pow2_pos (ez + 1074) ltac:(lia)) as Pz.
  destruct M as [|p|p]; cbn [binary_normalize] in *.
  - rewrite SFleb_scaled by (assumption || reflexivity). apply Z.leb_le. cbn [scaled cond_Zopp]. lia.
  - destruct c as [sc|sc| |sc mc ec]; try discriminate; cbn [scaled] in Hle; try lia.
    cbn [SpecFloat.valid_binary] in Vc.
    destruct sc; [pose proof (scaled_negative mc ec Vc) as Hn; cbn [scaled cond_Zopp] in Hn, Hle; lia|].
    cbn [cond_Zopp] in Hle.
    destruct (binary_round_ub prec emax false p ez mc ec (-1074) Vc)
      as [Hr | (m3 & e3 & Hr & He3 & Hv)];
      try (change (SpecFloat.emin prec emax) with (-1074); lia).
    + rewrite !pow2_shift. exact Hle.
    + rewrite Hr. reflexivity.
    + rewrite Hr in *. rewrite !pow2_shift in Hv.
      rewrite SFleb_scaled by (assumption || reflexivity). apply Z.leb_le. exact Hv.
  - assert (Hs : signed true (binary_round prec emax true p ez)).
    { apply binary_round_pos; [exact prec_pos64|].
      change (SpecFloat.emin prec emax) with (-1074). exact Hez. }
    destruct c as [sc|sc| |sc mc ec]; try discriminate.
    + destruct Hs as [(m3 & e3 & ->) | ->]; reflexivity.
    + cbn [SpecFloat.valid_binary] in Vc. destruct sc.
      * cbn [scaled cond_Zopp] in Hle.
        destruct (binary_round_lb prec emax prec_pos64 true p ez mc ec (-1074) Vc)
          as [Hr | (m3 & e3 & Hr & He3 & Hv)];
          try (change (SpecFloat.emin prec emax) with (-1074); lia).
        -- rewrite !pow2_shift. lia.
        -- rewrite Hr. reflexivity.
        -- rewrite Hr in *. rewrite !pow2_shift in Hv.
           rewrite SFleb_scaled by (assumption || reflexivity). apply Z.leb_le.
           cbn [scaled cond_Zopp]. lia.
      * destruct Hs as [(m3 & e3 & ->) | ->]; reflexivity.
Qed.

Lemma binary_normalize_ge (M ez : Z) (c : spec_float) :
  -1074 <= ez -> valid c = true -> SFfinite c = true ->
  scaled c <= M * 2 ^ (ez + 1074) ->
  valid (binary_normalize prec emax M ez false) = true ->
  SFleb c (binary_normalize prec emax M ez false) = true.
Proof.
  intros Hez Vc Fc Hle Vr.
  pose proof (pow2_pos (ez + 1074) ltac:(lia)) as Pz.
  destruct M as [|p|p]; cbn [binary_normalize] in *.
  - rewrite SFleb_scaled by (assumption || reflexivity). apply Z.leb_le. cbn [scaled cond_Zopp]. lia.
  - assert (Hs : signed false (binary_round prec emax false p ez)).
    { apply binary_round_pos; [exact prec_pos64|].
      change (SpecFloat.emin prec emax) with (-1074). exact Hez. }
    destruct c as [sc|sc| |sc mc ec]; try discriminate.
    + destruct Hs as [(m3 & e3 & ->) | ->]; destruct sc; reflexivity.
    + cbn [SpecFloat.valid_binary] in Vc. destruct sc.
      * destruct Hs as [(m3 & e3 & ->) | ->]; reflexivity.
      * cbn [scaled cond_Zopp] in Hle.
        destruct (binary_round_lb prec emax prec_pos64 false p ez mc ec (-1074) Vc)
          as [Hr | (m3 & e3 & Hr & He3 & Hv)];
          try (change (SpecFloat.emin prec emax) with (-1074); lia).
        -- rewrite !pow2_shift. lia.
        -- rewrite Hr. reflexivity.
        -- rewrite Hr in *. rewrite !pow2_shift in Hv.
           rewrite SFleb_scaled by (assumption || reflexivity). apply Z.leb_le. exact Hv.
  - destruct c as [sc|sc| |sc mc ec]; try discriminate; cbn [scaled] in Hle; try lia.
    cbn [SpecFloat.valid_binary] in Vc.
    destruct sc; [|pose proof (scaled_positive mc ec Vc) as Hn; cbn [scaled cond_Zopp] in Hn, Hle; lia].
    cbn [cond_Zopp] in Hle.
    destruct (binary_round_ub prec emax true p ez mc ec (-1074) Vc)
      as [Hr | (m3 & e3 & Hr & He3 & Hv)];
      try (change (SpecFloat.emin prec emax) with (-1074); lia).
    + rewrite !pow2_shift. lia.
    + rewrite Hr. reflexivity.
    + rewrite Hr in *. rewrite !pow2_shift in Hv.
      rewrite SFleb_scaled by (assumption || reflexivity). apply Z.leb_le.
      cbn [scaled cond_Zopp]. lia.
Qed.

Lemma aligned_scaled (s : bool) (m : positive) (e ez : Z) :
  ez <= e -> -1074 <= ez ->
  cond_Zopp s (Zpos (fst (shl_align m e ez))) * 2 ^ (ez + 1074)
  = scaled (S754_finite s m e).
Proof.
  intros H1 H2. rewrite shl_align_value by exact H1. cbn [scaled].
  replace (e + 1074) with ((e - ez) + (ez + 1074)) by lia.
  rewrite (pow2_split (e - ez) (ez + 1074)) by lia. destruct s; cbn [cond_Zopp]; ring.
Qed.

Lemma valid_exponent (s : bool) (m : positive) (e : Z) :
  valid (S754_finite s m e) = true -> -1074 <= e.
Proof. intros V. apply (finite_positive m e V). Qed.

Lemma SFleb_of_scaled (x y : spec_float) :
  valid x = true -> valid y = true -> SFfinite x = true -> SFfinite y = true ->
  scaled x <= scaled y -> SFleb x y = true.
Proof. intros. rewrite SFleb_scaled by assumption. apply Z.leb_le. assumption. Qed.

(** *** Sums and differences *)

Lemma SFadd_le (x y c : spec_float) :
  valid x = true -> valid y = true -> valid c = true ->
  SFfinite x = true -> SFfinite y = true -> SFfinite c = true ->
  scaled x + scaled y <= scaled c ->
  valid (SF64add x y) = true ->
  SFleb (SF64add x y) c = true.
Proof.
  intros Vx Vy Vc Fx Fy Fc Hle Vr.
  destruct x as [sx|sx| |sx mx ex], y as [sy|sy| |sy my ey]; try discriminate.
  - apply SFleb_of_scaled; try assumption; destruct sx, sy; try reflexivity; exact Hle.
  - apply SFleb_of_scaled; assumption.
  - apply SFleb_of_scaled; try assumption. unfold SF64add, SFadd. cbn [scaled] in *. lia.
  - unfold SF64add, SFadd in *. cbn zeta in *.
    pose proof (valid_exponent _ _ _ Vx). pose proof (valid_exponent _ _ _ Vy).
    apply binary_normalize_le; try assumption; try lia.
    rewrite Z.mul_add_distr_r, !aligned_scaled by lia. exact Hle.
Qed.

Lemma SFadd_ge (x y c : spec_float) :
  valid x = true -> valid y = true -> valid c = true ->
  SFfinite x = true -> SFfinite y = true -> SFfinite c = true ->
  scaled c <= scaled x + scaled y ->
  valid (SF64add x y) = true ->
  SFleb c (SF64add x y) = true.
Proof.
  intros Vx Vy Vc Fx Fy Fc Hle Vr.
  destruct x as [sx|sx| |sx mx ex], y as [sy|sy| |sy my ey]; try discriminate.
  - apply SFleb_of_scaled; try assumption; destruct sx, sy; try reflexivity; exact Hle.
  - apply SFleb_of_scaled; assumption.
  - apply SFleb_of_scaled; try assumption. unfold SF64add, SFadd. cbn [scaled] in *. lia.
  - unfold SF64add, SFadd in *. cbn zeta in *.
    pose proof (valid_exponent _ _ _ Vx). pose proof (valid_exponent _ _ _ Vy).
    apply binary_normalize_ge; try assumption; try lia.
    rewrite Z.mul_add_distr_r, !aligned_scaled by lia. exact Hle.
Qed.

Lemma scaled_opp (s : bool) (m : positive) (e : Z) :
  scaled (S754_finite (negb s) m e) = - scaled (S754_finite s m e).
Proof. destruct s; cbn [scaled cond_Zopp negb]; lia. Qed.

Lemma SFsub_le (x y c : spec_float) :
  valid x = true -> valid y = true -> valid c = true ->
  SFfinite x = true -> SFfinite y = true -> SFfinite c = true ->
  scaled x - scaled y <= scaled c ->
  valid (SF64sub x y) = true ->
  SFleb (SF64sub x y) c = true.
Proof.
  intros Vx Vy Vc Fx Fy Fc Hle Vr.
  destruct x as [sx|sx| |sx mx ex], y as [sy|sy| |sy my ey]; try discriminate.
  - apply SFleb_of_scaled; try assumption; destruct sx, sy; try reflexivity; exact Hle.
  - apply SFleb_of_scaled; try assumption.
    unfold SF64sub, SFsub. rewrite scaled_opp. cbn [scaled] in *. lia.
  - apply SFleb_of_scaled; try assumption. unfold SF64sub, SFsub. cbn [scaled] in *. lia.
  - unfold SF64sub, SFsub in *. cbn zeta in *.
    pose proof (valid_exponent _ _ _ Vx). pose proof (valid_exponent _ _ _ Vy).
    apply binary_normalize_le; try assumption; try lia.
    rewrite Z.mul_sub_distr_r, !aligned_scaled by lia. exact Hle.
Qed.

Lemma SFsub_ge (x y c : spec_float) :
  valid x = true -> valid y = true -> valid c = true ->
  SFfinite x = true -> SFfinite y = true -> SFfinite c = true ->
  scaled c <= scaled x - scaled y ->
  valid (SF64sub x y) = true ->
  SFleb c (SF64sub x y) = true.
Proof.
  intros Vx Vy Vc Fx Fy Fc Hle Vr.
  destruct x as [sx|sx| |sx mx ex], y as [sy|sy| |sy my ey]; try discriminate.
  - apply SFleb_of_scaled; try assumption; destruct sx, sy; try reflexivity; exact Hle.
  - apply SFleb_of_scaled; try assumption.
    unfold SF64sub, SFsub. rewrite scaled_opp. cbn [scaled] in *. lia.
  - apply SFleb_of_scaled; try assumption. unfold SF64sub, SFsub. cbn [scaled] in *. lia.
  - unfold SF64sub, SFsub in *. cbn zeta in *.
    pose proof (valid_exponent _ _ _ Vx). pose proof (valid_exponent _ _ _ Vy).
    apply binary_normalize_ge; try assumption; try lia.
    rewrite Z.mul_sub_distr_r, !aligned_scaled by lia. exact Hle.
Qed.

(** *** Products *)

Lemma digits_at_least (m : positive) (k : Z) :
  2 ^ k <= Zpos m -> k < Zpos (digits2_pos m).
Proof.
  intros Hk. pose proof (digits2_pos_bounds m) as [_ U].
  assert (H : 2 ^ k < 2 ^ Zpos (digits2_pos m)) by lia.
  apply Z.pow_lt_mono_r_iff in H; lia.
Qed.

(** The exponent of an exact product is not above that of its format. *)
Lemma product_exponent (mx my : positive) (ex ey : Z) :
  bounded prec emax mx ex = true -> bounded prec emax my ey = true ->
  ex + ey <= fexp prec emax (Zpos (digits2_pos (mx * my)) + (ex + ey)).
Proof.
  intros Bx By.
  destruct (bounded_exponent prec emax mx ex Bx) as (Ex & _ & Nx).
  destruct (bounded_exponent prec emax my ey By) as (Ey & _ & Ny).
  change (SpecFloat.emin prec emax) with (-1074) in *.
  unfold fexp. change (SpecFloat.emin prec emax) with (-1074).
  destruct (Z.eq_dec ex (-1074)) as [Hx | Hx]; [destruct (Z.eq_dec ey (-1074)) as [Hy | Hy]|].
  - lia.
  - pose proof (digits2_pos_bounds my) as [Ly _]. rewrite (Ny ltac:(lia)) in Ly.
    assert (H : prec - 1 < Zpos (digits2_pos (mx * my))).
    { apply digits_at_least. rewrite Pos2Z.inj_mul. nia. }
    lia.
  - pose proof (digits2_pos_bounds mx) as [Lx _]. rewrite (Nx ltac:(lia)) in Lx.
    assert (H : prec - 1 < Zpos (digits2_pos (mx * my))).
    { apply digits_at_least. rewrite Pos2Z.inj_mul. nia. }
    lia.
Qed.

Lemma scaled_product (sx sy : bool) (mx my : positive) (ex ey : Z) :
  scaled (S754_finite sx mx ex) * scaled (S754_finite sy my ey)
  = cond_Zopp (xorb sx sy) (Zpos (mx * my) * 2 ^ (ex + ey - -2148)) \/ ex < -1074 \/ ey < -1074.
Proof.
  destruct (Z.lt_ge_cases ex (-1074)) as [Hx | Hx]; [auto|].
  destruct (Z.lt_ge_cases ey (-1074)) as [Hy | Hy]; [auto|].
  left. cbn [scaled]. rewrite Pos2Z.inj_mul.
  replace (ex + ey - -2148) with ((ex + 1074) + (ey + 1074)) by lia.
  rewrite (pow2_split (ex + 1074) (ey + 1074)) by lia.
  destruct sx, sy; cbn [cond_Zopp xorb]; ring.
Qed.

Lemma scale_split (e : Z) : -1074 <= e -> 2 ^ (e - -2148) = 2 ^ (e + 1074) * scale.
Proof.
  intros He. unfold scale. rewrite <- pow2_split by lia. f_equal. lia.
Qed.

Lemma scale_positive : 0 < scale.
Proof. unfold scale. apply pow2_pos. lia. Qed.

(** An exact product, rounded, against a finite bound. *)
Lemma round_product_le (s : bool) (M : positive) (E : Z) (c : spec_float) :
  -2148 <= E ->
  E <= fexp prec emax (Zpos (digits2_pos M) + E) ->
  valid c = true -> SFfinite c = true ->
  cond_Zopp s (Zpos M * 2 ^ (E - -2148)) <= scaled c * scale ->
  valid (binary_round_aux prec emax s (Zpos M) E loc_Exact) = true ->
  SFleb (binary_round_aux prec emax s (Zpos M) E loc_Exact) c = true.
Proof.
  intros HE HP Vc Fc Hle Vr.
  pose proof (pow2_pos (E - -2148) ltac:(lia)) as PE.
  pose proof scale_positive as PU.
  destruct s; cbn [cond_Zopp] in Hle.
  - pose proof (binary_round_aux_nonneg prec emax true (Zpos M) E loc_Exact ltac:(lia)) as Hs.
    destruct c as [sc|sc| |sc mc ec]; try discriminate.
    + destruct Hs as [[(m3 & e3 & ->) | ->] | ->]; reflexivity.
    + cbn [SpecFloat.valid_binary] in Vc. destruct sc.
      * destruct (finite_positive mc ec Vc) as [Ec _].
        cbn [scaled cond_Zopp] in Hle.
        destruct (binary_round_aux_lb prec emax prec_pos64 true M E mc ec (-2148) Vc)
          as [Hr | (m3 & e3 & Hr & He3 & Hv)];
          try (change (SpecFloat.emin prec emax) with (-1074); lia).
        -- rewrite (scale_split ec Ec). lia.
        -- rewrite Hr. reflexivity.
        -- rewrite Hr in *. cbn [SpecFloat.valid_binary] in Vr.
           destruct (finite_positive m3 e3 Vr) as [E3 _].
           rewrite (scale_split ec Ec), (scale_split e3 E3) in Hv.
           rewrite SFleb_scaled by (assumption || reflexivity). apply Z.leb_le.
           cbn [scaled cond_Zopp]. nia.
      * destruct Hs as [[(m3 & e3 & ->) | ->] | ->]; reflexivity.
  - destruct c as [sc|sc| |sc mc ec]; try discriminate; cbn [scaled] in Hle; try lia.
    cbn [SpecFloat.valid_binary] in Vc.
    destruct (finite_positive mc ec Vc) as [Ec Pc].
    destruct sc; cbn [cond_Zopp] in Hle; [nia|].
    assert (Hv0 : Zpos M * 2 ^ (E - -2148) <= Zpos mc * 2 ^ (ec - -2148)).
    { rewrite (scale_split ec Ec). lia. }
    destruct (bounded_canonical prec emax mc ec Vc) as [Hc _].
    pose proof (value_digits M mc E ec (-2148) ltac:(lia) ltac:(lia) Hv0) as Hd.
    pose proof (fexp_mono prec emax _ _ Hd) as Hf. rewrite Hc in Hf.
    destruct (binary_round_aux_ub prec emax false M E mc ec (-2148) Vc)
      as [Hr | (m3 & e3 & Hr & He3 & Hv)]; try lia.
    + rewrite Hr. reflexivity.
    + rewrite Hr in *. cbn [SpecFloat.valid_binary] in Vr.
      destruct (finite_positive m3 e3 Vr) as [E3 _].
      rewrite (scale_split ec Ec), (scale_split e3 E3) in Hv.
      rewrite SFleb_scaled by (assumption || reflexivity). apply Z.leb_le.
      cbn [scaled cond_Zopp]. nia.
Qed.

Lemma round_product_ge (s : bool) (M : positive) (E : Z) (c : spec_float) :
  -2148 <= E ->
  E <= fexp prec emax (Zpos (digits2_pos M) + E) ->
  valid c = true -> SFfinite c = true ->
  scaled c * scale <= cond_Zopp s (Zpos M * 2 ^ (E - -2148)) ->
  valid (binary_round_aux prec emax s (Zpos M) E loc_Exact) = true ->
  SFleb c (binary_round_aux prec emax s (Zpos M) E loc_Exact) = true.
Proof.
  intros HE HP Vc Fc Hle Vr.
  pose proof (pow2_pos (E - -2148) ltac:(lia)) as PE.
  pose proof scale_positive as PU.
  destruct s; cbn [cond_Zopp] in Hle.
  - destruct c as [sc|sc| |sc mc ec]; try discriminate; cbn [scaled] in Hle; try lia.
    cbn [SpecFloat.valid_binary] in Vc.
    destruct (finite_positive mc ec Vc) as [Ec Pc].
    destruct sc; cbn [cond_Zopp] in Hle; [|nia].
    assert (Hv0 : Zpos M * 2 ^ (E - -2148) <= Zpos mc * 2 ^ (ec - -2148)).
    { rewrite (scale_split ec Ec). lia. }
    destruct (bounded_canonical prec emax mc ec Vc) as [Hc _].
    pose proof (value_digits M mc E ec (-2148) ltac:(lia) ltac:(lia) Hv0) as Hd.
    pose proof (fexp_mono prec emax _ _ Hd) as Hf. rewrite Hc in Hf.
    destruct (binary_round_aux_ub prec emax true M E mc ec (-2148) Vc)
      as [Hr | (m3 & e3 & Hr & He3 & Hv)]; try lia.
    + rewrite Hr. reflexivity.
    + rewrite Hr in *. cbn [SpecFloat.valid_binary] in Vr.
      destruct (finite_positive m3 e3 Vr) as [E3 _].
      rewrite (scale_split ec Ec), (scale_split e3 E3) in Hv.
      rewrite SFleb_scaled by (assumption || reflexivity). apply Z.leb_le.
      cbn [scaled cond_Zopp]. nia.
  - pose proof (binary_round_aux_nonneg prec emax false (Zpos M) E loc_Exact ltac:(lia)) as Hs.
    destruct c as [sc|sc| |sc mc ec]; try discriminate.
    + destruct Hs as [[(m3 & e3 & ->) | ->] | ->]; destruct sc; reflexivity.
    + cbn [SpecFloat.valid_binary] in Vc. destruct sc.
      * destruct Hs as [[(m3 & e3 & ->) | ->] | ->]; reflexivity.
      * destruct (finite_positive mc ec Vc) as [Ec _].
        cbn [scaled cond_Zopp] in Hle.
        destruct (binary_round_aux_lb prec emax prec_pos64 false M E mc ec (-2148) Vc)
          as [Hr | (m3 & e3 & Hr & He3 & Hv)];
          try (change (SpecFloat.emin prec emax) with (-1074); lia).
        -- rewrite (scale_split ec Ec). lia.
        -- rewrite Hr. reflexivity.
        -- rewrite Hr in *. cbn [SpecFloat.valid_binary] in Vr.
           destruct (finite_positive m3 e3 Vr) as [E3 _].
           rewrite (scale_split ec Ec), (scale_split e3 E3) in Hv.
           rewrite SFleb_scaled by (assumption || reflexivity). apply Z.leb_le.
           cbn [scaled cond_Zopp]. nia.
Qed.

Lemma SFmul_le (x y c : spec_float) :
  valid x = true -> valid y = true -> valid c = true ->
  SFfinite x = true -> SFfinite y = true -> SFfinite c = true ->
  scaled x * scaled y <= scaled c * scale ->
  valid (SF64mul x y) = true ->
  SFleb (SF64mul x y) c = true.
Proof.
  intros Vx Vy Vc Fx Fy Fc Hle Vr.
  pose proof scale_positive as PU.
  destruct x as [sx|sx| |sx mx ex], y as [sy|sy| |sy my ey]; try discriminate;
    try (apply SFleb_of_scaled; try assumption; try reflexivity;
         unfold SF64mul, SFmul; cbn [scaled] in *; nia).
  unfold SF64mul, SFmul in *.
  pose proof (valid_exponent _ _ _ Vx). pose proof (valid_exponent _ _ _ Vy).
  apply round_product_le; try assumption; try lia.
  - apply product_exponent; assumption.
  - destruct (scaled_product sx sy mx my ex ey) as [<- | [?|?]]; [exact Hle | lia | lia].
Qed.

Lemma SFmul_ge (x y c : spec_float) :
  valid x = true -> valid y = true -> valid c = true ->
  SFfinite x = true -> SFfinite y = true -> SFfinite c = true ->
  scaled c * scale <= scaled x * scaled y ->
  valid (SF64mul x y) = true ->
  SFleb c (SF64mul x y) = true.
Proof.
  intros Vx Vy Vc Fx Fy Fc Hle Vr.
  pose proof scale_positive as PU.
  destruct x as [sx|sx| |sx mx ex], y as [sy|sy| |sy my ey]; try discriminate;
    try (apply SFleb_of_scaled; try assumption; try reflexivity;
         unfold SF64mul, SFmul; cbn [scaled] in *; nia).
  unfold SF64mul, SFmul in *.
  pose proof (valid_exponent _ _ _ Vx). pose proof (valid_exponent _ _ _ Vy).
  apply round_product_ge; try assumption; try lia.
  - apply product_exponent; assumption.
  - destruct (scaled_product sx sy mx my ex ey) as [<- | [?|?]]; [exact Hle | lia | lia].
Qed.

End Operations.

(** *** The same for the primitive operations *)

Section FloatBounds.
Local Open Scope Z_scope.

Lemma leb_units (x y : float) :
  finite64 x = true -> finite64 y = true -> PrimFloat.leb x y = (units x <=? units y).
Proof.
  intros Fx Fy. rewrite leb_spec. apply SFleb_scaled; try apply Prim2SF_valid; assumption.
Qed.

Lemma ltb_units (x y : float) :
  finite64 x = true -> finite64 y = true -> PrimFloat.ltb x y = (units x <? units y).
Proof.
  intros Fx Fy. rewrite ltb_spec. apply SFltb_scaled; try apply Prim2SF_valid; assumption.
Qed.

Lemma add_le (x y c : float) :
  finite64 x = true -> finite64 y = true -> finite64 c = true ->
  units x + units y <= units c -> PrimFloat.leb (x + y) c = true.
Proof.
  intros Fx Fy Fc H. rewrite leb_spec, add_spec.
  apply SFadd_le; try apply Prim2SF_valid; try assumption.
  rewrite <- add_spec. apply Prim2SF_valid.
Qed.

Lemma add_ge (x y c : float) :
  finite64 x = true -> finite64 y = true -> finite64 c = true ->
  units c <= units x + units y -> PrimFloat.leb c (x + y) = true.
Proof.
  intros Fx Fy Fc H. rewrite leb_spec, add_spec.
  apply SFadd_ge; try apply Prim2SF_valid; try assumption.
  rewrite <- add_spec. apply Prim2SF_valid.
Qed.

Lemma sub_le (x y c : float) :
  finite64 x = true -> finite64 y = true -> finite64 c = true ->
  units x - units y <= units c -> PrimFloat.leb (x - y) c = true.
Proof.
  intros Fx Fy Fc H. rewrite leb_spec, sub_spec.
  apply SFsub_le; try apply Prim2SF_valid; try assumption.
  rewrite <- sub_spec. apply Prim2SF_valid.
Qed.

Lemma sub_ge (x y c : float) :
  finite64 x = true -> finite64 y = true -> finite64 c = true ->
  units c <= units x - units y -> PrimFloat.leb c (x - y) = true.
Proof.
  intros Fx Fy Fc H. rewrite leb_spec, sub_spec.
  apply SFsub_ge; try apply Prim2SF_valid; try assumption.
  rewrite <- sub_spec. apply Prim2SF_valid.
Qed.

Lemma mul_le (x y c : float) :
  finite64 x = true -> finite64 y = true -> finite64 c = true ->
  units x * units y <= units c * scale -> PrimFloat.leb (x * y) c = true.
Proof.
  intros Fx Fy Fc H. rewrite leb_spec, mul_spec.
  apply SFmul_le; try apply Prim2SF_valid; try assumption.
  rewrite <- mul_spec. apply Prim2SF_valid.
Qed.

Lemma mul_ge (x y c : float) :
  finite64 x = true -> finite64 y = true -> finite64 c = true ->
  units c * scale <= units x * units y -> PrimFloat.leb c (x * y) = true.
Proof.
  intros Fx Fy Fc H. rewrite leb_spec, mul_spec.
  apply SFmul_ge; try apply Prim2SF_valid; try assumption.
  rewrite <- mul_spec. apply Prim2SF_valid.
Qed.

(** A number between two finite numbers is finite. *)
Lemma between_finite (lo hi x : float) :
  finite64 lo = true -> finite64 hi = true ->
  PrimFloat.leb lo x = true -> PrimFloat.leb x hi = true ->
  finite64 x = true /\ units lo <= units x <= units hi.
Proof.
  intros Fl Fh Hl Hh.
  assert (Fx : finite64 x = true).
  { unfold finite64 in *. rewrite leb_spec in Hl, Hh.
    destruct (Prim2SF x) as [s|s| |s m e]; try reflexivity.
    - destruct s.
      + destruct (Prim2SF lo) as [s'|s'| |s' m' e']; discriminate.
      + destruct (Prim2SF hi) as [s'|s'| |s' m' e']; discriminate.
    - destruct (Prim2SF lo) as [s'|s'| |s' m' e']; discriminate. }
  split; [exact Fx|].
  rewrite leb_units in Hl, Hh by assumption.
  apply Z.leb_le in Hl, Hh. lia.
Qed.

Lemma leb_not_ltb (x y : float) : PrimFloat.leb x y = true -> PrimFloat.ltb y x = false.
Proof.
  rewrite leb_spec, ltb_spec. unfold SFleb, SFltb.
  rewrite (SFcompare_antisym (Prim2SF x) (Prim2SF y)).
  destruct (SFcompare (Prim2SF x) (Prim2SF y)) as [[]|]; cbn; congruence.
Qed.

End FloatBounds.

(** *** The arithmetic of the generator *)

Section GeneratorArithmetic.
Local Open Scope js_scope.

Lemma float_sub_pos (x y : float) : (x <? y) = true -> (y - x >? int 0) = true.
Proof.
  cbn [ltb gtb sub float64]. rewrite !ltb_spec, sub_spec.
  change (Prim2SF (int 0)) with (S754_zero false).
  apply SFsub_pos; apply Prim2SF_valid.
Qed.

Lemma float_sub_asymmetric (x y : float) :
  (y - x >? int 0) = true -> (x - y >? int 0) = false.
Proof.
  cbn [gtb sub float64]. rewrite !ltb_spec, !sub_spec.
  change (Prim2SF (int 0)) with (S754_zero false).
  apply SFsub_asym; apply Prim2SF_valid.
Qed.

(** [Math.random() * 3 + 0.1] is positive. *)
Lemma float_size_positive (r : float) :
  unit_interval r = true -> (r * int 3 + dec 1 1 >? int 0) = true.
Proof.
  unfold unit_interval. intros Hr. apply andb_prop in Hr. destruct Hr as [Hr _].
  cbn [gtb add mul float64]. rewrite leb_spec in Hr.
  rewrite ltb_spec, add_spec.
  change (Prim2SF (int 0)) with (S754_zero false) in *.
  apply SFadd_pos.
  - apply Prim2SF_valid.
  - apply Prim2SF_valid.
  - rewrite mul_spec. eapply SFmul_nonneg; [reflexivity | exact Hr].
  - reflexivity.
Qed.

Lemma levels_sizes_positive (place : float -> float -> float) (random : Random float)
    (a : float) (n i calls : nat) :
  (forall k, unit_interval (random k) = true) ->
  Forall (fun lv => (lv.2 >? int 0) = true) (levels place random a n i calls).1.
Proof.
  intros Hr. revert i calls. induction n as [|n IH]; intros i calls.
  - constructor.
  - rewrite levels_S. cbn [fst]. constructor; [|apply IH].
    cbn [snd]. apply float_size_positive, Hr.
Qed.

End GeneratorArithmetic.

Section GeneratorBounds.
Local Open Scope Z_scope.

Lemma ltb_leb (x y : float) : PrimFloat.ltb x y = true -> PrimFloat.leb x y = true.
Proof.
  rewrite ltb_spec, leb_spec. unfold SFltb, SFleb.
  destruct (SFcompare (Prim2SF x) (Prim2SF y)) as [[]|]; congruence.
Qed.

Lemma within_weaken (lo hi lo' hi' : Z) (x : float) :
  within lo hi x -> lo' <= lo -> hi <= hi' -> within lo' hi' x.
Proof. intros [F B] Hl Hh. split; [exact F | lia]. Qed.

Lemma within_add (x y lo hi : float) (a b c d : Z) :
  within a b x -> within c d y -> finite64 lo = true -> finite64 hi = true ->
  units lo <= a + c -> b + d <= units hi ->
  within (units lo) (units hi) (PrimFloat.add x y).
Proof.
  intros [Fx Bx] [Fy By] Fl Fh Hl Hh.
  apply (between_finite lo hi); try assumption.
  - apply add_ge; try assumption. lia.
  - apply add_le; try assumption. lia.
Qed.

Lemma within_sub (x y lo hi : float) (a b c d : Z) :
  within a b x -> within c d y -> finite64 lo = true -> finite64 hi = true ->
  units lo <= a - d -> b - c <= units hi ->
  within (units lo) (units hi) (PrimFloat.sub x y).
Proof.
  intros [Fx Bx] [Fy By] Fl Fh Hl Hh.
  apply (between_finite lo hi); try assumption.
  - apply sub_ge; try assumption. lia.
  - apply sub_le; try assumption. lia.
Qed.

Lemma within_mul (x y lo hi : float) (a b c d : Z) :
  within a b x -> within c d y -> finite64 lo = true -> finite64 hi = true ->
  (forall u v, a <= u <= b -> c <= v <= d ->
               units lo * scale <= u * v <= units hi * scale) ->
  within (units lo) (units hi) (PrimFloat.mul x y).
Proof.
  intros [Fx Bx] [Fy By] Fl Fh H.
  destruct (H (units x) (units y) Bx By) as [Hl Hh].
  apply (between_finite lo hi); try assumption.
  - apply mul_ge; assumption.
  - apply mul_le; assumption.
Qed.

(** The value of a small integer literal. *)
Lemma int_units (k : Z) :
  0 <= k <= 25 -> finite64 (int k) = true /\ units (int k) = k * scale.
Proof.
  intros Hk.
  assert (H : k = 0 \/ k = 1 \/ k = 2 \/ k = 3 \/ k = 4 \/ k = 5 \/ k = 6 \/ k = 7 \/
              k = 8 \/ k = 9 \/ k = 10 \/ k = 11 \/ k = 12 \/ k = 13 \/ k = 14 \/
              k = 15 \/ k = 16 \/ k = 17 \/ k = 18 \/ k = 19 \/ k = 20 \/ k = 21 \/
              k = 22 \/ k = 23 \/ k = 24 \/ k = 25) by lia.
  repeat (destruct H as [-> | H]; [split; reflexivity|]).
  subst k. split; reflexivity.
Qed.

Lemma int_within (k : Z) : 0 <= k <= 25 -> within (k * scale) (k * scale) (int k).
Proof. intros Hk. destruct (int_units k Hk) as [F U]. split; [exact F | lia]. Qed.

Lemma units_175 : finite64 (int 175) = true /\ units (int 175) = 175 * scale.
Proof. split; reflexivity. Qed.

(** A draw of [Math.random]. *)
Lemma unit_interval_within (r : float) :
  unit_interval r = true -> within 0 (scale - 1) r.
Proof.
  unfold unit_interval. intros Hr. apply andb_prop in Hr. destruct Hr as [H0 H1].
  destruct (int_units 0 ltac:(lia)) as [F0 U0]. destruct (int_units 1 ltac:(lia)) as [F1 U1].
  destruct (between_finite (int 0) (int 1) r F0 F1 H0 (ltb_leb _ _ H1)) as [Fr _].
  split; [exact Fr|].
  rewrite leb_units in H0 by assumption. rewrite ltb_units in H1 by assumption.
  apply Z.leb_le in H0. apply Z.ltb_lt in H1. lia.
Qed.

(** The offset [(i + 1) * (Math.random() * 5 + 2)] of a level is
    between 0 and 175. *)
Lemma offset_within (r : float) (k : Z) :
  unit_interval r = true -> 1 <= k <= 25 ->
  within 0 (175 * scale)
    (PrimFloat.mul (int k) (PrimFloat.add (PrimFloat.mul r (int 5)) (int 2))).
Proof.
  intros Hr Hk. pose proof scale_positive as PS.
  destruct (int_units 0 ltac:(lia)) as [F0 U0]. destruct (int_units 2 ltac:(lia)) as [F2 U2].
  destruct (int_units 5 ltac:(lia)) as [F5 U5]. destruct (int_units 7 ltac:(lia)) as [F7 U7].
  destruct units_175 as [F175 U175].
  assert (Ht : within 0 (5 * scale) (PrimFloat.mul r (int 5))).
  { rewrite <- U5, <- U0 at 1.
    apply (within_mul r (int 5) (int 0) (int 5) _ _ _ _ (unit_interval_within r Hr)
             (int_within 5 ltac:(lia)) F0 F5).
    intros u v Hu Hv. rewrite U0, U5. nia. }
  assert (Hs : within (2 * scale) (7 * scale)
                 (PrimFloat.add (PrimFloat.mul r (int 5)) (int 2))).
  { rewrite <- U2, <- U7.
    apply (within_add _ (int 2) (int 2) (int 7) _ _ _ _ Ht (int_within 2 ltac:(lia)) F2 F7);
      lia. }
  rewrite <- U175, <- U0 at 1.
  apply (within_mul (int k) _ (int 0) (int 175) _ _ _ _ (int_within k ltac:(lia)) Hs F0 F175).
  intros u v Hu Hv. rewrite U0, U175. nia.
Qed.

End GeneratorBounds.

Section PriceBounds.
Local Open Scope Z_scope.

Lemma finite64_cases (x : float) :
  finite64 x = true ->
  (exists s, Prim2SF x = S754_zero s) \/ (exists s m e, Prim2SF x = S754_finite s m e).
Proof.
  unfold finite64. destruct (Prim2SF x) as [s|s| |s m e]; try discriminate; eauto.
Qed.

(** Taking a non-negative offset from a price does not raise it, and
    adding one does not lower it, whatever the price is. *)
Lemma sub_offset_not_above (a off : float) (hi : Z) :
  within 0 hi off -> PrimFloat.ltb a (PrimFloat.sub a off) = false.
Proof.
  intros [Fo Bo].
  destruct (finite64 a) eqn:Fa.
  - apply leb_not_ltb. apply sub_le; try assumption. lia.
  - rewrite ltb_spec, sub_spec. unfold finite64 in Fa.
    destruct (finite64_cases off Fo) as [[s ->] | (s & m & e & ->)];
      destruct (Prim2SF a) as [sa|sa| |sa ma ea]; try discriminate; try reflexivity;
      destruct sa; reflexivity.
Qed.

Lemma add_offset_not_below (a off : float) (hi : Z) :
  within 0 hi off -> PrimFloat.ltb (PrimFloat.add a off) a = false.
Proof.
  intros [Fo Bo].
  destruct (finite64 a) eqn:Fa.
  - apply leb_not_ltb. apply add_ge; try assumption. lia.
  - rewrite ltb_spec, add_spec. unfold finite64 in Fa.
    destruct (finite64_cases off Fo) as [[s ->] | (s & m & e & ->)];
      destruct (Prim2SF a) as [sa|sa| |sa ma ea]; try discriminate; try reflexivity;
      destruct sa; reflexivity.
Qed.

(** [x <= c < a] gives [x < a], for finite [x] and [c]. *)
Lemma le_lt_trans64 (x c a : float) :
  finite64 x = true -> finite64 c = true -> units x <= units c ->
  PrimFloat.ltb c a = true -> PrimFloat.ltb x a = true.
Proof.
  intros Fx Fc Hle Hlt.
  destruct (finite64 a) eqn:Fa.
  - rewrite ltb_units in * by assumption. apply Z.ltb_lt in Hlt. apply Z.ltb_lt. lia.
  - rewrite ltb_spec in *. unfold finite64 in *.
    destruct (Prim2SF a) as [sa|sa| |sa ma ea]; try discriminate.
    + destruct sa.
      * destruct (Prim2SF c) as [s|s| |s m e]; discriminate.
      * destruct (Prim2SF x) as [s|s| |s m e]; try discriminate; reflexivity.
    + destruct (Prim2SF c) as [s|s| |s m e]; discriminate.
Qed.

(** [c < a <= r] gives [c < r], for finite [c] and [a]. *)
Lemma lt_le_trans64 (c a r : float) :
  finite64 c = true -> finite64 a = true -> units c < units a ->
  PrimFloat.leb a r = true -> PrimFloat.ltb c r = true.
Proof.
  intros Fc Fa Hlt Hle.
  destruct (finite64 r) eqn:Fr.
  - rewrite leb_units in Hle by assumption. rewrite ltb_units by assumption.
    apply Z.leb_le in Hle. apply Z.ltb_lt. lia.
  - rewrite ltb_spec. rewrite leb_spec in Hle. unfold finite64 in *.
    destruct (Prim2SF r) as [sr|sr| |sr mr er]; try discriminate.
    + destruct sr.
      * destruct (Prim2SF a) as [s|s| |s m e]; discriminate.
      * destruct (Prim2SF c) as [s|s| |s m e]; try discriminate; reflexivity.
    + destruct (Prim2SF a) as [s|s| |s m e]; discriminate.
Qed.

(** Above 175, a price less an offset of at most 175 is positive. *)
Lemma sub_offset_positive (a off : float) :
  within 0 (175 * scale) off -> PrimFloat.ltb (int 175) a = true ->
  PrimFloat.ltb (int 0) (PrimFloat.sub a off) = true.
Proof.
  intros [Fo Bo] Ha. apply (float_sub_pos off a).
  destruct units_175 as [F175 U175].
  apply (le_lt_trans64 off (int 175) a); try assumption. rewrite U175. lia.
Qed.

Lemma add_offset_positive (a off : float) (hi : Z) :
  within 0 hi off -> PrimFloat.ltb (int 175) a = true ->
  PrimFloat.ltb (int 0) (PrimFloat.add a off) = true.
Proof.
  intros [Fo Bo] Ha.
  destruct units_175 as [F175 U175]. destruct (int_units 0 ltac:(lia)) as [F0 U0].
  pose proof scale_positive as PS.
  destruct (finite64 a) eqn:Fa.
  - apply (lt_le_trans64 (int 0) a); try assumption.
    + rewrite ltb_units in Ha by assumption. apply Z.ltb_lt in Ha. lia.
    + apply add_ge; try assumption. lia.
  - rewrite ltb_spec in *. rewrite add_spec. unfold finite64 in Fa.
    change (Prim2SF (int 0)) with (S754_zero false).
    assert (Ea : Prim2SF a = S754_infinity false).
    { destruct (Prim2SF a) as [sa|[|]| |sa ma ea]; try discriminate Fa; try reflexivity;
        destruct (Prim2SF (int 175)) as [s'|[|]| |[|] m' e']; discriminate Ha. }
    rewrite Ea.
    destruct (finite64_cases off Fo) as [[s ->] | (s & m & e & ->)]; reflexivity.
Qed.

End PriceBounds.

Section GeneratedLevels.
Local Open Scope js_scope.

Variable random : Random float.
Hypothesis draws : forall k, unit_interval (random k) = true.
Variable a : float.

Lemma levels_bids_bounds (n i calls : nat) :
  (i + n <= 25)%nat ->
  Forall (fun lv => (lv.1 >? a) = false /\
                    ((a >? int 175) = true -> (lv.1 >? int 0) = true) /\
                    (lv.2 >? int 0) = true)
         (levels sub random a n i calls).1.
Proof.
  revert i calls. induction n as [|n IH]; intros i calls Hi.
  - constructor.
  - rewrite levels_S. cbn [fst]. constructor; [|apply IH; lia].
    cbn [fst snd].
    pose proof (offset_within (random calls) (Z.of_nat i + 1) (draws calls) ltac:(lia)) as Ho.
    split; [|split].
    + apply (sub_offset_not_above a _ _ Ho).
    + intros Ha. apply (sub_offset_positive a _ Ho Ha).
    + apply float_size_positive, draws.
Qed.

Lemma levels_asks_bounds (n i calls : nat) :
  (i + n <= 25)%nat ->
  Forall (fun lv => (lv.1 <? a) = false /\
                    ((a >? int 175) = true -> (lv.1 >? int 0) = true) /\
                    (lv.2 >? int 0) = true)
         (levels add random a n i calls).1.
Proof.
  revert i calls. induction n as [|n IH]; intros i calls Hi.
  - constructor.
  - rewrite levels_S. cbn [fst]. constructor; [|apply IH; lia].
    cbn [fst snd].
    pose proof (offset_within (random calls) (Z.of_nat i + 1) (draws calls) ltac:(lia)) as Ho.
    split; [|split].
    + apply (add_offset_not_below a _ _ Ho).
    + intros Ha. apply (add_offset_positive a _ _ Ho Ha).
    + apply float_size_positive, draws.
Qed.

End GeneratedLevels.

(** What holds of both sides of a generated book when the draws are in
    [0, 1). *)
Lemma generated_sides_bounds (basePrice : float) (venue : string) (random : Random float)
    (now : Z) (calls : nat) :
  (forall k, unit_interval (random k) = true) ->
  let a := (basePrice * venueMultiplier venue)%js in
  let ob := (generateMockOrderbook basePrice venue random now calls).1 in
  Forall (fun lv => (lv.2 >? int 0)%js = true) (bids ob ++ asks ob) /\
  Forall (fun lv => (lv.1 >? a)%js = false) (bids ob) /\
  Forall (fun lv => (lv.1 <? a)%js = false) (asks ob) /\
  ((a >? int 175)%js = true ->
   forallb positive_level (bids ob) = true /\ forallb positive_level (asks ob) = true).
Proof.
  intros Hr a ob. subst ob.
  rewrite generateMockOrderbook_sides. cbn zeta. cbn [bids asks]. fold a.
  set (bs := levels sub random a 25 0 calls).
  set (os := levels add random a 25 0 bs.2).
  pose proof (sort_Forall (fun x y : float * float => (y.1 - x.1)%js) _ _
                (levels_bids_bounds random Hr a 25 0 calls ltac:(lia))) as Hb.
  pose proof (sort_Forall (fun x y : float * float => (x.1 - y.1)%js) _ _
                (levels_asks_bounds random Hr a 25 0 bs.2 ltac:(lia))) as Ho.
  fold bs in Hb. fold os in Ho.
  split; [|split; [|split]].
  - apply Forall_app. split.
    + eapply Forall_impl; [exact Hb|]. intros lv (_ & _ & H). exact H.
    + eapply Forall_impl; [exact Ho|]. intros lv (_ & _ & H). exact H.
  - eapply Forall_impl; [exact Hb|]. intros lv (H & _). exact H.
  - eapply Forall_impl; [exact Ho|]. intros lv (H & _). exact H.
  - intros Ha. split; apply forallb_of_Forall.
    + eapply Forall_impl; [exact Hb|]. intros lv (_ & Hp & Hs).
      unfold positive_level. rewrite (Hp Ha), Hs. reflexivity.
    + eapply Forall_impl; [exact Ho|]. intros lv (_ & Hp & Hs).
      unfold positive_level. rewrite (Hp Ha), Hs. reflexivity.
Qed.

(** The order of both sides, whatever the draws are. *)
Lemma generated_sides_order (basePrice : float) (venue : string) (random : Random float)
    (now : Z) (calls : nat) :
  let ob := (generateMockOrderbook basePrice venue random now calls).1 in
  length (bids ob) = 25%nat /\ length (asks ob) = 25%nat /\
  descending (bids ob) = true /\ ascending (asks ob) = true /\
  timestamp ob = now.
Proof.
  intros ob. subst ob.
  rewrite generateMockOrderbook_sides. cbn zeta. cbn [bids asks timestamp].
  set (a := (basePrice * venueMultiplier venue)%js).
  set (bs := levels sub random a 25 0 calls).
  set (os := levels add random a 25 0 bs.2).
  split; [rewrite sort_length; apply levels_length|].
  split; [rewrite sort_length; apply levels_length|].
  split.
  { unfold descending.
    pose proof (sort_adjacent (fun x y : float * float => (y.1 - x.1)%js)
                  (fun x y => float_sub_asymmetric x.1 y.1) bs.1) as Hs.
    revert Hs. generalize (sort (fun x y : float * float => (y.1 - x.1)%js) bs.1).
    intros l. apply adjacent_impl. intros x y. unfold in_order, sorts_after.
    destruct (y.1 >? x.1)%js eqn:E; [|reflexivity].
    rewrite (float_sub_pos x.1 y.1 E). discriminate. }
  split; [|reflexivity].
  unfold ascending.
  pose proof (sort_adjacent (fun x y : float * float => (x.1 - y.1)%js)
                (fun x y => float_sub_asymmetric y.1 x.1) os.1) as Hs.
  revert Hs. generalize (sort (fun x y : float * float => (x.1 - y.1)%js) os.1).
  intros l. apply adjacent_impl. intros x y. unfold in_order, sorts_after.
  destruct (y.1 <? x.1)%js eqn:E; [|reflexivity].
  rewrite (float_sub_pos y.1 x.1 E). discriminate.
Qed.

(** C2, as the code behaves.  In binary64, for every reference price,
    every venue and every sequence of draws, whatever the values (NaN
    and the infinities included), the generated book has exactly 25
    bids, none priced above the bid before it, and exactly 25 asks, none
    priced below the ask before it, and carries the time of the call.
    When the draws are in [0, 1), as those of [Math.random] are, every
    size is positive, no bid is priced above and no ask below the
    adjusted reference price [a = referencePrice * venueBiasFactor], and
    every price is positive once [a > 175].  Two levels of a side can
    have the same price, and for a smaller [a] a bid can be negative:
    see below. *)
Theorem C2_generated_book :
  forall (basePrice : float) (venue : string) (random : Random float) (now : Z) (calls : nat),
    let a := (basePrice * venueMultiplier venue)%js in
    let ob := (generateMockOrderbook basePrice venue random now calls).1 in
    length (bids ob) = 25%nat /\ length (asks ob) = 25%nat /\
    descending (bids ob) = true /\ ascending (asks ob) = true /\
    timestamp ob = now /\
    ((forall k, unit_interval (random k) = true) ->
     Forall (fun lv => (lv.2 >? int 0)%js = true) (bids ob ++ asks ob) /\
     Forall (fun lv => (lv.1 >? a)%js = false) (bids ob) /\
     Forall (fun lv => (lv.1 <? a)%js = false) (asks ob) /\
     ((a >? int 175)%js = true ->
      forallb positive_level (bids ob) = true /\ forallb positive_level (asks ob) = true)).
Proof.
  intros basePrice venue random now calls a ob.
  destruct (generated_sides_order basePrice venue random now calls) as (H1 & H2 & H3 & H4 & H5).
  repeat (split; [assumption|]).
  intros Hr. apply generated_sides_bounds, Hr.
Qed.

Lemma C2_witness :
  let a := (int 50000 * venueMultiplier "Bybit")%js in
  let ob := (generateMockOrderbook (int 50000) "Bybit" (fun _ => dec 5 1) 0 0).1 in
  length (bids ob) = 25%nat /\ length (asks ob) = 25%nat /\
  descending (bids ob) = true /\ ascending (asks ob) = true /\
  timestamp ob = 0%Z /\
  Forall (fun lv => (lv.2 >? int 0)%js = true) (bids ob ++ asks ob) /\
  Forall (fun lv => (lv.1 >? a)%js = false) (bids ob) /\
  Forall (fun lv => (lv.1 <? a)%js = false) (asks ob) /\
  forallb positive_level (bids ob) = true /\ forallb positive_level (asks ob) = true.
Proof.
  destruct (C2_generated_book (int 50000) "Bybit" (fun _ => dec 5 1) 0 0)
    as (H1 & H2 & H3 & H4 & H5 & H6).
  destruct (H6 ltac:(intros k; reflexivity)) as (H7 & H8 & H9 & H10).
  destruct (H10 eq_refl) as (H11 & H12).
  repeat split; assumption.
Defined.

(** C2 as stated fails.  With reference price 1, the default venue and
    draws that are 0 except for one 0.25, the sorted bids hold the price
    -25 twice and are all negative. *)
Lemma C2_bids_tie_and_go_negative :
  strictly_descending
    (bids (generateMockOrderbook (int 1) "Mock" Examples.draws_tie 0 0).1) = false /\
  forallb positive_level
    (bids (generateMockOrderbook (int 1) "Mock" Examples.draws_tie 0 0).1) = false /\
  (bids (generateMockOrderbook (int 1) "Mock" Examples.draws_tie 0 0).1) !! 11%nat
    = Some (sub (int 0) (int 25), dec 1 1) /\
  (bids (generateMockOrderbook (int 1) "Mock" Examples.draws_tie 0 0).1) !! 12%nat
    = Some (sub (int 0) (int 25), dec 1 1).
Proof. vm_compute. repeat split. Qed.

(** ** The venue parser *)

Section CompletionFacts.

Lemma bind_Normal {A B : Type} (c : completion A) (f : A -> completion B) (b : B) :
  c ≫= f = Normal b -> exists a, c = Normal a /\ f a = Normal b.
Proof. destruct c as [a|]; [eauto | discriminate]. Qed.

Lemma filter_c_Normal {A : Type} (f : A -> completion bool) (l r : list A) :
  filter_c f l = Normal r ->
  Forall (fun a => exists b, f a = Normal b) l /\
  r = List.filter (fun a => match f a with Normal b => b | Throw => false end) l.
Proof.
  revert r. induction l as [|a l IH]; simpl; intros r Hr.
  - inversion Hr. split; [constructor | reflexivity].
  - apply bind_Normal in Hr. destruct Hr as (keep & Ha & Hr).
    apply bind_Normal in Hr. destruct Hr as (r' & Hl & Hr).
    inversion Hr; subst. destruct (IH _ Hl) as [Hall ->].
    split; [constructor; eauto|]. rewrite Ha. reflexivity.
Qed.

Lemma map_c_length {A B : Type} (f : A -> completion B) (l : list A) (r : list B) :
  map_c f l = Normal r -> length r = length l.
Proof.
  revert r. induction l as [|a l IH]; simpl; intros r Hr.
  - inversion Hr. reflexivity.
  - apply bind_Normal in Hr. destruct Hr as (b & _ & Hr).
    apply bind_Normal in Hr. destruct Hr as (r' & Hl & Hr).
    inversion Hr; subst. simpl. rewrite (IH _ Hl). reflexivity.
Qed.

End CompletionFacts.

Section ListFacts.
Context {A : Type}.

Lemma forallb_filter (f : A -> bool) (l : list A) : forallb f (List.filter f l) = true.
Proof.
  induction l as [|a l IH]; simpl; [reflexivity|].
  destruct (f a) eqn:E; simpl; [rewrite E|]; exact IH.
Qed.


Lemma forallb_sublist (f : A -> bool) (l1 l2 : list A) :
  sublist l1 l2 -> forallb f l2 = true -> forallb f l1 = true.
Proof.
  induction 1 as [|a l1 l2 Hs IH|a l1 l2 Hs IH]; simpl; intros Hl.
  - reflexivity.
  - apply andb_prop in Hl. destruct Hl as [-> Hl]. apply IH, Hl.
  - apply andb_prop in Hl. apply IH. tauto.
Qed.

Lemma pairwise_sublist (R : A -> A -> bool) (l1 l2 : list A) :
  sublist l1 l2 -> pairwise R l2 = true -> pairwise R l1 = true.
Proof.
  induction 1 as [|a l1 l2 Hs IH|a l1 l2 Hs IH]; simpl; intros Hl.
  - reflexivity.
  - apply andb_prop in Hl. destruct Hl as [Ha Hl].
    rewrite (forallb_sublist _ _ _ Hs Ha). apply IH, Hl.
  - apply andb_prop in Hl. apply IH. tauto.
Qed.

Lemma pairwise_adjacent (R : A -> A -> bool) (l : list A) :
  pairwise R l = true -> adjacent R l = true.
Proof.
  induction l as [|a l IH]; [reflexivity|].
  intros Hl. simpl in Hl. apply andb_prop in Hl. destruct Hl as [Ha Hl].
  destruct l as [|b l]; [reflexivity|].
  change (R a b && adjacent R (b :: l) = true).
  simpl in Ha. apply andb_prop in Ha. destruct Ha as [-> _]. apply IH, Hl.
Qed.

Lemma sublist_filter_take (f : A -> bool) (n : nat) (l : list A) :
  sublist (take n (List.filter f l)) l.
Proof.
  etrans; [apply sublist_take|].
  induction l as [|a l IH]; simpl; [constructor|].
  destruct (f a); [apply sublist_skip | apply sublist_cons]; exact IH.
Qed.

End ListFacts.
Section ParserFacts.
Context `{JsNum number} `{Runtime number}.

Local Abbreviation value := (value number).

Lemma get_defined (k : string) (v x : value) :
  get k v = Normal x -> x <> VUndefined -> exists m, v = VObj m /\ m !! k = Some x.
Proof.
  destruct v as [| | b | n | s | l | m]; simpl; intros Hg Hx;
    try discriminate; try (inversion Hg; congruence).
  exists m. split; [reflexivity|]. inversion Hg as [Hd].
  destruct (m !! k) as [y|]; simpl in *; congruence.
Qed.

Lemma side_of_Normal (venue : Venue) (raw : value) (r : list value) :
  side_of venue raw = Normal r ->
  exists l cl, raw = VArr l /\ coerced venue l = Normal cl /\
               r = take 25 (List.filter positive_value_level cl).
Proof.
  assert (Hc : forall raw r, coerced_side raw = Normal r ->
            exists l cl, raw = VArr l /\ map_c coerce_level l = Normal cl /\
                         r = take 25 (List.filter positive_value_level cl)).
  { clear. intros raw r Hr. unfold coerced_side in Hr.
    apply bind_Normal in Hr. destruct Hr as (cl & Hm & Hr).
    apply bind_Normal in Hr. destruct Hr as (fl & Hf & Hr).
    destruct raw; try discriminate. simpl in Hm.
    apply filter_c_Normal in Hf. destruct Hf as [_ ->].
    inversion Hr. eauto. }
  destruct venue; simpl; intros Hr; try (apply Hc; exact Hr).
  unfold numeric_side in Hr.
  apply bind_Normal in Hr. destruct Hr as (fl & Hf & Hr).
  destruct raw; try discriminate. simpl in Hf.
  apply filter_c_Normal in Hf. destruct Hf as [_ ->].
  inversion Hr. eauto.
Qed.

Lemma book_of_Some (venue : Venue) (bidsKey asksKey : string) (orderbookData : value)
    (now : Z) (ob : Orderbook value) :
  book_of (side_of venue) bidsKey asksKey orderbookData now = Normal (Some ob) ->
  exists o rb ra cb ca,
    orderbookData = VObj o /\ side_arrays o bidsKey asksKey = Some (rb, ra) /\
    coerced venue rb = Normal cb /\ coerced venue ra = Normal ca /\
    ob = {| bids := take 25 (List.filter positive_value_level cb);
            asks := take 25 (List.filter positive_value_level ca);
            timestamp := now |}.
Proof.
  unfold book_of. intros Hb.
  apply bind_Normal in Hb. destruct Hb as (rawBids & Hgb & Hb).
  destruct (truthy_value rawBids); [|discriminate].
  apply bind_Normal in Hb. destruct Hb as (rawAsks & Hga & Hb).
  destruct (truthy_value rawAsks); [|discriminate].
  apply bind_Normal in Hb. destruct Hb as (bs & Hbs & Hb).
  apply bind_Normal in Hb. destruct Hb as (os & Hos & Hb).
  apply side_of_Normal in Hbs. destruct Hbs as (rb & cb & -> & Hcb & ->).
  apply side_of_Normal in Hos. destruct Hos as (ra & ca & -> & Hca & ->).
  apply get_defined in Hgb; [|discriminate]. destruct Hgb as (o & -> & Hob).
  apply get_defined in Hga; [|discriminate]. destruct Hga as (o' & Ho' & Hoa).
  inversion Ho'; subst o'. inversion Hb; subst ob.
  exists o, rb, ra, cb, ca. repeat split; try assumption.
  unfold side_arrays. rewrite Hob, Hoa. reflexivity.
Qed.

(** A returned book is made of the first 25 positive levels of each raw
    side of the venue's envelope, in the order received. *)
Lemma parse_body_Some (venue : Venue) (data : value) (now : Z) (ob : Orderbook value) :
  parse_body venue data now = Normal (Some ob) ->
  exists rb ra cb ca,
    raw_sides venue data = Some (rb, ra) /\
    coerced venue rb = Normal cb /\ coerced venue ra = Normal ca /\
    ob = {| bids := take 25 (List.filter positive_value_level cb);
            asks := take 25 (List.filter positive_value_level ca);
            timestamp := now |}.
Proof.
  destruct venue; unfold parse_body; intros Hp.
  - apply bind_Normal in Hp. destruct Hp as (d & Hd & Hp).
    destruct (truthy_value d && isArray d && truthy_value (first d)) eqn:C; [|discriminate].
    apply (book_of_Some OKX) in Hp.
    destruct Hp as (o & rb & ra & cb & ca & Hf & Hs & Hcb & Hca & ->).
    destruct d as [| | | | | l |]; try (rewrite !andb_false_r in C; simpl in C; discriminate);
      try (simpl in Hf; discriminate).
    destruct l as [|x rest]; simpl in Hf; [discriminate|]. subst x.
    apply get_defined in Hd; [|discriminate]. destruct Hd as (m & -> & Hm).
    exists rb, ra, cb, ca. repeat split; try assumption.
    simpl. rewrite Hm. exact Hs.
  - apply bind_Normal in Hp. destruct Hp as (topic & Ht & Hp).
    destruct (truthy_value topic) eqn:Tt; [|discriminate].
    apply bind_Normal in Hp. destruct Hp as (inc & Hi & Hp).
    destruct inc; [|discriminate].
    apply bind_Normal in Hp. destruct Hp as (d & Hd & Hp).
    destruct (truthy_value d); [|discriminate].
    apply (book_of_Some Bybit) in Hp.
    destruct Hp as (o & rb & ra & cb & ca & -> & Hs & Hcb & Hca & ->).
    apply get_defined in Hd; [|discriminate]. destruct Hd as (m & -> & Hm).
    apply get_defined in Ht; [|intros ->; discriminate]. destruct Ht as (m' & Hm' & Hmt).
    inversion Hm'; subst m'.
    exists rb, ra, cb, ca. repeat split; try assumption.
    simpl. rewrite Hmt, Hi, Hm. exact Hs.
  - apply bind_Normal in Hp. destruct Hp as (params & Hpa & Hp).
    destruct (truthy_value params) eqn:Tp; [|discriminate].
    apply bind_Normal in Hp. destruct Hp as (d & Hd & Hp).
    destruct (truthy_value d); [|discriminate].
    apply (book_of_Some Deribit) in Hp.
    destruct Hp as (o & rb & ra & cb & ca & -> & Hs & Hcb & Hca & ->).
    apply get_defined in Hd; [|discriminate]. destruct Hd as (pm & -> & Hpm).
    apply get_defined in Hpa; [|discriminate]. destruct Hpa as (m & -> & Hm).
    exists rb, ra, cb, ca. repeat split; try assumption.
    simpl. rewrite Hm, Hpm. exact Hs.
Qed.

Lemma parseOrderbookData_Some (venue : Venue) (data : value) (now : Z) (ob : Orderbook value) :
  parseOrderbookData venue data now = Some ob ->
  parse_body venue data now = Normal (Some ob).
Proof.
  unfold parseOrderbookData. destruct (parse_body venue data now) as [r|];
    [intros ->; reflexivity | discriminate].
Qed.

End ParserFacts.

(** Look an entry up in a map written out as a list of entries. *)
Ltac lookups :=
  repeat first
    [ rewrite list_to_map_cons | rewrite list_to_map_nil
    | rewrite lookup_insert_eq
    | rewrite lookup_insert_ne by (let Hk := fresh in intros Hk; discriminate Hk)
    | rewrite lookup_empty ].

Section ParserComplete.
Context `{JsNum number} `{Runtime number}.

Local Abbreviation value := (value number).

Lemma side_of_sides (venue : Venue) (raw cl fl : list value) :
  coerced venue raw = Normal cl -> filter_c keep_level cl = Normal fl ->
  side_of venue (VArr raw) = Normal (take 25 fl).
Proof.
  intros Hc Hf. destruct venue; simpl in *.
  - unfold coerced_side. simpl. rewrite Hc. simpl. rewrite Hf. reflexivity.
  - unfold coerced_side. simpl. rewrite Hc. simpl. rewrite Hf. reflexivity.
  - unfold numeric_side. simpl. inversion Hc; subst cl. rewrite Hf. reflexivity.
Qed.

Lemma book_of_sides (venue : Venue) (o : gmap string value) (bidsKey asksKey : string)
    (rb ra cb ca fb fa : list value) (now : Z) :
  side_arrays o bidsKey asksKey = Some (rb, ra) ->
  coerced venue rb = Normal cb -> coerced venue ra = Normal ca ->
  filter_c keep_level cb = Normal fb -> filter_c keep_level ca = Normal fa ->
  book_of (side_of venue) bidsKey asksKey (VObj o) now
  = Normal (Some {| bids := take 25 fb; asks := take 25 fa; timestamp := now |}).
Proof.
  intros Hs Hcb Hca Hfb Hfa. unfold side_arrays in Hs. unfold book_of. simpl.
  destruct (o !! bidsKey) as [[| | | | | l |]|]; try discriminate.
  destruct (o !! asksKey) as [[| | | | | l' |]|]; try discriminate.
  inversion Hs; subst l l'. simpl.
  rewrite (side_of_sides venue rb cb fb Hcb Hfb). simpl.
  rewrite (side_of_sides venue ra ca fa Hca Hfa). reflexivity.
Qed.

(** A message with the venue's envelope whose levels can all be read
    parses to the book of its first 25 positive levels a side. *)
Lemma parse_of_sides (venue : Venue) (data : value) (now : Z)
    (rb ra cb ca fb fa : list value) :
  raw_sides venue data = Some (rb, ra) ->
  coerced venue rb = Normal cb -> coerced venue ra = Normal ca ->
  filter_c keep_level cb = Normal fb -> filter_c keep_level ca = Normal fa ->
  parseOrderbookData venue data now
  = Some {| bids := take 25 fb; asks := take 25 fa; timestamp := now |}.
Proof.
  intros Hs Hcb Hca Hfb Hfa. unfold parseOrderbookData.
  assert (Hb : parse_body venue data now
               = Normal (Some {| bids := take 25 fb; asks := take 25 fa; timestamp := now |}));
    [|rewrite Hb; reflexivity].
  destruct venue, data as [| | | | | |m]; try discriminate; simpl in Hs |- *.
  - destruct (m !! "data"%string) as [[| | | | | [|[| | | | | |o] rest] |]|]; try discriminate.
    simpl. eapply (book_of_sides OKX); eassumption.
  - destruct (m !! "topic"%string) as [topic|]; [|discriminate]. simpl.
    destruct (includes_orderbook topic) as [[|]|] eqn:Hi; try discriminate.
    assert (Ht : truthy_value topic = true).
    { destruct topic as [| | | | s | l |]; try discriminate; [|reflexivity].
      simpl in *. destruct s; [discriminate | reflexivity]. }
    rewrite Ht. simpl.
    destruct (m !! "data"%string) as [[| | | | | |o]|]; try discriminate.
    simpl. eapply (book_of_sides Bybit); eassumption.
  - destruct (m !! "params"%string) as [[| | | | | |pm]|]; try discriminate. simpl.
    destruct (pm !! "data"%string) as [[| | | | | |o]|]; try discriminate.
    simpl. eapply (book_of_sides Deribit); eassumption.
Qed.

Lemma parse_without_envelope (venue : Venue) (data : value) (now : Z) :
  raw_sides venue data = None -> parseOrderbookData venue data now = None.
Proof.
  intros Hraw. destruct (parseOrderbookData venue data now) as [ob|] eqn:Hp; [|reflexivity].
  apply parseOrderbookData_Some, parse_body_Some in Hp.
  destruct Hp as (rb & ra & cb & ca & Hr & _). congruence.
Qed.

End ParserComplete.

Section ParserThrows.
Context `{JsNum number} `{Runtime number}.

Local Abbreviation value := (value number).

Lemma map_c_Throw {A B : Type} (f : A -> completion B) (l : list A) (a : A) :
  a ∈ l -> f a = Throw -> map_c f l = Throw.
Proof.
  intros Hin Ha. induction l as [|x l IH]; [apply elem_of_nil in Hin; contradiction|].
  apply elem_of_cons in Hin. cbn [map_c]. destruct Hin as [<- | Hin].
  - rewrite Ha. reflexivity.
  - destruct (f x); [|reflexivity]. cbn. rewrite (IH Hin). reflexivity.
Qed.

Lemma filter_c_Throw {A : Type} (f : A -> completion bool) (l : list A) (a : A) :
  a ∈ l -> f a = Throw -> filter_c f l = Throw.
Proof.
  intros Hin Ha. induction l as [|x l IH]; [apply elem_of_nil in Hin; contradiction|].
  apply elem_of_cons in Hin. cbn [filter_c]. destruct Hin as [<- | Hin].
  - rewrite Ha. reflexivity.
  - destruct (f x); [|reflexivity]. cbn. rewrite (IH Hin). reflexivity.
Qed.



Lemma side_of_Throw (venue : Venue) (raw : list value) (level : value) :
  level ∈ raw -> destructure level = Throw -> side_of venue (VArr raw) = Throw.
Proof.
  intros Hin Hd.
  assert (Hc : coerce_level level = Throw) by (unfold coerce_level; rewrite Hd; reflexivity).
  assert (Hk : keep_level level = Throw) by (unfold keep_level; rewrite Hd; reflexivity).
  destruct venue; cbn [side_of]; unfold coerced_side, numeric_side; cbn [array_map array_filter].
  - rewrite (map_c_Throw _ _ _ Hin Hc). reflexivity.
  - rewrite (map_c_Throw _ _ _ Hin Hc). reflexivity.
  - rewrite (filter_c_Throw _ _ _ Hin Hk). reflexivity.
Qed.

Lemma book_of_Throw (venue : Venue) (o : gmap string value) (bidsKey asksKey : string)
    (rb ra : list value) (now : Z) :
  side_arrays o bidsKey asksKey = Some (rb, ra) ->
  side_of venue (VArr rb) = Throw \/ side_of venue (VArr ra) = Throw ->
  book_of (side_of venue) bidsKey asksKey (VObj o) now = Throw.
Proof.
  intros Hs Ht. unfold side_arrays in Hs. unfold book_of. cbn [get].
  destruct (o !! bidsKey) as [[| | | | | l |]|]; try discriminate.
  destruct (o !! asksKey) as [[| | | | | l' |]|]; try discriminate.
  inversion Hs; subst l l'. cbn.
  destruct Ht as [Ht | Ht].
  - rewrite Ht. reflexivity.
  - destruct (side_of venue (VArr rb)); [|reflexivity]. cbn. rewrite Ht. reflexivity.
Qed.

Lemma parse_body_Throw (venue : Venue) (data : value) (now : Z) (rb ra : list value) :
  raw_sides venue data = Some (rb, ra) ->
  side_of venue (VArr rb) = Throw \/ side_of venue (VArr ra) = Throw ->
  parse_body venue data now = Throw.
Proof.
  intros Hs Ht.
  destruct venue, data as [| | | | | |m]; try discriminate; simpl in Hs |- *.
  - destruct (m !! "data"%string) as [[| | | | | [|[| | | | | |o] rest] |]|]; try discriminate.
    simpl. eapply (book_of_Throw OKX); eassumption.
  - destruct (m !! "topic"%string) as [topic|]; [|discriminate]. simpl.
    destruct (includes_orderbook topic) as [[|]|] eqn:Hi; try discriminate.
    assert (Htr : truthy_value topic = true).
    { destruct topic as [| | | | s | l |]; try discriminate; [|reflexivity].
      simpl in *. destruct s; [discriminate | reflexivity]. }
    rewrite Htr. simpl.
    destruct (m !! "data"%string) as [[| | | | | |o]|]; try discriminate.
    simpl. eapply (book_of_Throw Bybit); eassumption.
  - destruct (m !! "params"%string) as [[| | | | | |pm]|]; try discriminate. simpl.
    destruct (pm !! "data"%string) as [[| | | | | |o]|]; try discriminate.
    simpl. eapply (book_of_Throw Deribit); eassumption.
Qed.

End ParserThrows.

Section LevelFacts.
Context `{JsNum number} `{Runtime number}.
Local Open Scope js_scope.

Local Abbreviation value := (value number).







End LevelFacts.


(** C8, as the code behaves.  The parser does not sort.  Each side of a
    returned Orderbook is the first 25 positive levels of the venue's
    raw side (coerced to numbers for OKX and Bybit), in the order the
    venue sent them; so the bids are strictly descending and the asks
    strictly ascending by price whenever the venue's levels are. *)
Theorem C8_parser_keeps_the_venue_order :
  forall (number : Type) (A : JsNum number) (R : Runtime number)
         (venue : Venue) (data : value number) (now : Z) (ob : Orderbook (value number)),
    parseOrderbookData venue data now = Some ob ->
    exists rawBids rawAsks levelBids levelAsks,
      raw_sides venue data = Some (rawBids, rawAsks) /\
      coerced venue rawBids = Normal levelBids /\
      coerced venue rawAsks = Normal levelAsks /\
      bids ob = take 25 (List.filter positive_value_level levelBids) /\
      asks ob = take 25 (List.filter positive_value_level levelAsks) /\
      (pairwise price_above levelBids = true -> levels_strictly_descending (bids ob) = true) /\
      (pairwise price_below levelAsks = true -> levels_strictly_ascending (asks ob) = true).
Proof.
  intros number A R venue data now ob Hob.
  apply parseOrderbookData_Some, parse_body_Some in Hob.
  destruct Hob as (rb & ra & cb & ca & Hr & Hcb & Hca & ->).
  exists rb, ra, cb, ca. cbn [bids asks].
  repeat split; try assumption; try reflexivity.
  - intros Hs. apply pairwise_adjacent.
    eapply pairwise_sublist; [apply sublist_filter_take | exact Hs].
  - intros Hs. apply pairwise_adjacent.
    eapply pairwise_sublist; [apply sublist_filter_take | exact Hs].
Qed.

Section ParserExamples.
#[local] Existing Instance Reference.runtime.

Lemma raw_sides_okx_update :
  raw_sides OKX Examples.okx_update
  = Some ([Examples.level (VStr "43000.5") (VStr "1.25");
           Examples.level (VStr "42999") (VStr "0");
           Examples.level (VStr "abc") (VStr "1");
           Examples.level (VStr "42998.5") (VStr "2")],
          [Examples.level (VStr "43001") (VStr "0.5");
           Examples.level (VStr "43002.5") (VStr "4")]).
Proof.
  unfold Examples.okx_update, Examples.obj, raw_sides. lookups.
  unfold side_arrays. lookups. reflexivity.
Qed.

(** The OKX update of the examples parses to its two good bids and its
    two asks, as numbers. *)
Example parse_okx_update :
  parseOrderbookData OKX Examples.okx_update 1700000000000 =
  Some {| bids := [VArr [VNum (dec 430005 1); VNum (dec 125 2)];
                   VArr [VNum (dec 429985 1); VNum (int 2)]];
          asks := [VArr [VNum (int 43001); VNum (dec 5 1)];
                   VArr [VNum (dec 430025 1); VNum (int 4)]];
          timestamp := 1700000000000 |}.
Proof.
  apply (parse_of_sides OKX Examples.okx_update 1700000000000 _ _
           [VArr [VNum (dec 430005 1); VNum (dec 125 2)];
            VArr [VNum (dec 42999 0); VNum (int 0)];
            VArr [VNum nan; VNum (int 1)];
            VArr [VNum (dec 429985 1); VNum (int 2)]]
           [VArr [VNum (int 43001); VNum (dec 5 1)]; VArr [VNum (dec 430025 1); VNum (int 4)]]
           [VArr [VNum (dec 430005 1); VNum (dec 125 2)]; VArr [VNum (dec 429985 1); VNum (int 2)]]
           [VArr [VNum (int 43001); VNum (dec 5 1)]; VArr [VNum (dec 430025 1); VNum (int 4)]]
           raw_sides_okx_update); reflexivity.
Qed.





(** Values that are no book update give null: a subscription reply,
    [null], a number. *)
Example parse_rejects :
  parseOrderbookData OKX (Examples.obj [("event", VStr "subscribe")]%string : value float) 0 = None /\
  parseOrderbookData Bybit (VNull : value float) 0 = None /\
  parseOrderbookData Deribit (VNum (int 5) : value float) 0 = None.
Proof.
  split; [|split]; apply parse_without_envelope; [|reflexivity|reflexivity].
  unfold Examples.obj, raw_sides. lookups. reflexivity.
Qed.

Lemma C8_witness :
  exists rawBids rawAsks levelBids levelAsks,
    raw_sides OKX Examples.okx_update = Some (rawBids, rawAsks) /\
    coerced OKX rawBids = Normal levelBids /\
    coerced OKX rawAsks = Normal levelAsks /\
    [VArr [VNum (dec 430005 1); VNum (dec 125 2)]; VArr [VNum (dec 429985 1); VNum (int 2)]]
      = take 25 (List.filter positive_value_level levelBids) /\
    [VArr [VNum (int 43001); VNum (dec 5 1)]; VArr [VNum (dec 430025 1); VNum (int 4)]]
      = take 25 (List.filter positive_value_level levelAsks) /\
    (pairwise price_above levelBids = true ->
     levels_strictly_descending
       [VArr [VNum (dec 430005 1); VNum (dec 125 2)];
        VArr [VNum (dec 429985 1); VNum (int 2)]] = true) /\
    (pairwise price_below levelAsks = true ->
     levels_strictly_ascending
       [VArr [VNum (int 43001); VNum (dec 5 1)];
        VArr [VNum (dec 430025 1); VNum (int 4)]] = true).
Proof.
  exact (C8_parser_keeps_the_venue_order float float64 Reference.runtime
           OKX Examples.okx_update 1700000000000 _ parse_okx_update).
Defined.

Lemma raw_sides_deribit_unsorted :
  raw_sides Deribit Examples.deribit_unsorted
  = Some ([Examples.level (VNum (int 1)) (VNum (int 1));
           Examples.level (VNum (int 2)) (VNum (int 1))],
          [Examples.level (VNum (int 4)) (VNum (int 1));
           Examples.level (VNum (int 3)) (VNum (int 1))]).
Proof.
  unfold Examples.deribit_unsorted, Examples.obj, raw_sides. lookups.
  unfold side_arrays. lookups. reflexivity.
Qed.

(** C8 as stated fails.  A Deribit notification with bids [[1,1],[2,1]]
    and asks [[4,1],[3,1]] is returned as it came: bids ascending, asks
    descending. *)
Lemma C8_unsorted_message_stays_unsorted :
  parseOrderbookData Deribit Examples.deribit_unsorted 0 =
    Some {| bids := [VArr [VNum (int 1); VNum (int 1)]; VArr [VNum (int 2); VNum (int 1)]];
            asks := [VArr [VNum (int 4); VNum (int 1)]; VArr [VNum (int 3); VNum (int 1)]];
            timestamp := 0 |} /\
  levels_strictly_descending
    [VArr [VNum (int 1 : float); VNum (int 1)]; VArr [VNum (int 2); VNum (int 1)]] = false /\
  levels_strictly_ascending
    [VArr [VNum (int 4 : float); VNum (int 1)]; VArr [VNum (int 3); VNum (int 1)]] = false.
Proof.
  split; [|split; reflexivity].
  apply (parse_of_sides Deribit Examples.deribit_unsorted 0 _ _
           [VArr [VNum (int 1); VNum (int 1)]; VArr [VNum (int 2); VNum (int 1)]]
           [VArr [VNum (int 4); VNum (int 1)]; VArr [VNum (int 3); VNum (int 1)]]
           [VArr [VNum (int 1); VNum (int 1)]; VArr [VNum (int 2); VNum (int 1)]]
           [VArr [VNum (int 4); VNum (int 1)]; VArr [VNum (int 3); VNum (int 1)]]
           raw_sides_deribit_unsorted); reflexivity.
Qed.

End ParserExamples.

(** ** The connection supervisor *)

Section SupervisorFacts.
Context `{JsNum number} `{Runtime number} (random : Random number).

Local Abbreviation State := (State number).

Lemma store_mock_orderbooks (venue : Venue) (symbol : Symbol) (s : State) :
  orderbooks (store_mock random venue symbol s) venue
  = Some (synthetic random venue symbol (calls s) (now s)).
Proof.
  unfold store_mock, synthetic.
  destruct (getMockOrderbookForVenue (venue_str venue) (symbol_str symbol) random
              (now s) (calls s)) as [ob c].
  simpl. apply fn_lookup_insert.
Qed.

Lemma onclose_status (ws : WebSocket) (code : Z) (s : State) :
  connectionStatus (onclose ws code s) (ws_venue ws) = disconnected.
Proof.
  unfold onclose, clear_heartbeat. cbn zeta.
  destruct (heartbeatIntervals _ !! _); destruct (negb _ && negb _); simpl;
    apply fn_lookup_insert.
Qed.

Lemma onerror_status (ws : WebSocket) (s : State) :
  connectionStatus (onerror ws s) (ws_venue ws) = error.
Proof. unfold onerror. simpl. apply fn_lookup_insert. Qed.

End SupervisorFacts.

(** C5, as the code behaves.  After a transport close event the status
    of the venue is "disconnected", whatever the close code is; "error"
    is the status after a transport error event. *)
Theorem C5_close_sets_disconnected :
  forall (number : Type) (A : JsNum number) (R : Runtime number) (random : Random number)
         (s : State number) (w : nat) (ws : WebSocket) (code : Z),
    sockets s !! w = Some ws ->
    readyState ws <> CLOSED ->
    connectionStatus (step random (EvClose w code) s) (ws_venue ws) = disconnected /\
    connectionStatus (step random (EvError w) s) (ws_venue ws) = error.
Proof.
  intros number A R random s w ws code Hw Hst. unfold step, deliver. rewrite Hw.
  rewrite bool_decide_true by exact Hst. split.
  - apply (onclose_status (set_ready CLOSED ws)).
  - apply (onerror_status (set_ready (readyState ws) ws)).
Qed.
Section WellFormed.
Context `{JsNum number} `{Runtime number} (random : Random number).

Local Abbreviation State := (State number).

Lemma key_not_mock_key (v v' : Venue) (sy sy' : Symbol) : mock_key v sy <> key v' sy'.
Proof. destruct v, sy, v', sy'; discriminate. Qed.

(** Only the refs of timers, the sockets, the timers and the two
    counters matter. *)
Lemma well_formed_ext (s s' : State) :
  timers s' = timers s -> sockets s' = sockets s ->
  heartbeatIntervals s' = heartbeatIntervals s ->
  reconnectTimeouts s' = reconnectTimeouts s ->
  next_timer s' = next_timer s -> next_socket s' = next_socket s ->
  well_formed s -> well_formed s'.
Proof.
  intros Ht Hs Hh Hr Hnt Hns [W1 W2 W3 W4 W5].
  split; rewrite ?Ht, ?Hs, ?Hh, ?Hr, ?Hnt, ?Hns; assumption.
Qed.

Lemma well_formed_initial : well_formed (initial : State).
Proof. split; simpl; intros *; rewrite ?lookup_empty; discriminate. Qed.

Lemma well_formed_clearTimeout (id : nat) (s : State) :
  well_formed s -> well_formed (clearTimeout id s).
Proof.
  intros [W1 W2 W3 W4 W5]. split; simpl.
  - intros i t Hi. apply lookup_delete_Some in Hi. destruct Hi as [_ Hi]. eauto.
  - exact W2.
  - intros k i Hk. destruct (W3 k i Hk) as [Hlt Hkind]. split; [exact Hlt|].
    intros t Ht. apply lookup_delete_Some in Ht. destruct Ht as [_ Ht]. eauto.
  - intros k i Hk. destruct (W4 k i Hk) as [Hlt Hkind]. split; [exact Hlt|].
    intros t Ht. apply lookup_delete_Some in Ht. destruct Ht as [_ Ht]. eauto.
  - intros w ws t Hw Ht. apply lookup_delete_Some in Ht. destruct Ht as [_ Ht]. eauto.
Qed.

Lemma well_formed_ws_close (w : nat) (s : State) :
  well_formed s -> well_formed (ws_close w s).
Proof.
  intros [W1 W2 W3 W4 W5]. split; simpl; try assumption.
  - intros w' ws' Hw'. apply lookup_alter_Some in Hw'.
    destruct Hw' as [(_ & ws & Hws & ->) | [_ Hws]]; eauto.
    apply (W2 w' ws Hws).
  - intros w' ws' t Hw' Ht. apply lookup_alter_Some in Hw'.
    destruct Hw' as [(_ & ws & Hws & ->) | [_ Hws]]; eauto.
    apply (W5 w' ws t Hws Ht).
Qed.

Lemma well_formed_refs (wsk rt hb : gmap string nat) (s : State) :
  rt ⊆ reconnectTimeouts s -> hb ⊆ heartbeatIntervals s ->
  well_formed s -> well_formed (with_refs wsk rt hb s).
Proof.
  intros Hrt Hhb [W1 W2 W3 W4 W5]. split; simpl; try assumption.
  - intros k id Hk. apply (W3 k id). eapply lookup_weaken; eassumption.
  - intros k id Hk. apply (W4 k id). eapply lookup_weaken; eassumption.
Qed.

Lemma well_formed_schedule (cb : Callback) (delay : Z) (repeat : bool) (s : State) :
  well_formed s -> well_formed (schedule cb delay repeat s).2.
Proof.
  intros [W1 W2 W3 W4 W5]. split; simpl.
  - intros i t Hi. apply lookup_insert_Some in Hi.
    destruct Hi as [[<- _] | [_ Hi]]; [lia | specialize (W1 i t Hi); lia].
  - intros w ws Hw. destruct (W2 w ws Hw). split; lia.
  - intros k i Hk. destruct (W3 k i Hk) as [Hlt Hkind]. split; [lia|].
    intros t Ht. rewrite lookup_insert_ne in Ht by lia. eauto.
  - intros k i Hk. destruct (W4 k i Hk) as [Hlt Hkind]. split; [lia|].
    intros t Ht. rewrite lookup_insert_ne in Ht by lia. eauto.
  - intros w ws t Hw Ht. destruct (W2 w ws Hw) as [_ Hlt].
    rewrite lookup_insert_ne in Ht by lia. eauto.
Qed.

Lemma well_formed_insert_socket (w : nat) (ws : WebSocket) (s : State) :
  (w < next_socket s)%nat -> (connectionTimeout ws < next_timer s)%nat ->
  (forall t, timers s !! connectionTimeout ws = Some t ->
             callback t = ConnectionTimeout w (ws_venue ws) (ws_symbol ws)) ->
  well_formed s -> well_formed (with_sockets (<[w := ws]> (sockets s)) s).
Proof.
  intros Hw Hct Hcb [W1 W2 W3 W4 W5]. split; simpl; try assumption.
  - intros w' ws' Hw'. apply lookup_insert_Some in Hw'.
    destruct Hw' as [[<- <-] | [_ Hw']]; [split; assumption | eauto].
  - intros w' ws' t Hw' Ht. apply lookup_insert_Some in Hw'.
    destruct Hw' as [[<- <-] | [_ Hw']]; eauto.
Qed.

Lemma well_formed_register_heartbeat (k : string) (id : nat) (s : State) :
  (id < next_timer s)%nat ->
  (forall t, timers s !! id = Some t -> is_heartbeat (callback t) = true) ->
  well_formed s ->
  well_formed (with_refs (websockets s) (reconnectTimeouts s)
                 (<[k := id]> (heartbeatIntervals s)) s).
Proof.
  intros Hlt Hkind [W1 W2 W3 W4 W5]. split; simpl; try assumption.
  intros k' i Hk. apply lookup_insert_Some in Hk.
  destruct Hk as [[_ <-] | [_ Hk]]; [split; assumption | eauto].
Qed.

Lemma well_formed_register_reconnect (k : string) (id : nat) (s : State) :
  (id < next_timer s)%nat ->
  (forall t, timers s !! id = Some t ->
     is_reconnect (callback t) = true \/
     (is_mock_refresh (callback t) = true /\ forall v sy, k <> key v sy)) ->
  well_formed s ->
  well_formed (with_refs (websockets s) (<[k := id]> (reconnectTimeouts s))
                 (heartbeatIntervals s) s).
Proof.
  intros Hlt Hkind [W1 W2 W3 W4 W5]. split; simpl; try assumption.
  intros k' i Hk. apply lookup_insert_Some in Hk.
  destruct Hk as [[<- <-] | [_ Hk]]; [split; assumption | eauto].
Qed.

Lemma well_formed_rearm (id : nat) (t t' : Timer) (s : State) :
  timers s !! id = Some t -> callback t' = callback t ->
  well_formed s -> well_formed (with_timers (<[id := t']> (timers s)) s).
Proof.
  intros Hid Hcb [W1 W2 W3 W4 W5]. split; simpl; try assumption.
  - intros i u Hi. apply lookup_insert_Some in Hi.
    destruct Hi as [[<- _] | [_ Hi]]; eauto.
  - intros k i Hk. destruct (W3 k i Hk) as [Hlt Hkind]. split; [exact Hlt|].
    intros u Hu. apply lookup_insert_Some in Hu.
    destruct Hu as [[<- <-] | [_ Hu]]; [rewrite Hcb|]; eauto.
  - intros k i Hk. destruct (W4 k i Hk) as [Hlt Hkind]. split; [exact Hlt|].
    intros u Hu. apply lookup_insert_Some in Hu.
    destruct Hu as [[<- <-] | [_ Hu]]; [rewrite Hcb|]; eauto.
  - intros w ws u Hw Hu. apply lookup_insert_Some in Hu.
    destruct Hu as [[Hi <-] | [_ Hu]]; [rewrite Hcb; subst id|]; eauto.
Qed.

End WellFormed.
Section WellFormedSteps.
Context `{JsNum number} `{Runtime number} (random : Random number).

Local Abbreviation State := (State number).

Lemma well_formed_close_existing (k : string) (s : State) :
  well_formed s -> well_formed (close_existing k s).
Proof.
  intros W. unfold close_existing. destruct (websockets s !! k); [|exact W].
  apply well_formed_refs; [reflexivity | reflexivity |].
  apply well_formed_ws_close, W.
Qed.

Lemma well_formed_clear_heartbeat (k : string) (s : State) :
  well_formed s -> well_formed (clear_heartbeat k s).
Proof.
  intros W. unfold clear_heartbeat. destruct (heartbeatIntervals s !! k); [|exact W].
  apply well_formed_refs; [reflexivity | apply delete_subseteq |].
  apply well_formed_clearTimeout, W.
Qed.

Lemma well_formed_clear_reconnect (k : string) (s : State) :
  well_formed s -> well_formed (clear_reconnect k s).
Proof.
  intros W. unfold clear_reconnect. destruct (reconnectTimeouts s !! k); [|exact W].
  apply well_formed_refs; [apply delete_subseteq | reflexivity |].
  apply well_formed_clearTimeout, W.
Qed.

Lemma well_formed_setConnectionStatus (v : Venue) (st : ConnectionStatus) (s : State) :
  well_formed s -> well_formed (setConnectionStatus v st s).
Proof. apply well_formed_ext; reflexivity. Qed.

Lemma well_formed_setOrderbooks (v : Venue) (ob : Orderbook (value number)) (s : State) :
  well_formed s -> well_formed (setOrderbooks v ob s).
Proof. apply well_formed_ext; reflexivity. Qed.

Lemma well_formed_setError (e : option string) (s : State) :
  well_formed s -> well_formed (setError e s).
Proof. apply well_formed_ext; reflexivity. Qed.

Lemma well_formed_ws_send (w : nat) (f : Frame) (s : State) :
  well_formed s -> well_formed (ws_send w f s).
Proof. apply well_formed_ext; reflexivity. Qed.

Lemma well_formed_at_time (t : Z) (s : State) :
  well_formed s -> well_formed (at_time t s).
Proof. apply well_formed_ext; reflexivity. Qed.

Lemma well_formed_store_mock (v : Venue) (sy : Symbol) (s : State) :
  well_formed s -> well_formed (store_mock random v sy s).
Proof.
  unfold store_mock. destruct (getMockOrderbookForVenue _ _ _ _ _) as [ob c].
  apply well_formed_ext; reflexivity.
Qed.

Lemma well_formed_connectToVenue (v : Venue) (sy : Symbol) (constructed : bool) (s : State) :
  well_formed s -> well_formed (connectToVenue v sy constructed s).
Proof.
  intros W. unfold connectToVenue. cbn zeta.
  set (s1 := setConnectionStatus v connecting _).
  assert (W1 : well_formed s1).
  { apply well_formed_setConnectionStatus, well_formed_clear_reconnect,
      well_formed_clear_heartbeat, well_formed_close_existing, W. }
  clearbody s1. destruct constructed; simpl; [|apply well_formed_setConnectionStatus, W1].
  destruct W1 as [A1 A2 A3 A4 A5]. split; simpl.
  - intros i t Hi. apply lookup_insert_Some in Hi.
    destruct Hi as [[<- _] | [_ Hi]]; [lia | specialize (A1 i t Hi); lia].
  - intros w ws Hw. apply lookup_insert_Some in Hw.
    destruct Hw as [[<- <-] | [_ Hw]]; [simpl; lia | destruct (A2 w ws Hw); lia].
  - intros k i Hk. destruct (A3 k i Hk) as [Hlt Hkind]. split; [lia|].
    intros t Ht. rewrite lookup_insert_ne in Ht by lia. eauto.
  - intros k i Hk. destruct (A4 k i Hk) as [Hlt Hkind]. split; [lia|].
    intros t Ht. rewrite lookup_insert_ne in Ht by lia. eauto.
  - intros w ws t Hw Ht. apply lookup_insert_Some in Hw.
    destruct Hw as [[<- <-] | [_ Hw]].
    + simpl in *. rewrite lookup_insert_eq in Ht. inversion Ht. reflexivity.
    + destruct (A2 w ws Hw) as [_ Hlt].
      rewrite lookup_insert_ne in Ht by lia. eauto.
Qed.

Lemma well_formed_onopen (w : nat) (ws : WebSocket) (s : State) :
  well_formed s -> well_formed (onopen w ws s).
Proof.
  intros W. unfold onopen, setupHeartbeat. cbn zeta.
  set (s1 := ws_send _ _ _).
  assert (W1 : well_formed s1).
  { apply well_formed_ws_send, well_formed_setError, well_formed_setConnectionStatus,
      well_formed_clearTimeout, W. }
  clearbody s1. unfold setInterval.
  pose proof (well_formed_schedule (Heartbeat w (ws_venue ws)) 30000 true s1 W1) as W2.
  destruct (schedule (Heartbeat w (ws_venue ws)) 30000 true s1) as [i s2] eqn:E.
  unfold schedule in E. inversion E; subst i s2. clear E.
  apply well_formed_register_heartbeat; [simpl; lia | | exact W2].
  simpl. intros t Ht. rewrite lookup_insert_eq in Ht. inversion Ht. reflexivity.
Qed.

Lemma well_formed_onmessage (ws : WebSocket) (m : Message number) (s : State) :
  well_formed s -> well_formed (onmessage ws m s).
Proof.
  intros W. unfold onmessage. destruct m as [| | |data]; try exact W.
  destruct (is_confirmation _ _) as [[|]|]; try exact W.
  destruct (parseOrderbookData _ _ _); [apply well_formed_setOrderbooks|]; exact W.
Qed.

Lemma well_formed_onerror (ws : WebSocket) (s : State) :
  well_formed s -> well_formed (onerror ws s).
Proof.
  intros W. apply well_formed_setError, well_formed_setConnectionStatus, W.
Qed.

Lemma well_formed_onclose (ws : WebSocket) (code : Z) (s : State) :
  well_formed s -> well_formed (onclose ws code s).
Proof.
  intros W. unfold onclose. cbn zeta.
  set (s1 := clear_heartbeat _ _).
  assert (W1 : well_formed s1).
  { apply well_formed_clear_heartbeat, well_formed_setConnectionStatus, W. }
  clearbody s1. destruct (negb _ && negb _); [|exact W1].
  unfold setTimeout.
  pose proof (well_formed_schedule (Reconnect (ws_venue ws) (ws_symbol ws)) 5000 false s1 W1) as W2.
  destruct (schedule _ 5000 false s1) as [i s2] eqn:E.
  unfold schedule in E. inversion E; subst i s2. clear E.
  apply well_formed_register_reconnect; [simpl; lia | | exact W2].
  simpl. intros t Ht. rewrite lookup_insert_eq in Ht. inversion Ht. left. reflexivity.
Qed.

Lemma well_formed_fall_back (w : nat) (v : Venue) (sy : Symbol) (s : State) :
  well_formed s -> well_formed (fall_back random w v sy s).
Proof.
  intros W. unfold fall_back. cbn zeta.
  set (s1 := store_mock _ _ _ _).
  assert (W1 : well_formed s1).
  { apply well_formed_store_mock, well_formed_setConnectionStatus, well_formed_ws_close, W. }
  clearbody s1. unfold setInterval.
  pose proof (well_formed_schedule (MockRefresh v sy) 2000 true s1 W1) as W2.
  destruct (schedule _ 2000 true s1) as [i s2] eqn:E.
  unfold schedule in E. inversion E; subst i s2. clear E.
  apply well_formed_register_reconnect; [simpl; lia | | exact W2].
  simpl. intros t Ht. rewrite lookup_insert_eq in Ht. inversion Ht. right.
  split; [reflexivity|]. intros v' sy'. apply key_not_mock_key.
Qed.

Lemma well_formed_run_callback (id : nat) (cb : Callback) (constructed : bool) (s : State) :
  well_formed s -> well_formed (run_callback random id cb constructed s).
Proof.
  intros W. destruct cb as [w v sy | v sy | v sy | w v]; cbn [run_callback].
  - destruct (decide _); [exact W | apply well_formed_fall_back, W].
  - apply well_formed_store_mock, W.
  - apply well_formed_connectToVenue, W.
  - destruct (decide _); [apply well_formed_ws_send | apply well_formed_clearTimeout]; exact W.
Qed.

Lemma well_formed_fire (id : nat) (constructed : bool) (s : State) :
  well_formed s -> well_formed (fire random id constructed s).
Proof.
  intros W. unfold fire. destruct (timers s !! id) as [t|] eqn:Ht; [|exact W].
  cbn zeta. apply well_formed_run_callback.
  destruct (period t) as [p|].
  - apply (well_formed_rearm id t); [exact Ht | reflexivity |].
    apply well_formed_at_time, W.
  - apply (well_formed_clearTimeout id (at_time _ s)), well_formed_at_time, W.
Qed.

Lemma well_formed_foldr (f : nat -> State -> State) (l : list nat) (s : State) :
  (forall i s, well_formed s -> well_formed (f i s)) ->
  well_formed s -> well_formed (foldr f s l).
Proof. intros Hf W. induction l as [|i l IH]; simpl; [exact W | apply Hf, IH]. Qed.

Lemma well_formed_cleanup (s : State) : well_formed s -> well_formed (cleanup s).
Proof.
  intros W. unfold cleanup. cbn zeta.
  apply well_formed_refs; [apply map_empty_subseteq | apply map_empty_subseteq |].
  apply well_formed_foldr; [apply well_formed_clearTimeout|].
  apply well_formed_foldr; [apply well_formed_clearTimeout|].
  apply well_formed_foldr; [apply well_formed_ws_close | exact W].
Qed.

Lemma well_formed_deliver (w : nat) (enabled : ReadyState -> bool)
    (after : ReadyState -> ReadyState) (handler : WebSocket -> State -> State) (s : State) :
  (forall ws s, well_formed s -> well_formed (handler ws s)) ->
  well_formed s -> well_formed (deliver w enabled after handler s).
Proof.
  intros Hh W. unfold deliver. destruct (sockets s !! w) as [ws|] eqn:Hw; [|exact W].
  destruct (enabled (readyState ws)); [|exact W].
  apply Hh. destruct (wf_sockets s W w ws Hw) as [Hlt Hct].
  apply well_formed_insert_socket; try assumption.
  simpl. intros t Ht. apply (wf_timeouts s W w ws t Hw Ht).
Qed.

Lemma well_formed_step (e : Event number) (s : State) :
  well_formed s -> well_formed (step random e s).
Proof.
  intros W. destruct e; simpl.
  - apply well_formed_connectToVenue, W.
  - apply well_formed_cleanup, W.
  - apply well_formed_deliver; [intros; apply well_formed_onopen; assumption | exact W].
  - apply well_formed_deliver; [intros; apply well_formed_onmessage; assumption | exact W].
  - apply well_formed_deliver; [intros; apply well_formed_onerror; assumption | exact W].
  - apply well_formed_deliver; [intros; apply well_formed_onclose; assumption | exact W].
  - apply well_formed_fire, W.
  - apply well_formed_at_time, W.
Qed.

Lemma well_formed_run (es : list (Event number)) (s : State) :
  well_formed s -> well_formed (run random es s).
Proof.
  revert s. induction es as [|e es IH]; intros s W; simpl; [exact W|].
  apply IH, well_formed_step, W.
Qed.

Lemma reachable_well_formed (s : State) : reachable random s -> well_formed s.
Proof. intros [es ->]. apply well_formed_run, well_formed_initial. Qed.

End WellFormedSteps.
Section TimerFrames.
Context `{JsNum number} `{Runtime number} (random : Random number).

Local Abbreviation State := (State number).

Implicit Types (s : State) (id : nat) (t : Timer).

Lemma timers_close_existing (k : string) s : timers (close_existing k s) = timers s.
Proof. unfold close_existing. destruct (websockets s !! k); reflexivity. Qed.

Lemma timers_store_mock (v : Venue) (sy : Symbol) s :
  timers (store_mock random v sy s) = timers s.
Proof.
  unfold store_mock. destruct (getMockOrderbookForVenue _ _ _ _ _). reflexivity.
Qed.

Lemma kept_clear_heartbeat (k : string) s id t :
  well_formed s -> timers s !! id = Some t -> is_timeout_or_refresh (callback t) = true ->
  timers (clear_heartbeat k s) !! id = Some t.
Proof.
  intros W Ht Hk. unfold clear_heartbeat.
  destruct (heartbeatIntervals s !! k) as [i|] eqn:E; [|exact Ht].
  simpl. rewrite lookup_delete_ne; [exact Ht|]. intros ->.
  destruct (wf_heartbeats s W k id E) as [_ Hb]. specialize (Hb t Ht).
  destruct (callback t); discriminate.
Qed.

Lemma kept_clear_reconnect (v : Venue) (sy : Symbol) s id t :
  well_formed s -> timers s !! id = Some t -> is_timeout_or_refresh (callback t) = true ->
  timers (clear_reconnect (key v sy) s) !! id = Some t.
Proof.
  intros W Ht Hk. unfold clear_reconnect.
  destruct (reconnectTimeouts s !! key v sy) as [i|] eqn:E; [|exact Ht].
  simpl. rewrite lookup_delete_ne; [exact Ht|]. intros ->.
  destruct (wf_reconnects s W _ id E) as [_ Hb].
  destruct (Hb t Ht) as [Hr | [_ Hne]]; [destruct (callback t); discriminate|].
  exact (Hne v sy eq_refl).
Qed.

Lemma kept_schedule (cb : Callback) (delay : Z) (repeat : bool) s id t :
  well_formed s -> timers s !! id = Some t ->
  timers (schedule cb delay repeat s).2 !! id = Some t.
Proof.
  intros W Ht. simpl. rewrite lookup_insert_ne; [exact Ht|].
  pose proof (wf_timers s W id t Ht). lia.
Qed.

Lemma kept_connectToVenue (v : Venue) (sy : Symbol) (constructed : bool) s id t :
  well_formed s -> timers s !! id = Some t -> is_timeout_or_refresh (callback t) = true ->
  timers (connectToVenue v sy constructed s) !! id = Some t.
Proof.
  intros W Ht Hk. unfold connectToVenue. cbn zeta.
  set (s1 := setConnectionStatus v connecting _).
  assert (W1 : well_formed s1).
  { apply well_formed_setConnectionStatus, well_formed_clear_reconnect,
      well_formed_clear_heartbeat, well_formed_close_existing, W. }
  assert (H1 : timers s1 !! id = Some t).
  { subst s1. change (timers (setConnectionStatus v connecting ?x)) with (timers x).
    apply kept_clear_reconnect; [| |exact Hk].
    - apply well_formed_clear_heartbeat, well_formed_close_existing, W.
    - apply kept_clear_heartbeat; [apply well_formed_close_existing, W | | exact Hk].
      rewrite timers_close_existing. exact Ht. }
  clearbody s1. destruct constructed; simpl; [|exact H1].
  rewrite lookup_insert_ne; [exact H1|].
  pose proof (wf_timers s1 W1 id t H1). lia.
Qed.

Lemma kept_onopen (w : nat) (ws : WebSocket) s id t :
  well_formed s -> timers s !! id = Some t -> connectionTimeout ws <> id ->
  timers (onopen w ws s) !! id = Some t.
Proof.
  intros W Ht Hne. unfold onopen, setupHeartbeat, setInterval. simpl.
  rewrite lookup_insert_ne by (pose proof (wf_timers s W id t Ht); lia).
  rewrite lookup_delete_ne by exact Hne. exact Ht.
Qed.

Lemma timers_onmessage (ws : WebSocket) (m : Message number) s :
  timers (onmessage ws m s) = timers s.
Proof.
  unfold onmessage. destruct m; try reflexivity.
  destruct (is_confirmation _ _) as [[|]|]; try reflexivity.
  destruct (parseOrderbookData _ _ _); reflexivity.
Qed.

Lemma kept_onclose (ws : WebSocket) (code : Z) s id t :
  well_formed s -> timers s !! id = Some t -> is_timeout_or_refresh (callback t) = true ->
  timers (onclose ws code s) !! id = Some t.
Proof.
  intros W Ht Hk. unfold onclose. cbn zeta.
  set (s1 := clear_heartbeat _ _).
  assert (W1 : well_formed s1).
  { apply well_formed_clear_heartbeat, well_formed_setConnectionStatus, W. }
  assert (H1 : timers s1 !! id = Some t).
  { apply kept_clear_heartbeat; [apply well_formed_setConnectionStatus, W | exact Ht | exact Hk]. }
  clearbody s1. destruct (negb _ && negb _); [|exact H1].
  simpl. rewrite lookup_insert_ne; [exact H1|].
  pose proof (wf_timers s1 W1 id t H1). lia.
Qed.

Lemma kept_fall_back (w : nat) (v : Venue) (sy : Symbol) s id t :
  well_formed s -> timers s !! id = Some t ->
  timers (fall_back random w v sy s) !! id = Some t.
Proof.
  intros W Ht. unfold fall_back, setInterval. cbn zeta.
  set (s1 := store_mock _ _ _ _).
  assert (W1 : well_formed s1).
  { apply well_formed_store_mock, well_formed_setConnectionStatus, well_formed_ws_close, W. }
  assert (H1 : timers s1 !! id = Some t).
  { subst s1. rewrite timers_store_mock. exact Ht. }
  clearbody s1. simpl. rewrite lookup_insert_ne; [exact H1|].
  pose proof (wf_timers s1 W1 id t H1). lia.
Qed.

Lemma kept_run_callback (id' : nat) (cb : Callback) (constructed : bool) s id t :
  well_formed s -> timers s !! id = Some t -> is_timeout_or_refresh (callback t) = true ->
  id' <> id ->
  timers (run_callback random id' cb constructed s) !! id = Some t.
Proof.
  intros W Ht Hk Hne. destruct cb as [w v sy | v sy | v sy | w v]; cbn [run_callback].
  - destruct (decide _); [exact Ht | apply kept_fall_back; assumption].
  - rewrite timers_store_mock. exact Ht.
  - apply kept_connectToVenue; assumption.
  - destruct (decide _); [exact Ht|]. simpl. rewrite lookup_delete_ne; assumption.
Qed.

Lemma kept_fire (id' : nat) (constructed : bool) s id t :
  well_formed s -> timers s !! id = Some t -> is_timeout_or_refresh (callback t) = true ->
  id' <> id ->
  timers (fire random id' constructed s) !! id = Some t.
Proof.
  intros W Ht Hk Hne. unfold fire.
  destruct (timers s !! id') as [t'|] eqn:Ht'; [|exact Ht]. cbn zeta.
  apply kept_run_callback; try assumption.
  - destruct (period t') as [p|].
    + apply (well_formed_rearm id' t'); [exact Ht' | reflexivity |].
      apply well_formed_at_time, W.
    + apply (well_formed_clearTimeout id' (at_time _ s)), well_formed_at_time, W.
  - destruct (period t'); simpl;
      [rewrite lookup_insert_ne | rewrite lookup_delete_ne]; assumption.
Qed.

Lemma kept_deliver (w : nat) (enabled : ReadyState -> bool)
    (after : ReadyState -> ReadyState) (handler : WebSocket -> State -> State) s id t :
  (forall ws s', sockets s !! w = Some ws -> well_formed s' -> timers s' !! id = Some t ->
                 timers (handler (set_ready (after (readyState ws)) ws) s') !! id = Some t) ->
  well_formed s -> timers s !! id = Some t ->
  timers (deliver w enabled after handler s) !! id = Some t.
Proof.
  intros Hh W Ht. unfold deliver. destruct (sockets s !! w) as [ws|] eqn:Hw; [|exact Ht].
  destruct (enabled (readyState ws)); [|exact Ht].
  apply Hh; [reflexivity | | exact Ht].
  destruct (wf_sockets s W w ws Hw) as [Hlt Hct].
  apply well_formed_insert_socket; try assumption.
  simpl. intros u Hu. apply (wf_timeouts s W w ws u Hw Hu).
Qed.

End TimerFrames.
Section StepFrames.
Context `{JsNum number} `{Runtime number} (random : Random number).

Local Abbreviation State := (State number).

Implicit Types (s : State) (id : nat) (t : Timer).

Lemma foldr_preserves {B : Type} (p : State -> B) (f : nat -> State -> State)
    (l : list nat) s :
  (forall i s, p (f i s) = p s) -> p (foldr f s l) = p s.
Proof. intros Hf. induction l as [|i l IH]; simpl; [reflexivity | rewrite Hf; exact IH]. Qed.

Lemma kept_foldr_clearTimeout (l : list nat) s id t :
  id ∉ l -> timers s !! id = Some t -> timers (foldr clearTimeout s l) !! id = Some t.
Proof.
  intros Hl Ht. induction l as [|i l IH]; simpl; [exact Ht|].
  apply not_elem_of_cons in Hl. destruct Hl as [Hne Hl].
  rewrite lookup_delete_ne by congruence. apply IH, Hl.
Qed.

Lemma elem_of_values (m : gmap string nat) (i : nat) :
  i ∈ (map_to_list m).*2 -> exists k, m !! k = Some i.
Proof.
  intros Hi. apply list_elem_of_fmap in Hi. destruct Hi as ([k j] & -> & Hk).
  apply elem_of_map_to_list in Hk. eauto.
Qed.

Lemma kept_cleanup s id t :
  well_formed s -> timers s !! id = Some t ->
  (exists w v sy, callback t = ConnectionTimeout w v sy) ->
  timers (cleanup s) !! id = Some t.
Proof.
  intros W Ht (w & v & sy & Hcb). unfold cleanup. cbn zeta.
  change (timers (with_refs ∅ ∅ ∅ ?x)) with (timers x).
  set (s1 := foldr ws_close s _).
  assert (T1 : timers s1 = timers s) by (apply (foldr_preserves timers); reflexivity).
  assert (R1 : reconnectTimeouts s1 = reconnectTimeouts s)
    by (apply (foldr_preserves reconnectTimeouts); reflexivity).
  assert (B1 : heartbeatIntervals s1 = heartbeatIntervals s)
    by (apply (foldr_preserves heartbeatIntervals); reflexivity).
  clearbody s1.
  set (s2 := foldr clearTimeout s1 _).
  assert (B2 : heartbeatIntervals s2 = heartbeatIntervals s).
  { rewrite <- B1. apply (foldr_preserves heartbeatIntervals). reflexivity. }
  rewrite B2.
  apply kept_foldr_clearTimeout.
  - intros Hin. apply elem_of_values in Hin. destruct Hin as [k Hk].
    destruct (wf_heartbeats s W k id Hk) as [_ Hb]. specialize (Hb t Ht).
    rewrite Hcb in Hb. discriminate.
  - subst s2. rewrite R1. apply kept_foldr_clearTimeout; [|rewrite T1; exact Ht].
    intros Hin. apply elem_of_values in Hin. destruct Hin as [k Hk].
    destruct (wf_reconnects s W k id Hk) as [_ Hb].
    destruct (Hb t Ht) as [Hr | [Hm _]]; rewrite Hcb in *; discriminate.
Qed.

Lemma kept_step (e : Event number) s id t :
  well_formed s -> timers s !! id = Some t ->
  is_timeout_or_refresh (callback t) = true ->
  is_timer_of id e = false ->
  (is_cleanup e = true -> exists w v sy, callback t = ConnectionTimeout w v sy) ->
  (forall w ws, e = EvOpen w -> sockets s !! w = Some ws -> connectionTimeout ws <> id) ->
  timers (step random e s) !! id = Some t.
Proof.
  intros W Ht Hk Hfire Hclean Hopen.
  destruct e as [v sy c | | w | w m | w | w code | id' c | ms]; cbn [step].
  - apply kept_connectToVenue; assumption.
  - apply kept_cleanup; [assumption | assumption | apply Hclean; reflexivity].
  - apply kept_deliver; [|assumption|assumption].
    intros ws s' Hw W' Ht'. apply kept_onopen; [assumption | assumption |].
    simpl. apply (Hopen w ws eq_refl Hw).
  - apply kept_deliver; [|assumption|assumption].
    intros ws s' Hw W' Ht'. rewrite timers_onmessage. exact Ht'.
  - apply kept_deliver; [|assumption|assumption].
    intros ws s' Hw W' Ht'. exact Ht'.
  - apply kept_deliver; [|assumption|assumption].
    intros ws s' Hw W' Ht'. apply kept_onclose; assumption.
  - apply kept_fire; try assumption.
    simpl in Hfire. apply bool_decide_eq_false in Hfire. exact Hfire.
  - exact Ht.
Qed.

(** *** A socket that is not open stays so until its open event *)

Lemma not_open_ext (w : nat) s s' :
  sockets s' = sockets s -> not_open w s -> not_open w s'.
Proof. intros Hs (ws & Hw & Hst). exists ws. rewrite Hs. auto. Qed.

Lemma not_open_ws_close (w w' : nat) s : not_open w s -> not_open w (ws_close w' s).
Proof.
  intros (ws & Hw & Hst). unfold not_open. simpl.
  destruct (decide (w' = w)) as [->|Hne].
  - exists (closing ws). rewrite lookup_alter_eq, Hw. split; [reflexivity|].
    simpl. destruct (readyState ws); congruence.
  - exists ws. rewrite lookup_alter_ne by exact Hne. auto.
Qed.

Lemma not_open_insert (w w' : nat) (ws' : WebSocket) s :
  (w' = w -> readyState ws' <> OPEN) ->
  not_open w s -> not_open w (with_sockets (<[w' := ws']> (sockets s)) s).
Proof.
  intros Hnew (ws & Hw & Hst). unfold not_open. simpl.
  destruct (decide (w' = w)) as [->|Hne].
  - exists ws'. rewrite lookup_insert_eq. auto.
  - exists ws. rewrite lookup_insert_ne by exact Hne. auto.
Qed.

Lemma not_open_close_existing (w : nat) (k : string) s :
  not_open w s -> not_open w (close_existing k s).
Proof.
  intros N. unfold close_existing. destruct (websockets s !! k) as [w'|]; [|exact N].
  apply (not_open_ext w (ws_close w' s)); [reflexivity | apply not_open_ws_close, N].
Qed.

Lemma sockets_clear_heartbeat (k : string) s : sockets (clear_heartbeat k s) = sockets s.
Proof. unfold clear_heartbeat. destruct (heartbeatIntervals s !! k); reflexivity. Qed.

Lemma sockets_clear_reconnect (k : string) s : sockets (clear_reconnect k s) = sockets s.
Proof. unfold clear_reconnect. destruct (reconnectTimeouts s !! k); reflexivity. Qed.

Lemma sockets_store_mock (v : Venue) (sy : Symbol) s :
  sockets (store_mock random v sy s) = sockets s.
Proof.
  unfold store_mock. destruct (getMockOrderbookForVenue _ _ _ _ _). reflexivity.
Qed.

Lemma sockets_onmessage (ws : WebSocket) (m : Message number) s :
  sockets (onmessage ws m s) = sockets s.
Proof.
  unfold onmessage. destruct m; try reflexivity.
  destruct (is_confirmation _ _) as [[|]|]; try reflexivity.
  destruct (parseOrderbookData _ _ _); reflexivity.
Qed.

Lemma sockets_onclose (ws : WebSocket) (code : Z) s :
  sockets (onclose ws code s) = sockets s.
Proof.
  unfold onclose, clear_heartbeat. cbn zeta.
  destruct (heartbeatIntervals _ !! _); destruct (negb _ && negb _); reflexivity.
Qed.

Lemma not_open_connectToVenue (w : nat) (v : Venue) (sy : Symbol) (c : bool) s :
  not_open w s -> not_open w (connectToVenue v sy c s).
Proof.
  intros N. unfold connectToVenue. cbn zeta.
  set (s1 := setConnectionStatus v connecting _).
  assert (N1 : not_open w s1).
  { apply (not_open_ext w (close_existing (key v sy) s)).
    - subst s1. simpl. rewrite sockets_clear_reconnect, sockets_clear_heartbeat. reflexivity.
    - apply not_open_close_existing, N. }
  clearbody s1. destruct c; simpl; [|exact N1].
  destruct N1 as (ws & Hw & Hst). unfold not_open. simpl.
  destruct (decide (next_socket s1 = w)) as [->|Hne].
  - eexists. rewrite lookup_insert_eq. split; [reflexivity | discriminate].
  - exists ws. rewrite lookup_insert_ne by exact Hne. auto.
Qed.

Lemma not_open_fall_back (w w' : nat) (v : Venue) (sy : Symbol) s :
  not_open w s -> not_open w (fall_back random w' v sy s).
Proof.
  intros N. apply (not_open_ext w (ws_close w' s)); [|apply not_open_ws_close, N].
  unfold fall_back, store_mock, setInterval. cbn zeta.
  destruct (getMockOrderbookForVenue _ _ _ _ _). reflexivity.
Qed.

Lemma not_open_cleanup (w : nat) s : not_open w s -> not_open w (cleanup s).
Proof.
  intros N. unfold cleanup. cbn zeta.
  set (s1 := foldr ws_close s _).
  assert (N1 : not_open w s1).
  { subst s1. induction ((map_to_list (websockets s)).*2) as [|i l IH]; simpl;
      [exact N | apply not_open_ws_close, IH]. }
  clearbody s1.
  eapply not_open_ext; [|exact N1].
  change (sockets (with_refs ∅ ∅ ∅ ?x)) with (sockets x).
  rewrite (foldr_preserves sockets) by reflexivity.
  rewrite (foldr_preserves sockets) by reflexivity. reflexivity.
Qed.

Lemma not_open_deliver (w w' : nat) (enabled : ReadyState -> bool)
    (after : ReadyState -> ReadyState) (handler : WebSocket -> State -> State) s :
  (forall ws s', sockets (handler ws s') = sockets s') ->
  (w' = w -> forall st, st <> OPEN -> after st <> OPEN) ->
  not_open w s -> not_open w (deliver w' enabled after handler s).
Proof.
  intros Hh Hafter N. unfold deliver.
  destruct (sockets s !! w') as [ws'|] eqn:Hw'; [|exact N].
  destruct (enabled (readyState ws')); [|exact N].
  eapply not_open_ext; [apply Hh|].
  apply not_open_insert; [|exact N].
  intros ->. simpl. apply Hafter; [reflexivity|].
  destruct N as (ws & Hw & Hst). congruence.
Qed.

Lemma not_open_step (w : nat) (e : Event number) s :
  is_open_of w e = false -> not_open w s -> not_open w (step random e s).
Proof.
  intros He N. destruct e as [v sy c | | w' | w' m | w' | w' code | id' c | ms]; cbn [step].
  - apply not_open_connectToVenue, N.
  - apply not_open_cleanup, N.
  - apply not_open_deliver; [reflexivity | | exact N].
    intros ->. simpl in He. rewrite bool_decide_true in He by reflexivity. discriminate.
  - apply not_open_deliver; [intros; apply sockets_onmessage | auto | exact N].
  - apply not_open_deliver; [reflexivity | auto | exact N].
  - apply not_open_deliver; [intros; apply sockets_onclose | discriminate | exact N].
  - unfold fire. destruct (timers s !! id') as [t'|]; [|exact N]. cbn zeta.
    set (s1 := match period t' with Some _ => _ | None => _ end).
    assert (N1 : not_open w s1).
    { apply (not_open_ext w s); [|exact N]. subst s1. destruct (period t'); reflexivity. }
    clearbody s1. destruct (callback t') as [w' v sy | v sy | v sy | w' v]; cbn [run_callback].
    + destruct (decide _); [exact N1 | apply not_open_fall_back, N1].
    + eapply not_open_ext; [apply sockets_store_mock | exact N1].
    + apply not_open_connectToVenue, N1.
    + destruct (decide _); exact N1.
  - exact N.
Qed.

End StepFrames.
Section ScheduledFacts.

Lemma difference_of_subseteq (m m' : gmap nat Timer) : m' ⊆ m -> m' ∖ m = ∅.
Proof.
  intros Hsub. apply map_eq. intros i. rewrite lookup_empty.
  apply lookup_difference_None. destruct (m' !! i) as [t|] eqn:E; [right | left; reflexivity].
  exists t. eapply lookup_weaken; eassumption.
Qed.

Lemma difference_of_fresh_insert (m m' : gmap nat Timer) (i : nat) (t : Timer) :
  m !! i = None -> m' ⊆ m -> <[i := t]> m' ∖ m = {[i := t]}.
Proof.
  intros Hi Hsub. apply map_eq. intros j. destruct (decide (j = i)) as [->|Hne].
  - rewrite lookup_singleton_eq. apply lookup_difference_Some.
    split; [apply lookup_insert_eq | exact Hi].
  - rewrite lookup_singleton_ne by congruence.
    apply lookup_difference_None. rewrite lookup_insert_ne by congruence.
    destruct (m' !! j) as [u|] eqn:E; [right | left; reflexivity].
    exists u. eapply lookup_weaken; eassumption.
Qed.

End ScheduledFacts.

Section CloseFacts.
Context `{JsNum number} `{Runtime number} (random : Random number).

Local Abbreviation State := (State number).

Lemma timers_clear_heartbeat_subseteq (k : string) (s : State) :
  timers (clear_heartbeat k s) ⊆ timers s.
Proof.
  unfold clear_heartbeat. destruct (heartbeatIntervals s !! k); [|reflexivity].
  simpl. apply delete_subseteq.
Qed.

Lemma timers_clear_reconnect_subseteq (k : string) (s : State) :
  timers (clear_reconnect k s) ⊆ timers s.
Proof.
  unfold clear_reconnect. destruct (reconnectTimeouts s !! k); [|reflexivity].
  simpl. apply delete_subseteq.
Qed.

Lemma next_timer_clear_heartbeat (k : string) (s : State) :
  next_timer (clear_heartbeat k s) = next_timer s.
Proof. unfold clear_heartbeat. destruct (heartbeatIntervals s !! k); reflexivity. Qed.

Lemma now_clear_heartbeat (k : string) (s : State) : now (clear_heartbeat k s) = now s.
Proof. unfold clear_heartbeat. destruct (heartbeatIntervals s !! k); reflexivity. Qed.

Lemma onclose_scheduled (ws : WebSocket) (code : Z) (s s0 : State) :
  timers s = timers s0 -> next_timer s = next_timer s0 -> now s = now s0 ->
  timers s0 !! next_timer s0 = None ->
  (code <> 1000%Z -> code <> 1001%Z ->
   scheduled s0 (onclose ws code s)
   = {[ next_timer s0 := {| due := now s0 + 5000; period := None;
                            callback := Reconnect (ws_venue ws) (ws_symbol ws) |} ]} /\
   reconnectTimeouts (onclose ws code s) !! key (ws_venue ws) (ws_symbol ws)
   = Some (next_timer s0)) /\
  (code = 1000%Z \/ code = 1001%Z -> scheduled s0 (onclose ws code s) = ∅).
Proof.
  intros Ht Hn Hnow Hfresh. unfold onclose, scheduled. cbn zeta.
  set (s1 := clear_heartbeat _ _).
  assert (T1 : timers s1 ⊆ timers s0).
  { rewrite <- Ht. apply (timers_clear_heartbeat_subseteq _ (setConnectionStatus _ _ s)). }
  assert (N1 : next_timer s1 = next_timer s0).
  { rewrite <- Hn. apply (next_timer_clear_heartbeat _ (setConnectionStatus _ _ s)). }
  assert (C1 : now s1 = now s0).
  { rewrite <- Hnow. apply (now_clear_heartbeat _ (setConnectionStatus _ _ s)). }
  clearbody s1. split.
  - intros H1000 H1001.
    apply Z.eqb_neq in H1000. apply Z.eqb_neq in H1001. rewrite H1000, H1001.
    simpl. rewrite N1, C1. split; [|apply lookup_insert_eq].
    apply difference_of_fresh_insert; assumption.
  - intros [-> | ->]; simpl; apply difference_of_subseteq, T1.
Qed.

End CloseFacts.

(** C6.  A transport close event with a code other than 1000 and 1001
    (1006 for one) schedules exactly one timer: a reconnection of the
    same venue and symbol, due 5 seconds after the event, whose handle
    is stored under the connection's key; its callback is
    [connectToVenue].  A close event with code 1000 or 1001 schedules
    none. *)
Theorem C6_abnormal_close_schedules_one_reconnection :
  forall (number : Type) (A : JsNum number) (R : Runtime number) (random : Random number)
         (s : State number) (w : nat) (ws : WebSocket) (code : Z),
    reachable random s ->
    sockets s !! w = Some ws ->
    readyState ws <> CLOSED ->
    (code <> 1000%Z -> code <> 1001%Z ->
     scheduled s (step random (EvClose w code) s)
     = {[ next_timer s := {| due := now s + 5000; period := None;
                             callback := Reconnect (ws_venue ws) (ws_symbol ws) |} ]} /\
     reconnectTimeouts (step random (EvClose w code) s) !! key (ws_venue ws) (ws_symbol ws)
     = Some (next_timer s)) /\
    (code = 1000%Z \/ code = 1001%Z -> scheduled s (step random (EvClose w code) s) = ∅) /\
    (forall id c s', run_callback random id (Reconnect (ws_venue ws) (ws_symbol ws)) c s'
                     = connectToVenue (ws_venue ws) (ws_symbol ws) c s').
Proof.
  intros number A R random s w ws code Hs Hw Hst.
  apply reachable_well_formed in Hs.
  assert (Hfresh : timers s !! next_timer s = None).
  { destruct (timers s !! next_timer s) as [t|] eqn:E; [|reflexivity].
    pose proof (wf_timers s Hs _ t E). lia. }
  cbn [step]. unfold deliver. rewrite Hw. rewrite bool_decide_true by exact Hst.
  destruct (onclose_scheduled (set_ready CLOSED ws) code
              (with_sockets (<[w := set_ready CLOSED ws]> (sockets s)) s) s
              eq_refl eq_refl eq_refl Hfresh) as [Habn Hnorm].
  split; [exact Habn | split; [exact Hnorm | reflexivity]].
Qed.
Section FallbackFacts.
Context `{JsNum number} `{Runtime number} (random : Random number).

Local Abbreviation State := (State number).

Implicit Types (s : State) (id : nat) (t : Timer).

Lemma connectToVenue_started (v : Venue) (sy : Symbol) s :
  timers (connectToVenue v sy true s) !! next_timer s
  = Some {| due := now s + 15000; period := None;
            callback := ConnectionTimeout (next_socket s) v sy |} /\
  not_open (next_socket s) (connectToVenue v sy true s).
Proof.
  unfold connectToVenue, close_existing, clear_heartbeat, clear_reconnect, not_open.
  cbn zeta.
  destruct (websockets s !! key v sy);
    cbn [heartbeatIntervals with_refs ws_close with_sockets with_host];
    destruct (heartbeatIntervals s !! key v sy); cbn -[Z.add key];
    destruct (reconnectTimeouts s !! key v sy); cbn -[Z.add key];
    rewrite !lookup_insert_eq; (split; [reflexivity|]);
    eexists; (split; [reflexivity | discriminate]).
Qed.

(** The connect timeout fires on a socket that is not open. *)
Lemma fire_connect_timeout id (c : bool) (w : nat) (v : Venue) (sy : Symbol) (d : Z) s :
  timers s !! id = Some {| due := d; period := None; callback := ConnectionTimeout w v sy |} ->
  not_open w s ->
  let s' := fire random id c s in
  (ready w s' = Some CLOSING \/ ready w s' = Some CLOSED) /\
  connectionStatus s' v = connected /\
  now s' = Z.max (now s) d /\
  orderbooks s' v = Some (synthetic random v sy (calls s) (now s')) /\
  timers s' !! next_timer s
  = Some {| due := now s' + 2000; period := Some 2000%Z; callback := MockRefresh v sy |} /\
  reconnectTimeouts s' !! mock_key v sy = Some (next_timer s).
Proof.
  intros Ht (ws & Hw & Hst). unfold fire. rewrite Ht. cbn zeta. cbn [period callback due].
  cbn [run_callback].
  destruct (decide _) as [Hopen|_].
  { exfalso. unfold ready in Hopen. simpl in Hopen. rewrite Hw in Hopen.
    simpl in Hopen. congruence. }
  unfold fall_back, store_mock, synthetic, setInterval, ready. cbn zeta.
  destruct (getMockOrderbookForVenue (venue_str v) (symbol_str sy) random _ _)
    as [ob c'] eqn:E.
  cbn -[Z.add Z.max mock_key getMockOrderbookForVenue].
  rewrite lookup_alter_eq, Hw. cbn [fmap option_fmap option_map closing readyState].
  rewrite !lookup_insert_eq, !fn_lookup_insert.
  repeat split; try reflexivity.
  destruct (readyState ws); auto; congruence.
Qed.

(** The synthetic refresh fires. *)
Lemma fire_mock_refresh id (c : bool) (v : Venue) (sy : Symbol) (d p : Z) s :
  timers s !! id = Some {| due := d; period := Some p; callback := MockRefresh v sy |} ->
  let s' := fire random id c s in
  now s' = Z.max (now s) d /\
  orderbooks s' v = Some (synthetic random v sy (calls s) (now s')) /\
  timers s' !! id = Some {| due := now s' + p; period := Some p; callback := MockRefresh v sy |}.
Proof.
  intros Ht. unfold fire. rewrite Ht. cbn zeta. cbn [period callback due run_callback].
  unfold store_mock, synthetic. cbn zeta.
  destruct (getMockOrderbookForVenue (venue_str v) (symbol_str sy) random _ _)
    as [ob c'] eqn:E.
  cbn -[Z.add Z.max getMockOrderbookForVenue].
  rewrite lookup_insert_eq, fn_lookup_insert. repeat split; reflexivity.
Qed.

(** While the socket has not opened and the timeout has not fired, the
    timeout stays pending. *)
Lemma timeout_stays_pending (w id : nat) (v : Venue) (sy : Symbol) (d : Z)
    (es : list (Event number)) s :
  forallb (fun e => negb (is_open_of w e) && negb (is_timer_of id e)) es = true ->
  well_formed s ->
  timers s !! id = Some {| due := d; period := None; callback := ConnectionTimeout w v sy |} ->
  not_open w s ->
  well_formed (run random es s) /\
  timers (run random es s) !! id
  = Some {| due := d; period := None; callback := ConnectionTimeout w v sy |} /\
  not_open w (run random es s).
Proof.
  revert s. induction es as [|e es IH]; intros s Hes W Ht N; [auto|].
  simpl in Hes. apply andb_prop in Hes. destruct Hes as [He Hes].
  apply andb_prop in He. destruct He as [Ho Hf].
  apply negb_true_iff in Ho. apply negb_true_iff in Hf.
  simpl. apply IH; [exact Hes | apply well_formed_step, W | | apply not_open_step; assumption].
  apply kept_step; try assumption; try reflexivity.
  - intros _. eauto.
  - intros w' ws' -> Hw' Hct.
    pose proof (wf_timeouts s W w' ws' _ Hw' (eq_ind_r (fun i => timers s !! i = _) Ht Hct)) as Hcb.
    simpl in Hcb. inversion Hcb; subst w'.
    simpl in Ho. rewrite bool_decide_true in Ho by reflexivity. discriminate.
Qed.

(** Until the cleanup runs, the synthetic refresh stays armed with its
    period. *)
Lemma refresh_stays_armed (id : nat) (v : Venue) (sy : Symbol) (p : Z)
    (es : list (Event number)) s :
  forallb (fun e => negb (is_cleanup e)) es = true ->
  well_formed s ->
  (exists d, timers s !! id
             = Some {| due := d; period := Some p; callback := MockRefresh v sy |}) ->
  well_formed (run random es s) /\
  exists d, timers (run random es s) !! id
            = Some {| due := d; period := Some p; callback := MockRefresh v sy |}.
Proof.
  revert s. induction es as [|e es IH]; intros s Hes W [d Ht]; [eauto|].
  simpl in Hes. apply andb_prop in Hes. destruct Hes as [He Hes].
  apply negb_true_iff in He.
  simpl. apply IH; [exact Hes | apply well_formed_step, W |].
  destruct (is_timer_of id e) eqn:Hf.
  - destruct e; try discriminate. simpl in Hf. apply bool_decide_eq_true in Hf. subst.
    cbn [step]. eexists. apply (fire_mock_refresh _ _ _ _ _ _ _ Ht).
  - exists d. apply kept_step; try assumption; try reflexivity.
    + intros Hc. congruence.
    + intros w' ws' -> Hw' Hct.
      pose proof (wf_timeouts s W w' ws' _ Hw' (eq_ind_r (fun i => timers s !! i = _) Ht Hct)) as Hcb.
      simpl in Hcb. discriminate.
Qed.

End FallbackFacts.
(** C3.  Start a connection for a venue and symbol: socket [w], connect
    timeout [tid], due 15 seconds later.  As long as no open event has
    come for [w], whatever else happens, the timeout stays pending; when
    it fires (not before the 15 seconds are over) the supervisor closes
    the socket, sets the venue's status to "connected", stores a
    synthetic Orderbook for the venue and arms a timer [mid] with a
    period of 2 seconds.  From then on, until the cleanup of the hook
    runs, that timer stays armed, and each time it fires it stores a
    fresh synthetic Orderbook for the venue and is due again 2 seconds
    later. *)
Theorem C3_connect_timeout_falls_back_to_synthetic_feed :
  forall (number : Type) (A : JsNum number) (R : Runtime number) (random : Random number)
         (s : State number) (venue : Venue) (symbol : Symbol)
         (es es' : list (Event number)) (c c' : bool),
    reachable random s ->
    let w := next_socket s in
    let tid := next_timer s in
    let s1 := step random (EvConnect venue symbol true) s in
    forallb (fun e => negb (is_open_of w e) && negb (is_timer_of tid e)) es = true ->
    let s2 := run random es s1 in
    let s3 := step random (EvTimer tid c) s2 in
    let mid := next_timer s2 in
    forallb (fun e => negb (is_cleanup e)) es' = true ->
    let s4 := run random es' s3 in
    let s5 := step random (EvTimer mid c') s4 in
    timers s2 !! tid = Some {| due := now s + 15000; period := None;
                               callback := ConnectionTimeout w venue symbol |} /\
    (now s + 15000 <= now s3)%Z /\
    (ready w s3 = Some CLOSING \/ ready w s3 = Some CLOSED) /\
    connectionStatus s3 venue = connected /\
    orderbooks s3 venue = Some (synthetic random venue symbol (calls s2) (now s3)) /\
    timers s3 !! mid = Some {| due := now s3 + 2000; period := Some 2000%Z;
                               callback := MockRefresh venue symbol |} /\
    (exists d, timers s4 !! mid = Some {| due := d; period := Some 2000%Z;
                                          callback := MockRefresh venue symbol |}) /\
    orderbooks s5 venue = Some (synthetic random venue symbol (calls s4) (now s5)) /\
    timers s5 !! mid = Some {| due := now s5 + 2000; period := Some 2000%Z;
                               callback := MockRefresh venue symbol |}.
Proof.
  intros number A R random s venue symbol es es' c c' Hs w tid s1 Hes s2 s3 mid Hes' s4 s5.
  apply reachable_well_formed in Hs.
  destruct (connectToVenue_started venue symbol s) as [Ht1 N1].
  assert (W1 : well_formed s1) by apply well_formed_step, Hs.
  destruct (timeout_stays_pending random w tid venue symbol (now s + 15000) es s1
              Hes W1 Ht1 N1) as (W2 & Ht2 & N2).
  fold s2 in W2, Ht2, N2.
  destruct (fire_connect_timeout random tid c w venue symbol (now s + 15000) s2 Ht2 N2)
    as (Hr3 & Hc3 & Hn3 & Ho3 & Ht3 & _).
  change (fire random tid c s2) with s3 in *. fold mid in Ht3.
  assert (W3 : well_formed s3) by apply well_formed_step, W2.
  destruct (refresh_stays_armed random mid venue symbol 2000 es' s3 Hes' W3
              (ex_intro _ _ Ht3)) as (W4 & d & Ht4).
  fold s4 in W4, Ht4.
  destruct (fire_mock_refresh random mid c' venue symbol d 2000 s4 Ht4) as (_ & Ho5 & Ht5).
  change (fire random mid c' s4) with s5 in *.
  repeat split; try assumption; [lia | eauto].
Qed.

Section SocketFacts.
Context `{JsNum number} `{Runtime number} (random : Random number).

Local Abbreviation State := (State number).

(** The socket [connectToVenue] creates. *)
Lemma connectToVenue_socket (v : Venue) (sy : Symbol) (s : State) :
  sockets (connectToVenue v sy true s) !! next_socket s
  = Some {| url := wsUrl v; readyState := CONNECTING; ws_venue := v; ws_symbol := sy;
            connectionTimeout := next_timer s |}.
Proof.
  unfold connectToVenue, close_existing, clear_heartbeat, clear_reconnect. cbn zeta.
  destruct (websockets s !! key v sy);
    cbn [heartbeatIntervals with_refs ws_close with_sockets with_host];
    destruct (heartbeatIntervals s !! key v sy); cbn -[Z.add key];
    destruct (reconnectTimeouts s !! key v sy); cbn -[Z.add key];
    apply lookup_insert_eq.
Qed.

Lemma sockets_onopen (w : nat) (ws : WebSocket) (s : State) :
  sockets (onopen w ws s) = sockets s.
Proof. reflexivity. Qed.

(** The open event of a connecting socket opens it. *)
Lemma open_event_opens (w : nat) (ws : WebSocket) (s : State) :
  sockets s !! w = Some ws -> readyState ws = CONNECTING ->
  sockets (step random (EvOpen w) s) !! w = Some (set_ready OPEN ws).
Proof.
  intros Hw Hst. cbn [step]. unfold deliver. rewrite Hw, Hst.
  rewrite bool_decide_true by reflexivity. rewrite sockets_onopen.
  cbn [sockets with_sockets with_host]. apply lookup_insert_eq.
Qed.

(** A close event that is delivered leaves the venue disconnected. *)
Lemma close_event_status (w : nat) (ws : WebSocket) (code : Z) (s : State) :
  sockets s !! w = Some ws -> readyState ws <> CLOSED ->
  connectionStatus (step random (EvClose w code) s) (ws_venue ws) = disconnected.
Proof.
  intros Hw Hst. cbn [step]. unfold deliver. rewrite Hw.
  rewrite bool_decide_true by exact Hst.
  apply (onclose_status (set_ready CLOSED ws)).
Qed.

End SocketFacts.

Section RunFacts.
Context `{JsNum number} `{Runtime number} (random : Random number).

Lemma run_nil (s : State number) : run random [] s = s.
Proof. reflexivity. Qed.

Lemma run_cons (e : Event number) (es : list (Event number)) (s : State number) :
  run random (e :: es) s = run random es (step random e s).
Proof. reflexivity. Qed.

End RunFacts.

Section SupervisorExamples.
#[local] Existing Instance Reference.runtime.

(** The socket of the open OKX connection of the examples. *)
Lemma open_okx_socket :
  sockets Scenarios.open_okx !! 0%nat
  = Some {| url := wsUrl OKX; readyState := OPEN; ws_venue := OKX; ws_symbol := BTC_USD;
            connectionTimeout := next_timer (initial : State float) |}.
Proof.
  unfold Scenarios.open_okx. rewrite !run_cons, run_nil.
  rewrite (open_event_opens Examples.draws_half 0
           {| url := wsUrl OKX; readyState := CONNECTING; ws_venue := OKX;
              ws_symbol := BTC_USD; connectionTimeout := next_timer (initial : State float) |}
           (step Examples.draws_half (EvConnect OKX BTC_USD true) initial)
           (connectToVenue_socket OKX BTC_USD (initial : State float)) eq_refl).
  reflexivity.
Qed.

Lemma C3_witness :
  let w := next_socket (initial : State float) in
  let tid := next_timer (initial : State float) in
  let s1 := step Examples.draws_half (EvConnect OKX BTC_USD true) initial in
  let s2 := run Examples.draws_half Scenarios.before_timeout s1 in
  let s3 := step Examples.draws_half (EvTimer tid true) s2 in
  let mid := next_timer s2 in
  let s4 := run Examples.draws_half Scenarios.after_fallback s3 in
  let s5 := step Examples.draws_half (EvTimer mid true) s4 in
  timers s2 !! tid = Some {| due := now (initial : State float) + 15000; period := None;
                             callback := ConnectionTimeout w OKX BTC_USD |} /\
  (now (initial : State float) + 15000 <= now s3)%Z /\
  (ready w s3 = Some CLOSING \/ ready w s3 = Some CLOSED) /\
  connectionStatus s3 OKX = connected /\
  orderbooks s3 OKX = Some (synthetic Examples.draws_half OKX BTC_USD (calls s2) (now s3)) /\
  timers s3 !! mid = Some {| due := now s3 + 2000; period := Some 2000%Z;
                             callback := MockRefresh OKX BTC_USD |} /\
  (exists d, timers s4 !! mid = Some {| due := d; period := Some 2000%Z;
                                        callback := MockRefresh OKX BTC_USD |}) /\
  orderbooks s5 OKX = Some (synthetic Examples.draws_half OKX BTC_USD (calls s4) (now s5)) /\
  timers s5 !! mid = Some {| due := now s5 + 2000; period := Some 2000%Z;
                             callback := MockRefresh OKX BTC_USD |}.
Proof.
  exact (C3_connect_timeout_falls_back_to_synthetic_feed float float64 Reference.runtime
           Examples.draws_half initial OKX BTC_USD
           Scenarios.before_timeout Scenarios.after_fallback true true
           (ex_intro _ [] eq_refl) eq_refl eq_refl).
Defined.

End SupervisorExamples.

Section ConstructorFailure.
Context `{JsNum number} `{Runtime number} (random : Random number).

Local Abbreviation State := (State number).

Lemma connectToVenue_not_constructed (v : Venue) (sy : Symbol) (s : State) :
  connectionStatus (connectToVenue v sy false s) v = error /\
  orderbooks (connectToVenue v sy false s) = orderbooks s /\
  calls (connectToVenue v sy false s) = calls s /\
  lastError (connectToVenue v sy false s) = lastError s /\
  timers (connectToVenue v sy false s) ⊆ timers s.
Proof.
  unfold connectToVenue, close_existing, clear_heartbeat, clear_reconnect. cbn zeta.
  destruct (websockets s !! key v sy);
    cbn [heartbeatIntervals with_refs ws_close with_sockets with_host];
    destruct (heartbeatIntervals s !! key v sy); simpl;
    destruct (reconnectTimeouts s !! key v sy); simpl;
    rewrite fn_lookup_insert; repeat split;
    try reflexivity; try apply delete_subseteq;
    (etrans; [apply delete_subseteq | apply delete_subseteq]).
Qed.

End ConstructorFailure.

(** C4 on the code.  When the constructor of the transport throws,
    [createWebSocket] catches the exception, sets the venue's status to
    "error" and returns null, and [connectToVenue] returns at once:
    nothing is written to the store, no draw is made, no error text is
    set and no timer is armed.  The [catch] block of [connectToVenue],
    which would store a synthetic Orderbook, is not reached. *)
Theorem C4_constructor_failure_stores_nothing :
  forall (number : Type) (A : JsNum number) (R : Runtime number) (random : Random number)
         (s : State number) (venue : Venue) (symbol : Symbol) (message : string),
    connectionStatus (step random (EvConnect venue symbol false) s) venue = error /\
    orderbooks (step random (EvConnect venue symbol false) s) = orderbooks s /\
    calls (step random (EvConnect venue symbol false) s) = calls s /\
    lastError (step random (EvConnect venue symbol false) s) = lastError s /\
    scheduled s (step random (EvConnect venue symbol false) s) = ∅ /\
    orderbooks (connectToVenue_catch random venue symbol message s) venue
    = Some (synthetic random venue symbol (calls s) (now s)).
Proof.
  intros number A R random s venue symbol message. cbn [step].
  destruct (connectToVenue_not_constructed venue symbol s) as (H1 & H2 & H3 & H4 & H5).
  repeat split; try assumption.
  - apply difference_of_subseteq, H5.
  - unfold connectToVenue_catch. cbn zeta.
    apply (store_mock_orderbooks random venue symbol
             (setError _ (setConnectionStatus venue error s))).
Qed.

Section SupervisorExamples2.
#[local] Existing Instance Reference.runtime.

(** From the initial state: the venue is in error and its entry of the
    store is still empty. *)
Example constructor_failure_from_initial :
  connectionStatus (step Examples.draws_half (EvConnect OKX BTC_USD false) initial) OKX = error /\
  orderbooks (step Examples.draws_half (EvConnect OKX BTC_USD false) initial) OKX = None.
Proof.
  destruct (connectToVenue_not_constructed OKX BTC_USD (initial : State float))
    as (H1 & H2 & _).
  split; [exact H1|]. cbn [step]. rewrite H2. reflexivity.
Qed.

Lemma C5_witness :
  connectionStatus (step Examples.draws_half (EvClose 0 1006) Scenarios.open_okx) OKX
  = disconnected /\
  connectionStatus (step Examples.draws_half (EvError 0) Scenarios.open_okx) OKX = error.
Proof.
  apply (C5_close_sets_disconnected float float64 Reference.runtime Examples.draws_half
           Scenarios.open_okx 0
           {| url := wsUrl OKX; readyState := OPEN; ws_venue := OKX; ws_symbol := BTC_USD;
              connectionTimeout := next_timer (initial : State float) |} 1006).
  - exact open_okx_socket.
  - discriminate.
Defined.

(** C5 as stated fails.  After the close event with code 1006 on the
    open OKX connection the status is not "error". *)
Lemma C5_abnormal_close_is_not_error :
  connectionStatus (step Examples.draws_half (EvClose 0 1006) Scenarios.open_okx) OKX
  <> error.
Proof.
  rewrite (close_event_status Examples.draws_half 0 _ 1006 Scenarios.open_okx open_okx_socket);
    discriminate.
Qed.

Lemma C6_witness :
  (1006 <> 1000 -> 1006 <> 1001 ->
   scheduled Scenarios.open_okx (step Examples.draws_half (EvClose 0 1006) Scenarios.open_okx)
   = {[ next_timer Scenarios.open_okx :=
          {| due := now Scenarios.open_okx + 5000; period := None;
             callback := Reconnect OKX BTC_USD |} ]} /\
   reconnectTimeouts (step Examples.draws_half (EvClose 0 1006) Scenarios.open_okx)
     !! key OKX BTC_USD = Some (next_timer Scenarios.open_okx))%Z /\
  (1006 = 1000 \/ 1006 = 1001 ->
   scheduled Scenarios.open_okx (step Examples.draws_half (EvClose 0 1006) Scenarios.open_okx)
   = ∅)%Z /\
  (forall id c s', run_callback Examples.draws_half id (Reconnect OKX BTC_USD) c s'
                   = connectToVenue OKX BTC_USD c s').
Proof.
  apply (C6_abnormal_close_schedules_one_reconnection float float64 Reference.runtime
           Examples.draws_half Scenarios.open_okx 0
           {| url := wsUrl OKX; readyState := OPEN; ws_venue := OKX; ws_symbol := BTC_USD;
              connectionTimeout := next_timer (initial : State float) |} 1006).
  - exists [EvConnect OKX BTC_USD true; EvOpen 0]. reflexivity.
  - exact open_okx_socket.
  - discriminate.
Defined.

End SupervisorExamples2.

(** ** More on the order-impact estimator *)

Section TableFacts.
Context `{JsNum number}.

(** The multiplier of a timing that is no inherited property name is
    one of the four entries (the default is the entry of "5s"). *)
Lemma timingMultiplier_cases (timing : string) :
  inherited timing = false ->
  OrderSimulation.timingMultiplier timing = dec 12 1 \/
  OrderSimulation.timingMultiplier timing = dec 10 1 \/
  OrderSimulation.timingMultiplier timing = dec 9 1 \/
  OrderSimulation.timingMultiplier timing = dec 8 1.
Proof.
  intros Hi. unfold OrderSimulation.timingMultiplier. cbn [lookup_or]. rewrite Hi.
  destruct (String.eqb timing "immediate"); [auto|].
  destruct (String.eqb timing "5s"); [auto|].
  destruct (String.eqb timing "10s"); [auto|].
  destruct (String.eqb timing "30s"); auto.
Qed.

Lemma timingMultiplier_inherited (timing : string) :
  inherited timing = true -> OrderSimulation.timingMultiplier timing = nan.
Proof.
  intros Hi. apply bool_decide_eq_true in Hi. unfold object_prototype_keys in Hi.
  repeat (apply elem_of_cons in Hi; destruct Hi as [->|Hi]; [reflexivity|]).
  apply elem_of_nil in Hi. contradiction.
Qed.

Lemma timingMultiplier_unlisted (timing : string) :
  timing ∉ ["immediate"; "5s"; "10s"; "30s"]%string -> inherited timing = false ->
  OrderSimulation.timingMultiplier timing = dec 10 1.
Proof.
  intros Hn Hi. unfold OrderSimulation.timingMultiplier. cbn [lookup_or]. rewrite Hi.
  repeat (apply not_elem_of_cons in Hn; destruct Hn as [Hne Hn];
          apply String.eqb_neq in Hne; rewrite Hne; clear Hne).
  reflexivity.
Qed.

End TableFacts.

Section ReplaceFacts.

Lemma includes_cons_false (p : string) (c : ascii) (s : string) :
  JsString.includes p (String c s) = false ->
  JsString.starts_with p (String c s) = false /\ JsString.includes p s = false.
Proof.
  cbn [JsString.includes]. destruct (JsString.starts_with p (String c s)); [discriminate | auto].
Qed.

(** A pattern that does not occur is not replaced. *)
Lemma replace_absent (p r s : string) :
  JsString.includes p s = false -> JsString.replace p r s = s.
Proof.
  induction s as [|c s IH]; intros Hi.
  - cbn [JsString.includes JsString.replace] in *.
    destruct (JsString.starts_with p ""); [discriminate | reflexivity].
  - apply includes_cons_false in Hi. destruct Hi as [Hs Hi].
    cbn [JsString.replace]. rewrite Hs, (IH Hi). reflexivity.
Qed.

(** Removing the first "s" of [t ++ "s"], where [t] has none, gives [t]. *)
Lemma replace_final_s (t : string) :
  JsString.includes "s" t = false -> JsString.replace "s" "" (t ++ "s") = t.
Proof.
  induction t as [|c t IH]; intros Hi; [reflexivity|].
  apply includes_cons_false in Hi. destruct Hi as [Hs Hi].
  change (String c t ++ "s")%string with (String c (t ++ "s")).
  cbn [JsString.replace]. cbn [JsString.starts_with] in Hs |- *.
  destruct (Ascii.eqb "s" c); [discriminate|]. rewrite (IH Hi). reflexivity.
Qed.

Lemma includes_final (c : ascii) (t : string) :
  JsString.includes (String c "") (t ++ String c "") = true.
Proof.
  induction t as [|a t IH].
  - change ("" ++ String c "")%string with (String c "").
    cbn [JsString.includes JsString.starts_with]. rewrite Ascii.eqb_refl. reflexivity.
  - change (String a t ++ String c "")%string with (String a (t ++ String c "")).
    cbn [JsString.includes]. rewrite IH.
    destruct (JsString.starts_with _ _); reflexivity.
Qed.

End ReplaceFacts.

(** X1.  A timing written as a number of seconds, [t ++ "s"] with no
    "s" in [t] ("5s", "10s", "30s", "45s"), is its own estimated fill
    time: the "s" the estimator removes is the one it appends again. *)
Theorem estimated_fill_time_of_seconds :
  forall (number : Type) (A : JsNum number) (o : OrderSimulation.SimulatedOrder number)
         (t : string),
    OrderSimulation.timing o = (t ++ "s")%string ->
    JsString.includes "s" t = false ->
    OrderSimulation.estimatedFillTime (OrderSimulation.calculateOrderMetrics o)
    = OrderSimulation.timing o.
Proof.
  intros number A o t Ht Hs. unfold OrderSimulation.calculateOrderMetrics.
  cbn [OrderSimulation.estimatedFillTime]. rewrite Ht.
  destruct (String.eqb (t ++ "s") "immediate") eqn:E.
  - apply String.eqb_eq in E. pose proof (includes_final "s" t) as Hi.
    rewrite E in Hi. discriminate Hi.
  - rewrite (replace_final_s t Hs). reflexivity.
Qed.

Lemma estimated_fill_time_of_seconds_witness :
  OrderSimulation.estimatedFillTime
    (OrderSimulation.calculateOrderMetrics (order_of (int 1 : float) (int 100) "10s"))
  = OrderSimulation.timing (order_of (int 1 : float) (int 100) "10s").
Proof.
  apply (estimated_fill_time_of_seconds float float64
           (order_of (int 1) (int 100) "10s") "10"); reflexivity.
Defined.

Section WarningFacts.
Context `{JsNum number}.
Local Open Scope js_scope.

Lemma elem_of_push_if (c : bool) (w x : string) (ws : list string) :
  x ∈ OrderSimulation.push_if c w ws <-> x ∈ ws \/ (c = true /\ x = w).
Proof.
  unfold OrderSimulation.push_if. destruct c.
  - rewrite elem_of_app, list_elem_of_singleton. intuition.
  - intuition discriminate.
Qed.

(** Which warning is raised when. *)
Lemma warnings_spec (o : OrderSimulation.SimulatedOrder number) (x : string) :
  let m := OrderSimulation.calculateOrderMetrics o in
  x ∈ OrderSimulation.warnings m <->
  ((OrderSimulation.marketImpact m >? dec 15 1) = true /\ x = "High market impact detected"%string) \/
  ((OrderSimulation.slippage m >? OrderSimulation.price o * dec 5 3) = true
   /\ x = "Significant slippage expected"%string) \/
  ((OrderSimulation.fillPercentage m <? int 70) = true /\ x = "Low fill probability"%string) \/
  (negb (String.eqb (OrderSimulation.timing o) "immediate")
   && (OrderSimulation.marketImpact m >? dec 10 1) = true
   /\ x = "Consider immediate execution to reduce impact"%string).
Proof.
  cbn zeta. unfold OrderSimulation.calculateOrderMetrics.
  cbn [OrderSimulation.warnings OrderSimulation.marketImpact OrderSimulation.slippage
       OrderSimulation.fillPercentage].
  rewrite !elem_of_push_if, elem_of_nil. tauto.
Qed.

End WarningFacts.

(** X2.  In binary64, whatever the quantity, the price and the timing
    of the order are (NaN and the infinities included), the fill
    percentage is never below 20. *)
Theorem fill_percentage_is_never_below_20 :
  forall o : OrderSimulation.SimulatedOrder float,
    (OrderSimulation.fillPercentage (OrderSimulation.calculateOrderMetrics o) <? int 20)%js
    = false.
Proof. intros o. apply max2_20_floor. Qed.

(** X3.  A timing that is a property every object inherits
    ("constructor", "toString", ...) is not replaced by the default
    multiplier 1.0: the lookup finds the inherited property, the
    arithmetic turns it into NaN, and the estimator returns NaN for the
    impact, the fill percentage and the slippage and raises no warning
    (binary64). *)
Theorem inherited_timing_gives_NaN_metrics :
  forall o : OrderSimulation.SimulatedOrder float,
    inherited (OrderSimulation.timing o) = true ->
    OrderSimulation.calculateOrderMetrics o =
    {| OrderSimulation.fillPercentage := nan;
       OrderSimulation.marketImpact := nan;
       OrderSimulation.slippage := nan;
       OrderSimulation.estimatedFillTime :=
         (JsString.replace "s" "" (OrderSimulation.timing o) ++ "s")%string;
       OrderSimulation.warnings := [] |}.
Proof.
  intros o Hi. unfold OrderSimulation.calculateOrderMetrics.
  rewrite (timingMultiplier_inherited _ Hi).
  assert (Hne : String.eqb (OrderSimulation.timing o) "immediate" = false).
  { apply String.eqb_neq. intros E. rewrite E in Hi. discriminate Hi. }
  rewrite Hne. cbn [mul sub gtb ltb max2 nan float64 negb andb].
  rewrite float_mul_nan_r, !float_mul_nan_l, float_sub_nan_r.
  change (F64.max2 (int 20) PrimFloat.nan) with PrimFloat.nan.
  rewrite !float_ltb_nan_r, float_ltb_nan_l. reflexivity.
Qed.

Lemma inherited_timing_gives_NaN_metrics_witness :
  OrderSimulation.calculateOrderMetrics (order_of (int 1 : float) (int 100) "constructor") =
  {| OrderSimulation.fillPercentage := nan;
     OrderSimulation.marketImpact := nan;
     OrderSimulation.slippage := nan;
     OrderSimulation.estimatedFillTime :=
       (JsString.replace "s" ""
          (OrderSimulation.timing (order_of (int 1 : float) (int 100) "constructor")) ++ "s")%string;
     OrderSimulation.warnings := [] |}.
Proof.
  apply (inherited_timing_gives_NaN_metrics (order_of (int 1) (int 100) "constructor")).
  reflexivity.
Defined.

(** X4.  A timing other than the four listed ones (and not inherited)
    is estimated as "5s": same impact, fill percentage, slippage and
    warnings. *)
Theorem unlisted_timing_is_estimated_as_5s :
  forall (number : Type) (A : JsNum number) (o : OrderSimulation.SimulatedOrder number),
    OrderSimulation.timing o ∉ ["immediate"; "5s"; "10s"; "30s"]%string ->
    inherited (OrderSimulation.timing o) = false ->
    let m := OrderSimulation.calculateOrderMetrics o in
    let m5 := OrderSimulation.calculateOrderMetrics
                (order_of (OrderSimulation.quantity o) (OrderSimulation.price o) "5s") in
    OrderSimulation.marketImpact m = OrderSimulation.marketImpact m5 /\
    OrderSimulation.fillPercentage m = OrderSimulation.fillPercentage m5 /\
    OrderSimulation.slippage m = OrderSimulation.slippage m5 /\
    OrderSimulation.warnings m = OrderSimulation.warnings m5.
Proof.
  intros number A o Hn Hi. cbn zeta. unfold OrderSimulation.calculateOrderMetrics.
  cbn [OrderSimulation.warnings OrderSimulation.marketImpact OrderSimulation.slippage
       OrderSimulation.fillPercentage order_of OrderSimulation.quantity
       OrderSimulation.price OrderSimulation.timing].
  rewrite (timingMultiplier_unlisted _ Hn Hi).
  assert (Hne : String.eqb (OrderSimulation.timing o) "immediate" = false).
  { apply String.eqb_neq. intros E. apply Hn. rewrite E. left. }
  rewrite Hne. repeat split; reflexivity.
Qed.

Lemma unlisted_timing_is_estimated_as_5s_witness :
  let m := OrderSimulation.calculateOrderMetrics (order_of (int 200 : float) (int 100) "1m") in
  let m5 := OrderSimulation.calculateOrderMetrics
              (order_of (OrderSimulation.quantity (order_of (int 200 : float) (int 100) "1m"))
                        (OrderSimulation.price (order_of (int 200 : float) (int 100) "1m")) "5s") in
  OrderSimulation.marketImpact m = OrderSimulation.marketImpact m5 /\
  OrderSimulation.fillPercentage m = OrderSimulation.fillPercentage m5 /\
  OrderSimulation.slippage m = OrderSimulation.slippage m5 /\
  OrderSimulation.warnings m = OrderSimulation.warnings m5.
Proof.
  apply (unlisted_timing_is_estimated_as_5s float float64 (order_of (int 200) (int 100) "1m")).
  - intros Hin. repeat (apply elem_of_cons in Hin; destruct Hin as [Hin|Hin]; [discriminate Hin|]).
    apply elem_of_nil in Hin. exact Hin.
  - reflexivity.
Defined.

(** ** simulateOrder *)

(** X5.  The wait of [simulateOrder] is capped: for "5s", "10s" and
    "30s" it is exactly one second, and for every other timing,
    "immediate", unknown and inherited names alike, there is no wait
    (binary64). *)
Theorem simulated_delay_is_one_second_or_none :
  forall timing : string,
    simulatedDelay timing =
    if bool_decide (timing ∈ ["5s"; "10s"; "30s"]%string)
    then Some (int 1000 : float) else None.
Proof.
  intros timing. unfold simulatedDelay, delays. cbn [lookup_or].
  destruct (String.eqb timing "immediate") eqn:E0;
    [apply String.eqb_eq in E0; subst timing; reflexivity|].
  destruct (String.eqb timing "5s") eqn:E1;
    [apply String.eqb_eq in E1; subst timing; reflexivity|].
  destruct (String.eqb timing "10s") eqn:E2;
    [apply String.eqb_eq in E2; subst timing; reflexivity|].
  destruct (String.eqb timing "30s") eqn:E3;
    [apply String.eqb_eq in E3; subst timing; reflexivity|].
  apply String.eqb_neq in E1, E2, E3.
  rewrite bool_decide_false.
  - destruct (inherited timing); reflexivity.
  - intros Hin. repeat (apply elem_of_cons in Hin; destruct Hin as [Hin|Hin]; [congruence|]).
    apply elem_of_nil in Hin. exact Hin.
Qed.

(** X6.  An order without a price, [null] as the form sends it for a
    market order or a parsed price that is 0 or NaN, is simulated at
    price 0: its slippage is a zero or NaN and the slippage warning is
    never raised, whatever the quantity and the timing are (binary64). *)
Theorem order_without_price_has_no_slippage_warning :
  forall (orderData : OrderData.t float) (t1 t2 : Z),
    (OrderData.price orderData = None \/
     exists x, OrderData.price orderData = Some x /\ truthy x = false) ->
    let '(order, metrics) := simulateOrder orderData t1 t2 in
    OrderSimulation.price order = int 0 /\
    truthy (OrderSimulation.slippage metrics) = false /\
    "Significant slippage expected"%string ∉ OrderSimulation.warnings metrics.
Proof.
  intros orderData t1 t2 Hp. unfold simulateOrder. cbn zeta.
  set (o := {| OrderSimulation.id := _ |}).
  assert (Hprice : OrderSimulation.price o = int 0).
  { subst o. cbn [OrderSimulation.price]. unfold price_or_0.
    destruct Hp as [-> | (x & -> & Hx)]; [reflexivity | rewrite Hx; reflexivity]. }
  split; [exact Hprice|]. split.
  - unfold OrderSimulation.calculateOrderMetrics. cbn [OrderSimulation.slippage].
    rewrite Hprice. apply float_mul_0_falsy.
  - intros Hin. apply (warnings_spec o) in Hin.
    destruct Hin as [[_ E] | [[Hs _] | [[_ E] | [_ E]]]]; try discriminate E.
    unfold OrderSimulation.calculateOrderMetrics in Hs. cbn [OrderSimulation.slippage] in Hs.
    rewrite Hprice in Hs. cbn [gtb mul float64] in Hs.
    rewrite float_mul_0_not_positive in Hs. discriminate Hs.
Qed.

Lemma order_without_price_has_no_slippage_warning_witness :
  let '(order, metrics) := simulateOrder market_order 1700000000000 1700000000001 in
  OrderSimulation.price order = int 0 /\
  truthy (OrderSimulation.slippage metrics) = false /\
  "Significant slippage expected"%string ∉ OrderSimulation.warnings metrics.
Proof.
  apply (order_without_price_has_no_slippage_warning market_order
           1700000000000 1700000000001).
  left. reflexivity.
Defined.

(** *** Ranges and nesting in binary64 *)

Section EstimatorBounds.
Local Open Scope Z_scope.

Lemma float_of_SF (x : float) (s : spec_float) : Prim2SF x = s -> x = SF2Prim s.
Proof. intros <-. symmetry. apply SF2Prim_Prim2SF. Qed.

(** A binary64 number is finite, an infinity or NaN. *)
Lemma float_cases (x : float) :
  finite64 x = true \/ x = PrimFloat.infinity \/ x = PrimFloat.neg_infinity \/
  x = PrimFloat.nan.
Proof.
  unfold finite64. destruct (Prim2SF x) as [s|[|]| |s m e] eqn:E; auto;
    apply float_of_SF in E; auto.
Qed.

Lemma nonneg_cases (x : float) :
  PrimFloat.leb (int 0) x = true ->
  (finite64 x = true /\ 0 <= units x) \/ x = PrimFloat.infinity.
Proof.
  intros Hx. destruct (float_cases x) as [F | [-> | [-> | ->]]]; auto; try discriminate Hx.
  left. split; [exact F|].
  rewrite leb_units in Hx by (exact F || reflexivity). apply Z.leb_le in Hx. exact Hx.
Qed.

Lemma float_mul_nonneg (x c : float) :
  finite64 c = true -> 0 < units c ->
  PrimFloat.leb (int 0) x = true -> PrimFloat.leb (int 0) (PrimFloat.mul x c) = true.
Proof.
  intros Fc Pc Hx. rewrite leb_spec in *. rewrite mul_spec.
  change (Prim2SF (int 0)) with (S754_zero false) in *.
  unfold finite64, units in *.
  destruct (Prim2SF c) as [s|s| |[|] m e] eqn:E; try discriminate Fc;
    cbn [scaled cond_Zopp] in Pc; try lia.
  eapply SFmul_nonneg; [reflexivity | exact Hx].
Qed.

Lemma leb_trans_finite (x a r : float) :
  finite64 a = true -> PrimFloat.leb x a = true -> PrimFloat.leb a r = true ->
  PrimFloat.leb x r = true.
Proof.
  intros Fa Hx Hr.
  destruct (float_cases x) as [Fx | [-> | [-> | ->]]];
    destruct (float_cases r) as [Fr | [-> | [-> | ->]]];
    try (rewrite leb_units in * by (assumption || reflexivity);
         apply Z.leb_le in Hx, Hr; apply Z.leb_le; lia);
    rewrite leb_spec in *; unfold finite64 in *;
    try (destruct (Prim2SF a) as [s|s| |s m e]; discriminate);
    try (destruct (Prim2SF x) as [s|s| |s m e]; try discriminate; reflexivity);
    try (destruct (Prim2SF r) as [s|s| |s m e]; try discriminate; reflexivity);
    reflexivity.
Qed.

(** [100 - t] for a [t] that is not negative. *)
Lemma sub_nonneg_le (c t : float) :
  finite64 c = true -> PrimFloat.leb (int 0) t = true ->
  PrimFloat.leb (PrimFloat.sub c t) c = true.
Proof.
  intros Fc Ht. destruct (nonneg_cases t Ht) as [[Ft Pt] | ->].
  - apply sub_le; try assumption. lia.
  - rewrite leb_spec, sub_spec. unfold finite64 in Fc.
    destruct (Prim2SF c) as [s|s| |s m e]; try discriminate; reflexivity.
Qed.

Lemma float_ltb_nan_l_leb (c : float) : PrimFloat.leb PrimFloat.nan c = false.
Proof. rewrite leb_spec. reflexivity. Qed.

Lemma leb_not_nan (x c : float) : PrimFloat.leb x c = true -> PrimFloat.is_nan x = false.
Proof.
  intros H. destruct (float_cases x) as [F | [-> | [-> | ->]]]; try reflexivity.
  - unfold PrimFloat.is_nan. rewrite FloatAxioms.eqb_spec. unfold SFeqb.
    rewrite SFcompare_scaled by (apply Prim2SF_valid || exact F).
    rewrite Z.compare_refl. reflexivity.
  - rewrite float_ltb_nan_l_leb in H. discriminate H.
Qed.

Lemma leb_not_nan_r (x c : float) : PrimFloat.leb c x = true -> PrimFloat.is_nan x = false.
Proof.
  intros H. destruct (float_cases x) as [F | [-> | [-> | ->]]]; try reflexivity.
  - unfold PrimFloat.is_nan. rewrite FloatAxioms.eqb_spec. unfold SFeqb.
    rewrite SFcompare_scaled by (apply Prim2SF_valid || exact F).
    rewrite Z.compare_refl. reflexivity.
  - rewrite leb_spec in H. change (Prim2SF PrimFloat.nan) with S754_nan in H.
    destruct (Prim2SF c) as [s|s| |s m e]; discriminate H.
Qed.

(** [Math.max(20, y)] for a [y] that is not above 100. *)
Lemma max2_20_between (y : float) :
  PrimFloat.leb y (int 100) = true ->
  PrimFloat.leb (int 20) (F64.max2 (int 20) y) = true /\
  PrimFloat.leb (F64.max2 (int 20) y) (int 100) = true.
Proof.
  intros Hy. unfold F64.max2.
  change (PrimFloat.is_nan (int 20)) with false. rewrite (leb_not_nan y _ Hy). cbn [orb].
  destruct (PrimFloat.ltb (int 20) y) eqn:E; [split; [apply ltb_leb, E | exact Hy]|].
  destruct (PrimFloat.ltb y (int 20)); [split; reflexivity|].
  change (PrimFloat.is_zero (int 20)) with false. split; reflexivity.
Qed.

(** [Math.max(20, y)] for a [y] that is not below 85. *)
Lemma max2_20_large (y : float) :
  PrimFloat.leb (int 85) y = true ->
  PrimFloat.ltb (F64.max2 (int 20) y) (int 70) = false.
Proof.
  intros Hy. unfold F64.max2.
  change (PrimFloat.is_nan (int 20)) with false. rewrite (leb_not_nan_r y _ Hy). cbn [orb].
  assert (F20 : finite64 (int 20) = true /\ units (int 20) = 20 * scale) by (split; reflexivity).
  assert (F70 : finite64 (int 70) = true /\ units (int 70) = 70 * scale) by (split; reflexivity).
  assert (F85 : finite64 (int 85) = true /\ units (int 85) = 85 * scale) by (split; reflexivity).
  pose proof scale_positive.
  assert (H20 : PrimFloat.ltb (int 20) y = true)
    by (apply (lt_le_trans64 (int 20) (int 85) y); try tauto; lia).
  rewrite H20.
  apply leb_not_ltb. apply (leb_trans_finite _ (int 85)); [tauto | reflexivity | exact Hy].
Qed.

Lemma impact_times_10 (i : float) :
  finite64 i = true -> PrimFloat.ltb (dec 15 1) i = false ->
  PrimFloat.leb (PrimFloat.mul i (int 10)) (int 15) = true.
Proof.
  intros Fi Hi.
  assert (F15 : finite64 (dec 15 1) = true /\ 2 * units (dec 15 1) = 3 * scale)
    by (split; reflexivity).
  assert (F10 : finite64 (int 10) = true /\ units (int 10) = 10 * scale)
    by (split; reflexivity).
  assert (G15 : finite64 (int 15) = true /\ units (int 15) = 15 * scale)
    by (split; reflexivity).
  pose proof scale_positive.
  rewrite ltb_units in Hi by tauto. apply Z.ltb_ge in Hi.
  apply mul_le; try tauto.
  destruct F10 as [_ ->], G15 as [_ ->]. nia.
Qed.

Lemma hundred_less (t : float) :
  PrimFloat.leb t (int 15) = true ->
  PrimFloat.leb (int 85) (PrimFloat.sub (int 100) t) = true.
Proof.
  intros Ht.
  assert (F15 : finite64 (int 15) = true /\ units (int 15) = 15 * scale) by (split; reflexivity).
  assert (F85 : finite64 (int 85) = true /\ units (int 85) = 85 * scale) by (split; reflexivity).
  assert (F100 : finite64 (int 100) = true /\ units (int 100) = 100 * scale)
    by (split; reflexivity).
  destruct (float_cases t) as [Ft | [-> | [-> | ->]]]; try discriminate Ht; [|reflexivity].
  rewrite leb_units in Ht by tauto. apply Z.leb_le in Ht.
  apply sub_ge; try tauto. lia.
Qed.

(** A fill percentage below 70 takes an impact above 1.5. *)
Lemma low_fill_high_impact (i : float) :
  PrimFloat.ltb (F64.max2 (int 20) (PrimFloat.sub (int 100) (PrimFloat.mul i (int 10))))
                (int 70) = true ->
  PrimFloat.ltb (dec 15 1) i = true.
Proof.
  intros Hlow. destruct (float_cases i) as [Fi | [-> | [-> | ->]]];
    try reflexivity; try discriminate Hlow.
  destruct (PrimFloat.ltb (dec 15 1) i) eqn:E; [reflexivity|].
  rewrite (max2_20_large _ (hundred_less _ (impact_times_10 i Fi E))) in Hlow.
  discriminate Hlow.
Qed.

(** An impact above 1.5 is above 1. *)
Lemma high_impact_above_1 (i : float) :
  PrimFloat.ltb (dec 15 1) i = true -> PrimFloat.ltb (dec 10 1) i = true.
Proof.
  intros Hi. destruct (float_cases i) as [Fi | [-> | [-> | ->]]];
    try reflexivity; try discriminate Hi.
  assert (F15 : finite64 (dec 15 1) = true /\ 2 * units (dec 15 1) = 3 * scale)
    by (split; reflexivity).
  assert (F10 : finite64 (dec 10 1) = true /\ units (dec 10 1) = scale)
    by (split; reflexivity).
  pose proof scale_positive.
  rewrite ltb_units in * by tauto. apply Z.ltb_lt in Hi. apply Z.ltb_lt. lia.
Qed.

End EstimatorBounds.

Section EstimatorRanges.
Local Open Scope Z_scope.

Lemma multiplier_positive (timing : string) :
  inherited timing = false ->
  finite64 (OrderSimulation.timingMultiplier timing) = true /\
  0 < units (OrderSimulation.timingMultiplier timing) /\
  (OrderSimulation.timingMultiplier timing = dec 12 1 \/
   units (OrderSimulation.timingMultiplier timing) <= scale).
Proof.
  intros Hi.
  destruct (timingMultiplier_cases timing Hi) as [-> | [-> | [-> | ->]]];
    (split; [reflexivity|]); (split; [apply Z.ltb_lt; reflexivity|]);
    [left; reflexivity | right | right | right]; apply Z.leb_le; reflexivity.
Qed.

Lemma hundredth_positive : finite64 (dec 1 2) = true /\ 0 < units (dec 1 2).
Proof. split; [reflexivity | apply Z.ltb_lt; reflexivity]. Qed.

Lemma ten_positive : finite64 (int 10) = true /\ 0 < units (int 10).
Proof. split; [reflexivity | apply Z.ltb_lt; reflexivity]. Qed.

(** The impact of a quantity that is not negative is not negative. *)
Lemma impact_nonneg (q : float) (timing : string) :
  PrimFloat.leb (int 0) q = true -> inherited timing = false ->
  PrimFloat.leb (int 0)
    (PrimFloat.mul (PrimFloat.mul q (dec 1 2)) (OrderSimulation.timingMultiplier timing))
  = true.
Proof.
  intros Hq Hi. destruct (multiplier_positive timing Hi) as (Fk & Pk & _).
  destruct hundredth_positive as [Fh Ph].
  apply float_mul_nonneg; try assumption. apply float_mul_nonneg; assumption.
Qed.

Lemma leb_refl_of (c x : float) : PrimFloat.leb c x = true -> PrimFloat.leb x x = true.
Proof.
  intros H. destruct (float_cases x) as [F | [-> | [-> | ->]]]; try reflexivity.
  - rewrite leb_units by exact F. apply Z.leb_refl.
  - rewrite leb_spec in H. change (Prim2SF PrimFloat.nan) with S754_nan in H.
    destruct (Prim2SF c) as [s|s| |s m e]; discriminate H.
Qed.

(** Of all multipliers, that of "immediate" gives the largest product. *)
Lemma immediate_is_largest (b : float) (timing : string) :
  PrimFloat.leb (int 0) b = true -> inherited timing = false ->
  PrimFloat.leb (PrimFloat.mul b (OrderSimulation.timingMultiplier timing))
                (PrimFloat.mul b (dec 12 1)) = true.
Proof.
  intros Hb Hi.
  assert (F12 : finite64 (dec 12 1) = true /\ scale <= units (dec 12 1)).
  { split; [reflexivity | apply Z.leb_le; reflexivity]. }
  destruct (nonneg_cases b Hb) as [[Fb Pb] | ->].
  - assert (Hnow : PrimFloat.leb b (PrimFloat.mul b (dec 12 1)) = true).
    { apply mul_ge; try tauto. nia. }
    destruct (multiplier_positive timing Hi) as (Fk & Pk & [-> | Hk]).
    + apply (leb_refl_of b), Hnow.
    + apply (leb_trans_finite _ b); try assumption.
      apply mul_le; try assumption. nia.
  - destruct (timingMultiplier_cases timing Hi) as [-> | [-> | [-> | ->]]]; reflexivity.
Qed.

End EstimatorRanges.

(** X7.  In binary64, for a quantity that is not negative (and so no
    NaN; +Infinity included) and a timing that is no inherited name,
    the impact is not negative and the fill percentage lies between 20
    and 100. *)
Theorem impact_and_fill_ranges :
  forall o : OrderSimulation.SimulatedOrder float,
    PrimFloat.leb (int 0) (OrderSimulation.quantity o) = true ->
    inherited (OrderSimulation.timing o) = false ->
    let m := OrderSimulation.calculateOrderMetrics o in
    PrimFloat.leb (int 0) (OrderSimulation.marketImpact m) = true /\
    PrimFloat.leb (int 20) (OrderSimulation.fillPercentage m) = true /\
    PrimFloat.leb (OrderSimulation.fillPercentage m) (int 100) = true.
Proof.
  intros o Hq Hi m. subst m. unfold OrderSimulation.calculateOrderMetrics.
  cbn [OrderSimulation.marketImpact OrderSimulation.fillPercentage].
  cbn [mul sub max2 float64].
  pose proof (impact_nonneg _ _ Hq Hi) as Him.
  split; [exact Him|].
  apply max2_20_between. apply sub_nonneg_le; [reflexivity|].
  destruct ten_positive as [F10 P10]. apply float_mul_nonneg; assumption.
Qed.

Lemma impact_and_fill_ranges_witness :
  let m := OrderSimulation.calculateOrderMetrics (order_of (int 250 : float) (int 100) "30s") in
  PrimFloat.leb (int 0) (OrderSimulation.marketImpact m) = true /\
  PrimFloat.leb (int 20) (OrderSimulation.fillPercentage m) = true /\
  PrimFloat.leb (OrderSimulation.fillPercentage m) (int 100) = true.
Proof.
  apply (impact_and_fill_ranges (order_of (int 250) (int 100) "30s")); reflexivity.
Defined.

(** X8.  In binary64 the warnings are nested, for every order (NaN and
    the infinities included): "Low fill probability" (fill below 70) is
    never raised without "High market impact detected" (impact above
    1.5), and for a timing other than "immediate" that one never without
    "Consider immediate execution to reduce impact" (impact above 1). *)
Theorem warnings_are_nested :
  forall o : OrderSimulation.SimulatedOrder float,
    let ws := OrderSimulation.warnings (OrderSimulation.calculateOrderMetrics o) in
    ("Low fill probability"%string ∈ ws -> "High market impact detected"%string ∈ ws) /\
    ("High market impact detected"%string ∈ ws ->
     OrderSimulation.timing o <> "immediate"%string ->
     "Consider immediate execution to reduce impact"%string ∈ ws).
Proof.
  intros o. cbn zeta.
  set (m := OrderSimulation.marketImpact (OrderSimulation.calculateOrderMetrics o)).
  assert (Hfill : OrderSimulation.fillPercentage (OrderSimulation.calculateOrderMetrics o)
                  = F64.max2 (int 20) (PrimFloat.sub (int 100) (PrimFloat.mul m (int 10))))
    by reflexivity.
  split.
  - intros Hin. apply (warnings_spec o) in Hin. apply (warnings_spec o). left.
    split; [|reflexivity].
    destruct Hin as [[_ E] | [[_ E] | [[Hlow _] | [_ E]]]]; try discriminate E.
    rewrite Hfill in Hlow. fold m. apply low_fill_high_impact, Hlow.
  - intros Hin Hne. apply (warnings_spec o) in Hin. apply (warnings_spec o).
    right. right. right. split; [|reflexivity].
    destruct Hin as [[Hhigh _] | [[_ E] | [[_ E] | [_ E]]]]; try discriminate E.
    apply String.eqb_neq in Hne. rewrite Hne. cbn [negb andb].
    fold m in Hhigh |- *. apply high_impact_above_1, Hhigh.
Qed.

(** X9.  In binary64 the slippage warning depends on the price, also
    among positive prices.  An order of quantity 5 with timing "5s" has
    the impact 0.05 at every price: at price 1 the slippage
    [impact * price * 0.1] is rounded above the threshold
    [price * 0.005] and "Significant slippage expected" is raised, at
    price 100 both are 0.5 and it is not. *)
Theorem slippage_warning_depends_on_the_price :
  let at_1 := OrderSimulation.calculateOrderMetrics (order_of (int 5 : float) (int 1) "5s") in
  let at_100 :=
    OrderSimulation.calculateOrderMetrics (order_of (int 5 : float) (int 100) "5s") in
  OrderSimulation.marketImpact at_1 = dec 5 2 /\
  OrderSimulation.marketImpact at_100 = dec 5 2 /\
  (OrderSimulation.slippage at_1 >? int 1 * dec 5 3)%js = true /\
  OrderSimulation.warnings at_1 = ["Significant slippage expected"%string] /\
  OrderSimulation.slippage at_100 = (int 100 * dec 5 3)%js /\
  OrderSimulation.warnings at_100 = [].
Proof. vm_compute. repeat split. Qed.

(** X10.  In binary64 no timing has a larger impact than "immediate":
    for the same quantity, if it is not negative, and the same price,
    executing at once never reduces the impact, contrary to what the
    fourth warning suggests. *)
Theorem immediate_execution_has_the_largest_impact :
  forall (q p : float) (timing : string),
    PrimFloat.leb (int 0) q = true -> inherited timing = false ->
    let now := OrderSimulation.calculateOrderMetrics (order_of q p "immediate") in
    let later := OrderSimulation.calculateOrderMetrics (order_of q p timing) in
    PrimFloat.leb (OrderSimulation.marketImpact later) (OrderSimulation.marketImpact now)
    = true.
Proof.
  intros q p timing Hq Hi now later. subst now later.
  unfold OrderSimulation.calculateOrderMetrics.
  cbn [OrderSimulation.marketImpact OrderSimulation.quantity OrderSimulation.timing order_of].
  cbn [mul float64].
  change (OrderSimulation.timingMultiplier "immediate") with (dec 12 1 : float).
  destruct hundredth_positive as [Fh Ph].
  apply immediate_is_largest; [|exact Hi]. apply float_mul_nonneg; assumption.
Qed.

Lemma immediate_execution_has_the_largest_impact_witness :
  let now := OrderSimulation.calculateOrderMetrics
               (order_of (int 100 : float) (int 2500) "immediate") in
  let later := OrderSimulation.calculateOrderMetrics
                 (order_of (int 100 : float) (int 2500) "30s") in
  PrimFloat.leb (OrderSimulation.marketImpact later) (OrderSimulation.marketImpact now)
  = true.
Proof.
  apply (immediate_execution_has_the_largest_impact (int 100) (int 2500) "30s"); reflexivity.
Defined.

(** ** More on the synthetic data generator *)

Section SortPermutation.
Context `{JsNum number} {A : Type} (comparefn : A -> A -> number).

Lemma insert_sorted_Permutation (x : A) (l : list A) :
  insert_sorted comparefn x l ≡ₚ x :: l.
Proof.
  induction l as [|y l IH]; simpl; [reflexivity|].
  destruct (sorts_after comparefn x y); [|reflexivity].
  rewrite IH. apply Permutation_swap.
Qed.

Lemma sort_Permutation (l : list A) : sort comparefn l ≡ₚ l.
Proof.
  induction l as [|x l IH]; simpl; [reflexivity|].
  rewrite insert_sorted_Permutation, IH. reflexivity.
Qed.

End SortPermutation.

Section DrawFacts.
Context `{JsNum number}.
Local Open Scope js_scope.

(** Each level takes two draws. *)
Lemma levels_calls (place : number -> number -> number) (random : Random number)
    (a : number) (n i calls : nat) :
  (levels place random a n i calls).2 = (calls + 2 * n)%nat.
Proof.
  revert i calls. induction n as [|n IH]; intros i calls; [simpl; lia|].
  rewrite levels_S. cbn [snd]. rewrite IH. lia.
Qed.

(** The levels depend on the draws they take and on no other. *)
Lemma levels_ext (place : number -> number -> number) (random random' : Random number)
    (a : number) (n i calls : nat) :
  (forall k, (calls <= k < calls + 2 * n)%nat -> random k = random' k) ->
  (levels place random a n i calls).1 = (levels place random' a n i calls).1.
Proof.
  revert i calls. induction n as [|n IH]; intros i calls Hr; [reflexivity|].
  rewrite !levels_S. cbn [fst].
  rewrite (Hr calls), (Hr (S calls)) by lia.
  rewrite (IH (S i) (S (S calls))); [reflexivity|].
  intros k Hk. apply Hr. lia.
Qed.

Lemma generateMockOrderbook_calls (basePrice : number) (venue : string)
    (random : Random number) (now : Z) (calls : nat) :
  (generateMockOrderbook basePrice venue random now calls).2 = (calls + 100)%nat.
Proof.
  unfold generateMockOrderbook.
  pose proof (levels_calls sub random (basePrice * venueMultiplier venue) 25 0 calls) as Hb.
  destruct (levels sub random _ 25 0 calls) as [bs c]. cbn [snd] in Hb. subst c.
  pose proof (levels_calls add random (basePrice * venueMultiplier venue) 25 0
                (calls + 2 * 25)) as Ho.
  destruct (levels add random _ 25 0 (calls + 2 * 25)) as [os c']. cbn [snd] in Ho |- *.
  lia.
Qed.

End DrawFacts.

(** X11.  The sort of the generator loses and invents nothing: the
    bids of the generated book are, in some order, the 25 levels of the
    first loop and the asks the 25 levels of the second, which starts
    50 draws later; this holds for every comparator outcome, NaN prices
    included. *)
Theorem generated_sides_are_the_drawn_levels :
  forall (number : Type) (A : JsNum number) (basePrice : number) (venue : string)
         (random : Random number) (now : Z) (calls : nat),
    let a := mul basePrice (venueMultiplier venue) in
    let ob := (generateMockOrderbook basePrice venue random now calls).1 in
    bids ob ≡ₚ (levels sub random a 25 0 calls).1 /\
    asks ob ≡ₚ (levels add random a 25 0 (calls + 50)).1.
Proof.
  intros number A basePrice venue random now calls a ob. subst ob.
  rewrite generateMockOrderbook_sides. cbn zeta. cbn [bids asks]. fold a.
  rewrite levels_calls. split; apply sort_Permutation.
Qed.

(** X12.  A synthetic book takes exactly 101 draws, one for the price
    variation and four for each of the 25 iterations, and is determined
    by them: two sources of randomness that agree on these 101 draws
    give the same book. *)
Theorem synthetic_book_takes_101_draws :
  forall (number : Type) (A : JsNum number) (venue symbol : string)
         (random random' : Random number) (now : Z) (calls : nat),
    (getMockOrderbookForVenue venue symbol random now calls).2 = (calls + 101)%nat /\
    ((forall k, (calls <= k < calls + 101)%nat -> random k = random' k) ->
     (getMockOrderbookForVenue venue symbol random now calls).1
     = (getMockOrderbookForVenue venue symbol random' now calls).1).
Proof.
  intros number A venue symbol random random' now calls.
  unfold getMockOrderbookForVenue. cbn zeta. split.
  - rewrite generateMockOrderbook_calls. lia.
  - intros Hr. rewrite !generateMockOrderbook_sides. cbn zeta.
    rewrite !levels_calls. rewrite <- (Hr calls) by lia.
    set (a := mul _ _).
    rewrite (levels_ext sub random random' a 25 0 (S calls)) by (intros k Hk; apply Hr; lia).
    rewrite (levels_ext add random random' a 25 0 (S calls + 2 * 25))
      by (intros k Hk; apply Hr; lia).
    reflexivity.
Qed.

Section SyntheticPrice.
Local Open Scope Z_scope.

Lemma within_add_at (x y lo hi : float) (a b c d l h : Z) :
  within a b x -> within c d y ->
  finite64 lo = true /\ units lo = l -> finite64 hi = true /\ units hi = h ->
  l <= a + c -> b + d <= h -> within l h (PrimFloat.add x y).
Proof. intros Hx Hy [Fl <-] [Fh <-]. apply within_add; assumption. Qed.

Lemma within_sub_at (x y lo hi : float) (a b c d l h : Z) :
  within a b x -> within c d y ->
  finite64 lo = true /\ units lo = l -> finite64 hi = true /\ units hi = h ->
  l <= a - d -> b - c <= h -> within l h (PrimFloat.sub x y).
Proof. intros Hx Hy [Fl <-] [Fh <-]. apply within_sub; assumption. Qed.

Lemma within_mul_at (x y lo hi : float) (a b c d l h : Z) :
  within a b x -> within c d y ->
  finite64 lo = true /\ units lo = l -> finite64 hi = true /\ units hi = h ->
  (forall u v, a <= u <= b -> c <= v <= d -> l * scale <= u * v <= h * scale) ->
  within l h (PrimFloat.mul x y).
Proof. intros Hx Hy [Fl <-] [Fh <-]. apply within_mul; assumption. Qed.

Lemma basePrices_within (symbol : Symbol) :
  within (2500 * scale) (43000 * scale) (basePrices (symbol_str symbol)).
Proof.
  pose proof scale_positive.
  destruct symbol;
    [ assert (E : units (basePrices (symbol_str BTC_USD)) = 43000 * scale) by reflexivity
    | assert (E : units (basePrices (symbol_str ETH_USD)) = 2500 * scale) by reflexivity
    | assert (E : units (basePrices (symbol_str BTC_USDT)) = 43000 * scale) by reflexivity
    | assert (E : units (basePrices (symbol_str ETH_USDT)) = 2500 * scale) by reflexivity ];
    (split; [reflexivity | rewrite E; lia]).
Qed.

Lemma venueMultiplier_within (venue : Venue) :
  exists lo hi, within lo hi (venueMultiplier (venue_str venue)) /\
                scale <= 2 * lo /\ hi <= 2 * scale.
Proof.
  exists (units (venueMultiplier (venue_str venue))),
         (units (venueMultiplier (venue_str venue))).
  split; [split; [destruct venue; reflexivity | lia]|].
  split; [apply Z.leb_le | apply Z.leb_le]; destruct venue; reflexivity.
Qed.

(** The adjusted reference price of [getMockOrderbookForVenue] is a
    finite number above 175. *)
Lemma adjusted_price_within (venue : Venue) (symbol : Symbol) (r : float) :
  unit_interval r = true ->
  within (1200 * scale) (86200 * scale)
    (PrimFloat.mul
       (PrimFloat.add (basePrices (symbol_str symbol))
          (PrimFloat.mul (PrimFloat.sub r (dec 5 1)) (int 100)))
       (venueMultiplier (venue_str venue))).
Proof.
  intros Hr. pose proof scale_positive as PS.
  assert (H1 : finite64 (int 1) = true /\ units (int 1) = scale) by (split; reflexivity).
  assert (N1 : finite64 (PrimFloat.opp (int 1)) = true /\
               units (PrimFloat.opp (int 1)) = - scale) by (split; reflexivity).
  assert (H100 : finite64 (int 100) = true /\ units (int 100) = 100 * scale)
    by (split; reflexivity).
  assert (N100 : finite64 (PrimFloat.opp (int 100)) = true /\
                 units (PrimFloat.opp (int 100)) = - (100 * scale)) by (split; reflexivity).
  assert (H05 : within 0 scale (dec 5 1)).
  { split; [reflexivity|]. split; apply Z.leb_le; reflexivity. }
  assert (L : finite64 (int 2400) = true /\ units (int 2400) = 2400 * scale)
    by (split; reflexivity).
  assert (U : finite64 (int 43100) = true /\ units (int 43100) = 43100 * scale)
    by (split; reflexivity).
  assert (L' : finite64 (int 1200) = true /\ units (int 1200) = 1200 * scale)
    by (split; reflexivity).
  assert (U' : finite64 (int 86200) = true /\ units (int 86200) = 86200 * scale)
    by (split; reflexivity).
  assert (Hd : within (- scale) scale (PrimFloat.sub r (dec 5 1))).
  { apply (within_sub_at r (dec 5 1) _ _ _ _ _ _ _ _ (unit_interval_within r Hr) H05 N1 H1);
      lia. }
  assert (Hv : within (- (100 * scale)) (100 * scale)
                 (PrimFloat.mul (PrimFloat.sub r (dec 5 1)) (int 100))).
  { apply (within_mul_at _ (int 100) _ _ _ _ (100 * scale) (100 * scale) _ _ Hd
             ltac:(split; [apply H100 | destruct H100 as [_ ->]; lia]) N100 H100).
    intros u v Hu Hv. nia. }
  assert (Hb : within (2400 * scale) (43100 * scale)
                 (PrimFloat.add (basePrices (symbol_str symbol))
                    (PrimFloat.mul (PrimFloat.sub r (dec 5 1)) (int 100)))).
  { apply (within_add_at _ _ _ _ _ _ _ _ _ _ (basePrices_within symbol) Hv L U); lia. }
  destruct (venueMultiplier_within venue) as (lo & hi & Hm & Hlo & Hhi).
  apply (within_mul_at _ _ _ _ _ _ _ _ _ _ Hb Hm L' U').
  intros u v Hu Hv'. nia.
Qed.

Lemma adjusted_price_above_175 (venue : Venue) (symbol : Symbol) (r : float) :
  unit_interval r = true ->
  PrimFloat.ltb (int 175)
    (PrimFloat.mul
       (PrimFloat.add (basePrices (symbol_str symbol))
          (PrimFloat.mul (PrimFloat.sub r (dec 5 1)) (int 100)))
       (venueMultiplier (venue_str venue))) = true.
Proof.
  intros Hr. destruct (adjusted_price_within venue symbol r Hr) as [F B].
  destruct units_175 as [F175 U175]. pose proof scale_positive.
  rewrite ltb_units by assumption. apply Z.ltb_lt. lia.
Qed.

(** A positive bid that is not above a finite price is not above a
    positive ask that is not below it. *)
Lemma not_crossed (a bid ask : float) :
  finite64 a = true ->
  PrimFloat.ltb (int 0) bid = true -> PrimFloat.ltb a bid = false ->
  PrimFloat.ltb (int 0) ask = true -> PrimFloat.ltb ask a = false ->
  PrimFloat.ltb ask bid = false.
Proof.
  intros Fa Pb Hb Pa Ha.
  assert (Fb : finite64 bid = true).
  { unfold finite64 in *. rewrite ltb_spec in Pb, Hb.
    change (Prim2SF (int 0)) with (S754_zero false) in Pb.
    destruct (Prim2SF bid) as [s|[|]| |s m e]; try reflexivity; try discriminate Pb.
    destruct (Prim2SF a) as [s|s| |s m e]; discriminate. }
  destruct (finite64 ask) eqn:Fk.
  - rewrite ltb_units in * by assumption.
    apply Z.ltb_ge in Hb, Ha. apply Z.ltb_ge. lia.
  - unfold finite64 in *. rewrite ltb_spec in *.
    change (Prim2SF (int 0)) with (S754_zero false) in Pa.
    destruct (Prim2SF ask) as [s|[|]| |s m e]; try discriminate.
    destruct (Prim2SF bid) as [s|s| |s m e]; try discriminate; reflexivity.
Qed.

End SyntheticPrice.

(** X13.  In binary64, for every venue and symbol of the application
    and all draws in [0, 1), the synthetic book of
    [getMockOrderbookForVenue] has 25 bids, none priced above the bid
    before it, and 25 asks, none priced below the ask before it; every
    price and size is positive, no bid is priced above an ask, and the
    timestamp is the time of the call. *)
Theorem synthetic_book_is_positive_and_uncrossed :
  forall (venue : Venue) (symbol : Symbol) (random : Random float) (now : Z) (calls : nat),
    (forall k, unit_interval (random k) = true) ->
    let ob := (getMockOrderbookForVenue (venue_str venue) (symbol_str symbol)
                 random now calls).1 in
    length (bids ob) = 25%nat /\ length (asks ob) = 25%nat /\
    descending (bids ob) = true /\ ascending (asks ob) = true /\
    forallb positive_level (bids ob) = true /\
    forallb positive_level (asks ob) = true /\
    (forall bid ask, bid ∈ bids ob -> ask ∈ asks ob -> (bid.1 >? ask.1)%js = false) /\
    timestamp ob = now.
Proof.
  intros venue symbol random now calls Hr ob. subst ob.
  unfold getMockOrderbookForVenue. cbn zeta.
  set (b := (basePrices (symbol_str symbol) + (random calls - dec 5 1) * int 100)%js).
  destruct (generated_sides_order b (venue_str venue) random now (S calls))
    as (H1 & H2 & H3 & H4 & H5).
  destruct (generated_sides_bounds b (venue_str venue) random now (S calls) Hr)
    as (_ & Hb & Ha & Hp).
  pose proof (adjusted_price_within venue symbol (random calls) (Hr calls)) as [Fa _].
  destruct (Hp (adjusted_price_above_175 venue symbol (random calls) (Hr calls)))
    as [Pb Pa].
  repeat (split; [assumption|]). split; [|exact H5].
  intros bid ask Hbid Hask.
  rewrite Forall_forall in Hb, Ha.
  apply Forall_of_forallb in Pb, Pa. rewrite Forall_forall in Pb, Pa.
  specialize (Hb bid Hbid). specialize (Ha ask Hask).
  specialize (Pb bid Hbid). specialize (Pa ask Hask).
  unfold positive_level in Pb, Pa. apply andb_prop in Pb, Pa.
  apply (not_crossed _ bid.1 ask.1 Fa); tauto.
Qed.

Lemma synthetic_book_is_positive_and_uncrossed_witness :
  let ob := (getMockOrderbookForVenue (venue_str Bybit) (symbol_str ETH_USDT)
               (fun _ => dec 5 1) 1700000000000 0).1 in
  length (bids ob) = 25%nat /\ length (asks ob) = 25%nat /\
  descending (bids ob) = true /\ ascending (asks ob) = true /\
  forallb positive_level (bids ob) = true /\
  forallb positive_level (asks ob) = true /\
  (forall bid ask, bid ∈ bids ob -> ask ∈ asks ob -> (bid.1 >? ask.1)%js = false) /\
  timestamp ob = 1700000000000%Z.
Proof.
  apply (synthetic_book_is_positive_and_uncrossed Bybit ETH_USDT (fun _ => dec 5 1)
           1700000000000 0).
  intros k. reflexivity.
Defined.

(** ** More on the venue parser *)


Section ParserExamples2.
#[local] Existing Instance Reference.runtime.


End ParserExamples2.

(** X15.  One level that is not iterable (a number, [null], an object)
    makes the parser give up the whole message: although the message
    has the venue's envelope and whatever its other levels are, the
    result is null. *)
Theorem unreadable_level_rejects_the_message :
  forall (number : Type) (A : JsNum number) (R : Runtime number)
         (venue : Venue) (data : value number) (now : Z)
         (rawBids rawAsks : list (value number)) (level : value number),
    raw_sides venue data = Some (rawBids, rawAsks) ->
    level ∈ rawBids ++ rawAsks ->
    destructure level = Throw ->
    parseOrderbookData venue data now = None.
Proof.
  intros number A R venue data now rb ra level Hs Hin Hd.
  unfold parseOrderbookData.
  rewrite (parse_body_Throw venue data now rb ra Hs); [reflexivity|].
  apply elem_of_app in Hin. destruct Hin as [Hin | Hin]; [left | right];
    eapply side_of_Throw; eassumption.
Qed.

Section ParserExamples3.
#[local] Existing Instance Reference.runtime.

Lemma raw_sides_deribit_null_level :
  raw_sides Deribit deribit_null_level
  = Some ([Examples.level (VNum (int 2)) (VNum (int 1)); VNull],
          [Examples.level (VNum (int 3)) (VNum (int 1))]).
Proof.
  unfold deribit_null_level, Examples.obj, raw_sides. lookups.
  unfold side_arrays. lookups. reflexivity.
Qed.

Lemma unreadable_level_rejects_the_message_witness :
  parseOrderbookData Deribit deribit_null_level 1700000000000 = None.
Proof.
  apply (unreadable_level_rejects_the_message float float64 Reference.runtime Deribit
           deribit_null_level 1700000000000 _ _ VNull raw_sides_deribit_null_level).
  - right. left.
  - reflexivity.
Defined.

End ParserExamples3.

(** ** More on the connection supervisor *)

Section OpenFacts.
Context `{JsNum number} `{Runtime number} (random : Random number).

Local Abbreviation State := (State number).

(** What [ws.onopen] does to a state in which the connect timeout is an
    issued handle. *)
Lemma onopen_effects (w : nat) (ws : WebSocket) (s : State) :
  (connectionTimeout ws < next_timer s)%nat ->
  let s' := onopen w ws s in
  connectionStatus s' (ws_venue ws) = connected /\
  lastError s' = None /\
  sockets s' = sockets s /\
  timers s' !! connectionTimeout ws = None /\
  sent s' = sent s ++ [(w, subscribeMessage (ws_venue ws) (ws_symbol ws))] /\
  timers s' !! next_timer s
  = Some {| due := now s + 30000; period := Some 30000%Z;
            callback := Heartbeat w (ws_venue ws) |} /\
  heartbeatIntervals s' !! key (ws_venue ws) (ws_symbol ws) = Some (next_timer s).
Proof.
  intros Hlt. unfold onopen, setupHeartbeat, setInterval, schedule. cbn zeta.
  cbn -[Z.add key subscribeMessage].
  rewrite fn_lookup_insert, !lookup_insert_eq.
  rewrite lookup_insert_ne by lia. rewrite lookup_delete_eq.
  repeat split; reflexivity.
Qed.

(** A timer that is not pending does not fire. *)
Lemma fire_absent (id : nat) (c : bool) (s : State) :
  timers s !! id = None -> fire random id c s = s.
Proof. intros Ht. unfold fire. rewrite Ht. reflexivity. Qed.

End OpenFacts.

Section OpenEvent.
Context `{JsNum number} `{Runtime number} (random : Random number).

Local Abbreviation State := (State number).

Lemma open_event_effects (s : State) (w : nat) (ws : WebSocket) :
  well_formed s ->
  sockets s !! w = Some ws ->
  readyState ws = CONNECTING ->
  let s' := step random (EvOpen w) s in
  connectionStatus s' (ws_venue ws) = connected /\
  lastError s' = None /\
  ready w s' = Some OPEN /\
  timers s' !! connectionTimeout ws = None /\
  (forall c, step random (EvTimer (connectionTimeout ws) c) s' = s') /\
  sent s' = sent s ++ [(w, subscribeMessage (ws_venue ws) (ws_symbol ws))] /\
  timers s' !! next_timer s
  = Some {| due := now s + 30000; period := Some 30000%Z;
            callback := Heartbeat w (ws_venue ws) |} /\
  heartbeatIntervals s' !! key (ws_venue ws) (ws_symbol ws) = Some (next_timer s).
Proof.
  intros Hs Hw Hst s'.
  destruct (wf_sockets s Hs w ws Hw) as [_ Hlt].
  assert (Hs' : s' = onopen w (set_ready OPEN ws)
                       (with_sockets (<[w := set_ready OPEN ws]> (sockets s)) s)).
  { subst s'. cbn [step]. unfold deliver. rewrite Hw, Hst.
    rewrite bool_decide_true by reflexivity. reflexivity. }
  destruct (onopen_effects w (set_ready OPEN ws)
              (with_sockets (<[w := set_ready OPEN ws]> (sockets s)) s) Hlt)
    as (H1 & H2 & H3 & H4 & H5 & H6 & H7).
  rewrite <- Hs' in H1, H2, H3, H4, H5, H6, H7.
  split; [exact H1|]. split; [exact H2|].
  split.
  { unfold ready. rewrite H3. cbn [sockets with_sockets with_host].
    rewrite lookup_insert_eq. reflexivity. }
  split; [exact H4|].
  split.
  { intros c. cbn [step]. apply (fire_absent random). exact H4. }
  split; [exact H5|]. split; [exact H6 | exact H7].
Qed.

End OpenEvent.

(** X16.  The open event of a connecting socket, in a state the hook
    can reach: the venue becomes "connected" and the error is cleared,
    the connect timeout is cancelled, so that its firing later changes
    nothing and the synthetic fallback does not start, the
    subscription of the venue and symbol is the one frame sent, and a
    heartbeat is armed that is due every 30 seconds and stored under
    the connection's key. *)
Theorem open_event_connects_and_cancels_the_timeout :
  forall (number : Type) (A : JsNum number) (R : Runtime number) (random : Random number)
         (s : State number) (w : nat) (ws : WebSocket),
    reachable random s ->
    sockets s !! w = Some ws ->
    readyState ws = CONNECTING ->
    let s' := step random (EvOpen w) s in
    connectionStatus s' (ws_venue ws) = connected /\
    lastError s' = None /\
    ready w s' = Some OPEN /\
    timers s' !! connectionTimeout ws = None /\
    (forall c, step random (EvTimer (connectionTimeout ws) c) s' = s') /\
    sent s' = sent s ++ [(w, subscribeMessage (ws_venue ws) (ws_symbol ws))] /\
    timers s' !! next_timer s
    = Some {| due := now s + 30000; period := Some 30000%Z;
              callback := Heartbeat w (ws_venue ws) |} /\
    heartbeatIntervals s' !! key (ws_venue ws) (ws_symbol ws) = Some (next_timer s).
Proof.
  intros number A R random s w ws Hs Hw Hst.
  apply (open_event_effects random s w ws); [|exact Hw|exact Hst].
  apply (reachable_well_formed random), Hs.
Qed.

Section SupervisorExamples3.
#[local] Existing Instance Reference.runtime.

(** The socket of the OKX connection of the examples before it opens. *)
Lemma connecting_okx_socket :
  sockets Scenarios.connecting_okx !! 0%nat
  = Some {| url := wsUrl OKX; readyState := CONNECTING; ws_venue := OKX;
            ws_symbol := BTC_USD; connectionTimeout := next_timer (initial : State float) |}.
Proof.
  unfold Scenarios.connecting_okx. rewrite run_cons, run_nil.
  apply (connectToVenue_socket OKX BTC_USD (initial : State float)).
Qed.

Lemma open_event_connects_and_cancels_the_timeout_witness :
  let s := Scenarios.connecting_okx in
  let ws := {| url := wsUrl OKX; readyState := CONNECTING; ws_venue := OKX;
               ws_symbol := BTC_USD;
               connectionTimeout := next_timer (initial : State float) |} in
  let s' := step Examples.draws_half (EvOpen 0) s in
  connectionStatus s' (ws_venue ws) = connected /\
  lastError s' = None /\
  ready 0 s' = Some OPEN /\
  timers s' !! connectionTimeout ws = None /\
  (forall c, step Examples.draws_half (EvTimer (connectionTimeout ws) c) s' = s') /\
  sent s' = sent s ++ [(0%nat, subscribeMessage (ws_venue ws) (ws_symbol ws))] /\
  timers s' !! next_timer s
  = Some {| due := now s + 30000; period := Some 30000%Z;
            callback := Heartbeat 0 (ws_venue ws) |} /\
  heartbeatIntervals s' !! key (ws_venue ws) (ws_symbol ws) = Some (next_timer s).
Proof.
  apply (open_event_connects_and_cancels_the_timeout float float64 Reference.runtime
           Examples.draws_half Scenarios.connecting_okx 0
           {| url := wsUrl OKX; readyState := CONNECTING; ws_venue := OKX;
              ws_symbol := BTC_USD;
              connectionTimeout := next_timer (initial : State float) |}).
  - exists [EvConnect OKX BTC_USD true]. reflexivity.
  - exact connecting_okx_socket.
  - reflexivity.
Defined.

(** The heartbeat of the open OKX connection of the examples. *)
Lemma open_okx_heartbeat :
  timers Scenarios.open_okx !! next_timer Scenarios.connecting_okx
  = Some {| due := now Scenarios.connecting_okx + 30000; period := Some 30000%Z;
            callback := Heartbeat 0 OKX |}.
Proof.
  assert (Hwf : well_formed Scenarios.connecting_okx).
  { apply (reachable_well_formed Examples.draws_half).
    exists [EvConnect OKX BTC_USD true]. reflexivity. }
  destruct (open_event_effects Examples.draws_half Scenarios.connecting_okx 0 _
              Hwf connecting_okx_socket eq_refl) as (_ & _ & _ & _ & _ & _ & Ht & _).
  unfold Scenarios.open_okx. rewrite !run_cons, run_nil.
  unfold Scenarios.connecting_okx in Ht at 1. rewrite run_cons, run_nil in Ht.
  exact Ht.
Qed.

End SupervisorExamples3.

Section HeartbeatFacts.
Context `{JsNum number} `{Runtime number} (random : Random number).

Local Abbreviation State := (State number).

Lemma fire_heartbeat (id : nat) (c : bool) (w : nat) (v : Venue) (d p : Z) (s : State) :
  timers s !! id = Some {| due := d; period := Some p; callback := Heartbeat w v |} ->
  let s' := fire random id c s in
  (ready w s = Some OPEN ->
   sent s' = sent s ++ [(w, Ping v)] /\
   timers s' !! id = Some {| due := Z.max (now s) d + p; period := Some p;
                             callback := Heartbeat w v |}) /\
  (ready w s <> Some OPEN -> sent s' = sent s /\ timers s' !! id = None) /\
  sockets s' = sockets s /\
  connectionStatus s' = connectionStatus s /\
  heartbeatIntervals s' = heartbeatIntervals s.
Proof.
  intros Ht. unfold fire. rewrite Ht. cbn zeta. cbn [period callback due run_callback].
  set (s1 := with_timers _ _).
  assert (Hr : ready w s1 = ready w s) by reflexivity.
  split; [|split].
  - intros Hopen. destruct (decide (ready w s1 = Some OPEN)) as [_|Hn]; [|congruence].
    subst s1. cbn -[Z.add Z.max]. rewrite lookup_insert_eq. split; reflexivity.
  - intros Hclosed. destruct (decide (ready w s1 = Some OPEN)) as [Ho|_]; [congruence|].
    subst s1. cbn -[Z.add Z.max]. rewrite lookup_delete_eq. split; reflexivity.
  - destruct (decide (ready w s1 = Some OPEN)); repeat split; reflexivity.
Qed.

End HeartbeatFacts.

(** X17.  The heartbeat of a connection.  When its timer fires and the
    socket is open, one ping of the venue is sent and the timer is due
    again a period later; when the socket is not open (connecting,
    closing, closed) nothing is sent and the timer clears itself.  In
    both cases status and sockets are untouched, and the handle stays
    in [heartbeatIntervals]. *)
Theorem heartbeat_pings_an_open_socket_or_stops :
  forall (number : Type) (A : JsNum number) (R : Runtime number) (random : Random number)
         (s : State number) (id w : nat) (venue : Venue) (d p : Z) (c : bool),
    timers s !! id = Some {| due := d; period := Some p; callback := Heartbeat w venue |} ->
    let s' := step random (EvTimer id c) s in
    (ready w s = Some OPEN ->
     sent s' = sent s ++ [(w, Ping venue)] /\
     timers s' !! id = Some {| due := Z.max (now s) d + p; period := Some p;
                               callback := Heartbeat w venue |}) /\
    (ready w s <> Some OPEN -> sent s' = sent s /\ timers s' !! id = None) /\
    sockets s' = sockets s /\
    connectionStatus s' = connectionStatus s /\
    heartbeatIntervals s' = heartbeatIntervals s.
Proof.
  intros number A R random s id w venue d p c Ht. cbn [step].
  apply (fire_heartbeat random id c w venue d p s Ht).
Qed.

Section SupervisorExamples4.
#[local] Existing Instance Reference.runtime.

Lemma heartbeat_pings_an_open_socket_or_stops_witness :
  let s := Scenarios.open_okx in
  let id := next_timer Scenarios.connecting_okx in
  let d := (now Scenarios.connecting_okx + 30000)%Z in
  let s' := step Examples.draws_half (EvTimer id true) s in
  (ready 0 s = Some OPEN ->
   sent s' = sent s ++ [(0%nat, Ping OKX)] /\
   timers s' !! id = Some {| due := Z.max (now s) d + 30000; period := Some 30000%Z;
                             callback := Heartbeat 0 OKX |}) /\
  (ready 0 s <> Some OPEN -> sent s' = sent s /\ timers s' !! id = None) /\
  sockets s' = sockets s /\
  connectionStatus s' = connectionStatus s /\
  heartbeatIntervals s' = heartbeatIntervals s.
Proof.
  apply (heartbeat_pings_an_open_socket_or_stops float float64 Reference.runtime
           Examples.draws_half Scenarios.open_okx (next_timer Scenarios.connecting_okx)
           0 OKX (now Scenarios.connecting_okx + 30000) 30000 true).
  exact open_okx_heartbeat.
Defined.

End SupervisorExamples4.

Section SentFacts.
Context `{JsNum number} `{Runtime number} (random : Random number).

Local Abbreviation State := (State number).

Lemma sent_store_mock (v : Venue) (sy : Symbol) (s : State) :
  sent (store_mock random v sy s) = sent s.
Proof. unfold store_mock. destruct (getMockOrderbookForVenue _ _ _ _ _). reflexivity. Qed.

Lemma sent_connectToVenue (v : Venue) (sy : Symbol) (c : bool) (s : State) :
  sent (connectToVenue v sy c s) = sent s.
Proof.
  unfold connectToVenue, close_existing, clear_heartbeat, clear_reconnect. cbn zeta.
  destruct (websockets s !! key v sy);
    cbn [heartbeatIntervals with_refs ws_close with_sockets with_host];
    destruct (heartbeatIntervals s !! key v sy); cbn -[Z.add key];
    destruct (reconnectTimeouts s !! key v sy); cbn -[Z.add key];
    destruct c; reflexivity.
Qed.

Lemma sent_cleanup (s : State) : sent (cleanup s) = sent s.
Proof.
  unfold cleanup. cbn zeta. change (sent (with_refs ∅ ∅ ∅ ?x)) with (sent x).
  rewrite !(foldr_preserves sent) by reflexivity. reflexivity.
Qed.

Lemma sent_onmessage (ws : WebSocket) (m : Message number) (s : State) :
  sent (onmessage ws m s) = sent s.
Proof.
  unfold onmessage. destruct m; try reflexivity.
  destruct (is_confirmation _ _) as [[|]|]; try reflexivity.
  destruct (parseOrderbookData _ _ _); reflexivity.
Qed.

Lemma sent_onclose (ws : WebSocket) (code : Z) (s : State) :
  sent (onclose ws code s) = sent s.
Proof.
  unfold onclose, clear_heartbeat. cbn zeta.
  destruct (heartbeatIntervals _ !! _); destruct (negb _ && negb _); reflexivity.
Qed.

Lemma sent_fall_back (w : nat) (v : Venue) (sy : Symbol) (s : State) :
  sent (fall_back random w v sy s) = sent s.
Proof.
  unfold fall_back, store_mock, setInterval. cbn zeta.
  destruct (getMockOrderbookForVenue _ _ _ _ _). reflexivity.
Qed.

Lemma sent_deliver (w : nat) (enabled : ReadyState -> bool)
    (after : ReadyState -> ReadyState) (handler : WebSocket -> State -> State) (s : State) :
  (forall ws s', sent (handler ws s') = sent s') ->
  sent (deliver w enabled after handler s) = sent s.
Proof.
  intros Hh. unfold deliver. destruct (sockets s !! w); [|reflexivity].
  destruct (enabled _); [|reflexivity]. rewrite Hh. reflexivity.
Qed.

End SentFacts.

(** X18.  The hook sends on open sockets only.  An event sends at most
    one frame, and the socket it is sent on is open: the subscription
    goes out in the open handler and a ping only after the heartbeat
    has found the socket open. *)
Theorem frames_are_sent_on_open_sockets :
  forall (number : Type) (A : JsNum number) (R : Runtime number) (random : Random number)
         (s : State number) (e : Event number),
    sent (step random e s) = sent s \/
    exists w frame,
      sent (step random e s) = sent s ++ [(w, frame)] /\
      ready w (step random e s) = Some OPEN.
Proof.
  intros number A R random s e.
  destruct e as [v sy c | | w | w m | w | w code | id c | ms]; cbn [step].
  - left. apply sent_connectToVenue.
  - left. apply sent_cleanup.
  - unfold deliver. destruct (sockets s !! w) as [ws|]; [|left; reflexivity].
    destruct (bool_decide _); [|left; reflexivity].
    right. eexists w, _. split; [reflexivity|].
    unfold ready. rewrite sockets_onopen. cbn [sockets with_sockets with_host].
    rewrite lookup_insert_eq. reflexivity.
  - left. apply sent_deliver. intros. apply sent_onmessage.
  - left. apply sent_deliver. reflexivity.
  - left. apply sent_deliver. intros. apply sent_onclose.
  - unfold fire. destruct (timers s !! id) as [t|]; [|left; reflexivity]. cbn zeta.
    set (s1 := match period t with Some _ => _ | None => _ end).
    assert (S1 : sent s1 = sent s) by (subst s1; destruct (period t); reflexivity).
    clearbody s1. rewrite <- S1.
    destruct (callback t) as [w v sy | v sy | v sy | w v]; cbn [run_callback].
    + destruct (decide _); [left; reflexivity | left; apply sent_fall_back].
    + left. apply sent_store_mock.
    + left. apply sent_connectToVenue.
    + destruct (decide (ready w s1 = Some OPEN)) as [Ho|_]; [|left; reflexivity].
      right. exists w, (Ping v). split; [reflexivity | exact Ho].
  - left. reflexivity.
Qed.

Section MessageFacts.
Context `{JsNum number} `{Runtime number} (random : Random number).

Local Abbreviation State := (State number).

Lemma set_ready_same (ws : WebSocket) : set_ready (readyState ws) ws = ws.
Proof. destruct ws. reflexivity. Qed.

Lemma with_sockets_same (s : State) : with_sockets (sockets s) s = s.
Proof. destruct s. reflexivity. Qed.

(** Delivering an event that leaves the socket as it is. *)
Lemma deliver_same (w : nat) (enabled : ReadyState -> bool)
    (handler : WebSocket -> State -> State) (s : State) :
  deliver w enabled (fun st => st) handler s =
  match sockets s !! w with
  | Some ws => if enabled (readyState ws) then handler ws s else s
  | None => s
  end.
Proof.
  unfold deliver. destruct (sockets s !! w) as [ws|] eqn:Hw; [|reflexivity].
  destruct (enabled _); [|reflexivity].
  rewrite set_ready_same, (insert_id _ _ _ Hw), with_sockets_same. reflexivity.
Qed.

End MessageFacts.

Section ConfirmationFacts.
Context `{JsNum number} `{Runtime number}.

Local Abbreviation value := (value number).

Lemma is_text_true (text : string) (v : value) :
  is_text text v = true <-> v = VStr text.
Proof.
  destruct v; cbn; try (split; [discriminate | intros E; discriminate E]).
  rewrite String.eqb_eq. split; [intros ->; reflexivity | intros E; inversion E; reflexivity].
Qed.

Lemma default_undefined_text (o : option value) (text : string) :
  default VUndefined o = VStr text <-> o = Some (VStr text).
Proof.
  destruct o as [v|]; cbn; split; intros E; try discriminate E; congruence.
Qed.

(** The three tests of the message handler recognise exactly the
    confirmations, and do not throw on an object. *)
Lemma is_confirmation_object (venue : Venue) (m : gmap string value) :
  exists b, is_confirmation venue (VObj m) = Normal b /\
            (b = true <-> confirmation venue (VObj m)).
Proof.
  unfold confirmation. destruct venue; cbn [is_confirmation get mbind completion_bind].
  - eexists. split; [reflexivity|]. rewrite is_text_true, default_undefined_text.
    split.
    + intros E. exists m. split; [reflexivity | exact E].
    + intros (m' & E & Hm). inversion E; subst m'. exact Hm.
  - destruct (m !! "success"%string) as [success|] eqn:Hs; cbn [from_option id truthy_value].
    + destruct (truthy_value success) eqn:Ht.
      * eexists. split; [reflexivity|]. rewrite is_text_true, default_undefined_text.
        split.
        -- intros E. exists m. split; [reflexivity|]. split; [|exact E].
           exists success. split; [exact Hs | exact Ht].
        -- intros (m' & E & _ & Hm). inversion E; subst m'. exact Hm.
      * exists false. split; [reflexivity|]. split; [discriminate|].
        intros (m' & E & (success' & Hs' & Ht') & _). inversion E; subst m'.
        congruence.
    + exists false. split; [reflexivity|]. split; [discriminate|].
      intros (m' & E & (success' & Hs' & Ht') & _). inversion E; subst m'.
      congruence.
  - eexists. split; [reflexivity|]. rewrite is_text_true, default_undefined_text.
    split.
    + intros E. exists m. split; [reflexivity | exact E].
    + intros (m' & E & Hm). inversion E; subst m'. exact Hm.
Qed.

Lemma is_confirmation_true (venue : Venue) (data : value) :
  confirmation venue data -> is_confirmation venue data = Normal true.
Proof.
  intros Hc. pose proof Hc as (m & -> & _).
  destruct (is_confirmation_object venue m) as (b & -> & Hb).
  f_equal. apply Hb, Hc.
Qed.

(** A message that parses to a book is an object. *)
Lemma parsed_message_is_object (venue : Venue) (data : value) (now : Z)
    (ob : Orderbook value) :
  parseOrderbookData venue data now = Some ob -> exists m, data = VObj m.
Proof.
  intros Hp. apply parseOrderbookData_Some, parse_body_Some in Hp.
  destruct Hp as (rb & ra & _ & _ & Hr & _).
  destruct venue, data as [| | | | | |m]; try discriminate Hr; eauto.
Qed.

Lemma onmessage_confirmation (ws : WebSocket) (data : value) (s : State number) :
  confirmation (ws_venue ws) data -> onmessage ws (Json data) s = s.
Proof. intros Hc. unfold onmessage. rewrite (is_confirmation_true _ _ Hc). reflexivity. Qed.

Lemma onmessage_null (ws : WebSocket) (data : value) (s : State number) :
  parseOrderbookData (ws_venue ws) data (now s) = None -> onmessage ws (Json data) s = s.
Proof.
  intros Hp. unfold onmessage. rewrite Hp.
  destruct (is_confirmation _ _) as [[|]|]; reflexivity.
Qed.

Lemma onmessage_book (ws : WebSocket) (data : value) (ob : Orderbook value)
    (s : State number) :
  ~ confirmation (ws_venue ws) data ->
  parseOrderbookData (ws_venue ws) data (now s) = Some ob ->
  onmessage ws (Json data) s = setOrderbooks (ws_venue ws) ob s.
Proof.
  intros Hc Hp. unfold onmessage.
  destruct (parsed_message_is_object _ _ _ _ Hp) as (m & ->).
  destruct (is_confirmation_object (ws_venue ws) m) as (b & -> & Hb).
  destruct b; [destruct Hc; apply Hb; reflexivity|].
  rewrite Hp. reflexivity.
Qed.

End ConfirmationFacts.

(** X19.  What a message event does, case by case.  A "pong", a message
    that is no text or does not parse as JSON, a message for a socket
    that is unknown or takes no messages, a message the parser answers
    with null, and a subscription confirmation, whatever else it
    carries, leave the whole state as it is.  Any other message puts
    the book the parser returned for it at that time under the venue of
    its socket and changes nothing else: statuses, the error, the
    sockets, the timers, the stored handles and the frames sent stay as
    they are. *)
Theorem message_event_only_stores_a_parsed_book :
  forall (number : Type) (A : JsNum number) (R : Runtime number) (random : Random number)
         (s : State number) (w : nat) (m : Message number),
    (step random (EvMessage w m) s = s \/
     exists ws data ob,
       sockets s !! w = Some ws /\ m = Json data /\
       parseOrderbookData (ws_venue ws) data (now s) = Some ob /\
       step random (EvMessage w m) s = setOrderbooks (ws_venue ws) ob s) /\
    (m = Binary \/ m = Pong \/ m = Unparsable -> step random (EvMessage w m) s = s) /\
    (sockets s !! w = None -> step random (EvMessage w m) s = s) /\
    (forall ws, sockets s !! w = Some ws ->
       readyState ws <> OPEN -> readyState ws <> CLOSING ->
       step random (EvMessage w m) s = s) /\
    (forall ws data, sockets s !! w = Some ws -> m = Json data ->
       confirmation (ws_venue ws) data -> step random (EvMessage w m) s = s) /\
    (forall ws data, sockets s !! w = Some ws -> m = Json data ->
       parseOrderbookData (ws_venue ws) data (now s) = None ->
       step random (EvMessage w m) s = s) /\
    (forall ws data ob, sockets s !! w = Some ws ->
       readyState ws = OPEN \/ readyState ws = CLOSING ->
       m = Json data -> ~ confirmation (ws_venue ws) data ->
       parseOrderbookData (ws_venue ws) data (now s) = Some ob ->
       step random (EvMessage w m) s = setOrderbooks (ws_venue ws) ob s).
Proof.
  intros number A R random s w m. cbn [step]. rewrite deliver_same.
  repeat split.
  - destruct (sockets s !! w) as [ws|] eqn:Hw; [|left; reflexivity].
    destruct (bool_decide _); [|left; reflexivity].
    unfold onmessage. destruct m as [| | |data]; try (left; reflexivity).
    destruct (is_confirmation _ _) as [[|]|]; try (left; reflexivity).
    destruct (parseOrderbookData _ _ _) as [ob|] eqn:Hp; [|left; reflexivity].
    right. exists ws, data, ob. repeat split; assumption.
  - intros Hm. destruct (sockets s !! w) as [ws|]; [|reflexivity].
    destruct (bool_decide _); [|reflexivity].
    destruct Hm as [-> | [-> | ->]]; reflexivity.
  - intros ->. reflexivity.
  - intros ws -> Ho Hc. rewrite bool_decide_eq_false_2; [reflexivity|].
    intros [E | E]; [apply Ho, E | apply Hc, E].
  - intros ws data -> -> Hc. destruct (bool_decide _); [|reflexivity].
    apply onmessage_confirmation, Hc.
  - intros ws data -> -> Hp. destruct (bool_decide _); [|reflexivity].
    apply onmessage_null, Hp.
  - intros ws data ob -> Ho -> Hc Hp. rewrite bool_decide_eq_true_2 by exact Ho.
    apply onmessage_book; assumption.
Qed.

Section SupervisorExamples5.
#[local] Existing Instance Reference.runtime.

Lemma raw_sides_okx_confirmation_with_book :
  raw_sides OKX okx_confirmation_with_book
  = Some ([Examples.level (VStr "43000.5") (VStr "1.25")],
          [Examples.level (VStr "43001") (VStr "0.5")]).
Proof.
  unfold okx_confirmation_with_book, Examples.obj, raw_sides. lookups.
  unfold side_arrays. lookups. reflexivity.
Qed.

Lemma okx_confirmation_with_book_confirms : confirmation OKX okx_confirmation_with_book.
Proof.
  unfold okx_confirmation_with_book, Examples.obj. eexists. split; [reflexivity|].
  lookups. reflexivity.
Qed.

(** A confirmation is dropped although the parser would read a book
    from it. *)
Lemma message_event_only_stores_a_parsed_book_witness :
  parseOrderbookData OKX okx_confirmation_with_book (now Scenarios.open_okx)
  = Some {| bids := [VArr [VNum (dec 430005 1); VNum (dec 125 2)]];
            asks := [VArr [VNum (int 43001); VNum (dec 5 1)]];
            timestamp := now Scenarios.open_okx |} /\
  step Examples.draws_half (EvMessage 0 (Json okx_confirmation_with_book)) Scenarios.open_okx
  = Scenarios.open_okx.
Proof.
  split.
  - apply (parse_of_sides OKX okx_confirmation_with_book _ _ _
             [VArr [VNum (dec 430005 1); VNum (dec 125 2)]]
             [VArr [VNum (int 43001); VNum (dec 5 1)]]
             [VArr [VNum (dec 430005 1); VNum (dec 125 2)]]
             [VArr [VNum (int 43001); VNum (dec 5 1)]]
             raw_sides_okx_confirmation_with_book); reflexivity.
  - destruct (message_event_only_stores_a_parsed_book float float64 Reference.runtime
                Examples.draws_half Scenarios.open_okx 0
                (Json okx_confirmation_with_book)) as (_ & _ & _ & _ & Hc & _).
    exact (Hc _ _ open_okx_socket eq_refl okx_confirmation_with_book_confirms).
Defined.

End SupervisorExamples5.

Section Registered.
Context `{JsNum number} `{Runtime number} (random : Random number).

Local Abbreviation State := (State number).

Lemma closing_not_live (ws : WebSocket) : ~ live (closing ws).
Proof. unfold live. destruct ws as [u [] v sy ct]; cbn; intros [E | E]; discriminate E. Qed.

Lemma live_closing (ws : WebSocket) : live (closing ws) -> live ws.
Proof. intros Hl. destruct (closing_not_live ws Hl). Qed.

Lemma registered_ext (s s' : State) :
  sockets s' = sockets s -> websockets s' = websockets s -> registered s -> registered s'.
Proof. intros Hs Hw Hr w ws. rewrite Hs, Hw. apply Hr. Qed.

Lemma registered_initial : registered (initial : State).
Proof. intros w ws Hw. cbn in Hw. rewrite lookup_empty in Hw. discriminate Hw. Qed.

Lemma registered_ws_close (w : nat) (s : State) : registered s -> registered (ws_close w s).
Proof.
  intros Hr w' ws'. cbn [sockets websockets ws_close with_sockets with_host].
  destruct (decide (w = w')) as [->|Hne].
  - rewrite lookup_alter_eq. destruct (sockets s !! w') as [ws|]; [|discriminate].
    cbn. intros E Hl. inversion E; subst ws'. destruct (closing_not_live ws Hl).
  - rewrite lookup_alter_ne by exact Hne. apply Hr.
Qed.

Lemma registered_close_existing (k : string) (s : State) :
  registered s -> registered (close_existing k s) /\ websockets (close_existing k s) !! k = None.
Proof.
  intros Hr. unfold close_existing. destruct (websockets s !! k) as [w0|] eqn:Hk; [|auto].
  split; [|cbn; apply lookup_delete_eq].
  intros w ws. cbn [sockets websockets ws_close with_sockets with_host with_refs].
  destruct (decide (w0 = w)) as [->|Hne].
  - rewrite lookup_alter_eq. destruct (sockets s !! w) as [ws0|]; [|discriminate].
    cbn. intros E Hl. inversion E; subst ws. destruct (closing_not_live ws0 Hl).
  - rewrite lookup_alter_ne by exact Hne. intros Hw Hl.
    pose proof (Hr w ws Hw Hl) as Hreg.
    rewrite lookup_delete_ne; [exact Hreg|].
    intros Ek. rewrite <- Ek in Hreg. congruence.
Qed.

Lemma websockets_clear_heartbeat (k : string) (s : State) :
  websockets (clear_heartbeat k s) = websockets s.
Proof. unfold clear_heartbeat. destruct (heartbeatIntervals s !! k); reflexivity. Qed.

Lemma websockets_clear_reconnect (k : string) (s : State) :
  websockets (clear_reconnect k s) = websockets s.
Proof. unfold clear_reconnect. destruct (reconnectTimeouts s !! k); reflexivity. Qed.

Lemma registered_connectToVenue (v : Venue) (sy : Symbol) (c : bool) (s : State) :
  registered s -> registered (connectToVenue v sy c s).
Proof.
  intros Hr. unfold connectToVenue. cbn zeta.
  destruct (registered_close_existing (key v sy) s Hr) as [Hr0 Hk0].
  set (s1 := setConnectionStatus v connecting _).
  assert (Hs1 : sockets s1 = sockets (close_existing (key v sy) s)).
  { subst s1. cbn [sockets setConnectionStatus].
    rewrite sockets_clear_reconnect, sockets_clear_heartbeat. reflexivity. }
  assert (Hw1 : websockets s1 = websockets (close_existing (key v sy) s)).
  { subst s1. cbn [websockets setConnectionStatus].
    rewrite websockets_clear_reconnect, websockets_clear_heartbeat. reflexivity. }
  assert (Hr1 : registered s1) by (eapply registered_ext; eassumption).
  assert (Hk1 : websockets s1 !! key v sy = None) by (rewrite Hw1; exact Hk0).
  clearbody s1. destruct c; cbn -[key]; [|exact Hr1].
  intros w ws. cbn -[key].
  destruct (decide (next_socket s1 = w)) as [<-|Hne].
  - rewrite lookup_insert_eq. intros E _. inversion E; subst ws. cbn -[key].
    apply lookup_insert_eq.
  - rewrite lookup_insert_ne by exact Hne. intros Hw Hl.
    pose proof (Hr1 w ws Hw Hl) as Hreg.
    rewrite lookup_insert_ne; [exact Hreg|].
    intros Ek. rewrite <- Ek in Hreg. congruence.
Qed.

Lemma websockets_store_mock (v : Venue) (sy : Symbol) (s : State) :
  websockets (store_mock random v sy s) = websockets s.
Proof. unfold store_mock. destruct (getMockOrderbookForVenue _ _ _ _ _). reflexivity. Qed.

Lemma websockets_onmessage (ws : WebSocket) (m : Message number) (s : State) :
  websockets (onmessage ws m s) = websockets s.
Proof.
  unfold onmessage. destruct m; try reflexivity.
  destruct (is_confirmation _ _) as [[|]|]; try reflexivity.
  destruct (parseOrderbookData _ _ _); reflexivity.
Qed.

Lemma websockets_onclose (ws : WebSocket) (code : Z) (s : State) :
  websockets (onclose ws code s) = websockets s.
Proof.
  unfold onclose, clear_heartbeat. cbn zeta.
  destruct (heartbeatIntervals _ !! _); destruct (negb _ && negb _); reflexivity.
Qed.

Lemma registered_fall_back (w : nat) (v : Venue) (sy : Symbol) (s : State) :
  registered s -> registered (fall_back random w v sy s).
Proof.
  intros Hr. apply (registered_ext (ws_close w s)); [| |apply registered_ws_close, Hr];
    unfold fall_back, store_mock, setInterval; cbn zeta;
    destruct (getMockOrderbookForVenue _ _ _ _ _); reflexivity.
Qed.

Lemma registered_deliver (w : nat) (enabled : ReadyState -> bool)
    (after : ReadyState -> ReadyState) (handler : WebSocket -> State -> State) (s : State) :
  (forall ws s', sockets (handler ws s') = sockets s') ->
  (forall ws s', websockets (handler ws s') = websockets s') ->
  (forall st, enabled st = true -> after st = CONNECTING \/ after st = OPEN ->
              st = CONNECTING \/ st = OPEN) ->
  registered s -> registered (deliver w enabled after handler s).
Proof.
  intros Hhs Hhw Hafter Hr. unfold deliver.
  destruct (sockets s !! w) as [ws|] eqn:Hw; [|exact Hr].
  destruct (enabled (readyState ws)) eqn:He; [|exact Hr].
  eapply registered_ext; [apply Hhs | apply Hhw |].
  intros w' ws'. cbn [sockets websockets with_sockets with_host].
  destruct (decide (w = w')) as [<-|Hne].
  - rewrite lookup_insert_eq. intros E Hl. inversion E; subst ws'.
    cbn in Hl |- *. apply (Hr w ws Hw). apply (Hafter _ He Hl).
  - rewrite lookup_insert_ne by exact Hne. apply Hr.
Qed.

Lemma registered_fire (id : nat) (c : bool) (s : State) :
  registered s -> registered (fire random id c s).
Proof.
  intros Hr. unfold fire. destruct (timers s !! id) as [t|]; [|exact Hr]. cbn zeta.
  set (s1 := match period t with Some _ => _ | None => _ end).
  assert (Hr1 : registered s1).
  { apply (registered_ext s); [| |exact Hr]; subst s1; destruct (period t); reflexivity. }
  clearbody s1. destruct (callback t) as [w v sy | v sy | v sy | w v]; cbn [run_callback].
  - destruct (decide _); [exact Hr1 | apply registered_fall_back, Hr1].
  - eapply registered_ext; [apply sockets_store_mock | apply websockets_store_mock | exact Hr1].
  - apply registered_connectToVenue, Hr1.
  - destruct (decide _); exact Hr1.
Qed.

(** The sockets after [ws.close()] has been called on each of a list. *)
Lemma sockets_foldr_ws_close (l : list nat) (s : State) (w : nat) :
  sockets (foldr ws_close s l) !! w =
  if bool_decide (w ∈ l) then closing <$> sockets s !! w else sockets s !! w.
Proof.
  induction l as [|i l IH]; [reflexivity|].
  cbn [foldr]. cbn [sockets ws_close with_sockets with_host].
  destruct (decide (i = w)) as [->|Hne].
  - rewrite lookup_alter_eq, IH. rewrite (bool_decide_true (w ∈ w :: l)) by left.
    destruct (bool_decide (w ∈ l)); destruct (sockets s !! w) as [[u [] v sy ct]|]; reflexivity.
  - rewrite lookup_alter_ne by exact Hne. rewrite IH.
    destruct (bool_decide (w ∈ l)) eqn:E.
    + apply bool_decide_eq_true in E. rewrite bool_decide_true by (right; exact E). reflexivity.
    + apply bool_decide_eq_false in E. rewrite bool_decide_false; [reflexivity|].
      intros Hin. apply elem_of_cons in Hin. destruct Hin as [->|Hin]; [congruence | auto].
Qed.

(** The timers after each of a list of handles has been cleared. *)
Lemma timers_foldr_clearTimeout (l : list nat) (s : State) (id : nat) :
  timers (foldr clearTimeout s l) !! id =
  if bool_decide (id ∈ l) then None else timers s !! id.
Proof.
  induction l as [|i l IH]; [reflexivity|].
  cbn [foldr]. cbn [timers clearTimeout with_timers with_host].
  destruct (decide (i = id)) as [->|Hne].
  - rewrite lookup_delete_eq. rewrite bool_decide_true by left. reflexivity.
  - rewrite lookup_delete_ne by exact Hne. rewrite IH.
    destruct (bool_decide (id ∈ l)) eqn:E.
    + apply bool_decide_eq_true in E. rewrite bool_decide_true by (right; exact E). reflexivity.
    + apply bool_decide_eq_false in E. rewrite bool_decide_false; [reflexivity|].
      intros Hin. apply elem_of_cons in Hin. destruct Hin as [->|Hin]; [congruence | auto].
Qed.

Lemma values_elem_of (m : gmap string nat) (k : string) (i : nat) :
  m !! k = Some i -> i ∈ (map_to_list m).*2.
Proof.
  intros Hk. apply list_elem_of_fmap. exists (k, i). split; [reflexivity|].
  apply elem_of_map_to_list. exact Hk.
Qed.

Lemma sockets_cleanup (s : State) (w : nat) :
  sockets (cleanup s) !! w =
  if bool_decide (w ∈ (map_to_list (websockets s)).*2) then closing <$> sockets s !! w
  else sockets s !! w.
Proof.
  unfold cleanup. cbn zeta. change (sockets (with_refs ∅ ∅ ∅ ?x)) with (sockets x).
  rewrite !(foldr_preserves sockets) by reflexivity.
  apply sockets_foldr_ws_close.
Qed.

(** After the cleanup no socket is connecting or open. *)
Lemma cleanup_not_live (s : State) (w : nat) (ws : WebSocket) :
  registered s -> sockets (cleanup s) !! w = Some ws -> ~ live ws.
Proof.
  intros Hr Hw Hl. rewrite sockets_cleanup in Hw.
  destruct (bool_decide (w ∈ (map_to_list (websockets s)).*2)) eqn:E.
  - destruct (sockets s !! w) as [ws0|]; [|discriminate]. cbn in Hw.
    inversion Hw; subst ws. destruct (closing_not_live ws0 Hl).
  - apply bool_decide_eq_false in E. apply E.
    eapply values_elem_of. apply (Hr w ws Hw Hl).
Qed.

Lemma registered_cleanup (s : State) : registered s -> registered (cleanup s).
Proof.
  intros Hr w ws Hw Hl. destruct (cleanup_not_live s w ws Hr Hw Hl).
Qed.

Lemma registered_step (e : Event number) (s : State) :
  registered s -> registered (step random e s).
Proof.
  intros Hr. destruct e as [v sy c | | w | w m | w | w code | id c | ms]; cbn [step].
  - apply registered_connectToVenue, Hr.
  - apply registered_cleanup, Hr.
  - apply registered_deliver; try reflexivity; [|exact Hr].
    intros st He _. apply bool_decide_eq_true in He. auto.
  - apply registered_deliver; [intros; apply sockets_onmessage
                              | intros; apply websockets_onmessage | auto | exact Hr].
  - apply registered_deliver; try reflexivity; [auto | exact Hr].
  - apply registered_deliver; [intros; apply sockets_onclose
                              | intros; apply websockets_onclose | | exact Hr].
    intros st _ [E | E]; discriminate E.
  - apply registered_fire, Hr.
  - exact Hr.
Qed.

Lemma registered_run (es : list (Event number)) (s : State) :
  registered s -> registered (run random es s).
Proof.
  revert s. induction es as [|e es IH]; intros s Hr; [exact Hr|].
  cbn. apply IH, registered_step, Hr.
Qed.

Lemma reachable_registered (s : State) : reachable random s -> registered s.
Proof. intros [es ->]. apply registered_run, registered_initial. Qed.

End Registered.

(** X20.  In every state the hook can reach there is at most one
    connecting or open socket for a venue and symbol: two such sockets
    are the same socket, the one held in [websockets] under their key. *)
Theorem one_live_socket_per_venue_and_symbol :
  forall (number : Type) (A : JsNum number) (R : Runtime number) (random : Random number)
         (s : State number) (w w' : nat) (ws ws' : WebSocket),
    reachable random s ->
    sockets s !! w = Some ws -> live ws ->
    sockets s !! w' = Some ws' -> live ws' ->
    ws_venue ws = ws_venue ws' -> ws_symbol ws = ws_symbol ws' ->
    w = w' /\ websockets s !! key (ws_venue ws) (ws_symbol ws) = Some w.
Proof.
  intros number A R random s w w' ws ws' Hs Hw Hl Hw' Hl' Hv Hsy.
  apply reachable_registered in Hs.
  pose proof (Hs w ws Hw Hl) as H1. pose proof (Hs w' ws' Hw' Hl') as H2.
  rewrite <- Hv, <- Hsy in H2. split; [congruence | exact H1].
Qed.

(** X21.  The cleanup of the effect, from any state the hook can
    reach: the three tables of the hook are empty, no socket is left
    connecting or open, and every timer whose handle was stored, a
    reconnection, a heartbeat or a synthetic refresh, is cancelled.  A
    pending connect timeout is not cancelled (its handle is stored
    nowhere): it stays pending after the cleanup. *)
Theorem cleanup_closes_sockets_and_keeps_connect_timeouts :
  forall (number : Type) (A : JsNum number) (R : Runtime number) (random : Random number)
         (s : State number),
    reachable random s ->
    let s' := step random EvCleanup s in
    websockets s' = ∅ /\ reconnectTimeouts s' = ∅ /\ heartbeatIntervals s' = ∅ /\
    (forall w ws, sockets s' !! w = Some ws -> ~ live ws) /\
    (forall k id, reconnectTimeouts s !! k = Some id \/ heartbeatIntervals s !! k = Some id ->
                  timers s' !! id = None) /\
    (forall id t w v sy, timers s !! id = Some t ->
                         callback t = ConnectionTimeout w v sy ->
                         timers s' !! id = Some t).
Proof.
  intros number A R random s Hs s'. subst s'. cbn [step].
  split; [reflexivity|]. split; [reflexivity|]. split; [reflexivity|].
  split; [|split].
  - intros w ws. apply cleanup_not_live. apply (reachable_registered random), Hs.
  - intros k id Hk. unfold cleanup. cbn zeta.
    change (timers (with_refs ∅ ∅ ∅ ?x)) with (timers x).
    rewrite timers_foldr_clearTimeout.
    rewrite (foldr_preserves heartbeatIntervals) by reflexivity.
    rewrite (foldr_preserves heartbeatIntervals) by reflexivity.
    destruct (bool_decide (id ∈ (map_to_list (heartbeatIntervals s)).*2)) eqn:E;
      [reflexivity|].
    rewrite timers_foldr_clearTimeout.
    rewrite (foldr_preserves reconnectTimeouts) by reflexivity.
    destruct Hk as [Hk | Hk].
    + rewrite bool_decide_true; [reflexivity | eapply values_elem_of, Hk].
    + apply bool_decide_eq_false in E. destruct E. eapply values_elem_of, Hk.
  - intros id t w v sy Ht Hcb. apply kept_cleanup; [|exact Ht|eauto].
    apply (reachable_well_formed random), Hs.
Qed.

Section SupervisorExamples5.
#[local] Existing Instance Reference.runtime.

Lemma one_live_socket_per_venue_and_symbol_witness :
  let ws := {| url := wsUrl OKX; readyState := OPEN; ws_venue := OKX; ws_symbol := BTC_USD;
               connectionTimeout := next_timer (initial : State float) |} in
  0%nat = 0%nat /\
  websockets Scenarios.open_okx !! key (ws_venue ws) (ws_symbol ws) = Some 0%nat.
Proof.
  apply (one_live_socket_per_venue_and_symbol float float64 Reference.runtime
           Examples.draws_half Scenarios.open_okx 0 0
           {| url := wsUrl OKX; readyState := OPEN; ws_venue := OKX; ws_symbol := BTC_USD;
              connectionTimeout := next_timer (initial : State float) |}
           {| url := wsUrl OKX; readyState := OPEN; ws_venue := OKX; ws_symbol := BTC_USD;
              connectionTimeout := next_timer (initial : State float) |}).
  - exists [EvConnect OKX BTC_USD true; EvOpen 0]. reflexivity.
  - exact open_okx_socket.
  - right. reflexivity.
  - exact open_okx_socket.
  - right. reflexivity.
  - reflexivity.
  - reflexivity.
Defined.

Lemma cleanup_closes_sockets_and_keeps_connect_timeouts_witness :
  let s := Scenarios.connecting_okx in
  let s' := step Examples.draws_half EvCleanup s in
  websockets s' = ∅ /\ reconnectTimeouts s' = ∅ /\ heartbeatIntervals s' = ∅ /\
  (forall w ws, sockets s' !! w = Some ws -> ~ live ws) /\
  (forall k id, reconnectTimeouts s !! k = Some id \/ heartbeatIntervals s !! k = Some id ->
                timers s' !! id = None) /\
  (forall id t w v sy, timers s !! id = Some t ->
                       callback t = ConnectionTimeout w v sy ->
                       timers s' !! id = Some t).
Proof.
  apply (cleanup_closes_sockets_and_keeps_connect_timeouts float float64 Reference.runtime
           Examples.draws_half Scenarios.connecting_okx).
  exists [EvConnect OKX BTC_USD true]. reflexivity.
Defined.

End SupervisorExamples5.

Section Reconnecting.
Context `{JsNum number} `{Runtime number} (random : Random number).

Local Abbreviation State := (State number).

(** The parts of the state after [connectToVenue], when the socket was
    constructed. *)
Lemma connectToVenue_parts (v : Venue) (sy : Symbol) (s : State) :
  let k := key v sy in
  let s' := connectToVenue v sy true s in
  connectionStatus s' v = connecting /\
  websockets s' !! k = Some (next_socket s) /\
  heartbeatIntervals s' !! k = None /\
  reconnectTimeouts s' !! k = None /\
  sockets s' =
    <[next_socket s := {| url := wsUrl v; readyState := CONNECTING; ws_venue := v;
                          ws_symbol := sy; connectionTimeout := next_timer s |}]>
      (match websockets s !! k with
       | Some w => alter closing w (sockets s)
       | None => sockets s
       end) /\
  timers s' =
    <[next_timer s := {| due := now s + 15000; period := None;
                         callback := ConnectionTimeout (next_socket s) v sy |}]>
      (match reconnectTimeouts s !! k with
       | Some r => delete r
       | None => fun m => m
       end (match heartbeatIntervals s !! k with
            | Some h => delete h (timers s)
            | None => timers s
            end)).
Proof.
  cbn zeta. unfold connectToVenue, close_existing, clear_heartbeat, clear_reconnect.
  cbn zeta.
  destruct (websockets s !! key v sy) as [w0|] eqn:E0;
    cbn [heartbeatIntervals with_refs ws_close with_sockets with_host];
    destruct (heartbeatIntervals s !! key v sy) as [h|] eqn:E1; cbn -[Z.add key];
    destruct (reconnectTimeouts s !! key v sy) as [r|] eqn:E2; cbn -[Z.add key];
    rewrite fn_lookup_insert, lookup_insert_eq;
    rewrite ?lookup_delete_eq, ?E1, ?E2;
    repeat split; reflexivity.
Qed.

End Reconnecting.

(** X22.  Connecting again for a venue and symbol replaces the
    connection the hook holds for them: the socket held under the key
    is closed, so is no longer connecting or open, the heartbeat and
    the reconnection stored under the key are cancelled and forgotten,
    the status is "connecting" and the new socket is the one held under
    the key. *)
Theorem connecting_again_replaces_the_connection :
  forall (number : Type) (A : JsNum number) (R : Runtime number) (random : Random number)
         (s : State number) (venue : Venue) (symbol : Symbol),
    reachable random s ->
    let k := key venue symbol in
    let s' := step random (EvConnect venue symbol true) s in
    connectionStatus s' venue = connecting /\
    websockets s' !! k = Some (next_socket s) /\
    ready (next_socket s) s' = Some CONNECTING /\
    (forall w ws, websockets s !! k = Some w -> sockets s !! w = Some ws ->
                  exists ws', sockets s' !! w = Some ws' /\ ~ live ws') /\
    (forall id, heartbeatIntervals s !! k = Some id \/ reconnectTimeouts s !! k = Some id ->
                timers s' !! id = None) /\
    heartbeatIntervals s' !! k = None /\
    reconnectTimeouts s' !! k = None.
Proof.
  intros number A R random s venue symbol Hs k s'. subst s'. cbn [step].
  apply reachable_well_formed in Hs.
  destruct (connectToVenue_parts venue symbol s) as (H1 & H2 & H3 & H4 & H5 & H6).
  fold k in H2, H3, H4, H5, H6.
  split; [exact H1|]. split; [exact H2|].
  split.
  { unfold ready. rewrite H5, lookup_insert_eq. reflexivity. }
  split.
  { intros w ws Hk Hw. rewrite H5, Hk.
    destruct (wf_sockets s Hs w ws Hw) as [Hlt _].
    rewrite lookup_insert_ne by lia. rewrite lookup_alter_eq, Hw.
    exists (closing ws). split; [reflexivity | apply closing_not_live]. }
  split; [|split; assumption].
  intros id Hid. rewrite H6.
  assert (Hlt : (id < next_timer s)%nat).
  { destruct Hid as [Hid | Hid];
      [apply (wf_heartbeats s Hs k id Hid) | apply (wf_reconnects s Hs k id Hid)]. }
  rewrite lookup_insert_ne by lia.
  destruct Hid as [Hid | Hid]; rewrite Hid.
  - destruct (reconnectTimeouts s !! k) as [r|].
    + destruct (decide (r = id)) as [->|Hne];
        [apply lookup_delete_eq | rewrite lookup_delete_ne by exact Hne; apply lookup_delete_eq].
    + apply lookup_delete_eq.
  - apply lookup_delete_eq.
Qed.

Section SupervisorExamples6.
#[local] Existing Instance Reference.runtime.

Lemma connecting_again_replaces_the_connection_witness :
  let s := Scenarios.open_okx in
  let k := key OKX BTC_USD in
  let s' := step Examples.draws_half (EvConnect OKX BTC_USD true) s in
  connectionStatus s' OKX = connecting /\
  websockets s' !! k = Some (next_socket s) /\
  ready (next_socket s) s' = Some CONNECTING /\
  (forall w ws, websockets s !! k = Some w -> sockets s !! w = Some ws ->
                exists ws', sockets s' !! w = Some ws' /\ ~ live ws') /\
  (forall id, heartbeatIntervals s !! k = Some id \/ reconnectTimeouts s !! k = Some id ->
              timers s' !! id = None) /\
  heartbeatIntervals s' !! k = None /\
  reconnectTimeouts s' !! k = None.
Proof.
  apply (connecting_again_replaces_the_connection float float64 Reference.runtime
           Examples.draws_half Scenarios.open_okx OKX BTC_USD).
  exists [EvConnect OKX BTC_USD true; EvOpen 0]. reflexivity.
Defined.

End SupervisorExamples6.

(** X23.  A transport error event reports and does nothing else: the
    venue's status becomes "error" and the error text is set, but,
    whatever the text says, no book is stored, no timer is scheduled or
    cancelled, no reconnection is planned and nothing is sent.  (An
    event for a closed or unknown socket is not delivered.) *)
Theorem error_event_only_reports :
  forall (number : Type) (A : JsNum number) (R : Runtime number) (random : Random number)
         (s : State number) (w : nat),
    step random (EvError w) s = s \/
    exists ws,
      sockets s !! w = Some ws /\
      step random (EvError w) s =
      setError (Some (venue_str (ws_venue ws)
                      ++ " connection failed. Using mock data for demonstration.")%string)
               (setConnectionStatus (ws_venue ws) error s).
Proof.
  intros number A R random s w. cbn [step]. rewrite deliver_same.
  destruct (sockets s !! w) as [ws|] eqn:Hw; [|left; reflexivity].
  destruct (bool_decide _); [|left; reflexivity].
  right. exists ws. split; reflexivity.
Qed.

(** ** More on the symbol translation *)

Section SymbolFacts.

Lemma append_empty_r (s : string) : (s ++ "")%string = s.
Proof.
  induction s as [|c s IH]; [reflexivity|].
  change (String c s ++ "")%string with (String c (s ++ "")). rewrite IH. reflexivity.
Qed.

(** Whether a string starts with "USD" is decided before a dash. *)
Lemma starts_with_USD_dash (t r : string) :
  JsString.starts_with "USD" (t ++ String "-" r) = JsString.starts_with "USD" t.
Proof.
  destruct t as [|c [|d [|e t]]]; cbv [String.append]; cbn [JsString.starts_with].
  - reflexivity.
  - destruct (Ascii.eqb "U" c); reflexivity.
  - destruct (Ascii.eqb "U" c); [|reflexivity]. destruct (Ascii.eqb "S" d); reflexivity.
  - reflexivity.
Qed.

(** Nor does "USD" start in a string and end in a "USD" that follows. *)
Lemma starts_with_USD_USD (c : ascii) (t : string) :
  JsString.starts_with "USD" (String c t ++ "USD") = JsString.starts_with "USD" (String c t).
Proof.
  destruct t as [|d [|e t]]; cbv [String.append]; cbn [JsString.starts_with].
  - destruct (Ascii.eqb "U" c); reflexivity.
  - destruct (Ascii.eqb "U" c); [|reflexivity]. destruct (Ascii.eqb "S" d); reflexivity.
  - reflexivity.
Qed.

Lemma replace_USD_after_dash (r base : string) :
  JsString.includes "USD" base = false ->
  JsString.replace "USD" r (base ++ "-USD") = (base ++ "-" ++ r)%string.
Proof.
  induction base as [|c t IH]; intros Hi.
  - change (JsString.replace "USD" r ("" ++ "-USD")) with ("-" ++ (r ++ ""))%string.
    rewrite append_empty_r. reflexivity.
  - apply includes_cons_false in Hi. destruct Hi as [Hs Hi].
    pose proof (starts_with_USD_dash (String c t) "USD") as Hd. rewrite Hs in Hd.
    change (String c t ++ "-USD")%string with (String c (t ++ "-USD")) in *.
    cbn [JsString.replace]. rewrite Hd, (IH Hi). reflexivity.
Qed.

Lemma replace_final_USD (r base : string) :
  JsString.includes "USD" base = false ->
  JsString.replace "USD" r (base ++ "USD") = (base ++ r)%string.
Proof.
  induction base as [|c t IH]; intros Hi.
  - change (JsString.replace "USD" r ("" ++ "USD")) with (r ++ "")%string.
    rewrite append_empty_r. reflexivity.
  - apply includes_cons_false in Hi. destruct Hi as [Hs Hi].
    pose proof (starts_with_USD_USD c t) as Hd. rewrite Hs in Hd.
    change (String c t ++ "USD")%string with (String c (t ++ "USD")) in *.
    cbn [JsString.replace]. rewrite Hd, (IH Hi). reflexivity.
Qed.

Lemma replace_first_dash (base s : string) :
  JsString.includes "-" base = false ->
  JsString.replace "-" "" (base ++ String "-" s) = (base ++ s)%string.
Proof.
  induction base as [|c t IH]; intros Hi; [reflexivity|].
  apply includes_cons_false in Hi. destruct Hi as [Hs Hi].
  change (String c t ++ String "-" s)%string with (String c (t ++ String "-" s)).
  cbn [JsString.replace]. cbn [JsString.starts_with] in Hs |- *.
  destruct (Ascii.eqb "-" c); [discriminate|]. rewrite (IH Hi). reflexivity.
Qed.

Lemma split_head_dash (base s : string) :
  JsString.includes "-" base = false ->
  JsString.split_head "-" (base ++ String "-" s) = base.
Proof.
  induction base as [|c t IH]; intros Hi; [reflexivity|].
  apply includes_cons_false in Hi. destruct Hi as [Hs Hi].
  change (String c t ++ String "-" s)%string with (String c (t ++ String "-" s)).
  cbn [JsString.split_head]. cbn [JsString.starts_with] in Hs.
  rewrite Ascii.eqb_sym. destruct (Ascii.eqb "-" c); [discriminate|].
  rewrite (IH Hi). reflexivity.
Qed.

End SymbolFacts.

(** X24.  A symbol quoted in USD, [base ++ "-USD"] where [base] holds
    no dash and no "USD" ("BTC-USD", "ETH-USD"), is translated to the
    venue's name of the USDT market or perpetual: [base-USDT] for OKX,
    [baseUSDT] for Bybit, [base-PERPETUAL] for Deribit. *)
Theorem usd_symbols_are_translated :
  forall base : string,
    JsString.includes "-" base = false ->
    JsString.includes "USD" base = false ->
    formatSymbolForVenue OKX (base ++ "-USD") = (base ++ "-USDT")%string /\
    formatSymbolForVenue Bybit (base ++ "-USD") = (base ++ "USDT")%string /\
    formatSymbolForVenue Deribit (base ++ "-USD") = (base ++ "-PERPETUAL")%string.
Proof.
  intros base Hdash Husd. unfold formatSymbolForVenue. repeat split.
  - apply (replace_USD_after_dash "USDT" base Husd).
  - rewrite (replace_first_dash base "USD" Hdash).
    apply (replace_final_USD "USDT" base Husd).
  - cbn zeta. rewrite (split_head_dash base "USD" Hdash). reflexivity.
Qed.

Lemma usd_symbols_are_translated_witness :
  formatSymbolForVenue OKX ("BTC" ++ "-USD") = ("BTC" ++ "-USDT")%string /\
  formatSymbolForVenue Bybit ("BTC" ++ "-USD") = ("BTC" ++ "USDT")%string /\
  formatSymbolForVenue Deribit ("BTC" ++ "-USD") = ("BTC" ++ "-PERPETUAL")%string.
Proof. apply (usd_symbols_are_translated "BTC"); reflexivity. Defined.

Section Keyed.
Context `{JsNum number} `{Runtime number} (random : Random number).

Local Abbreviation State := (State number).

Lemma key_venue (v v' : Venue) (sy sy' : Symbol) : key v sy = key v' sy' -> v = v'.
Proof. destruct v, v', sy, sy'; intros E; first [reflexivity | discriminate E]. Qed.

Lemma keyed_ext (s s' : State) :
  sockets s' = sockets s -> websockets s' = websockets s -> keyed s -> keyed s'.
Proof. intros Hs Hw Hk k w. rewrite Hs, Hw. apply Hk. Qed.

Lemma keyed_initial : keyed (initial : State).
Proof. intros k w Hk. cbn in Hk. rewrite lookup_empty in Hk. discriminate Hk. Qed.

Lemma keyed_alter_closing (w0 : nat) (s : State) :
  keyed s -> keyed (ws_close w0 s).
Proof.
  intros Hk k w Hw. cbn [sockets websockets ws_close with_sockets with_host] in *.
  destruct (Hk k w Hw) as (ws & Hws & Hkey).
  destruct (decide (w0 = w)) as [->|Hne].
  - exists (closing ws). rewrite lookup_alter_eq, Hws. split; [reflexivity | exact Hkey].
  - exists ws. rewrite lookup_alter_ne by exact Hne. split; assumption.
Qed.

Lemma keyed_close_existing (k : string) (s : State) :
  keyed s -> keyed (close_existing k s).
Proof.
  intros Hk. unfold close_existing. destruct (websockets s !! k) as [w0|]; [|exact Hk].
  intros k' w Hw. cbn [sockets websockets ws_close with_sockets with_host with_refs] in *.
  apply lookup_delete_Some in Hw. destruct Hw as [_ Hw].
  apply (keyed_alter_closing w0 s Hk k' w Hw).
Qed.

Lemma keyed_connectToVenue (v : Venue) (sy : Symbol) (c : bool) (s : State) :
  well_formed s -> keyed s -> keyed (connectToVenue v sy c s).
Proof.
  intros W Hk. unfold connectToVenue. cbn zeta.
  set (s1 := setConnectionStatus v connecting _).
  assert (W1 : well_formed s1).
  { apply well_formed_setConnectionStatus, well_formed_clear_reconnect,
      well_formed_clear_heartbeat, well_formed_close_existing, W. }
  assert (K1 : keyed s1).
  { apply (keyed_ext (close_existing (key v sy) s)); [| |apply keyed_close_existing, Hk];
      subst s1; cbn [sockets websockets setConnectionStatus].
    - rewrite sockets_clear_reconnect, sockets_clear_heartbeat. reflexivity.
    - rewrite websockets_clear_reconnect, websockets_clear_heartbeat. reflexivity. }
  clearbody s1. destruct c; cbn -[key]; [|exact K1].
  intros k w. cbn -[key].
  destruct (decide (key v sy = k)) as [<-|Hne].
  - rewrite lookup_insert_eq. intros E. inversion E; subst w.
    eexists. rewrite lookup_insert_eq. split; reflexivity.
  - rewrite lookup_insert_ne by exact Hne. intros Hw.
    destruct (K1 k w Hw) as (ws & Hws & Hkey).
    exists ws. split; [|exact Hkey].
    rewrite lookup_insert_ne; [exact Hws|].
    pose proof (wf_sockets s1 W1 w ws Hws). lia.
Qed.

Lemma keyed_deliver (w : nat) (enabled : ReadyState -> bool)
    (after : ReadyState -> ReadyState) (handler : WebSocket -> State -> State) (s : State) :
  (forall ws s', sockets (handler ws s') = sockets s') ->
  (forall ws s', websockets (handler ws s') = websockets s') ->
  keyed s -> keyed (deliver w enabled after handler s).
Proof.
  intros Hhs Hhw Hk. unfold deliver.
  destruct (sockets s !! w) as [ws|] eqn:Hw; [|exact Hk].
  destruct (enabled (readyState ws)); [|exact Hk].
  eapply keyed_ext; [apply Hhs | apply Hhw |].
  intros k w' Hw'. cbn [sockets websockets with_sockets with_host] in *.
  destruct (Hk k w' Hw') as (ws' & Hws' & Hkey).
  destruct (decide (w = w')) as [<-|Hne].
  - rewrite lookup_insert_eq. eexists. split; [reflexivity|].
    cbn. congruence.
  - rewrite lookup_insert_ne by exact Hne. eauto.
Qed.

Lemma keyed_fire (id : nat) (c : bool) (s : State) :
  well_formed s -> keyed s -> keyed (fire random id c s).
Proof.
  intros W Hk. unfold fire. destruct (timers s !! id) as [t|] eqn:Ht; [|exact Hk]. cbn zeta.
  set (s1 := match period t with Some _ => _ | None => _ end).
  assert (W1 : well_formed s1).
  { subst s1. destruct (period t) as [p|].
    - apply (well_formed_rearm id t); [exact Ht | reflexivity |].
      apply well_formed_at_time, W.
    - apply (well_formed_clearTimeout id (at_time _ s)), well_formed_at_time, W. }
  assert (K1 : keyed s1).
  { apply (keyed_ext s); [| |exact Hk]; subst s1; destruct (period t); reflexivity. }
  clearbody s1. destruct (callback t) as [w v sy | v sy | v sy | w v]; cbn [run_callback].
  - destruct (decide _); [exact K1|].
    apply (keyed_ext (ws_close w s1)); [| |apply keyed_alter_closing, K1];
      unfold fall_back, store_mock, setInterval; cbn zeta;
      destruct (getMockOrderbookForVenue _ _ _ _ _); reflexivity.
  - eapply keyed_ext; [apply sockets_store_mock | apply websockets_store_mock | exact K1].
  - apply keyed_connectToVenue; assumption.
  - destruct (decide _); exact K1.
Qed.

Lemma keyed_step (e : Event number) (s : State) :
  well_formed s -> keyed s -> keyed (step random e s).
Proof.
  intros W Hk. destruct e as [v sy c | | w | w m | w | w code | id c | ms]; cbn [step].
  - apply keyed_connectToVenue; assumption.
  - intros k w Hw. cbn in Hw. rewrite lookup_empty in Hw. discriminate Hw.
  - apply keyed_deliver; try reflexivity. exact Hk.
  - apply keyed_deliver; [intros; apply sockets_onmessage
                         | intros; apply websockets_onmessage | exact Hk].
  - apply keyed_deliver; try reflexivity. exact Hk.
  - apply keyed_deliver; [intros; apply sockets_onclose
                         | intros; apply websockets_onclose | exact Hk].
  - apply keyed_fire; assumption.
  - exact Hk.
Qed.

Lemma keyed_run (es : list (Event number)) (s : State) :
  well_formed s -> keyed s -> keyed (run random es s).
Proof.
  revert s. induction es as [|e es IH]; intros s W Hk; [exact Hk|].
  cbn. apply IH; [apply well_formed_step, W | apply keyed_step; assumption].
Qed.

Lemma run_app (es es' : list (Event number)) (s : State) :
  run random (es ++ es') s = run random es' (run random es s).
Proof. unfold run. apply foldl_app. Qed.

Lemma now_connectToVenue (v : Venue) (sy : Symbol) (c : bool) (s : State) :
  now (connectToVenue v sy c s) = now s.
Proof.
  unfold connectToVenue, close_existing, clear_heartbeat, clear_reconnect. cbn zeta.
  destruct (websockets s !! key v sy);
    cbn [heartbeatIntervals with_refs ws_close with_sockets with_host];
    destruct (heartbeatIntervals s !! key v sy); cbn -[Z.add key];
    destruct (reconnectTimeouts s !! key v sy); cbn -[Z.add key];
    destruct c; reflexivity.
Qed.

Lemma connectionStatus_connectToVenue (v : Venue) (sy : Symbol) (c : bool) (s : State)
    (v' : Venue) :
  v' <> v -> connectionStatus (connectToVenue v sy c s) v' = connectionStatus s v'.
Proof.
  intros Hne. unfold connectToVenue, close_existing, clear_heartbeat, clear_reconnect.
  cbn zeta.
  destruct (websockets s !! key v sy);
    cbn [heartbeatIntervals with_refs ws_close with_sockets with_host];
    destruct (heartbeatIntervals s !! key v sy); cbn -[Z.add key];
    destruct (reconnectTimeouts s !! key v sy); cbn -[Z.add key];
    destruct c; cbn -[Z.add key];
    rewrite ?fn_lookup_insert_ne by congruence; reflexivity.
Qed.

Lemma websockets_connectToVenue (v : Venue) (sy : Symbol) (s : State) (k : string) :
  k <> key v sy ->
  websockets (connectToVenue v sy true s) !! k = websockets s !! k.
Proof.
  intros Hne. unfold connectToVenue, close_existing, clear_heartbeat, clear_reconnect.
  cbn zeta.
  destruct (websockets s !! key v sy);
    cbn [heartbeatIntervals with_refs ws_close with_sockets with_host];
    destruct (heartbeatIntervals s !! key v sy); cbn -[Z.add key];
    destruct (reconnectTimeouts s !! key v sy); cbn -[Z.add key];
    rewrite lookup_insert_ne by congruence;
    rewrite ?lookup_delete_ne by congruence; reflexivity.
Qed.

Lemma connecting_for_new (v : Venue) (sy : Symbol) (s : State) :
  connecting_for v sy (now s) (connectToVenue v sy true s).
Proof.
  destruct (connectToVenue_parts v sy s) as (H1 & H2 & _ & _ & H5 & H6).
  split; [exact H1|].
  eexists (next_socket s), _. split; [exact H2|].
  split; [rewrite H5; apply lookup_insert_eq|].
  cbn [readyState ws_venue ws_symbol connectionTimeout].
  repeat split. rewrite H6. apply lookup_insert_eq.
Qed.

Lemma connecting_for_kept (v v' : Venue) (sy : Symbol) (t0 : Z) (s : State) :
  well_formed s -> keyed s -> v <> v' ->
  connecting_for v sy t0 s -> connecting_for v sy t0 (connectToVenue v' sy true s).
Proof.
  intros W Hk Hne (Hst & w & ws & Hw & Hws & Hr & Hv & Hsy & Ht).
  assert (Hkey : key v sy <> key v' sy) by (intros E; apply Hne, (key_venue _ _ _ _ E)).
  split; [rewrite connectionStatus_connectToVenue by exact Hne; exact Hst|].
  exists w, ws. split; [rewrite websockets_connectToVenue by exact Hkey; exact Hw|].
  split.
  { destruct (connectToVenue_parts v' sy s) as (_ & _ & _ & _ & H5 & _). rewrite H5.
    destruct (wf_sockets s W w ws Hws) as [Hlt _].
    rewrite lookup_insert_ne by lia.
    destruct (websockets s !! key v' sy) as [w0|] eqn:E0; [|exact Hws].
    rewrite lookup_alter_ne; [exact Hws|].
    intros ->. destruct (Hk _ _ E0) as (ws0 & Hws0 & Hkey0).
    rewrite Hws in Hws0. inversion Hws0; subst ws0.
    rewrite Hv, Hsy in Hkey0. congruence. }
  repeat split; try assumption.
  apply kept_connectToVenue; [exact W | exact Ht | reflexivity].
Qed.

Lemma effect_connects (venues : list Venue) (sy : Symbol) (s : State) (v : Venue) :
  well_formed s -> keyed s -> v ∈ venues ->
  well_formed (run random (effect venues sy) s) /\
  keyed (run random (effect venues sy) s) /\
  now (run random (effect venues sy) s) = now s /\
  connecting_for v sy (now s) (run random (effect venues sy) s).
Proof.
  intros W Hk. unfold effect.
  induction venues as [|v0 vs IH] using rev_ind; intros Hin;
    [apply elem_of_nil in Hin; contradiction|].
  rewrite fmap_app, run_app. cbn [fmap list_fmap]. rewrite run_cons, run_nil. cbn [step].
  set (s1 := run random ((fun venue => EvConnect venue sy true) <$> vs) s) in *.
  assert (W1 : well_formed s1) by (apply well_formed_run, W).
  assert (K1 : keyed s1) by (apply keyed_run; assumption).
  assert (N1 : now s1 = now s).
  { subst s1. clear. induction vs as [|a vs IH] using rev_ind; [reflexivity|].
    rewrite fmap_app, run_app. cbn [fmap list_fmap]. rewrite run_cons, run_nil. cbn [step].
    rewrite now_connectToVenue. exact IH. }
  split; [apply well_formed_connectToVenue, W1|].
  split; [apply keyed_connectToVenue; assumption|].
  split; [rewrite now_connectToVenue; exact N1|].
  destruct (decide (v = v0)) as [->|Hne].
  - rewrite <- N1. apply connecting_for_new.
  - apply connecting_for_kept; try assumption.
    apply elem_of_app in Hin. destruct Hin as [Hin | Hin]; [apply IH, Hin|].
    apply list_elem_of_singleton in Hin. contradiction.
Qed.

End Keyed.

(** X25.  The effect of the hook, run in a state the hook can reach
    (after a cleanup for one), connects every venue of its list: when
    it has run, each venue is "connecting" and the hook holds a socket
    of that venue and symbol under the venue's key, which is
    connecting and whose connect timeout is pending, due 15 seconds
    after the effect ran.  The connections do not disturb each other. *)
Theorem effect_connects_every_venue :
  forall (number : Type) (A : JsNum number) (R : Runtime number) (random : Random number)
         (s : State number) (venues : list Venue) (symbol : Symbol) (venue : Venue),
    reachable random s ->
    venue ∈ venues ->
    let s' := run random (effect venues symbol) s in
    connectionStatus s' venue = connecting /\
    exists w ws,
      websockets s' !! key venue symbol = Some w /\
      sockets s' !! w = Some ws /\
      readyState ws = CONNECTING /\ ws_venue ws = venue /\ ws_symbol ws = symbol /\
      timers s' !! connectionTimeout ws
      = Some {| due := now s + 15000; period := None;
                callback := ConnectionTimeout w venue symbol |}.
Proof.
  intros number A R random s venues symbol venue Hs Hin s'.
  assert (Hk : keyed s).
  { destruct Hs as [es ->]. apply keyed_run; [apply well_formed_initial | apply keyed_initial]. }
  apply reachable_well_formed in Hs.
  destruct (effect_connects random venues symbol s venue Hs Hk Hin) as (_ & _ & _ & Hc).
  exact Hc.
Qed.

Section SupervisorExamples7.
#[local] Existing Instance Reference.runtime.

Lemma effect_connects_every_venue_witness :
  let s' := run Examples.draws_half (effect [OKX; Bybit; Deribit] ETH_USD)
              (initial : State float) in
  connectionStatus s' Bybit = connecting /\
  exists w ws,
    websockets s' !! key Bybit ETH_USD = Some w /\
    sockets s' !! w = Some ws /\
    readyState ws = CONNECTING /\ ws_venue ws = Bybit /\ ws_symbol ws = ETH_USD /\
    timers s' !! connectionTimeout ws
    = Some {| due := now (initial : State float) + 15000; period := None;
              callback := ConnectionTimeout w Bybit ETH_USD |}.
Proof.
  apply (effect_connects_every_venue float float64 Reference.runtime Examples.draws_half
           initial [OKX; Bybit; Deribit] ETH_USD Bybit).
  - exists []. reflexivity.
  - right. left.
Defined.

End SupervisorExamples7.

Section CloseHeartbeat.
Context `{JsNum number} `{Runtime number} (random : Random number).

Local Abbreviation State := (State number).

(** [ws.onclose] and the heartbeat stored under the socket's key. *)
Lemma onclose_heartbeat (ws : WebSocket) (code : Z) (s : State) (id : nat) :
  well_formed s ->
  heartbeatIntervals s !! key (ws_venue ws) (ws_symbol ws) = Some id ->
  timers (onclose ws code s) !! id = None /\
  heartbeatIntervals (onclose ws code s) !! key (ws_venue ws) (ws_symbol ws) = None.
Proof.
  intros W Hid. destruct (wf_heartbeats s W _ id Hid) as [Hlt _].
  unfold onclose, clear_heartbeat. cbn zeta.
  cbn [heartbeatIntervals setConnectionStatus]. rewrite Hid.
  destruct (negb _ && negb _); cbn -[Z.add key].
  - rewrite lookup_insert_ne by lia. rewrite !lookup_delete_eq. split; reflexivity.
  - rewrite !lookup_delete_eq. split; reflexivity.
Qed.

End CloseHeartbeat.

(** X26.  A close event stops the heartbeat of the connection: with
    any close code, the heartbeat timer stored under the key of the
    socket's venue and symbol is cancelled and its handle is removed,
    so no ping is attempted on the closed socket. *)
Theorem close_event_stops_the_heartbeat :
  forall (number : Type) (A : JsNum number) (R : Runtime number) (random : Random number)
         (s : State number) (w : nat) (ws : WebSocket) (code : Z) (id : nat),
    reachable random s ->
    sockets s !! w = Some ws ->
    readyState ws <> CLOSED ->
    heartbeatIntervals s !! key (ws_venue ws) (ws_symbol ws) = Some id ->
    let s' := step random (EvClose w code) s in
    timers s' !! id = None /\
    heartbeatIntervals s' !! key (ws_venue ws) (ws_symbol ws) = None /\
    ready w s' = Some CLOSED.
Proof.
  intros number A R random s w ws code id Hs Hw Hst Hid s'. subst s'.
  apply reachable_well_formed in Hs.
  cbn [step]. unfold deliver. rewrite Hw. rewrite bool_decide_true by exact Hst.
  set (s1 := with_sockets _ s).
  assert (W1 : well_formed s1).
  { destruct (wf_sockets s Hs w ws Hw) as [Hlt Hct].
    apply well_formed_insert_socket; try assumption.
    cbn. intros u Hu. apply (wf_timeouts s Hs w ws u Hw Hu). }
  destruct (onclose_heartbeat (set_ready CLOSED ws) code s1 id W1 Hid) as [Ht Hh].
  split; [exact Ht|]. split; [exact Hh|].
  unfold ready. rewrite sockets_onclose. subst s1.
  cbn [sockets with_sockets with_host]. rewrite lookup_insert_eq. reflexivity.
Qed.

Section SupervisorExamples8.
#[local] Existing Instance Reference.runtime.

(** The handle of the heartbeat of the open OKX connection. *)
Lemma open_okx_heartbeat_handle :
  heartbeatIntervals Scenarios.open_okx !! key OKX BTC_USD
  = Some (next_timer Scenarios.connecting_okx).
Proof.
  assert (Hwf : well_formed Scenarios.connecting_okx).
  { apply (reachable_well_formed Examples.draws_half).
    exists [EvConnect OKX BTC_USD true]. reflexivity. }
  destruct (open_event_effects Examples.draws_half Scenarios.connecting_okx 0 _
              Hwf connecting_okx_socket eq_refl) as (_ & _ & _ & _ & _ & _ & _ & Hh).
  unfold Scenarios.open_okx. rewrite !run_cons, run_nil.
  unfold Scenarios.connecting_okx in Hh at 1. rewrite run_cons, run_nil in Hh.
  exact Hh.
Qed.

Lemma close_event_stops_the_heartbeat_witness :
  let ws := {| url := wsUrl OKX; readyState := OPEN; ws_venue := OKX; ws_symbol := BTC_USD;
               connectionTimeout := next_timer (initial : State float) |} in
  let s' := step Examples.draws_half (EvClose 0 1006) Scenarios.open_okx in
  timers s' !! next_timer Scenarios.connecting_okx = None /\
  heartbeatIntervals s' !! key (ws_venue ws) (ws_symbol ws) = None /\
  ready 0 s' = Some CLOSED.
Proof.
  apply (close_event_stops_the_heartbeat float float64 Reference.runtime
           Examples.draws_half Scenarios.open_okx 0
           {| url := wsUrl OKX; readyState := OPEN; ws_venue := OKX; ws_symbol := BTC_USD;
              connectionTimeout := next_timer (initial : State float) |}
           1006 (next_timer Scenarios.connecting_okx)).
  - exists [EvConnect OKX BTC_USD true; EvOpen 0]. reflexivity.
  - exact open_okx_socket.
  - discriminate.
  - exact open_okx_heartbeat_handle.
Defined.

End SupervisorExamples8.
